(** * keep94/sqrt: lazily evaluated square and cube roots

    A shallow embedding of the Go package [sqrt] and the properties its
    specification states about it.

    Conventions of the embedding.
    - [*big.Int] values are modelled by [Z]; the in-place methods
      [z.Add(x, y)], [z.Mul(x, y)], ... become pure functions and the
      mutation of the receiver becomes explicit state passing.
    - A Go closure is modelled by a record holding its captured
      variables together with a [*_call] function that performs one call
      and returns the updated captured variables.
    - Unbounded [for] loops are run by [while], which takes fuel and
      yields [None] when the fuel runs out; the theorems give the fuel
      that is enough.
    - Go [int] counters that only count loop iterations (the exponent,
      the digit) are modelled by [Z]: they cannot leave the 64-bit range
      before memory is exhausted.  Other [int] arithmetic wraps around,
      see [wrap].
    - Objects that Go reaches through pointers (memoizers, limitSpecs,
      FiniteNumbers, Contexts) live in a heap, [world], and a pointer is
      an address in it, so that pointer equality can be stated.  A call
      is a function from the heap to an [outcome]: a result with the new
      heap, a panic, or fuel exhaustion.
    - The worker goroutine of a memoizer is run by the reader that wakes
      it, until it parks or returns; mutexes and condition variables then
      carry no state.  What a reader gets does not depend on the
      schedule, since the digits are produced by one goroutine in
      order. *)

From Stdlib Require Import ZArith List Lia Bool String Ascii.
From Stdlib Require Import QArith Qpower DecimalString.
Import ListNotations.

Local Open Scope Z_scope.

(** ** Loops *)

Fixpoint while {S : Type} (fuel : nat) (cond : S -> bool) (body : S -> S)
  (s : S) : option S :=
  match fuel with
  | O => None
  | Datatypes.S fuel' =>
      if cond s then while fuel' cond body (body s) else Some s
  end.

(** ** math/big *)

Definition big_Add (x y : Z) : Z := x + y.
Definition big_Sub (x y : Z) : Z := x - y.
Definition big_Mul (x y : Z) : Z := x * y.

(** [Div], [Mod] and [DivMod] of math/big are Euclidean: the modulus is
    never negative.  (A zero divisor panics in Go; no caller below passes
    one.) *)
Definition big_Div (x y : Z) : Z :=
  if 0 <? y then x / y else - (x / (- y)).
Definition big_Mod (x y : Z) : Z := x mod (Z.abs y).
Definition big_DivMod (x y : Z) : Z * Z := (big_Div x y, big_Mod x y).

Definition one : Z := 1.
Definition two : Z := 2.
Definition six : Z := 6.
Definition ten : Z := 10.
Definition fortyFive : Z := 45.
Definition fiftyFour : Z := 54.
Definition oneHundred : Z := 100.
Definition oneHundredSeventyOne : Z := 171.
Definition oneThousand : Z := 1000.

(** ** rootManager *)

(** The interface [rootManager].  [incr] is passed by pointer in Go and
    updated in place; here each method returns the manager and [incr]
    after the call. *)
Class rootManager (M : Type) : Type := {
  Next : M -> Z -> M * Z;
  NextDigit : M -> Z -> M * Z;
  Base : M -> Z
}.

Inductive sqrtManager : Type := mkSqrtManager.

Definition newSqrtManager : sqrtManager := mkSqrtManager.

Definition sqrtManager_Next (s : sqrtManager) (incr : Z) : sqrtManager * Z :=
  let incr := big_Add incr two in
  (s, incr).

Definition sqrtManager_NextDigit (s : sqrtManager) (incr : Z)
  : sqrtManager * Z :=
  let incr := big_Sub incr one in
  let incr := big_Mul incr ten in
  let incr := big_Add incr one in
  (s, incr).

Definition sqrtManager_Base (s : sqrtManager) : Z := oneHundred.

#[export] Instance sqrtManager_rootManager : rootManager sqrtManager := {
  Next := sqrtManager_Next;
  NextDigit := sqrtManager_NextDigit;
  Base := sqrtManager_Base
}.

Record cubeRootManager : Type := mkCubeRootManager { incr2 : Z }.

Definition newCubeRootManager : cubeRootManager :=
  {| incr2 := six |}.

Definition cubeRootManager_Next (c : cubeRootManager) (incr : Z)
  : cubeRootManager * Z :=
  let incr := big_Add incr (incr2 c) in
  let c := {| incr2 := big_Add (incr2 c) six |} in
  (c, incr).

Definition cubeRootManager_NextDigit (c : cubeRootManager) (incr : Z)
  : cubeRootManager * Z :=
  let incr := big_Mul incr oneHundred in
  let temp := big_Mul (incr2 c) fortyFive in
  let incr := big_Sub incr temp in
  let incr := big_Add incr oneHundredSeventyOne in
  let c := {| incr2 := big_Mul (incr2 c) ten |} in
  let c := {| incr2 := big_Sub (incr2 c) fiftyFour |} in
  (c, incr).

Definition cubeRootManager_Base (c : cubeRootManager) : Z := oneThousand.

#[export] Instance cubeRootManager_rootManager
  : rootManager cubeRootManager := {
  Next := cubeRootManager_Next;
  NextDigit := cubeRootManager_NextDigit;
  Base := cubeRootManager_Base
}.

(** ** computeGroupsFromRational *)

(** The variables captured by the closure [groups]: the copies of [num],
    [denom] and [base] made on entry, after normalization. *)
Record groups : Type := mkGroups {
  g_num : Z;
  g_denom : Z;
  g_base : Z
}.

Definition computeGroupsFromRational (fuel : nat) (num denom base : Z)
  : option (groups * Z) :=
  let exp := 0 in
  match while fuel
          (fun '(num, exp) => num <? denom)
          (fun '(num, exp) => (big_Mul num base, exp - 1))
          (num, exp) with
  | None => None
  | Some (num, exp) =>
      let '(num, exp) :=
        if exp <? 0 then (big_Div num base, exp + 1) else (num, exp) in
      match while fuel
              (fun '(denom, exp) => num >=? denom)
              (fun '(denom, exp) => (big_Mul denom base, exp + 1))
              (denom, exp) with
      | None => None
      | Some (denom, exp) =>
          Some ({| g_num := num; g_denom := denom; g_base := base |}, exp)
      end
  end.

(** One call of [groups]: [None] is Go's [nil]. *)
Definition groups_call (g : groups) : option Z * groups :=
  if g_num g =? 0 then (None, g)
  else
    let num := big_Mul (g_num g) (g_base g) in
    let '(result, num) := big_DivMod num (g_denom g) in
    (Some result,
     {| g_num := num; g_denom := g_denom g; g_base := g_base g |}).

(** ** computeRootDigits *)

(** The variables captured by the closure returned by
    [computeRootDigits]. *)
Record rootDigits (M : Type) : Type := mkRootDigits {
  radicanGroups : groups;
  manager : M;
  rd_base : Z;
  rd_incr : Z;
  rd_remainder : Z
}.
Arguments mkRootDigits {M}.
Arguments radicanGroups {M}.
Arguments manager {M}.
Arguments rd_base {M}.
Arguments rd_incr {M}.
Arguments rd_remainder {M}.

Definition computeRootDigits {M : Type} `{rootManager M}
  (radicanGroups : groups) (manager : M) : rootDigits M :=
  {| radicanGroups := radicanGroups;
     manager := manager;
     rd_base := Base manager;
     rd_incr := 1;
     rd_remainder := 0 |}.

(** The state of the inner loop: remainder, digit, manager and incr. *)
Definition digit_loop {M : Type} `{rootManager M} (fuel : nat)
  (remainder digit : Z) (manager : M) (incr : Z)
  : option (Z * Z * M * Z) :=
  while fuel
    (fun '(remainder, digit, manager, incr) => remainder >=? incr)
    (fun '(remainder, digit, manager, incr) =>
       let remainder := big_Sub remainder incr in
       let digit := digit + 1 in
       let '(manager, incr) := Next manager incr in
       (remainder, digit, manager, incr))
    (remainder, digit, manager, incr).

(** One call of the closure: the digit, or -1, and the captured
    variables after the call. *)
Definition rootDigits_call {M : Type} `{rootManager M} (fuel : nat)
  (s : rootDigits M) : option (Z * rootDigits M) :=
  let '(nextGroup, radicanGroups) := groups_call (radicanGroups s) in
  let is_nil := match nextGroup with None => true | Some _ => false end in
  if is_nil && (rd_remainder s =? 0) then
    Some (-1, {| radicanGroups := radicanGroups;
                 manager := manager s;
                 rd_base := rd_base s;
                 rd_incr := rd_incr s;
                 rd_remainder := rd_remainder s |})
  else
    let remainder := big_Mul (rd_remainder s) (rd_base s) in
    let remainder :=
      match nextGroup with
      | Some g => big_Add remainder g
      | None => remainder
      end in
    match digit_loop fuel remainder 0 (manager s) (rd_incr s) with
    | None => None
    | Some (remainder, digit, manager, incr) =>
        let '(manager, incr) := NextDigit manager incr in
        Some (digit, {| radicanGroups := radicanGroups;
                        manager := manager;
                        rd_base := rd_base s;
                        rd_incr := incr;
                        rd_remainder := remainder |})
    end.

(** ** Generators *)

Record nrootGenerator (M : Type) : Type := mkNrootGenerator {
  ng_num : Z;
  ng_denom : Z;
  newManager : M
}.
Arguments mkNrootGenerator {M}.
Arguments ng_num {M}.
Arguments ng_denom {M}.
Arguments newManager {M}.

Definition newNRootGenerator {M : Type} (num denom : Z) (newManager : M)
  : nrootGenerator M :=
  {| ng_num := num; ng_denom := denom; newManager := newManager |}.

Definition nrootGenerator_Generate {M : Type} `{rootManager M} (fuel : nat)
  (g : nrootGenerator M) : option (rootDigits M * Z) :=
  let manager := newManager g in
  match computeGroupsFromRational fuel (ng_num g) (ng_denom g)
          (Base manager) with
  | None => None
  | Some (groups, exp) => Some (computeRootDigits groups manager, exp)
  end.

(** [calls step k s] calls a closure [k] times and collects what it
    returned, first call first. *)
Fixpoint calls {St : Type} (step : St -> option (Z * St)) (k : nat) (s : St)
  : option (list Z * St) :=
  match k with
  | O => Some ([], s)
  | Datatypes.S k' =>
      match step s with
      | None => None
      | Some (d, s') =>
          match calls step k' s' with
          | None => None
          | Some (ds, s'') => Some (d :: ds, s'')
          end
      end
  end.

(** The first [k] values yielded by the digit closure of the [n]-th root
    of [num/denom], and the exponent. *)
Definition root_digits {M : Type} `{rootManager M} (fuel : nat)
  (num denom : Z) (newManager : M) (k : nat) : option (list Z * Z) :=
  match nrootGenerator_Generate fuel (newNRootGenerator num denom newManager)
  with
  | None => None
  | Some (digits, exp) =>
      match calls (rootDigits_call fuel) k digits with
      | None => None
      | Some (ds, _) => Some (ds, exp)
      end
  end.

(** The integer [d1 d2 ... dk] written by the yielded values; a yielded
    -1 ("no more digits") stands for a digit 0. *)
Definition digit_value (d : Z) : Z := if d <? 0 then 0 else d.

Definition digits_to_Z (ds : list Z) : Z :=
  fold_left (fun acc d => 10 * acc + digit_value d) ds 0.

(** [0.d1...dk * 10^exp] as a rational. *)
Definition mantissa_times (ds : list Z) (exp : Z) : Q :=
  (inject_Z (digits_to_Z ds) * Qpower 10 (exp - Z.of_nat (List.length ds)))%Q.

(** The two roots the package offers, and their degrees. *)
Inductive degree : Type := Square | Cube.

Definition degree_n (deg : degree) : Z :=
  match deg with Square => 2 | Cube => 3 end.

Definition nth_root_digits (deg : degree) (fuel : nat) (num denom : Z)
  (k : nat) : option (list Z * Z) :=
  match deg with
  | Square => root_digits fuel num denom newSqrtManager k
  | Cube => root_digits fuel num denom newCubeRootManager k
  end.

(** ** Go's int *)

Definition MaxInt : Z := 2 ^ 63 - 1.
Definition MinInt : Z := - 2 ^ 63.

(** 64-bit two's complement wrap-around, written out. *)
Definition wrap (z : Z) : Z := (z + 2 ^ 63) mod 2 ^ 64 - 2 ^ 63.

Definition int_add (x y : Z) : Z := wrap (x + y).
Definition int_sub (x y : Z) : Z := wrap (x - y).
Definition int_neg (x : Z) : Z := wrap (- x).
Definition int_mul (x y : Z) : Z := wrap (x * y).
(** Go's [/] on ints truncates toward zero. *)
Definition int_div (x y : Z) : Z := wrap (Z.quot x y).

Definition kMemoizerChunkSize : Z := 100.
Definition kMaxChunks : Z := int_div MaxInt kMemoizerChunkSize.

Definition fPrecision : Z := 6.
Definition gPrecision : Z := 16.

(** ** Values that live on the heap *)

Definition ptr : Type := nat.
Bind Scope nat_scope with ptr.

(** An interface value of type [numberSpec]: nil, a [*memoizer] or a
    [*limitSpec].  [==] on two of them is equality of the dynamic type and
    of the pointer. *)
Inductive numberSpec : Type :=
| spec_nil
| spec_memoizer (p : ptr)
| spec_limitSpec (p : ptr).

Definition numberSpec_eqb (a b : numberSpec) : bool :=
  match a, b with
  | spec_nil, spec_nil => true
  | spec_memoizer p, spec_memoizer q => Nat.eqb p q
  | spec_limitSpec p, spec_limitSpec q => Nat.eqb p q
  | _, _ => false
  end.

(** A closure of type [func() int]: its captured variables and what one
    call does to them.  [None] is a call that runs out of fuel. *)
Record iterFn : Type := mkIterFn {
  iter_St : Type;
  iter_state : iter_St;
  iter_call : iter_St -> option (Z * iter_St)
}.

Definition iter_next (it : iterFn) : option (Z * iterFn) :=
  match iter_call it (iter_state it) with
  | None => None
  | Some (x, s') =>
      Some (x, {| iter_St := iter_St it;
                  iter_state := s';
                  iter_call := iter_call it |})
  end.

(** [*context]: either [globalNumSpecContext] or the field [ctxt] of the
    [Context] at an address. *)
Inductive context_ptr : Type :=
| global_context
| Context_ctxt (c : ptr).

Record context : Type := mkContext_ {
  active : Z;
  closed : bool
}.

(** [memoizer].  The mutex and the two condition variables have no
    state of their own in a sequential run; [m_chunks] is the counter [i]
    of the worker goroutine's loop, and the worker's local [data] is
    [m_data] whenever the worker is parked. *)
Record memoizer : Type := mkMemoizer {
  m_iter : iterFn;
  m_ctxt : context_ptr;
  m_data : list Z;
  m_maxLength : Z;
  m_done : bool;
  m_chunks : Z
}.

Record limitSpec : Type := mkLimitSpec {
  delegate : numberSpec;
  ls_limit : Z
}.

Record mantissa : Type := mkMantissa { spec : numberSpec }.

Definition mantissa_eqb (a b : mantissa) : bool :=
  numberSpec_eqb (spec a) (spec b).

Record FiniteNumber : Type := mkFiniteNumber {
  fn_mantissa : mantissa;
  fn_exponent : Z
}.

Record Context : Type := mkContext {
  ctxt : context;
  specs : list numberSpec
}.

(** An interface value of type [Number]: a [*FiniteNumber], or an
    [*opqNumber] wrapping another [Number].  (The wrapper is kept by
    value: nothing below compares two wrappers.) *)
Inductive Number : Type :=
| Number_FiniteNumber (p : ptr)
| Number_opqNumber (n : Number).

(** The heap: every object the package allocates, by address.  The
    package-level variable [zeroNumber] is the [FiniteNumber] at address
    0. *)
Record world : Type := mkWorld {
  memoizers : list memoizer;
  limitSpecs : list limitSpec;
  FiniteNumbers : list FiniteNumber;
  Contexts : list Context;
  globalNumSpecContext : context
}.

Definition zeroNumber : ptr := O.

Definition initial_world : world :=
  {| memoizers := [];
     limitSpecs := [];
     FiniteNumbers := [ {| fn_mantissa := {| spec := spec_nil |};
                           fn_exponent := 0 |} ];
     Contexts := [];
     globalNumSpecContext := {| active := 0; closed := false |} |}.

(** ** Calls that may panic *)

Inductive outcome (A : Type) : Type :=
| Ret (a : A) (w : world)
| Panic (msg : string)
| OutOfFuel.
Arguments Ret {A}.
Arguments Panic {A}.
Arguments OutOfFuel {A}.

Definition exec (A : Type) : Type := world -> outcome A.

Definition ret {A : Type} (a : A) : exec A := fun w => Ret a w.

Definition bind {A B : Type} (c : exec A) (k : A -> exec B) : exec B :=
  fun w =>
    match c w with
    | Ret a w' => k a w'
    | Panic msg => Panic msg
    | OutOfFuel => OutOfFuel
    end.

Definition panic {A : Type} (msg : string) : exec A := fun _ => Panic msg.

Definition out_of_fuel {A : Type} : exec A := fun _ => OutOfFuel.

Notation "x <- c ;; k" := (bind c (fun x => k))
  (at level 61, c at next level, right associativity).
Notation "' pat <- c ;; k" := (bind c (fun x => match x with pat => k end))
  (at level 61, pat pattern, c at next level, right associativity).

Definition nil_dereference : string :=
  "invalid memory address or nil pointer dereference".

(** Reading and writing the object at an address; an address outside
    the heap cannot arise in Go and is answered like a nil pointer. *)
Definition deref {A : Type} (heap : world -> list A) (p : ptr) : exec A :=
  fun w =>
    match nth_error (heap w) p with
    | Some a => Ret a w
    | None => Panic nil_dereference
    end.

Fixpoint list_set {A : Type} (l : list A) (p : nat) (a : A) : list A :=
  match l, p with
  | [], _ => []
  | _ :: l', O => a :: l'
  | x :: l', Datatypes.S p' => x :: list_set l' p' a
  end.

Definition get_memoizer (p : ptr) : exec memoizer := deref memoizers p.
Definition get_limitSpec (p : ptr) : exec limitSpec := deref limitSpecs p.
Definition get_FiniteNumber (p : ptr) : exec FiniteNumber :=
  deref FiniteNumbers p.
Definition get_Context (p : ptr) : exec Context := deref Contexts p.

Definition set_memoizer (p : ptr) (m : memoizer) : exec unit :=
  fun w =>
    Ret tt {| memoizers := list_set (memoizers w) p m;
              limitSpecs := limitSpecs w;
              FiniteNumbers := FiniteNumbers w;
              Contexts := Contexts w;
              globalNumSpecContext := globalNumSpecContext w |}.

Definition set_Context (p : ptr) (c : Context) : exec unit :=
  fun w =>
    Ret tt {| memoizers := memoizers w;
              limitSpecs := limitSpecs w;
              FiniteNumbers := FiniteNumbers w;
              Contexts := list_set (Contexts w) p c;
              globalNumSpecContext := globalNumSpecContext w |}.

Definition set_globalNumSpecContext (c : context) : exec unit :=
  fun w =>
    Ret tt {| memoizers := memoizers w;
              limitSpecs := limitSpecs w;
              FiniteNumbers := FiniteNumbers w;
              Contexts := Contexts w;
              globalNumSpecContext := c |}.

(** Allocation: the new object gets the next free address. *)
Definition new_memoizer (m : memoizer) : exec ptr :=
  fun w =>
    Ret (List.length (memoizers w))
        {| memoizers := memoizers w ++ [m];
           limitSpecs := limitSpecs w;
           FiniteNumbers := FiniteNumbers w;
           Contexts := Contexts w;
           globalNumSpecContext := globalNumSpecContext w |}.

Definition new_limitSpec (l : limitSpec) : exec ptr :=
  fun w =>
    Ret (List.length (limitSpecs w))
        {| memoizers := memoizers w;
           limitSpecs := limitSpecs w ++ [l];
           FiniteNumbers := FiniteNumbers w;
           Contexts := Contexts w;
           globalNumSpecContext := globalNumSpecContext w |}.

Definition new_FiniteNumber (n : FiniteNumber) : exec ptr :=
  fun w =>
    Ret (List.length (FiniteNumbers w))
        {| memoizers := memoizers w;
           limitSpecs := limitSpecs w;
           FiniteNumbers := FiniteNumbers w ++ [n];
           Contexts := Contexts w;
           globalNumSpecContext := globalNumSpecContext w |}.

Definition new_Context (c : Context) : exec ptr :=
  fun w =>
    Ret (List.length (Contexts w))
        {| memoizers := memoizers w;
           limitSpecs := limitSpecs w;
           FiniteNumbers := FiniteNumbers w;
           Contexts := Contexts w ++ [c];
           globalNumSpecContext := globalNumSpecContext w |}.

(** ** context *)

Definition get_context (c : context_ptr) : exec context :=
  match c with
  | global_context => fun w => Ret (globalNumSpecContext w) w
  | Context_ctxt p => C <- get_Context p ;; ret (ctxt C)
  end.

Definition set_context (c : context_ptr) (x : context) : exec unit :=
  match c with
  | global_context => set_globalNumSpecContext x
  | Context_ctxt p =>
      C <- get_Context p ;;
      set_Context p {| ctxt := x; specs := specs C |}
  end.

Definition context_Start (c : context_ptr) : exec unit :=
  x <- get_context c ;;
  set_context c {| active := active x + 1; closed := closed x |}.

Definition context_End (c : context_ptr) : exec unit :=
  x <- get_context c ;;
  set_context c {| active := active x + -1; closed := closed x |}.

Definition context_NumActive (c : context_ptr) : exec Z :=
  x <- get_context c ;; ret (active x).

Definition context_Closed (c : context_ptr) : exec bool :=
  x <- get_context c ;; ret (closed x).

Definition context_Close (c : context_ptr) : exec unit :=
  x <- get_context c ;;
  set_context c {| active := active x; closed := true |}.

(** ** memoizer *)

Definition digitOutOfRange (d : Z) : bool := (d <? 0) || (d >? 9).

Definition len {A : Type} (l : list A) : Z := Z.of_nat (List.length l).

(** [data[index]] for an index in range. *)
Definition index_data (data : list Z) (index : Z) : Z :=
  nth (Z.to_nat index) data 0.

(** [newMemoizeSpec]: the worker goroutine started by [go result.run()]
    parks at once in [waitToGrow], since [len(data) >= maxLength]. *)
Definition newMemoizeSpec (iter : iterFn) (ctxt : context_ptr)
  : exec numberSpec :=
  p <- new_memoizer {| m_iter := iter;
                       m_ctxt := ctxt;
                       m_data := [];
                       m_maxLength := 0;
                       m_done := false;
                       m_chunks := 0 |} ;;
  _ <- context_Start ctxt ;;
  ret (spec_memoizer p).

Definition memoizer_setData (p : ptr) (iter : iterFn) (data : list Z)
  (done : bool) (chunks : Z) : exec unit :=
  m <- get_memoizer p ;;
  set_memoizer p {| m_iter := iter;
                    m_ctxt := m_ctxt m;
                    m_data := data;
                    m_maxLength := m_maxLength m;
                    m_done := done;
                    m_chunks := chunks |}.

(** The inner loop of [run]: up to [j] more digits; the flag tells
    whether the producer signalled the end. *)
Fixpoint run_chunk (j : nat) (iter : iterFn) (data : list Z)
  : option (iterFn * list Z * bool) :=
  match j with
  | O => Some (iter, data, false)
  | Datatypes.S j' =>
      match iter_next iter with
      | None => None
      | Some (x, iter') =>
          if digitOutOfRange x then Some (iter', data, true)
          else run_chunk j' iter' (data ++ [x])
      end
  end.

(** One turn of the outer loop of [run], entered once [waitToGrow] has
    returned.  Every way out of [run] publishes [done = true] and then
    runs the deferred [m.ctxt.End()]. *)
Definition memoizer_run_turn (p : ptr) : exec unit :=
  m <- get_memoizer p ;;
  match run_chunk (Z.to_nat kMemoizerChunkSize) (m_iter m) (m_data m) with
  | None => out_of_fuel
  | Some (iter, data, true) =>
      _ <- memoizer_setData p iter data true (m_chunks m) ;;
      context_End (m_ctxt m)
  | Some (iter, data, false) =>
      isClosed <- context_Closed (m_ctxt m) ;;
      if isClosed then
        _ <- memoizer_setData p iter data true (m_chunks m) ;;
        context_End (m_ctxt m)
      else
        let i := m_chunks m + 1 in
        if i <? kMaxChunks then
          memoizer_setData p iter data false i
        else
          _ <- memoizer_setData p iter data true i ;;
          context_End (m_ctxt m)
  end.

(** The worker runs until it parks in [waitToGrow] or returns. *)
Fixpoint memoizer_run (fuel : nat) (p : ptr) : exec unit :=
  m <- get_memoizer p ;;
  if negb (m_done m) && (len (m_data m) <? m_maxLength m) then
    match fuel with
    | O => out_of_fuel
    | Datatypes.S fuel' =>
        _ <- memoizer_run_turn p ;; memoizer_run fuel' p
    end
  else ret tt.

(** [wait]: the reader raises [maxLength] and signals; the scheduler is
    modelled by letting the worker run until it parks or returns before
    the reader looks at [data] again. *)
Definition memoizer_wait (fuel : nat) (p : ptr) (index : Z)
  : exec (list Z * bool) :=
  m <- get_memoizer p ;;
  _ <- (if negb (m_done m) && (m_maxLength m <=? index) then
          let chunkCount := int_add (int_div index kMemoizerChunkSize) 1 in
          let chunkCount :=
            if chunkCount >? kMaxChunks then kMaxChunks else chunkCount in
          set_memoizer p {| m_iter := m_iter m;
                            m_ctxt := m_ctxt m;
                            m_data := m_data m;
                            m_maxLength :=
                              int_mul kMemoizerChunkSize chunkCount;
                            m_done := m_done m;
                            m_chunks := m_chunks m |}
        else ret tt) ;;
  _ <- memoizer_run fuel p ;;
  m <- get_memoizer p ;;
  ret (m_data m, len (m_data m) >? index).

Definition memoizer_At (fuel : nat) (p : ptr) (index : Z) : exec Z :=
  if index <? 0 then ret (-1)
  else
    '(data, ok) <- memoizer_wait fuel p index ;;
    if negb ok then ret (-1)
    else ret (index_data data index).

Definition memoizer_FirstN (fuel : nat) (p : ptr) (n : Z)
  : exec (list Z) :=
  if n <=? 0 then ret []
  else
    '(data, _) <- memoizer_wait fuel p (int_sub n 1) ;;
    if len data >? n then ret (firstn (Z.to_nat n) data)
    else ret data.

(** The loop of [Scan]; [yield] gets the loop body's state [A] and
    returns it with the body's answer. *)
Fixpoint memoizer_Scan_loop {A : Type} (turns fuel : nat) (p : ptr)
  (data : list Z) (ok : bool) (index limit : Z)
  (yield : Z -> Z -> A -> A * bool) (acc : A) : exec A :=
  if ok && (index <? limit) then
    match turns with
    | O => out_of_fuel
    | Datatypes.S turns' =>
        let '(acc, continue) := yield index (index_data data index) acc in
        if negb continue then ret acc
        else
          let index := int_add index 1 in
          if index =? len data then
            '(data, ok) <- memoizer_wait fuel p index ;;
            memoizer_Scan_loop turns' fuel p data ok index limit yield acc
          else
            memoizer_Scan_loop turns' fuel p data ok index limit yield acc
    end
  else ret acc.

Definition memoizer_Scan {A : Type} (fuel : nat) (p : ptr)
  (index limit : Z) (yield : Z -> Z -> A -> A * bool) (acc : A) : exec A :=
  if index <? 0 then panic "index must be non-negative"
  else
    '(data, ok) <- memoizer_wait fuel p index ;;
    memoizer_Scan_loop fuel fuel p data ok index limit yield acc.

Definition memoizer_ScanValues {A : Type} (fuel : nat) (p : ptr)
  (index limit : Z) (yield : Z -> A -> A * bool) (acc : A) : exec A :=
  if index <? 0 then panic "index must be non-negative"
  else
    '(data, ok) <- memoizer_wait fuel p index ;;
    memoizer_Scan_loop fuel fuel p data ok index limit
      (fun _ value => yield value) acc.

(** ** limitSpec and the numberSpec interface *)

Definition is_nil (spec : numberSpec) : bool :=
  match spec with spec_nil => true | _ => false end.

Definition withLimit (spec : numberSpec) (limit : Z) : exec numberSpec :=
  if (limit <=? 0) || is_nil spec then ret spec_nil
  else
    match spec with
    | spec_limitSpec p =>
        ls <- get_limitSpec p ;;
        if limit >=? ls_limit ls then ret spec
        else
          q <- new_limitSpec {| delegate := delegate ls; ls_limit := limit |} ;;
          ret (spec_limitSpec q)
    | _ =>
        q <- new_limitSpec {| delegate := spec; ls_limit := limit |} ;;
        ret (spec_limitSpec q)
    end.

(** Method calls through the interface.  A [limitSpec] forwards to its
    delegate; each forwarding takes one unit of [depth]. *)
Fixpoint numberSpec_At (depth fuel : nat) (spec : numberSpec) (index : Z)
  : exec Z :=
  match spec with
  | spec_nil => panic nil_dereference
  | spec_memoizer p => memoizer_At fuel p index
  | spec_limitSpec p =>
      match depth with
      | O => out_of_fuel
      | Datatypes.S depth' =>
          l <- get_limitSpec p ;;
          if index >=? ls_limit l then
            _ <- numberSpec_At depth' fuel (delegate l) (ls_limit l) ;;
            ret (-1)
          else numberSpec_At depth' fuel (delegate l) index
      end
  end.

Fixpoint numberSpec_FirstN (depth fuel : nat) (spec : numberSpec) (n : Z)
  : exec (list Z) :=
  match spec with
  | spec_nil => panic nil_dereference
  | spec_memoizer p => memoizer_FirstN fuel p n
  | spec_limitSpec p =>
      match depth with
      | O => out_of_fuel
      | Datatypes.S depth' =>
          l <- get_limitSpec p ;;
          let n := if n >? ls_limit l then ls_limit l else n in
          numberSpec_FirstN depth' fuel (delegate l) n
      end
  end.

Fixpoint numberSpec_Scan {A : Type} (depth fuel : nat) (spec : numberSpec)
  (index limit : Z) (yield : Z -> Z -> A -> A * bool) (acc : A) : exec A :=
  match spec with
  | spec_nil => panic nil_dereference
  | spec_memoizer p => memoizer_Scan fuel p index limit yield acc
  | spec_limitSpec p =>
      match depth with
      | O => out_of_fuel
      | Datatypes.S depth' =>
          l <- get_limitSpec p ;;
          let index := Z.min index (ls_limit l) in
          let limit := Z.min limit (ls_limit l) in
          numberSpec_Scan depth' fuel (delegate l) index limit yield acc
      end
  end.

Fixpoint numberSpec_ScanValues {A : Type} (depth fuel : nat)
  (spec : numberSpec) (index limit : Z) (yield : Z -> A -> A * bool)
  (acc : A) : exec A :=
  match spec with
  | spec_nil => panic nil_dereference
  | spec_memoizer p => memoizer_ScanValues fuel p index limit yield acc
  | spec_limitSpec p =>
      match depth with
      | O => out_of_fuel
      | Datatypes.S depth' =>
          l <- get_limitSpec p ;;
          let index := Z.min index (ls_limit l) in
          let limit := Z.min limit (ls_limit l) in
          numberSpec_ScanValues depth' fuel (delegate l) index limit
            yield acc
      end
  end.

(** ** mantissa *)

Definition mantissa_At (fuel : nat) (m : mantissa) (posit : Z) : exec Z :=
  if is_nil (spec m) then ret (-1)
  else numberSpec_At fuel fuel (spec m) posit.

Definition mantissa_IsZero (m : mantissa) : bool := is_nil (spec m).

Definition mantissa_Scan {A : Type} (fuel : nat) (m : mantissa) (index : Z)
  (yield : Z -> Z -> A -> A * bool) (acc : A) : exec A :=
  if is_nil (spec m) then ret acc
  else numberSpec_Scan fuel fuel (spec m) index MaxInt yield acc.

Definition mantissa_ScanValues {A : Type} (fuel : nat) (m : mantissa)
  (index : Z) (yield : Z -> A -> A * bool) (acc : A) : exec A :=
  if is_nil (spec m) then ret acc
  else numberSpec_ScanValues fuel fuel (spec m) index MaxInt yield acc.

Definition mantissa_Values {A : Type} (fuel : nat) (m : mantissa)
  (yield : Z -> A -> A * bool) (acc : A) : exec A :=
  mantissa_ScanValues fuel m 0 yield acc.

Definition mantissa_WithLimit (m : mantissa) (limit : Z) : exec mantissa :=
  s <- withLimit (spec m) limit ;; ret {| spec := s |}.

Definition mantissa_allDigits (fuel : nat) (m : mantissa) : exec (list Z) :=
  if is_nil (spec m) then ret []
  else numberSpec_FirstN fuel fuel (spec m) MaxInt.

(** ** The Generator interface *)

(** The interface [Generator]: [Generate] returns the digit closure
    and the exponent ([None]: it ran out of fuel). *)
Record Generator : Type := mkGenerator {
  Generate : option (iterFn * Z)
}.

Definition rootDigits_iterFn {M : Type} `{rootManager M} (fuel : nat)
  (s : rootDigits M) : iterFn :=
  {| iter_St := rootDigits M;
     iter_state := s;
     iter_call := rootDigits_call fuel |}.

Definition nrootGenerator_Generator {M : Type} `{rootManager M}
  (fuel : nat) (g : nrootGenerator M) : Generator :=
  {| Generate :=
       match nrootGenerator_Generate fuel g with
       | None => None
       | Some (digits, exp) => Some (rootDigits_iterFn fuel digits, exp)
       end |}.

Record repeatingGenerator : Type := mkRepeatingGenerator {
  rg_fixed : list Z;
  rg_repeating : list Z;
  rg_exp : Z
}.

Definition newRepeatingGenerator (fixed repeating : list Z) (exp : Z)
  : repeatingGenerator :=
  {| rg_fixed := fixed; rg_repeating := repeating; rg_exp := exp |}.

(** One call of the closure [gen]; its captured variables are
    [fixedIndex] and [repeatingIndex]. *)
Definition repeatingGenerator_gen (g : repeatingGenerator)
  (s : Z * Z) : option (Z * (Z * Z)) :=
  let '(fixedIndex, repeatingIndex) := s in
  if fixedIndex <? len (rg_fixed g) then
    let temp := index_data (rg_fixed g) fixedIndex in
    Some (temp, (int_add fixedIndex 1, repeatingIndex))
  else if len (rg_repeating g) =? 0 then
    Some (-1, (fixedIndex, repeatingIndex))
  else
    let temp := index_data (rg_repeating g) repeatingIndex in
    Some (temp,
          (fixedIndex,
           Z.rem (int_add repeatingIndex 1) (len (rg_repeating g)))).

Definition repeatingGenerator_Generate (g : repeatingGenerator)
  : iterFn * Z :=
  ({| iter_St := Z * Z;
      iter_state := (0, 0);
      iter_call := repeatingGenerator_gen g |},
   rg_exp g).

Definition repeatingGenerator_Generator (g : repeatingGenerator)
  : Generator :=
  {| Generate := Some (repeatingGenerator_Generate g) |}.

(** The closure of [firstAndThen] captures [firstTime] and [next]. *)
Definition firstAndThen (first : Z) (next : iterFn) : iterFn :=
  {| iter_St := bool * iter_St next;
     iter_state := (true, iter_state next);
     iter_call := fun '(firstTime, s) =>
       if firstTime : bool then Some (first, (false, s))
       else
         match iter_call next s with
         | None => None
         | Some (x, s') => Some (x, (false, s'))
         end |}.

Definition validDigits (x : list Z) : bool :=
  forallb (fun d => negb (digitOutOfRange d)) x.

(** ** FiniteNumber *)

Definition FiniteNumber_At (fuel : nat) (n : ptr) (posit : Z) : exec Z :=
  v <- get_FiniteNumber n ;;
  mantissa_At fuel (fn_mantissa v) posit.

Definition FiniteNumber_Exponent (n : ptr) : exec Z :=
  v <- get_FiniteNumber n ;; ret (fn_exponent v).

Definition FiniteNumber_IsZero (n : ptr) : exec bool :=
  v <- get_FiniteNumber n ;; ret (mantissa_IsZero (fn_mantissa v)).

Definition FiniteNumber_withMantissa (n : ptr) (newMantissa : mantissa)
  : exec ptr :=
  v <- get_FiniteNumber n ;;
  if mantissa_eqb newMantissa (fn_mantissa v) then ret n
  else if mantissa_IsZero newMantissa then ret zeroNumber
  else new_FiniteNumber {| fn_mantissa := newMantissa;
                           fn_exponent := fn_exponent v |}.

Definition FiniteNumber_WithSignificant (n : ptr) (limit : Z) : exec ptr :=
  if limit <? 0 then panic "limit must be non-negative"
  else
    v <- get_FiniteNumber n ;;
    m <- mantissa_WithLimit (fn_mantissa v) limit ;;
    FiniteNumber_withMantissa n m.

Definition FiniteNumber_WithEnd (n : ptr) (end_ : Z) : exec ptr :=
  v <- get_FiniteNumber n ;;
  m <- mantissa_WithLimit (fn_mantissa v) end_ ;;
  FiniteNumber_withMantissa n m.

Definition FiniteNumber_withExponent (n : ptr) (e : Z) : exec Number :=
  v <- get_FiniteNumber n ;;
  if (e =? fn_exponent v) || mantissa_IsZero (fn_mantissa v) then
    ret (Number_FiniteNumber n)
  else
    q <- new_FiniteNumber {| fn_mantissa := fn_mantissa v;
                             fn_exponent := e |} ;;
    ret (Number_FiniteNumber q).

(** ** Number *)

(** [opqNumber] embeds its [Number]: [At], [WithSignificant],
    [Exponent] and [IsZero] are promoted from it. *)
Fixpoint Number_At (fuel : nat) (n : Number) (posit : Z) : exec Z :=
  match n with
  | Number_FiniteNumber p => FiniteNumber_At fuel p posit
  | Number_opqNumber n' => Number_At fuel n' posit
  end.

Fixpoint Number_WithSignificant (n : Number) (limit : Z) : exec ptr :=
  match n with
  | Number_FiniteNumber p => FiniteNumber_WithSignificant p limit
  | Number_opqNumber n' => Number_WithSignificant n' limit
  end.

Fixpoint Number_Exponent (n : Number) : exec Z :=
  match n with
  | Number_FiniteNumber p => FiniteNumber_Exponent p
  | Number_opqNumber n' => Number_Exponent n'
  end.

Fixpoint Number_IsZero (n : Number) : exec bool :=
  match n with
  | Number_FiniteNumber p => FiniteNumber_IsZero p
  | Number_opqNumber n' => Number_IsZero n'
  end.

Definition opaqueNumber (n : Number) : Number :=
  match n with
  | Number_opqNumber _ => n
  | _ => Number_opqNumber n
  end.

(** ** Context *)

(** A [*Context]: [None] is the nil pointer, which the free-standing
    factory functions pass as [nilContext]. *)
Definition nilContext : option ptr := None.

(** What a factory with an [error] result returns. *)
Inductive or_error (A : Type) : Type :=
| value (a : A)
| error (msg : string).
Arguments value {A}.
Arguments error {A}.

Definition Context_newMemoizeSpec (c : option ptr) (digits : iterFn)
  : exec numberSpec :=
  match c with
  | None => newMemoizeSpec digits global_context
  | Some a =>
      isClosed <- context_Closed (Context_ctxt a) ;;
      if isClosed then panic "Context closed"
      else
        result <- newMemoizeSpec digits (Context_ctxt a) ;;
        C <- get_Context a ;;
        _ <- set_Context a {| ctxt := ctxt C;
                              specs := specs C ++ [result] |} ;;
        ret result
  end.

Definition Context_newFiniteNumber (c : option ptr) (digits : iterFn)
  (exp : Z) : exec ptr :=
  s <- Context_newMemoizeSpec c digits ;;
  new_FiniteNumber {| fn_mantissa := {| spec := s |}; fn_exponent := exp |}.

Definition Context_newNumber (c : option ptr) (digits : iterFn) (exp : Z)
  : exec Number :=
  p <- Context_newFiniteNumber c digits exp ;;
  ret (opaqueNumber (Number_FiniteNumber p)).

Definition checkNumDenom (num denom : Z) : exec unit :=
  if denom <=? 0 then panic "Denominator must be positive"
  else if num <? 0 then panic "Numerator must be non-negative"
  else ret tt.

Definition Context_nRootFrac {M : Type} `{rootManager M} (fuel : nat)
  (c : option ptr) (num denom : Z) (newManager : M) : exec Number :=
  _ <- checkNumDenom num denom ;;
  if num =? 0 then ret (Number_FiniteNumber zeroNumber)
  else
    match Generate (nrootGenerator_Generator fuel
                      (newNRootGenerator num denom newManager)) with
    | None => out_of_fuel
    | Some (digits, exp) => Context_newNumber c digits exp
    end.

Definition Context_Sqrt (fuel : nat) (c : option ptr) (radican : Z)
  : exec Number :=
  Context_nRootFrac fuel c radican one newSqrtManager.

Definition Context_SqrtRat (fuel : nat) (c : option ptr) (num denom : Z)
  : exec Number :=
  Context_nRootFrac fuel c num denom newSqrtManager.

Definition Context_SqrtBigInt (fuel : nat) (c : option ptr) (radican : Z)
  : exec Number :=
  Context_nRootFrac fuel c radican one newSqrtManager.

(** A [*big.Rat] is given by [Num()] and [Denom()]. *)
Definition Context_SqrtBigRat (fuel : nat) (c : option ptr)
  (radican : Z * Z) : exec Number :=
  Context_nRootFrac fuel c (fst radican) (snd radican) newSqrtManager.

Definition Context_CubeRoot (fuel : nat) (c : option ptr) (radican : Z)
  : exec Number :=
  Context_nRootFrac fuel c radican one newCubeRootManager.

Definition Context_CubeRootRat (fuel : nat) (c : option ptr)
  (num denom : Z) : exec Number :=
  Context_nRootFrac fuel c num denom newCubeRootManager.

Definition Context_CubeRootBigInt (fuel : nat) (c : option ptr)
  (radican : Z) : exec Number :=
  Context_nRootFrac fuel c radican one newCubeRootManager.

Definition Context_CubeRootBigRat (fuel : nat) (c : option ptr)
  (radican : Z * Z) : exec Number :=
  Context_nRootFrac fuel c (fst radican) (snd radican) newCubeRootManager.

Definition Context_NewNumberForTesting (c : option ptr)
  (fixed repeating : list Z) (exp : Z) : exec (or_error Number) :=
  if (len fixed =? 0) && (len repeating =? 0) then
    ret (value (Number_FiniteNumber zeroNumber))
  else if negb (validDigits fixed) || negb (validDigits repeating) then
    ret (error "NewNumberForTesting: digits must be between 0 and 9")
  else
    let gen := newRepeatingGenerator fixed repeating exp in
    let '(digits, _) := repeatingGenerator_Generate gen in
    match iter_next digits with
    | None => out_of_fuel
    | Some (first, _) =>
        if first =? 0 then
          ret (error
                 "NewNumberForTesting: leading zeros not allowed in digits")
        else if len repeating =? 0 then
          let '(digits, exp) := repeatingGenerator_Generate gen in
          p <- Context_newFiniteNumber c digits exp ;;
          ret (value (Number_FiniteNumber p))
        else
          let '(digits, exp) := repeatingGenerator_Generate gen in
          n <- Context_newNumber c digits exp ;;
          ret (value n)
    end.

Definition Context_NewNumber (c : option ptr) (g : Generator)
  : exec Number :=
  match Generate g with
  | None => out_of_fuel
  | Some (digits, exp) =>
      match iter_next digits with
      | None => out_of_fuel
      | Some (first, digits) =>
          if (first =? 0) || digitOutOfRange first then
            ret (Number_FiniteNumber zeroNumber)
          else Context_newNumber c (firstAndThen first digits) exp
      end
  end.

Definition Context_NewFiniteNumber (c : option ptr) (fixed : list Z)
  (exponent : Z) : exec (or_error ptr) :=
  r <- Context_NewNumberForTesting c fixed [] exponent ;;
  match r with
  | error msg => ret (error msg)
  | value (Number_FiniteNumber p) => ret (value p)
  | value (Number_opqNumber _) =>
      panic "interface conversion: sqrt.Number is not *sqrt.FiniteNumber"
  end.

Fixpoint Context_Close_specs (fuel : nat) (l : list numberSpec)
  : exec unit :=
  match l with
  | [] => ret tt
  | s :: l' =>
      _ <- numberSpec_FirstN fuel fuel s MaxInt ;;
      Context_Close_specs fuel l'
  end.

Definition Context_Close (fuel : nat) (c : option ptr) : exec unit :=
  match c with
  | None => ret tt
  | Some a =>
      _ <- context_Close (Context_ctxt a) ;;
      C <- get_Context a ;;
      _ <- Context_Close_specs fuel (specs C) ;;
      C <- get_Context a ;;
      set_Context a {| ctxt := ctxt C; specs := [] |}
  end.

Definition Context_NumGoroutines (c : option ptr) : exec Z :=
  match c with
  | None => context_NumActive global_context
  | Some a => context_NumActive (Context_ctxt a)
  end.

Definition Context_numSpecs (c : ptr) : exec Z :=
  C <- get_Context c ;; ret (len (specs C)).

(** The free-standing factories. *)
Definition Sqrt (fuel : nat) (radican : Z) : exec Number :=
  Context_Sqrt fuel nilContext radican.
Definition SqrtRat (fuel : nat) (num denom : Z) : exec Number :=
  Context_SqrtRat fuel nilContext num denom.
Definition CubeRoot (fuel : nat) (radican : Z) : exec Number :=
  Context_CubeRoot fuel nilContext radican.
Definition CubeRootRat (fuel : nat) (num denom : Z) : exec Number :=
  Context_CubeRootRat fuel nilContext num denom.
Definition NewNumberForTesting (fixed repeating : list Z) (exp : Z)
  : exec (or_error Number) :=
  Context_NewNumberForTesting nilContext fixed repeating exp.
Definition NewNumber (g : Generator) : exec Number :=
  Context_NewNumber nilContext g.
Definition NewFiniteNumber (fixed : list Z) (exponent : Z)
  : exec (or_error ptr) :=
  Context_NewFiniteNumber nilContext fixed exponent.

(** ** Writers *)

(** [io.Writer]: [Write] returns the writer after the call, the number
    of bytes it took and the error, if any. *)
Class io_Writer (W : Type) : Type := {
  io_Write : W -> list ascii -> W * (Z * option string)
}.

(** [strings.Builder]: [Write] appends and never fails. *)
Definition strings_Builder : Type := list ascii.

#[export] Instance strings_Builder_Writer : io_Writer strings_Builder := {
  io_Write := fun b p => (b ++ p, (len p, None))
}.

Definition strings_Builder_String (b : strings_Builder) : string :=
  string_of_list_ascii b.

(** [fmt.Fprint(w, s)] for a string operand and [fmt.Fprintf(w, "%+03d",
    x)]: the text is built in a buffer of the [fmt] package and handed
    to [w] in one [Write]; the package drops what [Write] returns. *)
Definition fmt_Fprint {W : Type} `{io_Writer W} (w : W) (s : string) : W :=
  fst (io_Write w (list_ascii_of_string s)).

Definition fmt_plus03d (x : Z) : string :=
  let sign := if x <? 0 then "-"%string else "+"%string in
  let digits := NilZero.string_of_uint (N.to_uint (Z.abs_N x)) in
  let digits := if (String.length digits <? 2)%nat
                then String.append "0" digits else digits in
  String.append sign digits.

(** [bufio.Writer], after the Go standard library: a buffer of 4096
    bytes in front of [wr]; once a write has failed no more data is
    accepted and the error is kept. *)
Record bufio_Writer (W : Type) : Type := mkBufioWriter {
  bw_err : option string;
  bw_buf : list ascii;
  bw_wr : W
}.
Arguments mkBufioWriter {W}.
Arguments bw_err {W}.
Arguments bw_buf {W}.
Arguments bw_wr {W}.

Definition bufio_defaultBufSize : Z := 4096.

Definition bufio_NewWriter {W : Type} (w : W) : bufio_Writer W :=
  {| bw_err := None; bw_buf := []; bw_wr := w |}.

Definition bufio_Flush {W : Type} `{io_Writer W} (b : bufio_Writer W)
  : bufio_Writer W :=
  match bw_err b with
  | Some _ => b
  | None =>
      if len (bw_buf b) =? 0 then b
      else
        let '(wr, (n, err)) := io_Write (bw_wr b) (bw_buf b) in
        let err :=
          match err with
          | None => if n <? len (bw_buf b) then Some "short write"%string else None
          | Some e => Some e
          end in
        match err with
        | Some e =>
            {| bw_err := Some e;
               bw_buf := skipn (Z.to_nat n) (bw_buf b);
               bw_wr := wr |}
        | None => {| bw_err := None; bw_buf := []; bw_wr := wr |}
        end
  end.

Definition bufio_WriteByte {W : Type} `{io_Writer W} (b : bufio_Writer W)
  (c : ascii) : bufio_Writer W :=
  match bw_err b with
  | Some _ => b
  | None =>
      let b := if bufio_defaultBufSize - len (bw_buf b) <=? 0
               then bufio_Flush b else b in
      match bw_err b with
      | Some _ => b
      | None => {| bw_err := None;
                   bw_buf := bw_buf b ++ [c];
                   bw_wr := bw_wr b |}
      end
  end.

(** ['0' + byte(digit)], with the conversion to a byte and the addition
    both modulo 256. *)
Definition digit_byte (digit : Z) : ascii :=
  ascii_of_N (Z.to_N ((48 + digit mod 256) mod 256)).

(** ** formatter *)

Record formatter (W : Type) : Type := mkFormatter {
  writer : bufio_Writer W;
  f_sigDigits : Z;
  f_exponent : Z;
  f_exactDigitCount : bool;
  f_index : Z
}.
Arguments mkFormatter {W}.
Arguments writer {W}.
Arguments f_sigDigits {W}.
Arguments f_exponent {W}.
Arguments f_exactDigitCount {W}.
Arguments f_index {W}.

Section Formatter.
Context {W : Type} `{io_Writer W}.

Definition newFormatter (w : W) (sigDigits exponent : Z)
  (exactDigitCount : bool) : exec (formatter W) :=
  if sigDigits <? exponent then panic "sigDigits must be >= exponent"
  else ret {| writer := bufio_NewWriter w;
              f_sigDigits := sigDigits;
              f_exponent := exponent;
              f_exactDigitCount := exactDigitCount;
              f_index := 0 |}.

Definition formatter_WriteByte (f : formatter W) (c : ascii) : formatter W :=
  {| writer := bufio_WriteByte (writer f) c;
     f_sigDigits := f_sigDigits f;
     f_exponent := f_exponent f;
     f_exactDigitCount := f_exactDigitCount f;
     f_index := f_index f |}.

Definition formatter_CanConsume (f : formatter W) : bool :=
  f_index f <? f_sigDigits f.

Definition formatter_addLeadingZeros (f : formatter W) (count : Z)
  : formatter W :=
  let f := formatter_WriteByte f "0"%char in
  if count <=? 0 then f
  else
    let f := formatter_WriteByte f "."%char in
    Nat.iter (Z.to_nat count) (fun f => formatter_WriteByte f "0"%char) f.

Definition formatter_add (f : formatter W) (digit : Z) : formatter W :=
  let f := if (f_index f =? 0) && (f_exponent f <=? 0)
           then formatter_addLeadingZeros f (int_neg (f_exponent f))
           else f in
  let f := if f_index f =? f_exponent f
           then formatter_WriteByte f "."%char else f in
  let f := formatter_WriteByte f (digit_byte digit) in
  {| writer := writer f;
     f_sigDigits := f_sigDigits f;
     f_exponent := f_exponent f;
     f_exactDigitCount := f_exactDigitCount f;
     f_index := int_add (f_index f) 1 |}.

Definition formatter_Consume (f : formatter W) (digit : Z) : formatter W :=
  if negb (formatter_CanConsume f) then f
  else formatter_add f digit.

(** The loop [for f.index < maxDigits { f.add(0) }]: [add] advances
    [index] by one, so [turns] bounds the number of turns. *)
Fixpoint formatter_pad (turns : nat) (f : formatter W) (maxDigits : Z)
  : formatter W :=
  match turns with
  | O => f
  | Datatypes.S turns' =>
      if f_index f <? maxDigits
      then formatter_pad turns' (formatter_add f 0) maxDigits
      else f
  end.

Definition formatter_Finish (f : formatter W) : formatter W :=
  let maxDigits := f_sigDigits f in
  let maxDigits := if negb (f_exactDigitCount f) then f_exponent f
                   else maxDigits in
  let f := formatter_pad (Z.to_nat (maxDigits - f_index f)) f maxDigits in
  let f :=
    if f_index f =? 0 then
      let count := int_neg (f_exponent f) in
      let count := if f_exactDigitCount f
                   then int_sub (f_sigDigits f) (f_exponent f)
                   else count in
      formatter_addLeadingZeros f count
    else f in
  {| writer := bufio_Flush (writer f);
     f_sigDigits := f_sigDigits f;
     f_exponent := f_exponent f;
     f_exactDigitCount := f_exactDigitCount f;
     f_index := f_index f |}.

Definition fromMantissa (fuel : nat) (m : mantissa) (f : formatter W)
  : exec (formatter W) :=
  if negb (formatter_CanConsume f) then ret f
  else
    mantissa_Values fuel m
      (fun digit f =>
         let f := formatter_Consume f digit in
         (f, formatter_CanConsume f))
      f.

End Formatter.

(** ** formatSpec *)

Record formatSpec : Type := mkFormatSpec {
  sigDigits : Z;
  exactDigitCount : bool;
  sci : bool;
  capital : bool
}.

(** [fmt.State]: a writer that also reports the width, the precision
    and the flags of the verb being printed. *)
Class fmt_State (S : Type) : Type := {
  State_Writer :: io_Writer S;
  State_Width : S -> Z * bool;
  State_Precision : S -> Z * bool;
  State_Flag : S -> Z -> bool
}.

Definition rune (c : ascii) : Z := Z.of_N (N_of_ascii c).

Definition bigExponent (exponent : Z) : bool :=
  (exponent <? -3) || (exponent >? 6).

Definition formatSpecForF (precision exponent : Z) : formatSpec :=
  let sigDigits := int_add precision exponent in
  {| sigDigits := sigDigits;
     exactDigitCount := true;
     sci := false;
     capital := false |}.

Definition formatSpecForG (precision exponent : Z) (capital : bool)
  : formatSpec :=
  let sigDigits := precision in
  let sigDigits := if sigDigits =? 0 then 1 else sigDigits in
  let sci := (sigDigits <? exponent) || bigExponent exponent in
  {| sigDigits := sigDigits;
     exactDigitCount := false;
     sci := sci;
     capital := capital |}.

Definition formatSpecForE (precision : Z) (capital : bool) : formatSpec :=
  {| sigDigits := precision;
     exactDigitCount := true;
     sci := true;
     capital := capital |}.

Definition newFormatSpec {S : Type} `{fmt_State S} (state : S) (verb : Z)
  (exponent : Z) : formatSpec * bool :=
  let '(precision, precisionOk) := State_Precision state in
  if (verb =? rune "f") || (verb =? rune "F") then
    let precision := if negb precisionOk then fPrecision else precision in
    (formatSpecForF precision exponent, true)
  else if (verb =? rune "g") || (verb =? rune "G") || (verb =? rune "v") then
    let precision := if negb precisionOk then gPrecision else precision in
    (formatSpecForG precision exponent (verb =? rune "G"), true)
  else if (verb =? rune "e") || (verb =? rune "E") then
    let precision := if negb precisionOk then fPrecision else precision in
    (formatSpecForE precision (verb =? rune "E"), true)
  else
    ({| sigDigits := 0;
        exactDigitCount := false;
        sci := false;
        capital := false |}, false).

Section Printing.
Context {W : Type} `{io_Writer W}.

(** The printing methods return the writer after the call: Go's have no
    result, and whatever [Flush], [Fprint] and [Fprintf] return is
    dropped. *)
Definition formatSpec_printFixed (fuel : nat) (f : formatSpec) (w : W)
  (m : mantissa) (exponent : Z) : exec W :=
  formatter <- newFormatter w (sigDigits f) exponent (exactDigitCount f) ;;
  formatter <- fromMantissa fuel m formatter ;;
  ret (bw_wr (writer (formatter_Finish formatter))).

Definition formatSpec_printSci (fuel : nat) (f : formatSpec) (w : W)
  (m : mantissa) (exponent : Z) (sep : string) : exec W :=
  w <- formatSpec_printFixed fuel f w m 0 ;;
  let w := fmt_Fprint w sep in
  let w := fmt_Fprint w (fmt_plus03d exponent) in
  ret w.

Definition formatSpec_PrintNumber (fuel : nat) (f : formatSpec) (w : W)
  (n : ptr) : exec W :=
  v <- get_FiniteNumber n ;;
  if sci f then
    let sep := if capital f then "E"%string else "e"%string in
    formatSpec_printSci fuel f w (fn_mantissa v) (fn_exponent v) sep
  else
    formatSpec_printFixed fuel f w (fn_mantissa v) (fn_exponent v).

End Printing.

Definition strings_Repeat (s : string) (count : Z) : string :=
  Nat.iter (Z.to_nat count) (String.append s) EmptyString.

Definition formatSpec_PrintField {S : Type} `{fmt_State S} (fuel : nat)
  (f : formatSpec) (state : S) (n : ptr) : exec S :=
  let '(width, widthOk) := State_Width state in
  if negb widthOk then formatSpec_PrintNumber fuel f state n
  else
    builder <- formatSpec_PrintNumber fuel f ([] : strings_Builder) n ;;
    let field := strings_Builder_String builder in
    let field_len := Z.of_nat (String.length field) in
    let state :=
      if negb (State_Flag state (rune "-")) && (field_len <? width)
      then fmt_Fprint state (strings_Repeat " " (int_sub width field_len))
      else state in
    let state := fmt_Fprint state field in
    let state :=
      if State_Flag state (rune "-") && (field_len <? width)
      then fmt_Fprint state (strings_Repeat " " (int_sub width field_len))
      else state in
    ret state.

Definition FiniteNumber_Exact (fuel : nat) (n : ptr) : exec string :=
  v <- get_FiniteNumber n ;;
  let fs := formatSpecForG MaxInt (fn_exponent v) false in
  builder <- formatSpec_PrintNumber fuel fs ([] : strings_Builder) n ;;
  ret (strings_Builder_String builder).

Definition FiniteNumber_String (fuel : nat) (n : ptr) : exec string :=
  v <- get_FiniteNumber n ;;
  let fs := formatSpecForG gPrecision (fn_exponent v) false in
  builder <- formatSpec_PrintNumber fuel fs ([] : strings_Builder) n ;;
  ret (strings_Builder_String builder).

Fixpoint Number_String (fuel : nat) (n : Number) : exec string :=
  match n with
  | Number_FiniteNumber p => FiniteNumber_String fuel p
  | Number_opqNumber n' => Number_String fuel n'
  end.

(** ** Observing a run *)

(** What a call returned, when it returned. *)
Definition returned {A : Type} (o : outcome A) : option A :=
  match o with
  | Ret a _ => Some a
  | _ => None
  end.

Definition world_after {A : Type} (o : outcome A) (otherwise : world)
  : world :=
  match o with
  | Ret _ w => w
  | _ => otherwise
  end.

(** An implementation of [fmt.State] that keeps what is written and
    answers [Width], [Precision] and [Flag] from its fields. *)
Record bufferState : Type := mkBufferState {
  bs_out : list ascii;
  bs_width : Z * bool;
  bs_precision : Z * bool;
  bs_minus : bool
}.

#[export] Instance bufferState_Writer : io_Writer bufferState := {
  io_Write := fun s p =>
    ({| bs_out := bs_out s ++ p;
        bs_width := bs_width s;
        bs_precision := bs_precision s;
        bs_minus := bs_minus s |}, (len p, None))
}.

#[export] Instance bufferState_State : fmt_State bufferState := {
  State_Width := bs_width;
  State_Precision := bs_precision;
  State_Flag := fun s c => (c =? rune "-") && bs_minus s
}.

(** ** Well-formed heaps *)

(** The [*FiniteNumber] behind a [Number]. *)
Fixpoint Number_ptr (n : Number) : ptr :=
  match n with
  | Number_FiniteNumber p => p
  | Number_opqNumber n' => Number_ptr n'
  end.

(** [spec_chain w s d]: [s] is not nil and reaches a memoizer through
    [d] limitSpecs that are on the heap of [w].  ([withLimit] only builds
    chains with [d <= 1].) *)
Inductive spec_chain (w : world) : numberSpec -> nat -> Prop :=
| chain_memoizer : forall p, spec_chain w (spec_memoizer p) 0
| chain_limitSpec : forall p l d,
    nth_error (limitSpecs w) p = Some l ->
    spec_chain w (delegate l) d ->
    spec_chain w (spec_limitSpec p) (Datatypes.S d).

(** [n] points to a [FiniteNumber] of [w] whose mantissa is empty or a
    chain of depth [d]. *)
Definition valid_Number (w : world) (n : Number) (d : nat) : Prop :=
  exists v,
    nth_error (FiniteNumbers w) (Number_ptr n) = Some v /\
    (spec (fn_mantissa v) = spec_nil \/
     spec_chain w (spec (fn_mantissa v)) d).

(** The value of [zeroNumber]; no operation writes to a
    [FiniteNumber] once it is allocated. *)
Definition zero_FiniteNumber : FiniteNumber :=
  {| fn_mantissa := {| spec := spec_nil |}; fn_exponent := 0 |}.

Definition zeroNumber_ok (w : world) : Prop :=
  nth_error (FiniteNumbers w) zeroNumber = Some zero_FiniteNumber.

(** The heap after [Sqrt(2).WithSignificant(5)]: the memoizer 0, the
    limitSpec 0, and the FiniteNumbers 1 (the square root) and 2 (its
    first five digits). *)
Definition sqrt2_limited_world : world :=
  world_after
    ((n <- Sqrt 20 2 ;; Number_WithSignificant n 5) initial_world)
    initial_world.

(** The heap after [var ctxt Context; ctxt.Close()]: the closed
    [Context] is at address 0. *)
Definition closed_Context_world : world :=
  world_after
    ((c <- new_Context {| ctxt := {| active := 0; closed := false |};
                          specs := [] |} ;;
      Context_Close 20 (Some c)) initial_world)
    initial_world.

(** ** Sinks for observing writes *)

(** A writer that records every [Write] it receives: the bytes, and the
    count and error it answered. *)
Definition write_call : Type := list ascii * (Z * option string).

Record traced (W : Type) : Type := mkTraced {
  tr_sink : W;
  tr_calls : list write_call
}.
Arguments mkTraced {W}.
Arguments tr_sink {W}.
Arguments tr_calls {W}.

#[export] Instance traced_Writer (W : Type) `{io_Writer W}
  : io_Writer (traced W) := {
  io_Write := fun t p =>
    let '(w, r) := io_Write (tr_sink t) p in
    ({| tr_sink := w; tr_calls := tr_calls t ++ [(p, r)] |}, r)
}.

Definition trace {W : Type} (w : W) : traced W :=
  {| tr_sink := w; tr_calls := [] |}.

(** A [Write] failed: it returned an error or took fewer bytes than it
    was given. *)
Definition call_failed (c : write_call) : Prop :=
  snd (snd c) <> None \/ fst (snd c) < len (fst c).

(** No [Write] follows a failed [Write]. *)
Definition failure_is_last (calls : list write_call) : Prop :=
  forall pre c rest,
    calls = pre ++ c :: rest -> call_failed c -> rest = [].

(** [maxBytesWriter] of the package's tests: it takes [maxBytes] bytes
    in all and then fails. *)
Record maxBytesWriter : Type := mkMaxBytesWriter {
  maxBytes : Z;
  bytesWritten : Z
}.

Definition maxBytesWriter_Write (m : maxBytesWriter) (p : list ascii)
  : maxBytesWriter * (Z * option string) :=
  let length := len p in
  if length <=? int_sub (maxBytes m) (bytesWritten m) then
    ({| maxBytes := maxBytes m;
        bytesWritten := int_add (bytesWritten m) length |},
     (length, None))
  else
    let diff := int_sub (maxBytes m) (bytesWritten m) in
    ({| maxBytes := maxBytes m;
        bytesWritten := int_add (bytesWritten m) diff |},
     (diff, Some "Ran out of space"%string)).

#[export] Instance maxBytesWriter_Writer : io_Writer maxBytesWriter := {
  io_Write := maxBytesWriter_Write
}.

(** The heap after the tests' [fakeNumber()], 0.12345678901234567890...:
    its FiniteNumber is at address 1. *)
Definition fakeNumber_world : world :=
  world_after
    (NewNumberForTesting [] [1; 2; 3; 4; 5; 6; 7; 8; 9; 0] 0 initial_world)
    initial_world.

(** ** Streams of digits *)

(** What the first [k] calls of a closure return. *)
Definition iter_outputs (it : iterFn) (k : nat) : option (list Z) :=
  option_map fst (calls (iter_call it) k (iter_state it)).

(** The digit at position [k] of the number written by [fixed] followed
    by [repeating] for ever; -1 past the end when nothing repeats. *)
Definition repeating_digit (fixed repeating : list Z) (k : nat) : Z :=
  if (k <? List.length fixed)%nat then nth k fixed 0
  else
    match repeating with
    | [] => -1
    | _ :: _ =>
        nth ((k - List.length fixed) mod List.length repeating) repeating 0
    end.

(** * Properties *)

Example sqrt13_digits :
  root_digits 20 13 1 newSqrtManager 8 = Some ([3; 6; 0; 5; 5; 5; 1; 2], 1).
Proof. vm_compute. reflexivity. Qed.

Example cubeRoot3_digits :
  root_digits 20 3 1 newCubeRootManager 8 = Some ([1; 4; 4; 2; 2; 4; 9; 5], 1).
Proof. vm_compute. reflexivity. Qed.

Example sqrt100489_digits :
  root_digits 20 100489 1 newSqrtManager 5 = Some ([3; 1; 7; -1; -1], 3).
Proof. vm_compute. reflexivity. Qed.

Example sqrt_small_digits :
  root_digits 20 1 40000 newSqrtManager 3 = Some ([5; -1; -1], -2).
Proof. vm_compute. reflexivity. Qed.

(** ** Loops that terminate *)

Section WhileFacts.
Context {S : Type} (Inv : S -> Prop) (mu : S -> nat).
Variables (cond : S -> bool) (body : S -> S).
Hypothesis step_ok :
  forall s, Inv s -> cond s = true ->
            Inv (body s) /\ (mu (body s) < mu s)%nat.

Lemma while_measure : forall fuel s,
    Inv s -> (mu s < fuel)%nat ->
    exists s', while fuel cond body s = Some s' /\ Inv s' /\ cond s' = false.
Proof.
  induction fuel as [|fuel IH]; intros s Hs Hmu; [lia|].
  simpl. destruct (cond s) eqn:Hc.
  - destruct (step_ok s Hs Hc) as [Hb Hlt].
    apply IH; [assumption | lia].
  - exists s. auto.
Qed.
End WhileFacts.

(** ** Normalization *)

Lemma big_Div_pos : forall x y, 0 < y -> big_Div x y = x / y.
Proof.
  intros x y Hy. unfold big_Div.
  destruct (0 <? y) eqn:E; [reflexivity|]. apply Z.ltb_ge in E. lia.
Qed.

Lemma big_Mod_pos : forall x y, 0 < y -> big_Mod x y = x mod y.
Proof.
  intros x y Hy. unfold big_Mod. rewrite Z.abs_eq by lia. reflexivity.
Qed.

(** What [computeGroupsFromRational] establishes: the radicand is
    [g_num/g_denom * base^exp] with [1/base <= g_num/g_denom < 1]. *)
Record normalized (num denom base : Z) (g : groups) (exp : Z) : Prop := {
  norm_base : g_base g = base;
  norm_num_pos : 0 < g_num g;
  norm_lt : g_num g < g_denom g;
  norm_ge : g_denom g <= g_num g * base;
  norm_num : g_num g = num * base ^ (Z.max 0 (- exp));
  norm_denom : g_denom g = denom * base ^ (Z.max 0 exp)
}.

Lemma computeGroupsFromRational_normalized :
  forall fuel num denom base,
    0 < num -> 0 < denom -> 1 < base ->
    (Z.to_nat (num + denom) < fuel)%nat ->
    exists g exp,
      computeGroupsFromRational fuel num denom base = Some (g, exp) /\
      normalized num denom base g exp.
Proof.
  intros fuel num denom base Hnum Hdenom Hbase Hfuel.
  unfold computeGroupsFromRational.
  (* first loop *)
  destruct (fun H =>
              while_measure
                (fun '(n, e) => e <= 0 /\ 0 < n /\ n = num * base ^ (- e) /\
                                (e < 0 -> num * base ^ (- e - 1) < denom))
                (fun '(n, e) => Z.to_nat (denom - n))
                (fun '(num0, exp) => num0 <? denom)
                (fun '(num0, exp) => (big_Mul num0 base, exp - 1))
                H fuel (num, 0)) as [[n e] [Hw [Hinv Hc]]].
  - intros [n e] (He & Hn & Hne & Hprev) Hc. apply Z.ltb_lt in Hc.
    unfold big_Mul. split; [repeat split|].
    + lia.
    + nia.
    + replace (- (e - 1)) with (Z.succ (- e)) by lia.
      rewrite Z.pow_succ_r by lia. subst n. ring.
    + intros _. replace (- (e - 1) - 1) with (- e) by lia. lia.
    + assert (n < n * base) by nia. lia.
  - repeat split; lia.
  - lia.
  - rewrite Hw. destruct Hinv as (He & Hn & Hne & Hprev).
    apply Z.ltb_ge in Hc.
    destruct (e <? 0) eqn:Hneg.
    + (* the radicand was below one: one step is undone *)
      apply Z.ltb_lt in Hneg. specialize (Hprev Hneg).
      assert (Hdiv : big_Div n base = num * base ^ (- e - 1)).
      { rewrite big_Div_pos by lia. subst n.
        replace (- e) with (Z.succ (- e - 1)) by lia.
        rewrite Z.pow_succ_r by lia.
        replace (Z.succ (- e - 1) - 1) with (- e - 1) by lia.
        replace (num * (base * base ^ (- e - 1)))
          with (num * base ^ (- e - 1) * base) by ring.
        apply Z.div_mul. lia. }
      rewrite Hdiv.
      assert (Hfuel1 : exists f, fuel = Datatypes.S f)
        by (destruct fuel; [lia | eauto]).
      destruct Hfuel1 as [f ->]. simpl.
      destruct (num * base ^ (- e - 1) >=? denom) eqn:Hge.
      { rewrite Z.geb_le in Hge. lia. }
      eexists _, _. split; [reflexivity|].
      assert (Hpow : 0 < base ^ (- e - 1)) by (apply Z.pow_pos_nonneg; lia).
      constructor; simpl.
      * reflexivity.
      * nia.
      * lia.
      * replace (num * base ^ (- e - 1) * base)
          with (num * (base * base ^ (- e - 1))) by ring.
        rewrite <- Z.pow_succ_r by lia.
        replace (Z.succ (- e - 1)) with (- e) by lia. lia.
      * rewrite Z.max_r by lia. f_equal. f_equal. lia.
      * rewrite Z.max_l by lia. simpl. lia.
    + (* the radicand is at least one *)
      apply Z.ltb_ge in Hneg. assert (e = 0) by lia. subst e.
      simpl in Hne. rewrite Z.mul_1_r in Hne. subst n.
      destruct (fun H =>
                  while_measure
                    (fun '(d, e) => 0 <= e /\ 0 < d /\ d = denom * base ^ e /\
                                    (e = 0 -> d <= num) /\
                                    (0 < e -> denom * base ^ (e - 1) <= num))
                    (fun '(d, e) => Z.to_nat (num - d + 1))
                    (fun '(denom0, exp) => num >=? denom0)
                    (fun '(denom0, exp) => (big_Mul denom0 base, exp + 1))
                    H fuel (denom, 0)) as [[d e] [Hw3 [Hinv3 Hc3]]].
      * intros [d e] (He3 & Hd & Hde & _ & _) Hc3.
        rewrite Z.geb_le in Hc3. unfold big_Mul. split; [repeat split|].
        -- lia.
        -- nia.
        -- rewrite Z.pow_add_r by lia. subst d. rewrite Z.pow_1_r. ring.
        -- lia.
        -- intros _. replace (e + 1 - 1) with e by lia. lia.
        -- assert (d < d * base) by nia. lia.
      * repeat split; lia.
      * lia.
      * rewrite Hw3. destruct Hinv3 as (He3 & Hd & Hde & Hz & Hprev3).
        eexists _, _. split; [reflexivity|].
        assert (Hlt : num < d).
        { destruct (num >=? d) eqn:E; [discriminate|].
          destruct (Z.geb_spec num d); [discriminate | lia]. }
        assert (He0 : 0 < e).
        { destruct (Z.eq_dec e 0) as [->|]; [|lia].
          specialize (Hz eq_refl). lia. }
        specialize (Hprev3 He0).
        constructor; simpl.
        -- reflexivity.
        -- lia.
        -- lia.
        -- subst d. replace e with (Z.succ (e - 1)) at 1 by lia.
           rewrite Z.pow_succ_r by lia. nia.
        -- rewrite Z.max_l by lia. simpl. lia.
        -- rewrite Z.max_r by lia. assumption.
Qed.

(** ** The group stream *)

Lemma groups_call_spec : forall g B D,
    1 < B -> 0 < D ->
    g_base g = B -> g_denom g = D -> 0 <= g_num g < D ->
    exists q g' og,
      groups_call g = (og, g') /\
      g_base g' = B /\ g_denom g' = D /\ 0 <= g_num g' < D /\
      0 <= q < B /\
      g_num g * B = q * D + g_num g' /\
      (og = Some q \/ (og = None /\ q = 0 /\ g_num g = 0)).
Proof.
  intros g B D HB HD Hb Hd Hn. unfold groups_call.
  destruct (g_num g =? 0) eqn:Hz.
  - apply Z.eqb_eq in Hz. exists 0, g, None.
    repeat split; try lia. right. auto.
  - apply Z.eqb_neq in Hz. unfold big_DivMod, big_Mul.
    rewrite Hb, Hd, big_Div_pos, big_Mod_pos by assumption.
    exists (g_num g * B / D). eexists. eexists.
    split; [reflexivity|]. simpl.
    pose proof (Z.mod_pos_bound (g_num g * B) D HD).
    pose proof (Z.div_mod (g_num g * B) D ltac:(lia)).
    repeat split; try lia.
    + apply Z.div_pos; nia.
    + apply Z.div_lt_upper_bound; nia.
    + left. reflexivity.
Qed.

(** ** Digit extraction *)

Ltac rd_simpl :=
  cbn [radicanGroups manager rd_base rd_incr rd_remainder
       g_num g_denom g_base fst snd].

Section DigitExtraction.
Context {M : Type} {RM : rootManager M}.

(** The degree of the root, and what the manager maintains: [incr] is
    the first difference [(x+1)^n - x^n] at the root [x] found so
    far. *)
Variable n : Z.
Variable mgr_inv : M -> Z -> Z -> Prop.
Hypothesis degree_pos : 1 <= n.
Hypothesis mgr_inv_incr :
  forall m incr x, mgr_inv m incr x -> incr = (x + 1) ^ n - x ^ n.
Hypothesis mgr_inv_Next :
  forall m incr x, mgr_inv m incr x ->
    mgr_inv (fst (Next m incr)) (snd (Next m incr)) (x + 1).
Hypothesis mgr_inv_NextDigit :
  forall m incr x, mgr_inv m incr x ->
    mgr_inv (fst (NextDigit m incr)) (snd (NextDigit m incr)) (10 * x).
Hypothesis mgr_Base : forall m : M, Base m = 10 ^ n.

Let B := 10 ^ n.

Lemma B_gt_1 : 1 < B.
Proof.
  unfold B. replace n with (Z.succ (n - 1)) by lia.
  rewrite Z.pow_succ_r by lia.
  assert (0 < 10 ^ (n - 1)) by (apply Z.pow_pos_nonneg; lia). lia.
Qed.

Lemma pow_n_lt : forall a b, 0 <= a < b -> a ^ n < b ^ n.
Proof. intros. apply Z.pow_lt_mono_l; lia. Qed.

Lemma pow_n_le : forall a b, 0 <= a <= b -> a ^ n <= b ^ n.
Proof. intros. apply Z.pow_le_mono_l; lia. Qed.

Lemma pow_n_lt_inv : forall a b, 0 <= a -> 0 <= b -> a ^ n < b ^ n -> a < b.
Proof.
  intros a b Ha Hb Hlt. destruct (Z_lt_le_dec a b) as [|Hle]; [assumption|].
  pose proof (pow_n_le b a ltac:(lia)). lia.
Qed.

Lemma pow_n_10 : forall x, (10 * x) ^ n = B * x ^ n.
Proof. intros. unfold B. apply Z.pow_mul_l. Qed.

Lemma digit_loop_spec : forall fuel x0 G m incr,
    (10 <= fuel)%nat -> 0 <= x0 ->
    x0 ^ n <= G < (x0 + 10) ^ n ->
    mgr_inv m incr x0 ->
    exists r d m' incr',
      digit_loop fuel (G - x0 ^ n) 0 m incr = Some (r, d, m', incr') /\
      0 <= d <= 9 /\ r = G - (x0 + d) ^ n /\ 0 <= r /\
      G < (x0 + d + 1) ^ n /\ mgr_inv m' incr' (x0 + d).
Proof.
  intros fuel x0 G m incr Hfuel Hx0 HG Hm. unfold digit_loop.
  destruct (fun H =>
              while_measure
                (fun '(r, d, m, incr) =>
                   0 <= d <= 9 /\ r = G - (x0 + d) ^ n /\ 0 <= r /\
                   mgr_inv m incr (x0 + d))
                (fun '(r, d, m, incr) => Z.to_nat (9 - d))
                (fun '(remainder, digit, manager, incr) =>
                   remainder >=? incr)
                (fun '(remainder, digit, manager, incr) =>
                   let remainder := big_Sub remainder incr in
                   let digit := digit + 1 in
                   let '(manager, incr) := Next manager incr in
                   (remainder, digit, manager, incr))
                H fuel (G - x0 ^ n, 0, m, incr))
    as [[[[r d] m'] incr'] [Hw [Hinv Hc]]].
  - intros [[[r d] m1] incr1] (Hd & Hr & Hr0 & Hm1) Hc.
    rewrite Z.geb_le in Hc.
    pose proof (mgr_inv_incr _ _ _ Hm1) as Hincr.
    pose proof (mgr_inv_Next _ _ _ Hm1) as Hnext.
    destruct (Next m1 incr1) as [m2 incr2']. cbn [fst snd] in Hnext.
    unfold big_Sub.
    assert (Hd8 : d <= 8).
    { assert (x0 + d + 1 < x0 + 10); [|lia].
      apply pow_n_lt_inv; lia. }
    replace (x0 + (d + 1)) with (x0 + d + 1) by lia.
    split; [repeat split|]; try lia. assumption.
  - replace (x0 + 0) with x0 by lia. repeat split; try lia. assumption.
  - simpl. lia.
  - destruct Hinv as (Hd & Hr & Hr0 & Hm').
    exists r, d, m', incr'. repeat split; try assumption; try lia.
    pose proof (mgr_inv_incr _ _ _ Hm') as Hincr.
    destruct (Z.geb_spec r incr'); [discriminate|]. lia.
Qed.

(** The radicand after normalization is [N0/D]. *)
Variables N0 D : Z.
Hypothesis D_pos : 0 < D.

(** After some calls, with [scale = B^k] and [P] the integer written
    by the digits yielded so far: the groups consumed so far are
    [P^n + remainder], and [P] is the integer [n]-th root of them. *)
Definition running (s : rootDigits M) (scale P : Z) : Prop :=
  g_base (radicanGroups s) = B /\
  g_denom (radicanGroups s) = D /\
  rd_base s = B /\
  0 <= g_num (radicanGroups s) < D /\
  0 <= P /\
  0 <= rd_remainder s /\
  N0 * scale = (P ^ n + rd_remainder s) * D + g_num (radicanGroups s) /\
  P ^ n + rd_remainder s < (P + 1) ^ n /\
  mgr_inv (manager s) (rd_incr s) (10 * P).

(** The root was exact: every further call yields -1. *)
Definition ended (s : rootDigits M) (scale P : Z) : Prop :=
  g_num (radicanGroups s) = 0 /\
  rd_remainder s = 0 /\
  0 <= P /\
  N0 * scale = P ^ n * D.

Definition digits_inv (s : rootDigits M) (scale P : Z) : Prop :=
  running s scale P \/ ended s scale P.

Lemma rootDigits_call_spec : forall fuel s scale P,
    (10 <= fuel)%nat ->
    digits_inv s scale P ->
    exists d s',
      rootDigits_call fuel s = Some (d, s') /\
      -1 <= d <= 9 /\
      digits_inv s' (scale * B) (10 * P + digit_value d).
Proof.
  intros fuel s scale P Hfuel [Hrun | Hend].
  - destruct Hrun as (Hb & Hd & Hrb & Hnum & HP & HR & Heq & Hlt & Hm).
    pose proof B_gt_1 as HB.
    destruct (groups_call_spec (radicanGroups s) B D HB D_pos Hb Hd Hnum)
      as (q & g' & og & Hcall & Hb' & Hd' & Hnum' & Hq & Hdiv & Hog).
    unfold rootDigits_call. rewrite Hcall.
    set (G := (P ^ n + rd_remainder s) * B + q).
    assert (HG : (10 * P) ^ n <= G < (10 * P + 10) ^ n).
    { replace (10 * P + 10) with (10 * (P + 1)) by lia.
      rewrite !pow_n_10. unfold G. nia. }
    assert (HT : G - (10 * P) ^ n = rd_remainder s * B + q).
    { rewrite pow_n_10. unfold G. ring. }
    assert (Hscale : N0 * (scale * B) = G * D + g_num g').
    { unfold G. replace (N0 * (scale * B)) with (N0 * scale * B) by ring.
      rewrite Heq. nia. }
    destruct (digit_loop_spec fuel (10 * P) G (manager s) (rd_incr s)
                Hfuel ltac:(lia) HG Hm)
      as (r & d & m' & incr' & Hloop & Hd09 & Hr & Hr0 & Hup & Hm').
    rewrite HT in Hloop.
    assert (Hcont :
              exists d0 s',
                match digit_loop fuel (rd_remainder s * B + q) 0
                        (manager s) (rd_incr s) with
                | Some (remainder, digit, manager0, incr) =>
                    let '(manager1, incr0) := NextDigit manager0 incr in
                    Some (digit,
                          {| radicanGroups := g';
                             manager := manager1;
                             rd_base := B;
                             rd_incr := incr0;
                             rd_remainder := remainder |})
                | None => None
                end = Some (d0, s') /\
                -1 <= d0 <= 9 /\
                digits_inv s' (scale * B) (10 * P + digit_value d0)).
    { rewrite Hloop.
      pose proof (mgr_inv_NextDigit _ _ _ Hm') as Hnd.
      destruct (NextDigit m' incr') as [m2 incr2']. cbn [fst snd] in Hnd.
      eexists _, _. split; [reflexivity|]. split; [lia|].
      left. unfold digit_value.
      destruct (Z.ltb_spec d 0); [lia|].
      unfold running; rd_simpl.
      repeat split; try assumption; lia. }
    destruct Hog as [-> | (-> & -> & Hnum0)].
    + cbv beta iota zeta. cbn [andb]. cbv iota.
      unfold big_Mul, big_Add. rewrite Hrb. exact Hcont.
    + cbv beta iota zeta. cbn [andb].
      destruct (rd_remainder s =? 0) eqn:Hrz.
      * apply Z.eqb_eq in Hrz. eexists _, _.
        split; [reflexivity|]. split; [lia|].
        right. unfold ended; rd_simpl.
        change (digit_value (-1)) with 0.
        replace (10 * P + 0) with (10 * P) by lia.
        rewrite pow_n_10. repeat split; try lia.
        all: replace (N0 * (scale * B)) with (N0 * scale * B) by ring.
        all: rewrite Heq, Hrz, Hnum0; ring.
      * unfold big_Mul. rewrite Hrb.
        replace (rd_remainder s * B) with (rd_remainder s * B + 0) by lia.
        exact Hcont.
  - destruct Hend as (Hnum0 & Hrz & HP & Heq).
    unfold rootDigits_call, groups_call.
    rewrite Hnum0, Hrz. cbn [Z.eqb andb]. cbv beta iota zeta.
    eexists _, _. split; [reflexivity|]. split; [lia|].
    right. unfold ended; rd_simpl.
    change (digit_value (-1)) with 0.
    replace (10 * P + 0) with (10 * P) by lia.
    rewrite pow_n_10. repeat split; try lia.
    all: replace (N0 * (scale * B)) with (N0 * scale * B) by ring.
    all: rewrite Heq; ring.
Qed.

Lemma digits_inv_bounds : forall s scale P,
    digits_inv s scale P ->
    0 <= P /\ P ^ n * D <= N0 * scale < (P + 1) ^ n * D.
Proof.
  intros s scale P [Hrun | Hend].
  - destruct Hrun as (_ & _ & _ & Hnum & HP & HR & Heq & Hlt & _).
    split; [assumption|]. rewrite Heq. nia.
  - destruct Hend as (_ & _ & HP & Heq).
    split; [assumption|]. rewrite Heq.
    pose proof (pow_n_lt P (P + 1) ltac:(lia)). nia.
Qed.

Lemma calls_spec : forall fuel k s scale P,
    (10 <= fuel)%nat ->
    digits_inv s scale P ->
    exists ds s',
      calls (rootDigits_call fuel) k s = Some (ds, s') /\
      List.length ds = k /\
      Forall (fun d => -1 <= d <= 9) ds /\
      digits_inv s' (scale * B ^ Z.of_nat k)
        (fold_left (fun acc d => 10 * acc + digit_value d) ds P).
Proof.
  intros fuel k. induction k as [|k IH]; intros s scale P Hfuel Hinv.
  - exists [], s. simpl. rewrite Z.mul_1_r. auto.
  - destruct (rootDigits_call_spec fuel s scale P Hfuel Hinv)
      as (d & s1 & Hcall & Hd & Hinv1).
    destruct (IH s1 _ _ Hfuel Hinv1) as (ds & s' & Hcalls & Hlen & Hall & Hinv').
    exists (d :: ds), s'. cbn [calls]. rewrite Hcall, Hcalls.
    split; [reflexivity|]. split; [simpl; lia|]. split; [auto|].
    cbn [fold_left]. rewrite Nat2Z.inj_succ, Z.pow_succ_r by lia.
    replace (scale * (B * B ^ Z.of_nat k)) with (scale * B * B ^ Z.of_nat k)
      by ring.
    assumption.
Qed.

Lemma computeRootDigits_inv : forall (g : groups) (m0 : M),
    mgr_inv m0 1 0 ->
    g_base g = B -> g_denom g = D -> g_num g = N0 -> 0 <= N0 < D ->
    digits_inv (computeRootDigits g m0) 1 0.
Proof.
  intros g m0 Hm0 Hb Hd Hnum Hrange. left.
  unfold running, computeRootDigits; rd_simpl.
  rewrite Z.pow_0_l, Z.pow_1_l by lia.
  repeat split; try assumption; try lia. apply mgr_Base.
Qed.
End DigitExtraction.

(** ** From the radicand to its digits *)

Section NthRoot.
Context {M : Type} {RM : rootManager M}.
Variable n : Z.
Variable mgr_inv : M -> Z -> Z -> Prop.
Variable m0 : M.
Hypothesis degree_pos : 1 <= n.
Hypothesis mgr_inv_incr :
  forall m incr x, mgr_inv m incr x -> incr = (x + 1) ^ n - x ^ n.
Hypothesis mgr_inv_Next :
  forall m incr x, mgr_inv m incr x ->
    mgr_inv (fst (Next m incr)) (snd (Next m incr)) (x + 1).
Hypothesis mgr_inv_NextDigit :
  forall m incr x, mgr_inv m incr x ->
    mgr_inv (fst (NextDigit m incr)) (snd (NextDigit m incr)) (10 * x).
Hypothesis mgr_Base : forall m : M, Base m = 10 ^ n.
Hypothesis mgr_inv_init : mgr_inv m0 1 0.

(** The integer form of the result: with the radicand scaled to
    [N0/D = num/denom * (10^n)^(-exp)], the digits [P = d1...dk]
    satisfy [P^n <= N0/D * (10^n)^k < (P+1)^n]. *)
Lemma root_digits_integer : forall fuel num denom k,
    0 < num -> 0 < denom ->
    (Z.to_nat (num + denom) + 10 <= fuel)%nat ->
    exists ds exp,
      root_digits fuel num denom m0 k = Some (ds, exp) /\
      List.length ds = k /\
      Forall (fun d => -1 <= d <= 9) ds /\
      let P := digits_to_Z ds in
      let N0 := num * (10 ^ n) ^ Z.max 0 (- exp) in
      let D := denom * (10 ^ n) ^ Z.max 0 exp in
      0 <= P /\
      0 < N0 < D /\ D <= N0 * 10 ^ n /\
      P ^ n * D <= N0 * (10 ^ n) ^ Z.of_nat k < (P + 1) ^ n * D.
Proof.
  intros fuel num denom k Hnum Hdenom Hfuel.
  pose proof (B_gt_1 n degree_pos) as HB.
  destruct (computeGroupsFromRational_normalized fuel num denom (10 ^ n)
              Hnum Hdenom HB ltac:(lia)) as (g & exp & Hg & Hnorm).
  destruct Hnorm as [Hb Hpos Hlt Hge Hgn Hgd].
  unfold root_digits, nrootGenerator_Generate, newNRootGenerator.
  cbn [ng_num ng_denom newManager]. rewrite mgr_Base, Hg.
  assert (Hinv : digits_inv n mgr_inv (g_num g) (g_denom g)
                   (computeRootDigits g m0) 1 0).
  { apply computeRootDigits_inv; auto; lia. }
  destruct (calls_spec n mgr_inv degree_pos mgr_inv_incr mgr_inv_Next
              mgr_inv_NextDigit (g_num g) (g_denom g) ltac:(lia)
              fuel k _ _ _ ltac:(lia) Hinv)
    as (ds & s' & Hcalls & Hlen & Hall & Hinv').
  rewrite Hcalls. exists ds, exp.
  split; [reflexivity|]. split; [assumption|]. split; [assumption|].
  apply digits_inv_bounds in Hinv'; try assumption; try lia.
  fold (digits_to_Z ds) in Hinv'. cbv zeta.
  rewrite <- Hgn, <- Hgd. rewrite Z.mul_1_l in Hinv'.
  destruct Hinv' as [HP Hineq]. repeat split; try lia.
Qed.
End NthRoot.

(** ** The two managers keep their recurrences *)

Definition sqrt_inv (m : sqrtManager) (incr x : Z) : Prop :=
  incr = 2 * x + 1.

Definition cube_inv (m : cubeRootManager) (incr x : Z) : Prop :=
  incr = 3 * x * x + 3 * x + 1 /\ incr2 m = 6 * x + 6.

Lemma sqrt_inv_incr : forall m incr x,
    sqrt_inv m incr x -> incr = (x + 1) ^ 2 - x ^ 2.
Proof. unfold sqrt_inv. intros. subst. ring. Qed.

Lemma sqrt_inv_Next : forall m incr x,
    sqrt_inv m incr x ->
    sqrt_inv (fst (Next m incr)) (snd (Next m incr)) (x + 1).
Proof.
  unfold sqrt_inv. intros m incr x ->.
  cbv [Next sqrtManager_rootManager sqrtManager_Next fst snd big_Add two].
  ring.
Qed.

Lemma sqrt_inv_NextDigit : forall m incr x,
    sqrt_inv m incr x ->
    sqrt_inv (fst (NextDigit m incr)) (snd (NextDigit m incr)) (10 * x).
Proof.
  unfold sqrt_inv. intros m incr x ->.
  cbv [NextDigit sqrtManager_rootManager sqrtManager_NextDigit fst snd
       big_Add big_Mul big_Sub one ten].
  ring.
Qed.

Lemma cube_inv_incr : forall m incr x,
    cube_inv m incr x -> incr = (x + 1) ^ 3 - x ^ 3.
Proof. unfold cube_inv. intros m incr x [-> _]. ring. Qed.

Lemma cube_inv_Next : forall m incr x,
    cube_inv m incr x ->
    cube_inv (fst (Next m incr)) (snd (Next m incr)) (x + 1).
Proof.
  unfold cube_inv. intros m incr x [-> H2].
  cbv [Next cubeRootManager_rootManager cubeRootManager_Next fst snd
       big_Add six].
  cbn [incr2]. rewrite H2. split; ring.
Qed.

Lemma cube_inv_NextDigit : forall m incr x,
    cube_inv m incr x ->
    cube_inv (fst (NextDigit m incr)) (snd (NextDigit m incr)) (10 * x).
Proof.
  unfold cube_inv. intros m incr x [-> H2].
  cbv [NextDigit cubeRootManager_rootManager cubeRootManager_NextDigit
       fst snd big_Add big_Mul big_Sub oneHundred fortyFive
       oneHundredSeventyOne ten fiftyFour].
  cbn [incr2]. rewrite H2. split; ring.
Qed.

Lemma nth_root_digits_integer : forall deg fuel num denom k,
    0 < num -> 0 < denom ->
    (Z.to_nat (num + denom) + 10 <= fuel)%nat ->
    exists ds exp,
      nth_root_digits deg fuel num denom k = Some (ds, exp) /\
      List.length ds = k /\
      Forall (fun d => -1 <= d <= 9) ds /\
      let n := degree_n deg in
      let P := digits_to_Z ds in
      let N0 := num * (10 ^ n) ^ Z.max 0 (- exp) in
      let D := denom * (10 ^ n) ^ Z.max 0 exp in
      0 <= P /\
      0 < N0 < D /\ D <= N0 * 10 ^ n /\
      P ^ n * D <= N0 * (10 ^ n) ^ Z.of_nat k < (P + 1) ^ n * D.
Proof.
  intros [|] fuel num denom k Hnum Hdenom Hfuel; unfold nth_root_digits.
  - apply (root_digits_integer 2 sqrt_inv newSqrtManager); try assumption.
    + lia.
    + apply sqrt_inv_incr.
    + apply sqrt_inv_Next.
    + apply sqrt_inv_NextDigit.
    + reflexivity.
    + reflexivity.
  - apply (root_digits_integer 3 cube_inv newCubeRootManager); try assumption.
    + lia.
    + apply cube_inv_incr.
    + apply cube_inv_Next.
    + apply cube_inv_NextDigit.
    + reflexivity.
    + split; reflexivity.
Qed.

(** ** Rational form of the bounds *)

Lemma Qpower10_split : forall b c,
    0 <= b -> 0 <= c ->
    (Qpower 10 (b - c) == inject_Z (10 ^ b) / inject_Z (10 ^ c))%Q.
Proof.
  intros b c Hb Hc.
  replace (b - c) with (b + - c) by lia.
  rewrite Qpower_plus by discriminate.
  rewrite Qpower_opp.
  rewrite !Zpower_Qpower by assumption.
  reflexivity.
Qed.

Lemma inject_Z_pos : forall z, 0 < z -> (0 < inject_Z z)%Q.
Proof.
  intros z Hz. change 0%Q with (inject_Z 0).
  rewrite <- Zlt_Qlt. assumption.
Qed.

Lemma scaled_power : forall p u v n,
    0 < u -> 0 < v -> 0 <= n ->
    (Qpower (inject_Z p * (inject_Z u / inject_Z v)) n
     == inject_Z (p ^ n * u ^ n) / inject_Z (v ^ n))%Q.
Proof.
  intros p u v n Hu Hv Hn.
  unfold Qdiv. rewrite !Qmult_power, Qinv_power.
  rewrite inject_Z_mult, !Zpower_Qpower by assumption.
  apply Qmult_assoc.
Qed.

Lemma Qfrac_le : forall x v y d,
    0 < v -> 0 < d ->
    x * d <= y * v ->
    (inject_Z x / inject_Z v <= inject_Z y / inject_Z d)%Q.
Proof.
  intros x v y d Hv Hd H.
  apply Qle_shift_div_l; [apply inject_Z_pos; assumption|].
  setoid_replace (inject_Z x / inject_Z v * inject_Z d)%Q
    with (inject_Z (x * d) / inject_Z v)%Q.
  - apply Qle_shift_div_r; [apply inject_Z_pos; assumption|].
    rewrite <- inject_Z_mult, <- Zle_Qle. assumption.
  - rewrite inject_Z_mult. field.
    intro E. apply inject_Z_pos in Hv. rewrite E in Hv.
    discriminate.
Qed.

Lemma Qfrac_lt : forall x v y d,
    0 < v -> 0 < d ->
    x * d < y * v ->
    (inject_Z x / inject_Z v < inject_Z y / inject_Z d)%Q.
Proof.
  intros x v y d Hv Hd H.
  apply Qlt_shift_div_l; [apply inject_Z_pos; assumption|].
  setoid_replace (inject_Z x / inject_Z v * inject_Z d)%Q
    with (inject_Z (x * d) / inject_Z v)%Q.
  - apply Qlt_shift_div_r; [apply inject_Z_pos; assumption|].
    rewrite <- inject_Z_mult, <- Zlt_Qlt. assumption.
  - rewrite inject_Z_mult. field.
    intro E. apply inject_Z_pos in Hv. rewrite E in Hv.
    discriminate.
Qed.

(** [P * 10^(exp-k)] raised to the [n]-th power, as a quotient of
    integers. *)
Lemma scaled_digits_power : forall P n exp k,
    1 <= n -> 0 <= k ->
    (Qpower (inject_Z P * Qpower 10 (exp - k)) n
     == inject_Z (P ^ n * (10 ^ n) ^ Z.max 0 exp)
        / inject_Z ((10 ^ n) ^ Z.max 0 (- exp) * (10 ^ n) ^ k))%Q.
Proof.
  intros P n exp k Hn Hk.
  replace (exp - k) with (Z.max 0 exp - (Z.max 0 (- exp) + k)) by lia.
  rewrite Qpower10_split by lia.
  rewrite scaled_power by (try apply Z.pow_pos_nonneg; lia).
  rewrite <- Z.pow_add_r by lia.
  rewrite <- !Z.pow_mul_r by lia.
  rewrite (Z.mul_comm n (Z.max 0 exp)).
  rewrite (Z.mul_comm n (Z.max 0 (- exp) + k)).
  reflexivity.
Qed.

(** ** The digits written as an integer *)

Lemma fold_digits_acc : forall ds acc,
    fold_left (fun acc d => 10 * acc + digit_value d) ds acc
    = acc * 10 ^ Z.of_nat (List.length ds) + digits_to_Z ds.
Proof.
  unfold digits_to_Z. induction ds as [|d ds IH]; intros acc.
  - simpl. lia.
  - cbn [fold_left List.length]. rewrite IH, (IH (10 * 0 + digit_value d)).
    rewrite Nat2Z.inj_succ, Z.pow_succ_r by lia. ring.
Qed.

Lemma digits_to_Z_cons : forall d ds,
    digits_to_Z (d :: ds)
    = digit_value d * 10 ^ Z.of_nat (List.length ds) + digits_to_Z ds.
Proof.
  intros d ds. unfold digits_to_Z at 1. cbn [fold_left].
  rewrite fold_digits_acc. ring.
Qed.

Lemma digit_value_range : forall d, -1 <= d <= 9 -> 0 <= digit_value d <= 9.
Proof.
  intros d Hd. unfold digit_value. destruct (Z.ltb_spec d 0); lia.
Qed.

Lemma digits_to_Z_range : forall ds,
    Forall (fun d => -1 <= d <= 9) ds ->
    0 <= digits_to_Z ds < 10 ^ Z.of_nat (List.length ds).
Proof.
  induction 1 as [|d ds Hd Hds IH].
  - unfold digits_to_Z. simpl. lia.
  - rewrite digits_to_Z_cons. cbn [List.length].
    rewrite Nat2Z.inj_succ, Z.pow_succ_r by lia.
    pose proof (digit_value_range d Hd). nia.
Qed.

(** With the radicand normalized into [[1/10^n, 1)], the [k]-digit root
    has exactly [k] digits. *)
Lemma root_magnitude : forall n k P N0 D,
    1 <= n -> 0 <= k -> 0 <= P ->
    0 < N0 < D -> D <= N0 * 10 ^ n ->
    P ^ n * D <= N0 * (10 ^ n) ^ k < (P + 1) ^ n * D ->
    P < 10 ^ k /\ (1 <= k -> 10 ^ (k - 1) <= P).
Proof.
  intros n k P N0 D Hn Hk HP HN HD Hineq.
  assert (Hpow : forall j, 0 <= j -> (10 ^ n) ^ j = (10 ^ j) ^ n).
  { intros j Hj. rewrite <- !Z.pow_mul_r by lia. f_equal. lia. }
  assert (H10k : 0 < (10 ^ n) ^ k) by (repeat apply Z.pow_pos_nonneg; lia).
  split.
  - apply (pow_n_lt_inv n); [lia | apply Z.pow_nonneg; lia |].
    rewrite <- Hpow by lia. nia.
  - intros Hk1.
    assert (10 ^ (k - 1) < P + 1); [|lia].
    apply (pow_n_lt_inv n); [apply Z.pow_nonneg; lia | lia |].
    rewrite <- Hpow by lia.
    assert (Hsplit : (10 ^ n) ^ k = 10 ^ n * (10 ^ n) ^ (k - 1)).
    { replace k with (Z.succ (k - 1)) at 1 by lia.
      apply Z.pow_succ_r. lia. }
    assert (0 < (10 ^ n) ^ (k - 1))
      by (repeat apply Z.pow_pos_nonneg; lia).
    rewrite Hsplit in Hineq. nia.
Qed.

(** ** The digit producer: main results *)



(** C2.  The recurrences of the two managers: for the square root,
    [Next] is [incr <- incr + 2], [NextDigit] is
    [incr <- (incr - 1) * 10 + 1] and the base is 100; for the cube
    root, [incr2] starts at 6, [Next] is [incr <- incr + incr2] then
    [incr2 <- incr2 + 6], [NextDigit] is
    [incr <- incr * 100 - 45 * incr2 + 171] then
    [incr2 <- incr2 * 10 - 54], and the base is 1000. *)
Theorem rootManager_recurrences :
  (forall (s : sqrtManager) incr, Next s incr = (s, incr + 2)) /\
  (forall (s : sqrtManager) incr,
      NextDigit s incr = (s, (incr - 1) * 10 + 1)) /\
  (forall s : sqrtManager, Base s = 100) /\
  incr2 newCubeRootManager = 6 /\
  (forall (c : cubeRootManager) incr,
      Next c incr = ({| incr2 := incr2 c + 6 |}, incr + incr2 c)) /\
  (forall (c : cubeRootManager) incr,
      NextDigit c incr
      = ({| incr2 := incr2 c * 10 - 54 |},
         incr * 100 - 45 * incr2 c + 171)) /\
  (forall c : cubeRootManager, Base c = 1000).
Proof.
  repeat split.
  intros c incr.
  cbv [NextDigit cubeRootManager_rootManager cubeRootManager_NextDigit
       big_Add big_Mul big_Sub oneHundred fortyFive oneHundredSeventyOne
       ten fiftyFour].
  cbn [incr2]. f_equal. ring.
Qed.

(** C3.  For a radicand [num/denom] with [num > 0] and [denom > 0] and
    either base (100 for the square root, 1000 for the cube root), the
    first digit yielded after normalization lies in [1, 9], and the
    mantissa [0.d1...dk] lies in [[1/10, 1)] for every number [k >= 1]
    of digits. *)
Theorem first_digit_in_1_9 : forall deg fuel num denom k,
    0 < num -> 0 < denom ->
    (Z.to_nat (num + denom) + 10 <= fuel)%nat ->
    exists d ds exp,
      nth_root_digits deg fuel num denom (S k) = Some (d :: ds, exp) /\
      1 <= d <= 9 /\
      (1 # 10 <= mantissa_times (d :: ds) 0)%Q /\
      (mantissa_times (d :: ds) 0 < 1)%Q.
Proof.
  intros deg fuel num denom k Hnum Hdenom Hfuel.
  destruct (nth_root_digits_integer deg fuel num denom (S k)
              Hnum Hdenom Hfuel)
    as (ds0 & exp & Hrun & Hlen & Hall & Hb).
  cbv zeta in Hb. destruct Hb as (HP & HN & HD & Hineq).
  destruct ds0 as [|d ds]; [discriminate|].
  assert (Hn : 1 <= degree_n deg) by (destruct deg; simpl; lia).
  destruct (root_magnitude (degree_n deg) (Z.of_nat (S k)) _ _ _
              Hn ltac:(lia) HP HN HD Hineq) as [Hlt Hge].
  specialize (Hge ltac:(lia)).
  exists d, ds, exp. split; [assumption|].
  inversion Hall as [|? ? Hd Hds]; subst.
  cbn [List.length] in Hlen. injection Hlen as Hlen.
  split; [|split].
  - pose proof (digits_to_Z_range ds Hds) as Hrest.
    rewrite digits_to_Z_cons in Hge. rewrite Hlen in *.
    replace (Z.of_nat (S k) - 1) with (Z.of_nat k) in Hge by lia.
    unfold digit_value in Hge. destruct (Z.ltb_spec d 0); nia.
  - unfold mantissa_times. cbn [List.length]. rewrite Hlen.
    rewrite Qpower10_split by lia. rewrite Z.pow_0_r.
    setoid_replace
      (inject_Z (digits_to_Z (d :: ds))
       * (inject_Z 1 / inject_Z (10 ^ Z.of_nat (S k))))%Q
      with (inject_Z (digits_to_Z (d :: ds))
            / inject_Z (10 ^ Z.of_nat (S k)))%Q by (unfold Qdiv; ring).
    change (1 # 10)%Q with (inject_Z 1 / inject_Z 10)%Q.
    assert (0 < 10 ^ Z.of_nat (S k)) by (apply Z.pow_pos_nonneg; lia).
    apply Qfrac_le; [lia | assumption |].
    replace (Z.of_nat (S k)) with (Z.succ (Z.of_nat (S k) - 1)) at 1 by lia.
    rewrite Z.pow_succ_r by lia. lia.
  - unfold mantissa_times. cbn [List.length]. rewrite Hlen.
    rewrite Qpower10_split by lia. rewrite Z.pow_0_r.
    setoid_replace
      (inject_Z (digits_to_Z (d :: ds))
       * (inject_Z 1 / inject_Z (10 ^ Z.of_nat (S k))))%Q
      with (inject_Z (digits_to_Z (d :: ds))
            / inject_Z (10 ^ Z.of_nat (S k)))%Q by (unfold Qdiv; ring).
    change 1%Q with (inject_Z 1 / inject_Z 1)%Q.
    assert (0 < 10 ^ Z.of_nat (S k)) by (apply Z.pow_pos_nonneg; lia).
    apply Qfrac_lt; [assumption | lia | lia].
Qed.

Lemma first_digit_in_1_9_witness :
  exists d ds exp,
    nth_root_digits Square 30 1 7 3 = Some (d :: ds, exp) /\
    1 <= d <= 9 /\
    (1 # 10 <= mantissa_times (d :: ds) 0)%Q /\
    (mantissa_times (d :: ds) 0 < 1)%Q.
Proof.
  apply (first_digit_in_1_9 Square 30 1 7 2); [lia | lia | simpl; lia].
Defined.


(** ** Resolving the format of a verb *)

(** C7, as the specification states it: for the verbs g, G and v the
    resolved format has [sigDigits = max(precision, 1)].  This fails for
    a [fmt.State] that reports a negative precision. *)
Lemma formatSpecForG_negative_precision :
  let state := {| bs_out := []; bs_width := (0, false);
                  bs_precision := (-1, true); bs_minus := false |} in
  State_Precision state = (-1, true) /\
  sigDigits (fst (newFormatSpec state (rune "g") 0)) = -1 /\
  sigDigits (fst (newFormatSpec state (rune "g") 0)) <> Z.max (-1) 1.
Proof. repeat split. discriminate. Qed.

(** C7, amended.  For the verbs g, G and v, with the precision
    defaulting to 16 when the state reports none: [sigDigits] is the
    precision, except that a precision of 0 gives 1 (so it is
    [max(precision, 1)] for every precision that is not negative);
    [exactDigitCount] is false; and the form is scientific exactly when
    [sigDigits < exponent] or [exponent < -3] or [exponent > 6]. *)
Theorem newFormatSpec_general : forall (S : Type) (St : fmt_State S)
    (state : S) (verb exponent : Z),
    verb = rune "g" \/ verb = rune "G" \/ verb = rune "v" ->
    let precision :=
      if snd (State_Precision state) then fst (State_Precision state)
      else 16 in
    let fs := fst (newFormatSpec state verb exponent) in
    snd (newFormatSpec state verb exponent) = true /\
    sigDigits fs = (if precision =? 0 then 1 else precision) /\
    (0 <= precision -> sigDigits fs = Z.max precision 1) /\
    exactDigitCount fs = false /\
    (sci fs = true <->
     sigDigits fs < exponent \/ exponent < -3 \/ exponent > 6) /\
    (capital fs = true <-> verb = rune "G").
Proof.
  intros S St state verb exponent Hverb. cbv zeta.
  unfold newFormatSpec.
  destruct (State_Precision state) as [prec ok]. cbn [fst snd].
  assert (Hf : (verb =? rune "f") || (verb =? rune "F") = false)
    by (destruct Hverb as [-> | [-> | ->]]; reflexivity).
  assert (Hg : (verb =? rune "g") || (verb =? rune "G")
               || (verb =? rune "v") = true)
    by (destruct Hverb as [-> | [-> | ->]]; reflexivity).
  rewrite Hf, Hg. cbn [fst snd].
  unfold formatSpecForG, bigExponent, gPrecision.
  cbn [sigDigits exactDigitCount sci capital].
  set (p := if ok then prec else 16).
  replace (if negb ok then 16 else prec) with p by (destruct ok; reflexivity).
  split; [reflexivity|]. split; [reflexivity|].
  split; [intros Hp; destruct (Z.eqb_spec p 0); lia|].
  split; [reflexivity|].
  split.
  - rewrite !orb_true_iff, !Z.ltb_lt, Z.gtb_ltb, Z.ltb_lt. lia.
  - rewrite Z.eqb_eq. reflexivity.
Qed.

Lemma newFormatSpec_general_witness :
  let state := {| bs_out := []; bs_width := (0, false);
                  bs_precision := (0, false); bs_minus := false |} in
  let fs := fst (newFormatSpec state (rune "v") 7) in
  sigDigits fs = 16 /\ exactDigitCount fs = false /\ sci fs = true.
Proof.
  pose proof (newFormatSpec_general bufferState _
                {| bs_out := []; bs_width := (0, false);
                   bs_precision := (0, false); bs_minus := false |}
                (rune "v") 7 (or_intror (or_intror eq_refl))) as H.
  cbv zeta in H. destruct H as (_ & Hs & _ & He & Hsci & _).
  cbv zeta. split; [exact Hs|]. split; [exact He|].
  apply Hsci. right. right. reflexivity.
Defined.

(** ** The square root of 100489 *)

(** C8.  [Sqrt(100489)] is 317 exactly: [String()] returns "317",
    [Exponent()] returns 3, the digits at positions 0, 1 and 2 are 3, 1
    and 7, and [At(3)] returns -1. *)
Theorem sqrt_100489 :
  returned ((n <- Sqrt 20 100489 ;; Number_String 20 n) initial_world)
  = Some "317"%string /\
  returned ((n <- Sqrt 20 100489 ;; Number_Exponent n) initial_world)
  = Some 3 /\
  returned ((n <- Sqrt 20 100489 ;; Number_At 20 n 3) initial_world)
  = Some (-1) /\
  returned ((n <- Sqrt 20 100489 ;;
             a <- Number_At 20 n 0 ;;
             b <- Number_At 20 n 1 ;;
             c <- Number_At 20 n 2 ;;
             ret [a; b; c]) initial_world)
  = Some [3; 1; 7].
Proof. repeat split; vm_compute; reflexivity. Qed.

(** ** Reading a digit at a negative position *)

Lemma deref_Some : forall (A : Type) (heap : world -> list A) p w a,
    nth_error (heap w) p = Some a -> deref heap p w = Ret a w.
Proof. intros A heap p w a H. unfold deref. rewrite H. reflexivity. Qed.

Lemma numberSpec_At_negative : forall w s d,
    spec_chain w s d ->
    forall depth fuel index,
      (d <= depth)%nat -> index < 0 ->
      numberSpec_At depth fuel s index w = Ret (-1) w.
Proof.
  induction 1 as [p | p l d Hl Hchain IH]; intros depth fuel index Hd Hneg.
  - destruct depth; cbn [numberSpec_At]; unfold memoizer_At;
      destruct (Z.ltb_spec index 0); try lia; reflexivity.
  - destruct depth as [|depth]; [lia|]. cbn [numberSpec_At].
    unfold bind, get_limitSpec. rewrite (deref_Some _ _ _ _ _ Hl).
    destruct (index >=? ls_limit l) eqn:Hge.
    + rewrite Z.geb_le in Hge.
      rewrite IH by lia. reflexivity.
    + apply IH; lia.
Qed.

(** C9.  For every Number (zero or not, limited or not) and every
    negative position, [At] returns -1 without panicking and leaves the
    heap as it was: no digit is produced.  [Scan] on a memoizer panics
    for the same index. *)
Theorem At_negative_position : forall w n d fuel posit,
    valid_Number w n d -> (d <= fuel)%nat -> posit < 0 ->
    Number_At fuel n posit w = Ret (-1) w /\
    (forall (A : Type) p limit (yield : Z -> Z -> A -> A * bool) acc,
        memoizer_Scan fuel p posit limit yield acc w
        = Panic "index must be non-negative").
Proof.
  intros w n d fuel posit (v & Hv & Hspec) Hd Hneg. split.
  - induction n as [p | n' IH]; cbn [Number_At Number_ptr] in *.
    + unfold FiniteNumber_At, bind, get_FiniteNumber.
      rewrite (deref_Some _ _ _ _ _ Hv). unfold mantissa_At.
      destruct Hspec as [Hnil | Hchain].
      * rewrite Hnil. reflexivity.
      * destruct (is_nil (spec (fn_mantissa v))) eqn:E; [reflexivity|].
        apply (numberSpec_At_negative w _ d); assumption.
    + apply IH. assumption.
  - intros A p lim yield acc. unfold memoizer_Scan.
    destruct (Z.ltb_spec posit 0); [reflexivity | lia].
Qed.

Lemma At_negative_position_witness :
  Number_At 5 (Number_FiniteNumber 2%nat) (-3) sqrt2_limited_world
  = Ret (-1) sqrt2_limited_world /\
  (forall (A : Type) p limit (yield : Z -> Z -> A -> A * bool) acc,
      memoizer_Scan 5 p (-3) limit yield acc sqrt2_limited_world
      = Panic "index must be non-negative").
Proof.
  apply (At_negative_position sqrt2_limited_world
           (Number_FiniteNumber 2%nat) 1 5 (-3)); [| lia | lia].
  exists {| fn_mantissa := {| spec := spec_limitSpec 0%nat |};
            fn_exponent := 1 |}.
  split; [reflexivity|]. right.
  apply (chain_limitSpec _ 0%nat
           {| delegate := spec_memoizer 0%nat; ls_limit := 5 |} 0%nat).
  - reflexivity.
  - apply chain_memoizer.
Defined.

(** ** Factories whose result is zero *)

Lemma checkNumDenom_ok : forall num denom w,
    0 <= num -> 0 < denom -> checkNumDenom num denom w = Ret tt w.
Proof.
  intros num denom w Hn Hd. unfold checkNumDenom.
  destruct (Z.leb_spec denom 0); [lia|].
  destruct (Z.ltb_spec num 0); [lia|]. reflexivity.
Qed.

Lemma Context_nRootFrac_zero :
  forall (M : Type) (RM : rootManager M) fuel c denom (m : M) w,
    0 < denom ->
    Context_nRootFrac fuel c 0 denom m w
    = Ret (Number_FiniteNumber zeroNumber) w.
Proof.
  intros M RM fuel c denom m w Hd. unfold Context_nRootFrac, bind.
  rewrite checkNumDenom_ok by lia. reflexivity.
Qed.

(** C10.  A factory call whose result is zero -- a root with numerator
    0, [NewNumberForTesting] or [NewFiniteNumber] with no digits,
    [NewNumber] on a generator whose first digit is 0 or out of range --
    returns the shared [zeroNumber], whose exponent is 0 and whose
    mantissa is empty, and leaves the heap as it was: no memoizer is
    created, no worker is started and nothing is registered with the
    Context, whichever Context it is called on. *)
Theorem zero_results_are_zeroNumber :
  forall (w : world) (c : option ptr) (fuel : nat) (denom exp : Z)
         (g : Generator) (digits digits' : iterFn) (gexp first : Z),
    0 < denom ->
    Generate g = Some (digits, gexp) ->
    iter_next digits = Some (first, digits') ->
    first = 0 \/ first < 0 \/ 9 < first ->
    zeroNumber_ok w ->
    let zero := Ret (Number_FiniteNumber zeroNumber) w in
    Context_Sqrt fuel c 0 w = zero /\
    Context_SqrtRat fuel c 0 denom w = zero /\
    Context_SqrtBigInt fuel c 0 w = zero /\
    Context_SqrtBigRat fuel c (0, denom) w = zero /\
    Context_CubeRoot fuel c 0 w = zero /\
    Context_CubeRootRat fuel c 0 denom w = zero /\
    Context_CubeRootBigInt fuel c 0 w = zero /\
    Context_CubeRootBigRat fuel c (0, denom) w = zero /\
    Context_NewNumberForTesting c [] [] exp w
    = Ret (value (Number_FiniteNumber zeroNumber)) w /\
    Context_NewFiniteNumber c [] exp w = Ret (value zeroNumber) w /\
    Context_NewNumber c g w = zero /\
    FiniteNumber_Exponent zeroNumber w = Ret 0 w /\
    FiniteNumber_IsZero zeroNumber w = Ret true w.
Proof.
  intros w c fuel denom exp g digits digits' gexp first
    Hdenom Hgen Hnext Hfirst Hzero. cbv zeta.
  unfold Context_Sqrt, Context_SqrtRat, Context_SqrtBigInt,
    Context_SqrtBigRat, Context_CubeRoot, Context_CubeRootRat,
    Context_CubeRootBigInt, Context_CubeRootBigRat, one. cbn [fst snd].
  rewrite !Context_nRootFrac_zero by lia.
  repeat split.
  - unfold Context_NewNumber. rewrite Hgen, Hnext.
    assert (Hz : (first =? 0) || digitOutOfRange first = true).
    { unfold digitOutOfRange.
      destruct Hfirst as [-> | [Hlt | Hgt]]; [reflexivity | |].
      - apply orb_true_intro. right. apply orb_true_intro. left.
        apply Z.ltb_lt. assumption.
      - apply orb_true_intro. right. apply orb_true_intro. right.
        rewrite Z.gtb_ltb. apply Z.ltb_lt. assumption. }
    rewrite Hz. reflexivity.
  - unfold FiniteNumber_Exponent, bind, get_FiniteNumber.
    rewrite (deref_Some _ _ _ _ _ Hzero). reflexivity.
  - unfold FiniteNumber_IsZero, bind, get_FiniteNumber.
    rewrite (deref_Some _ _ _ _ _ Hzero). reflexivity.
Qed.

Lemma zero_results_are_zeroNumber_witness :
  let w := closed_Context_world in
  let c := Some 0%nat in
  let g := repeatingGenerator_Generator (newRepeatingGenerator [0; 7] [] 3) in
  let zero := Ret (Number_FiniteNumber zeroNumber) w in
  Context_Sqrt 20 c 0 w = zero /\
  Context_SqrtRat 20 c 0 5 w = zero /\
  Context_SqrtBigInt 20 c 0 w = zero /\
  Context_SqrtBigRat 20 c (0, 5) w = zero /\
  Context_CubeRoot 20 c 0 w = zero /\
  Context_CubeRootRat 20 c 0 5 w = zero /\
  Context_CubeRootBigInt 20 c 0 w = zero /\
  Context_CubeRootBigRat 20 c (0, 5) w = zero /\
  Context_NewNumberForTesting c [] [] 4 w
  = Ret (value (Number_FiniteNumber zeroNumber)) w /\
  Context_NewFiniteNumber c [] 4 w = Ret (value zeroNumber) w /\
  Context_NewNumber c g w = zero /\
  FiniteNumber_Exponent zeroNumber w = Ret 0 w /\
  FiniteNumber_IsZero zeroNumber w = Ret true w.
Proof.
  cbv zeta.
  eapply (zero_results_are_zeroNumber closed_Context_world (Some 0%nat) 20
            5 4
            (repeatingGenerator_Generator (newRepeatingGenerator [0; 7] [] 3))
            _ _ 3 0).
  - lia.
  - reflexivity.
  - reflexivity.
  - left. reflexivity.
  - reflexivity.
Defined.

(** ** Factories on a closed Context *)

(** C4, as the specification states it: every factory call on a closed
    Context whose arguments satisfy the factory's preconditions fails
    with "Context closed".  It does not when the result is zero:
    [Sqrt(0)] on a closed Context returns [zeroNumber]. *)
Lemma closed_Context_Sqrt_zero :
  context_Closed (Context_ctxt 0) closed_Context_world
  = Ret true closed_Context_world /\
  Context_Sqrt 20 (Some 0%nat) 0 closed_Context_world
  = Ret (Number_FiniteNumber zeroNumber) closed_Context_world /\
  Context_Sqrt 20 (Some 0%nat) 0 closed_Context_world
  <> Panic "Context closed".
Proof. repeat split. discriminate. Qed.

Lemma Context_newMemoizeSpec_closed : forall w a C digits,
    nth_error (Contexts w) a = Some C ->
    closed (ctxt C) = true ->
    Context_newMemoizeSpec (Some a) digits w = Panic "Context closed".
Proof.
  intros w a C digits HC Hclosed.
  unfold Context_newMemoizeSpec, context_Closed, get_context, bind,
    get_Context.
  rewrite (deref_Some _ _ _ _ _ HC). unfold ret. rewrite Hclosed.
  reflexivity.
Qed.

Lemma Context_newNumber_closed : forall w a C digits exp,
    nth_error (Contexts w) a = Some C ->
    closed (ctxt C) = true ->
    Context_newNumber (Some a) digits exp w = Panic "Context closed".
Proof.
  intros w a C digits exp HC Hclosed.
  unfold Context_newNumber, Context_newFiniteNumber, bind.
  rewrite (Context_newMemoizeSpec_closed w a C) by assumption.
  reflexivity.
Qed.

Lemma Context_newFiniteNumber_closed : forall w a C digits exp,
    nth_error (Contexts w) a = Some C ->
    closed (ctxt C) = true ->
    Context_newFiniteNumber (Some a) digits exp w = Panic "Context closed".
Proof.
  intros w a C digits exp HC Hclosed.
  unfold Context_newFiniteNumber, bind.
  rewrite (Context_newMemoizeSpec_closed w a C) by assumption.
  reflexivity.
Qed.

Lemma Context_nRootFrac_closed :
  forall (M : Type) (RM : rootManager M) fuel w a C num denom (m : M),
    nth_error (Contexts w) a = Some C ->
    closed (ctxt C) = true ->
    0 < num -> 0 < denom -> 1 < Base m ->
    (Z.to_nat (num + denom) < fuel)%nat ->
    Context_nRootFrac fuel (Some a) num denom m w = Panic "Context closed".
Proof.
  intros M RM fuel w a C num denom m HC Hclosed Hnum Hdenom Hbase Hfuel.
  unfold Context_nRootFrac, bind. rewrite checkNumDenom_ok by lia.
  destruct (Z.eqb_spec num 0); [lia|].
  unfold nrootGenerator_Generator, Generate, nrootGenerator_Generate,
    newNRootGenerator.
  cbn [ng_num ng_denom newManager].
  destruct (computeGroupsFromRational_normalized fuel num denom (Base m)
              Hnum Hdenom Hbase Hfuel) as (g & exp & Hg & _).
  rewrite Hg. apply (Context_newNumber_closed w a C); assumption.
Qed.

Lemma repeatingGenerator_first : forall fixed repeating exp first,
    hd_error (fixed ++ repeating) = Some first ->
    exists digits',
      iter_next (fst (repeatingGenerator_Generate
                        (newRepeatingGenerator fixed repeating exp)))
      = Some (first, digits').
Proof.
  intros fixed repeating exp first Hhd.
  unfold iter_next, repeatingGenerator_Generate, newRepeatingGenerator.
  cbn [fst iter_call iter_state iter_St repeatingGenerator_gen
       rg_fixed rg_repeating].
  destruct fixed as [|d fixed].
  - destruct repeating as [|d repeating]; [discriminate|].
    simpl in Hhd. injection Hhd as ->.
    unfold len. cbn [List.length].
    destruct (Z.ltb_spec 0 (Z.of_nat 0)); [lia|].
    destruct (Z.eqb_spec (Z.of_nat (Datatypes.S (List.length repeating))) 0);
      [lia|].
    eexists. reflexivity.
  - simpl in Hhd. injection Hhd as ->.
    unfold len. cbn [List.length].
    destruct (Z.ltb_spec 0 (Z.of_nat (Datatypes.S (List.length fixed))));
      [|lia].
    eexists. reflexivity.
Qed.

Lemma Context_NewNumberForTesting_closed :
  forall w a C fixed repeating exp first,
    nth_error (Contexts w) a = Some C ->
    closed (ctxt C) = true ->
    validDigits fixed = true -> validDigits repeating = true ->
    hd_error (fixed ++ repeating) = Some first -> first <> 0 ->
    Context_NewNumberForTesting (Some a) fixed repeating exp w
    = Panic "Context closed".
Proof.
  intros w a C fixed repeating exp first HC Hclosed Hvf Hvr Hhd Hfirst.
  unfold Context_NewNumberForTesting.
  assert (Hempty : (len fixed =? 0) && (len repeating =? 0) = false).
  { destruct fixed as [|d fixed'].
    - destruct repeating as [|d repeating']; [discriminate|].
      unfold len. cbn [List.length]. rewrite andb_false_iff. right.
      apply Z.eqb_neq. lia.
    - unfold len. cbn [List.length]. rewrite andb_false_iff. left.
      apply Z.eqb_neq. lia. }
  rewrite Hempty, Hvf, Hvr. cbn [negb orb].
  destruct (repeatingGenerator_first fixed repeating exp first Hhd)
    as [ds' Hds'].
  destruct (repeatingGenerator_Generate
              (newRepeatingGenerator fixed repeating exp))
    as [ds e] eqn:Hgenr.
  cbn [fst] in Hds'. rewrite Hds'.
  destruct (Z.eqb_spec first 0); [contradiction|].
  destruct (len repeating =? 0); unfold bind.
  - rewrite (Context_newFiniteNumber_closed w a C) by assumption.
    reflexivity.
  - rewrite (Context_newNumber_closed w a C) by assumption.
    reflexivity.
Qed.

(** C4, amended.  On a closed Context every factory call that has to
    build a memoizer panics with "Context closed": a root of a positive
    radicand, [NewNumberForTesting] and [NewFiniteNumber] on valid digits
    whose first digit is not 0, [NewNumber] on a generator whose first
    digit is in [1, 9].  (The calls whose result is zero return
    [zeroNumber] instead.) *)
Theorem closed_Context_panics :
  forall (w : world) (a : ptr) (C : Context) (fuel : nat)
         (num denom : Z) (fixed repeating finite : list Z)
         (exp first ffirst : Z)
         (g : Generator) (digits digits' : iterFn) (gexp gfirst : Z),
    nth_error (Contexts w) a = Some C ->
    closed (ctxt C) = true ->
    0 < num -> 0 < denom ->
    (Z.to_nat (num + denom) < fuel)%nat ->
    validDigits fixed = true -> validDigits repeating = true ->
    hd_error (fixed ++ repeating) = Some first -> first <> 0 ->
    validDigits finite = true ->
    hd_error finite = Some ffirst -> ffirst <> 0 ->
    Generate g = Some (digits, gexp) ->
    iter_next digits = Some (gfirst, digits') ->
    1 <= gfirst <= 9 ->
    let closed_panic (A : Type) : outcome A := Panic "Context closed" in
    Context_Sqrt fuel (Some a) num w = closed_panic Number /\
    Context_SqrtRat fuel (Some a) num denom w = closed_panic Number /\
    Context_SqrtBigInt fuel (Some a) num w = closed_panic Number /\
    Context_SqrtBigRat fuel (Some a) (num, denom) w = closed_panic Number /\
    Context_CubeRoot fuel (Some a) num w = closed_panic Number /\
    Context_CubeRootRat fuel (Some a) num denom w = closed_panic Number /\
    Context_CubeRootBigInt fuel (Some a) num w = closed_panic Number /\
    Context_CubeRootBigRat fuel (Some a) (num, denom) w
    = closed_panic Number /\
    Context_NewNumberForTesting (Some a) fixed repeating exp w
    = closed_panic (or_error Number) /\
    Context_NewFiniteNumber (Some a) finite exp w
    = closed_panic (or_error ptr) /\
    Context_NewNumber (Some a) g w = closed_panic Number.
Proof.
  intros w a C fuel num denom fixed repeating finite exp first ffirst
    g digits digits' gexp gfirst HC Hclosed Hnum Hdenom Hfuel
    Hvf Hvr Hhd Hfirst Hvfin Hhdfin Hffirst Hgen Hnext Hgfirst.
  cbv zeta.
  assert (Hroot : forall (M : Type) (RM : rootManager M) (m : M) n d,
             1 < Base m -> 0 < n -> 0 < d ->
             (Z.to_nat (n + d) < fuel)%nat ->
             Context_nRootFrac fuel (Some a) n d m w
             = Panic "Context closed").
  { intros. apply (Context_nRootFrac_closed _ _ fuel w a C); assumption. }
  unfold Context_Sqrt, Context_SqrtRat, Context_SqrtBigInt,
    Context_SqrtBigRat, Context_CubeRoot, Context_CubeRootRat,
    Context_CubeRootBigInt, Context_CubeRootBigRat, one. cbn [fst snd].
  repeat split; try (apply Hroot; try reflexivity; lia).
  - apply (Context_NewNumberForTesting_closed w a C _ _ _ first);
      assumption.
  - unfold Context_NewFiniteNumber, bind.
    assert (Hfin : Context_NewNumberForTesting (Some a) finite [] exp w
                   = Panic "Context closed").
    { apply (Context_NewNumberForTesting_closed w a C _ _ _ ffirst);
        try assumption; try reflexivity.
      rewrite app_nil_r. assumption. }
    rewrite Hfin. reflexivity.
  - unfold Context_NewNumber. rewrite Hgen, Hnext.
    assert (Hz : (gfirst =? 0) || digitOutOfRange gfirst = false).
    { unfold digitOutOfRange.
      destruct (Z.eqb_spec gfirst 0); [lia|].
      destruct (Z.ltb_spec gfirst 0); [lia|].
      rewrite Z.gtb_ltb. destruct (Z.ltb_spec 9 gfirst); [lia|].
      reflexivity. }
    rewrite Hz. apply (Context_newNumber_closed w a C); assumption.
Qed.

Lemma closed_Context_panics_witness :
  let w := closed_Context_world in
  let c := Some 0%nat in
  let g := repeatingGenerator_Generator (newRepeatingGenerator [4] [2] 1) in
  let closed_panic (A : Type) : outcome A := Panic "Context closed" in
  Context_Sqrt 20 c 13 w = closed_panic Number /\
  Context_SqrtRat 20 c 13 2 w = closed_panic Number /\
  Context_SqrtBigInt 20 c 13 w = closed_panic Number /\
  Context_SqrtBigRat 20 c (13, 2) w = closed_panic Number /\
  Context_CubeRoot 20 c 13 w = closed_panic Number /\
  Context_CubeRootRat 20 c 13 2 w = closed_panic Number /\
  Context_CubeRootBigInt 20 c 13 w = closed_panic Number /\
  Context_CubeRootBigRat 20 c (13, 2) w = closed_panic Number /\
  Context_NewNumberForTesting c [] [1; 2; 3; 4; 5; 6; 7; 8; 9; 0] 0 w
  = closed_panic (or_error Number) /\
  Context_NewFiniteNumber c [1; 0; 2] 2 w = closed_panic (or_error ptr) /\
  Context_NewNumber c g w = closed_panic Number.
Proof.
  cbv zeta.
  eapply (closed_Context_panics closed_Context_world 0%nat _ 20 13 2
            [] [1; 2; 3; 4; 5; 6; 7; 8; 9; 0] [1; 0; 2] 0 1 1
            (repeatingGenerator_Generator (newRepeatingGenerator [4] [2] 1))
            _ _ 1 4).
  - reflexivity.
  - reflexivity.
  - lia.
  - lia.
  - simpl. lia.
  - reflexivity.
  - reflexivity.
  - reflexivity.
  - discriminate.
  - reflexivity.
  - reflexivity.
  - discriminate.
  - reflexivity.
  - reflexivity.
  - lia.
Defined.

(** ** WithSignificant *)

Lemma nth_error_app_last : forall (A : Type) (l : list A) x,
    nth_error (l ++ [x]) (List.length l) = Some x.
Proof.
  intros A l x. rewrite nth_error_app2 by lia.
  rewrite Nat.sub_diag. reflexivity.
Qed.

Lemma nth_error_app_old : forall (A : Type) (l : list A) x p v,
    nth_error l p = Some v -> nth_error (l ++ [x]) p = Some v.
Proof.
  intros A l x p v H. rewrite nth_error_app1; [assumption|].
  apply nth_error_Some. congruence.
Qed.

Lemma numberSpec_eqb_refl : forall s, numberSpec_eqb s s = true.
Proof. destruct s; simpl; auto using Nat.eqb_refl. Qed.

Lemma Number_WithSignificant_ptr : forall n limit,
    Number_WithSignificant n limit
    = FiniteNumber_WithSignificant (Number_ptr n) limit.
Proof. induction n; intros; simpl; auto. Qed.

(** A FiniteNumber whose mantissa is empty, or limited to no more than
    [limit] digits, is what [WithSignificant(limit)] returns for it. *)
Lemma FiniteNumber_WithSignificant_fixed : forall w r v limit,
    nth_error (FiniteNumbers w) r = Some v ->
    spec (fn_mantissa v) = spec_nil \/
    (exists q l, spec (fn_mantissa v) = spec_limitSpec q /\
                 nth_error (limitSpecs w) q = Some l /\
                 ls_limit l <= limit /\ 0 < limit) ->
    0 <= limit ->
    FiniteNumber_WithSignificant r limit w = Ret r w.
Proof.
  intros w r v lim Hv Hspec Hlim.
  unfold FiniteNumber_WithSignificant.
  destruct (Z.ltb_spec lim 0); [lia|].
  unfold bind at 1. unfold get_FiniteNumber.
  rewrite (deref_Some _ _ _ _ _ Hv).
  unfold mantissa_WithLimit, withLimit, FiniteNumber_withMantissa.
  destruct Hspec as [Hnil | (q & l & Hq & Hl & Hle & Hpos)].
  - rewrite Hnil. cbn [is_nil]. rewrite orb_true_r.
    unfold bind, ret, get_FiniteNumber. rewrite (deref_Some _ _ _ _ _ Hv).
    unfold mantissa_eqb. cbn [spec]. rewrite Hnil. reflexivity.
  - rewrite Hq. cbn [is_nil]. rewrite orb_false_r.
    destruct (Z.leb_spec lim 0); [lia|].
    unfold bind, ret, get_limitSpec, get_FiniteNumber.
    rewrite (deref_Some _ _ _ _ _ Hl).
    destruct (Z.geb_spec lim (ls_limit l)); [|lia].
    rewrite (deref_Some _ _ _ _ _ Hv).
    unfold mantissa_eqb. cbn [spec]. rewrite Hq.
    rewrite numberSpec_eqb_refl. reflexivity.
Qed.

Lemma spec_chain_extend : forall w w1 s d,
    spec_chain w s d ->
    (forall q l, nth_error (limitSpecs w) q = Some l ->
                 nth_error (limitSpecs w1) q = Some l) ->
    spec_chain w1 s d.
Proof.
  intros w w1 s d Hchain Hext.
  induction Hchain as [p | p l d Hl Hchain IH].
  - apply chain_memoizer.
  - apply (chain_limitSpec w1 p l d); auto.
Qed.

(** What the first [WithSignificant(limit)] returns: a FiniteNumber [r]
    of the heap [w1] that is a fixed point in the sense above, and
    again well formed. *)
Lemma FiniteNumber_WithSignificant_first : forall w p v d limit,
    nth_error (FiniteNumbers w) p = Some v ->
    spec (fn_mantissa v) = spec_nil \/ spec_chain w (spec (fn_mantissa v)) d ->
    zeroNumber_ok w ->
    0 <= limit ->
    exists r w1 v1,
      FiniteNumber_WithSignificant p limit w = Ret r w1 /\
      nth_error (FiniteNumbers w1) r = Some v1 /\
      (spec (fn_mantissa v1) = spec_nil \/
       (exists q l, spec (fn_mantissa v1) = spec_limitSpec q /\
                    nth_error (limitSpecs w1) q = Some l /\
                    ls_limit l <= limit /\ 0 < limit)) /\
      (limit = 0 ->
       spec (fn_mantissa v1) = spec_nil /\ (r = zeroNumber \/ r = p)) /\
      zeroNumber_ok w1 /\
      (spec (fn_mantissa v1) = spec_nil \/
       spec_chain w1 (spec (fn_mantissa v1)) (Nat.max 1 d)).
Proof.
  intros w p v d lim Hv Hspec Hzero Hlim.
  unfold FiniteNumber_WithSignificant.
  destruct (Z.ltb_spec lim 0); [lia|].
  unfold bind at 1. unfold get_FiniteNumber.
  rewrite (deref_Some _ _ _ _ _ Hv).
  unfold mantissa_WithLimit, withLimit, FiniteNumber_withMantissa.
  destruct (spec (fn_mantissa v)) as [|m|q0] eqn:Hs.
  - (* the number is zero *)
    cbn [is_nil]. rewrite orb_true_r.
    unfold bind, ret, get_FiniteNumber. rewrite (deref_Some _ _ _ _ _ Hv).
    unfold mantissa_eqb. cbn [spec]. rewrite Hs. cbn [numberSpec_eqb].
    exists p, w, v. repeat split; auto.
  - cbn [is_nil]. rewrite orb_false_r.
    destruct (Z.leb_spec lim 0).
    + (* limit 0 *)
      unfold bind, ret, get_FiniteNumber. rewrite (deref_Some _ _ _ _ _ Hv).
      unfold mantissa_eqb. cbn [spec]. rewrite Hs. cbn [numberSpec_eqb].
      cbn [mantissa_IsZero spec is_nil].
      exists zeroNumber, w, zero_FiniteNumber. repeat split; auto.
    + (* a fresh limitSpec and a fresh FiniteNumber *)
      unfold bind, ret, new_limitSpec, get_FiniteNumber, deref.
      cbn [FiniteNumbers]. rewrite Hv.
      unfold mantissa_eqb. cbn [spec]. rewrite Hs. cbn [numberSpec_eqb].
      cbn [mantissa_IsZero spec is_nil]. unfold new_FiniteNumber.
      cbn [FiniteNumbers limitSpecs memoizers Contexts globalNumSpecContext].
      eexists _, _, _. split; [reflexivity|].
      cbn [FiniteNumbers limitSpecs].
      split; [apply nth_error_app_last|].
      split; [|split; [intros; lia|split]].
      * right. eexists _, _. cbn [spec fn_mantissa].
        split; [reflexivity|]. split; [apply nth_error_app_last|].
        cbn [ls_limit]. lia.
      * apply nth_error_app_old. assumption.
      * right. cbn [spec fn_mantissa].
        destruct Hspec as [Hnil | Hchain]; [discriminate|].
        inversion Hchain; subst. cbn [Nat.max].
        eapply chain_limitSpec; [apply nth_error_app_last|].
        cbn [delegate]. apply chain_memoizer.
  - cbn [is_nil]. rewrite orb_false_r.
    destruct Hspec as [Hnil | Hchain]; [discriminate|].
    inversion Hchain as [|q l0 d0 Hl0 Hd0]; subst.
    assert (Hmax : Nat.max 1 (Datatypes.S d0) = Datatypes.S d0) by lia.
    rewrite Hmax.
    destruct (Z.leb_spec lim 0).
    + unfold bind, ret, get_FiniteNumber. rewrite (deref_Some _ _ _ _ _ Hv).
      unfold mantissa_eqb. cbn [spec]. rewrite Hs. cbn [numberSpec_eqb].
      cbn [mantissa_IsZero spec is_nil].
      exists zeroNumber, w, zero_FiniteNumber. repeat split; auto.
    + unfold bind at 1. unfold bind at 1. unfold bind at 1.
      unfold get_limitSpec. rewrite (deref_Some _ _ _ _ _ Hl0).
      destruct (Z.geb_spec lim (ls_limit l0)).
      * (* the limit does not shrink the mantissa: the same object *)
        unfold bind, ret, get_FiniteNumber. rewrite (deref_Some _ _ _ _ _ Hv).
        unfold mantissa_eqb. cbn [spec]. rewrite Hs.
        rewrite numberSpec_eqb_refl.
        exists p, w, v. split; [reflexivity|]. split; [assumption|].
        split; [|split; [intros; lia|split; [assumption|]]].
        -- right. exists q0, l0. repeat split; auto; lia.
        -- right. rewrite Hs. assumption.
      * unfold bind, ret, new_limitSpec, get_FiniteNumber, deref.
        cbn [FiniteNumbers]. rewrite Hv.
        unfold mantissa_eqb. cbn [spec]. rewrite Hs. cbn [numberSpec_eqb].
        assert (Hne : Nat.eqb (List.length (limitSpecs w)) q0 = false).
        { apply Nat.eqb_neq. intros E.
          assert (q0 < List.length (limitSpecs w))%nat
            by (apply nth_error_Some; congruence).
          lia. }
        rewrite Hne. cbn [mantissa_IsZero spec is_nil].
        unfold new_FiniteNumber.
        cbn [FiniteNumbers limitSpecs memoizers Contexts
             globalNumSpecContext].
        eexists _, _, _. split; [reflexivity|].
        cbn [FiniteNumbers limitSpecs].
        split; [apply nth_error_app_last|].
        split; [|split; [intros; lia|split]].
        -- right. eexists _, _. cbn [spec fn_mantissa].
           split; [reflexivity|]. split; [apply nth_error_app_last|].
           cbn [ls_limit]. lia.
        -- apply nth_error_app_old. assumption.
        -- right. cbn [spec fn_mantissa].
           eapply chain_limitSpec; [apply nth_error_app_last|].
           cbn [delegate].
           eapply spec_chain_extend; [eassumption|].
           cbn [limitSpecs]. intros. apply nth_error_app_old. assumption.
Qed.

(** The heap stays well formed: what [WithSignificant] returns is again
    a valid Number, and [zeroNumber] keeps its value. *)
Lemma WithSignificant_valid : forall w n d limit r w1,
    valid_Number w n d -> zeroNumber_ok w -> 0 <= limit ->
    Number_WithSignificant n limit w = Ret r w1 ->
    valid_Number w1 (Number_FiniteNumber r) (Nat.max 1 d) /\
    zeroNumber_ok w1.
Proof.
  intros w n d lim r w1 (v & Hv & Hspec) Hzero Hlim Hrun.
  rewrite Number_WithSignificant_ptr in Hrun.
  destruct (FiniteNumber_WithSignificant_first w (Number_ptr n) v d lim
              Hv Hspec Hzero Hlim)
    as (r' & w1' & v1 & Hfirst & Hv1 & _ & _ & Hzero1 & Hvalid).
  rewrite Hfirst in Hrun. injection Hrun as <- <-.
  split; [|assumption]. exists v1. split; assumption.
Qed.

Lemma initial_world_zeroNumber_ok : zeroNumber_ok initial_world.
Proof. reflexivity. Qed.

(** Calls that leave the FiniteNumbers and the limitSpecs of the heap
    alone. *)
Definition keeps_numbers {A : Type} (c : exec A) : Prop :=
  forall w a w1,
    c w = Ret a w1 ->
    FiniteNumbers w1 = FiniteNumbers w /\ limitSpecs w1 = limitSpecs w.

Lemma keeps_ret : forall (A : Type) (a : A), keeps_numbers (ret a).
Proof. intros A a w a' w1 H. injection H as _ <-. auto. Qed.

Lemma keeps_panic : forall (A : Type) msg, keeps_numbers (@panic A msg).
Proof. intros A msg w a w1 H. discriminate. Qed.

Lemma keeps_bind : forall (A B : Type) (c : exec A) (k : A -> exec B),
    keeps_numbers c -> (forall a, keeps_numbers (k a)) ->
    keeps_numbers (bind c k).
Proof.
  intros A B c k Hc Hk w b w1 H. unfold bind in H.
  destruct (c w) as [a w0| |] eqn:Hcw; try discriminate.
  destruct (Hc _ _ _ Hcw) as [E1 E2].
  destruct (Hk a _ _ _ H) as [E3 E4]. split; congruence.
Qed.

Lemma keeps_deref : forall (A : Type) (heap : world -> list A) p,
    keeps_numbers (deref heap p).
Proof.
  intros A heap p w a w1 H. unfold deref in H.
  destruct (nth_error (heap w) p); [|discriminate].
  injection H as _ <-. auto.
Qed.

Lemma keeps_get_context : forall c, keeps_numbers (get_context c).
Proof.
  intros [|p]; unfold get_context.
  - intros w a w1 H. injection H as _ <-. auto.
  - apply keeps_bind; [apply keeps_deref | intros; apply keeps_ret].
Qed.

Lemma keeps_set_Context : forall p C, keeps_numbers (set_Context p C).
Proof. intros p C w a w1 H. injection H as _ <-. auto. Qed.

Lemma keeps_set_context : forall c x, keeps_numbers (set_context c x).
Proof.
  intros [|p] x; unfold set_context.
  - intros w a w1 H. injection H as _ <-. auto.
  - apply keeps_bind; [apply keeps_deref | intros; apply keeps_set_Context].
Qed.

Lemma keeps_newMemoizeSpec : forall iter c,
    keeps_numbers (newMemoizeSpec iter c).
Proof.
  intros iter c. unfold newMemoizeSpec.
  apply keeps_bind.
  - intros w a w1 H. injection H as _ <-. auto.
  - intros p. apply keeps_bind; [|intros; apply keeps_ret].
    unfold context_Start.
    apply keeps_bind; [apply keeps_get_context|].
    intros. apply keeps_set_context.
Qed.

Lemma Context_newMemoizeSpec_heap : forall c digits w s w1,
    Context_newMemoizeSpec c digits w = Ret s w1 ->
    (exists p, s = spec_memoizer p) /\
    FiniteNumbers w1 = FiniteNumbers w /\
    limitSpecs w1 = limitSpecs w.
Proof.
  intros c digits w s w1 Hrun. split.
  - unfold Context_newMemoizeSpec in Hrun.
    assert (Hnew : forall cp w s w1,
               newMemoizeSpec digits cp w = Ret s w1 ->
               exists p, s = spec_memoizer p).
    { intros cp w' s' w1' H. unfold newMemoizeSpec, bind in H.
      destruct (new_memoizer _ w') as [p w0| |]; try discriminate.
      destruct (context_Start cp w0); try discriminate.
      injection H as <- _. eauto. }
    destruct c as [a|]; [|eapply Hnew; eassumption].
    unfold bind in Hrun.
    destruct (context_Closed (Context_ctxt a) w) as [[|] w0| |];
      try discriminate.
    destruct (newMemoizeSpec digits (Context_ctxt a) w0)
      as [s0 w2| |] eqn:Hs0; try discriminate.
    destruct (get_Context a w2) as [C w3| |]; try discriminate.
    destruct (set_Context a _ w3) as [u w4| |]; try discriminate.
    injection Hrun as <- _. eapply Hnew; eassumption.
  - revert w s w1 Hrun.
    change (keeps_numbers (Context_newMemoizeSpec c digits)).
    unfold Context_newMemoizeSpec. destruct c as [a|].
    + apply keeps_bind.
      * unfold context_Closed.
        apply keeps_bind; [apply keeps_get_context|].
        intros; apply keeps_ret.
      * intros [|]; [apply keeps_panic|].
        apply keeps_bind; [apply keeps_newMemoizeSpec|]. intros s.
        apply keeps_bind; [apply keeps_deref|]. intros C.
        apply keeps_bind; [apply keeps_set_Context|].
        intros; apply keeps_ret.
    + apply keeps_newMemoizeSpec.
Qed.

(** A Number fresh from a factory is valid, with a memoizer for its
    mantissa. *)
Lemma Context_newNumber_valid : forall c digits exp w n w1,
    Context_newNumber c digits exp w = Ret n w1 ->
    valid_Number w1 n 0 /\ (zeroNumber_ok w -> zeroNumber_ok w1).
Proof.
  intros c digits exp w n w1 Hrun.
  unfold Context_newNumber, Context_newFiniteNumber, bind in Hrun.
  destruct (Context_newMemoizeSpec c digits w) as [s w0| |] eqn:Hspec;
    try discriminate.
  apply Context_newMemoizeSpec_heap in Hspec.
  destruct Hspec as ([p ->] & HFN & _).
  unfold new_FiniteNumber, ret in Hrun. injection Hrun as <- <-.
  split.
  - eexists. cbn [Number_ptr opaqueNumber FiniteNumbers].
    split; [apply nth_error_app_last|].
    right. apply chain_memoizer.
  - unfold zeroNumber_ok. cbn [FiniteNumbers]. rewrite HFN.
    apply nth_error_app_old.
Qed.

(** C6.  [WithSignificant] is idempotent at its fixed points: for a
    Number [n] and limits [0 <= limit <= limit'], applying
    [WithSignificant(limit')] to what [n.WithSignificant(limit)]
    returned gives back the very same object (the same pointer) and
    allocates nothing.  A negative limit panics, and limit 0 returns a
    zero Number: [zeroNumber], or [n] itself when [n] is already
    zero. *)
Theorem WithSignificant_idempotent : forall w n d limit limit',
    valid_Number w n d -> zeroNumber_ok w ->
    0 <= limit <= limit' ->
    (exists r w1,
        Number_WithSignificant n limit w = Ret r w1 /\
        Number_WithSignificant (Number_FiniteNumber r) limit' w1
        = Ret r w1 /\
        (limit = 0 ->
         FiniteNumber_IsZero r w1 = Ret true w1 /\
         (r = zeroNumber \/ r = Number_ptr n))) /\
    (forall negative, negative < 0 ->
        Number_WithSignificant n negative w
        = Panic "limit must be non-negative").
Proof.
  intros w n d lim lim' (v & Hv & Hspec) Hzero Hlim. split.
  - rewrite Number_WithSignificant_ptr.
    destruct (FiniteNumber_WithSignificant_first w (Number_ptr n) v d lim
                Hv Hspec Hzero ltac:(lia))
      as (r & w1 & v1 & Hfirst & Hv1 & Hfix & Hz & _ & _).
    exists r, w1. split; [assumption|]. split.
    + cbn [Number_WithSignificant].
      apply (FiniteNumber_WithSignificant_fixed w1 r v1 lim' Hv1);
        [|lia].
      destruct Hfix as [Hnil | (q & l & Hq & Hl & Hle & Hpos)];
        [left; assumption|].
      right. exists q, l. repeat split; auto; lia.
    + intros Hlim0. destruct (Hz Hlim0) as [Hnil Hr]. split; [|assumption].
      unfold FiniteNumber_IsZero, bind, get_FiniteNumber.
      rewrite (deref_Some _ _ _ _ _ Hv1).
      unfold ret, mantissa_IsZero. rewrite Hnil. reflexivity.
  - intros neg Hneg. rewrite Number_WithSignificant_ptr.
    unfold FiniteNumber_WithSignificant.
    destruct (Z.ltb_spec neg 0); [reflexivity | lia].
Qed.

Lemma WithSignificant_idempotent_witness :
  let w := sqrt2_limited_world in
  let n := Number_opqNumber (Number_FiniteNumber 1) in
  (exists r w1,
      Number_WithSignificant n 6 w = Ret r w1 /\
      Number_WithSignificant (Number_FiniteNumber r) 7 w1 = Ret r w1 /\
      (6 = 0 ->
       FiniteNumber_IsZero r w1 = Ret true w1 /\
       (r = zeroNumber \/ r = Number_ptr n))) /\
  (forall negative, negative < 0 ->
      Number_WithSignificant n negative w
      = Panic "limit must be non-negative").
Proof.
  cbv zeta.
  apply (WithSignificant_idempotent sqrt2_limited_world
           (Number_opqNumber (Number_FiniteNumber 1)) 0 6 7).
  - exists {| fn_mantissa := {| spec := spec_memoizer 0 |};
              fn_exponent := 1 |}.
    split; [reflexivity|]. right. apply chain_memoizer.
  - reflexivity.
  - lia.
Defined.

(** ** Write errors while formatting *)

Definition call_ok (c : write_call) : Prop := ~ call_failed c.

Lemma failure_is_last_ok : forall calls,
    Forall call_ok calls -> failure_is_last calls.
Proof.
  intros calls Hok pre c rest -> Hfail.
  apply Forall_app in Hok. destruct Hok as [_ Hok].
  inversion Hok; subst. contradiction.
Qed.

Lemma failure_is_last_snoc : forall calls c,
    Forall call_ok calls -> failure_is_last (calls ++ [c]).
Proof.
  intros calls c Hok pre x rest Heq Hfail.
  destruct rest as [|y rest'] using rev_ind; [reflexivity|].
  exfalso.
  replace (pre ++ x :: rest' ++ [y]) with ((pre ++ x :: rest') ++ [y])
    in Heq by (rewrite <- app_assoc; reflexivity).
  apply app_inj_tail in Heq. destruct Heq as [-> _].
  apply Forall_app in Hok. destruct Hok as [_ Hok].
  inversion Hok; subst. contradiction.
Qed.

Section StickyError.
Context {W : Type} {IW : io_Writer W}.

(** While the buffered writer has no error every [Write] so far has
    succeeded; and a failed [Write] is never followed by another. *)
Definition bufio_inv (b : bufio_Writer (traced W)) : Prop :=
  (bw_err b = None -> Forall call_ok (tr_calls (bw_wr b))) /\
  failure_is_last (tr_calls (bw_wr b)).

Lemma bufio_NewWriter_inv : forall w : W, bufio_inv (bufio_NewWriter (trace w)).
Proof.
  intros w. split; cbn; [constructor|].
  apply failure_is_last_ok. constructor.
Qed.

Lemma bufio_Flush_inv : forall b, bufio_inv b -> bufio_inv (bufio_Flush b).
Proof.
  intros b [Hok Hlast]. unfold bufio_Flush.
  destruct (bw_err b) eqn:Herr; [split; [congruence | assumption]|].
  specialize (Hok eq_refl).
  destruct (len (bw_buf b) =? 0); [split; [auto | assumption]|].
  cbn [io_Write traced_Writer].
  destruct (io_Write (tr_sink (bw_wr b)) (bw_buf b)) as [w' [n err]].
  destruct err as [e|].
  - split; cbn [bw_err bw_wr tr_calls]; [discriminate|].
    apply failure_is_last_snoc. assumption.
  - destruct (Z.ltb_spec n (len (bw_buf b))).
    + split; cbn [bw_err bw_wr tr_calls]; [discriminate|].
      apply failure_is_last_snoc. assumption.
    + assert (Hall : Forall call_ok
                       (tr_calls (bw_wr b) ++ [(bw_buf b, (n, None))])).
      { apply Forall_app. split; [assumption|]. constructor; [|constructor].
        unfold call_ok, call_failed. cbn [fst snd]. intros [E | E].
        - apply E. reflexivity.
        - lia. }
      split; cbn [bw_err bw_wr tr_calls]; [auto|].
      apply failure_is_last_ok. assumption.
Qed.

Lemma bufio_WriteByte_inv : forall b c,
    bufio_inv b -> bufio_inv (bufio_WriteByte b c).
Proof.
  intros b c Hb. unfold bufio_WriteByte.
  destruct (bw_err b) eqn:Herr; [assumption|].
  set (b' := if bufio_defaultBufSize - len (bw_buf b) <=? 0
             then bufio_Flush b else b).
  assert (Hb' : bufio_inv b').
  { unfold b'. destruct (_ <=? 0); [apply bufio_Flush_inv|]; assumption. }
  destruct (bw_err b') eqn:Herr'; [assumption|].
  destruct Hb' as [Hok Hlast]. split; cbn [bw_err bw_wr]; auto.
Qed.

Definition formatter_inv (f : formatter (traced W)) : Prop :=
  bufio_inv (writer f).

Lemma formatter_WriteByte_inv : forall f c,
    formatter_inv f -> formatter_inv (formatter_WriteByte f c).
Proof. intros f c Hf. apply bufio_WriteByte_inv. assumption. Qed.

Lemma formatter_addLeadingZeros_inv : forall f count,
    formatter_inv f -> formatter_inv (formatter_addLeadingZeros f count).
Proof.
  intros f count Hf. unfold formatter_addLeadingZeros.
  destruct (count <=? 0); [apply formatter_WriteByte_inv; assumption|].
  induction (Z.to_nat count) as [|k IH]; cbn [Nat.iter].
  - repeat apply formatter_WriteByte_inv. assumption.
  - apply formatter_WriteByte_inv. assumption.
Qed.

Lemma formatter_add_inv : forall f digit,
    formatter_inv f -> formatter_inv (formatter_add f digit).
Proof.
  intros f digit Hf. unfold formatter_add, formatter_inv.
  cbn [writer]. apply formatter_WriteByte_inv.
  match goal with
  | |- formatter_inv (if ?c then _ else ?g) =>
      assert (Hg : formatter_inv g);
      [| destruct c; [apply formatter_WriteByte_inv|]; assumption]
  end.
  destruct (_ && _); [apply formatter_addLeadingZeros_inv|]; assumption.
Qed.

Lemma formatter_Consume_inv : forall f digit,
    formatter_inv f -> formatter_inv (formatter_Consume f digit).
Proof.
  intros f digit Hf. unfold formatter_Consume.
  destruct (negb _); [|apply formatter_add_inv]; assumption.
Qed.

Lemma formatter_pad_inv : forall turns f maxDigits,
    formatter_inv f -> formatter_inv (formatter_pad turns f maxDigits).
Proof.
  induction turns as [|turns IH]; intros f maxDigits Hf; cbn [formatter_pad].
  - assumption.
  - destruct (_ <? _); [|assumption].
    apply IH. apply formatter_add_inv. assumption.
Qed.

Lemma formatter_Finish_inv : forall f,
    formatter_inv f -> formatter_inv (formatter_Finish f).
Proof.
  intros f Hf. unfold formatter_Finish, formatter_inv. cbn [writer].
  apply bufio_Flush_inv.
  match goal with
  | |- bufio_inv (writer (if ?c then _ else ?g)) =>
      assert (Hg : formatter_inv g) by (apply formatter_pad_inv; assumption);
      destruct c; [apply formatter_addLeadingZeros_inv|]; assumption
  end.
Qed.
End StickyError.

(** Whatever the loop body keeps, a scan keeps. *)
Section ScanPreserves.
Context {A : Type} (P : A -> Prop).

Lemma memoizer_Scan_loop_preserves :
  forall (yield : Z -> Z -> A -> A * bool),
    (forall i v acc, P acc -> P (fst (yield i v acc))) ->
    forall turns fuel p data ok index limit acc w acc' w',
      P acc ->
      memoizer_Scan_loop turns fuel p data ok index limit yield acc w
      = Ret acc' w' ->
      P acc'.
Proof.
  intros yield Hyield.
  induction turns as [|turns IH];
    intros fuel p data ok index lim acc w acc' w' Hacc Hrun;
    cbn [memoizer_Scan_loop] in Hrun.
  - destruct (ok && (index <? lim)); [discriminate|].
    injection Hrun as <- _. assumption.
  - destruct (ok && (index <? lim)).
    + pose proof (Hyield index (index_data data index) acc Hacc) as Hy.
      destruct (yield index (index_data data index) acc) as [acc1 continue].
      cbn [fst] in Hy.
      destruct continue; cbn [negb] in Hrun.
      * destruct (int_add index 1 =? len data).
        -- unfold bind in Hrun.
           destruct (memoizer_wait fuel p (int_add index 1) w)
             as [[data1 ok1] w1| |]; try discriminate.
           eapply IH; eassumption.
        -- eapply IH; eassumption.
      * injection Hrun as <- _. assumption.
    + injection Hrun as <- _. assumption.
Qed.

Lemma memoizer_ScanValues_preserves :
  forall (yield : Z -> A -> A * bool),
    (forall v acc, P acc -> P (fst (yield v acc))) ->
    forall fuel p index limit acc w acc' w',
      P acc ->
      memoizer_ScanValues fuel p index limit yield acc w = Ret acc' w' ->
      P acc'.
Proof.
  intros yield Hyield fuel p index lim acc w acc' w' Hacc Hrun.
  unfold memoizer_ScanValues in Hrun.
  destruct (index <? 0); [discriminate|].
  unfold bind in Hrun.
  destruct (memoizer_wait fuel p index w) as [[data ok] w1| |];
    try discriminate.
  eapply (memoizer_Scan_loop_preserves (fun _ v => yield v));
    [intros; apply Hyield; assumption | eassumption | eassumption].
Qed.

Lemma numberSpec_ScanValues_preserves :
  forall (yield : Z -> A -> A * bool),
    (forall v acc, P acc -> P (fst (yield v acc))) ->
    forall depth fuel s index limit acc w acc' w',
      P acc ->
      numberSpec_ScanValues depth fuel s index limit yield acc w
      = Ret acc' w' ->
      P acc'.
Proof.
  intros yield Hyield.
  induction depth as [|depth IH];
    intros fuel s index lim acc w acc' w' Hacc Hrun;
    destruct s as [|p|p]; cbn [numberSpec_ScanValues] in Hrun;
    try discriminate;
    try (eapply memoizer_ScanValues_preserves; eassumption).
  unfold bind in Hrun.
  destruct (get_limitSpec p w) as [l w1| |]; try discriminate.
  eapply IH; eassumption.
Qed.

Lemma mantissa_Values_preserves :
  forall (yield : Z -> A -> A * bool),
    (forall v acc, P acc -> P (fst (yield v acc))) ->
    forall fuel m acc w acc' w',
      P acc ->
      mantissa_Values fuel m yield acc w = Ret acc' w' ->
      P acc'.
Proof.
  intros yield Hyield fuel m acc w acc' w' Hacc Hrun.
  unfold mantissa_Values, mantissa_ScanValues in Hrun.
  destruct (is_nil (spec m)).
  - injection Hrun as <- _. assumption.
  - eapply numberSpec_ScanValues_preserves; eassumption.
Qed.
End ScanPreserves.

Lemma returned_Some : forall (A : Type) (o : outcome A) a,
    returned o = Some a -> exists w, o = Ret a w.
Proof.
  intros A o a H. destruct o as [a' w| |]; try discriminate.
  injection H as ->. eauto.
Qed.

Lemma printFixed_failure_is_last :
  forall (W : Type) (IW : io_Writer W) fuel (f : formatSpec) (w : W)
         m exponent h t h',
    formatSpec_printFixed fuel f (trace w) m exponent h = Ret t h' ->
    failure_is_last (tr_calls t).
Proof.
  intros W IW fuel f w m exponent h t h' Hrun.
  unfold formatSpec_printFixed, bind, newFormatter in Hrun.
  destruct (sigDigits f <? exponent); [discriminate|].
  unfold ret at 1 in Hrun.
  set (f0 := {| writer := bufio_NewWriter (trace w);
                f_sigDigits := sigDigits f;
                f_exponent := exponent;
                f_exactDigitCount := exactDigitCount f;
                f_index := 0 |}) in Hrun.
  assert (Hf0 : formatter_inv f0) by apply bufio_NewWriter_inv.
  destruct (fromMantissa fuel m f0 h) as [f1 w1| |] eqn:Hfrom;
    try discriminate.
  injection Hrun as <- _.
  assert (Hf1 : formatter_inv f1).
  { unfold fromMantissa in Hfrom.
    destruct (negb (formatter_CanConsume f0)).
    - injection Hfrom as <- _. assumption.
    - eapply (mantissa_Values_preserves formatter_inv);
        [| exact Hf0 | exact Hfrom].
      intros v acc Hacc. cbn [fst]. apply formatter_Consume_inv.
      assumption. }
  apply (formatter_Finish_inv f1 Hf1).
Qed.

Lemma fmt_Fprint_traced : forall (W : Type) (IW : io_Writer W)
    (t : traced W) (s : string),
    tr_calls (fmt_Fprint t s)
    = tr_calls t ++ [(list_ascii_of_string s,
                      snd (io_Write (tr_sink t) (list_ascii_of_string s)))].
Proof.
  intros W IW t s. unfold fmt_Fprint. cbn [io_Write traced_Writer].
  destruct (io_Write (tr_sink t) (list_ascii_of_string s)) as [w' r].
  reflexivity.
Qed.




(** ** The scenarios of the package's tests, run on the model *)

Definition rendered (o : outcome strings_Builder) : option string :=
  option_map strings_Builder_String (returned o).

Example sqrt13_100g :
  rendered
    ((n <- Sqrt 200 13 ;;
      formatSpec_PrintNumber 200 (formatSpecForG 100 1 false)
        ([] : strings_Builder) (Number_ptr n)) initial_world)
  = Some "3.605551275463989293119221267470495946251296573845246212710453056227166948293010445204619082018490717"%string.
Proof. vm_compute. reflexivity. Qed.

Example cubeRoot3_100g :
  rendered
    ((n <- CubeRoot 200 3 ;;
      formatSpec_PrintNumber 200 (formatSpecForG 100 1 false)
        ([] : strings_Builder) (Number_ptr n)) initial_world)
  = Some "1.442249570307408382321638310780109588391869253499350577546416194541687596829997339854755479705645256"%string.
Proof. vm_compute. reflexivity. Qed.

Example repeating_String :
  returned
    ((r <- NewNumberForTesting [1; 0; 2] [0; 0; 3; 4] 2 ;;
      match r with
      | value n => Number_String 20 n
      | error msg => ret msg
      end) initial_world)
  = Some "10.20034003400340"%string.
Proof. vm_compute. reflexivity. Qed.

Example sqrt2_Exact :
  returned
    ((n <- Sqrt 100 2 ;;
      r <- Number_WithSignificant n 60 ;;
      FiniteNumber_Exact 100 r) initial_world)
  = Some "1.41421356237309504880168872420969807856967187537694807317667"%string.
Proof. vm_compute. reflexivity. Qed.

Example fakeNumber_negative_exponent :
  rendered
    ((m <- FiniteNumber_withExponent 1 (-5) ;;
      formatSpec_PrintNumber 20 (formatSpecForF 10 (-5))
        ([] : strings_Builder) (Number_ptr m)) fakeNumber_world)
  = Some "0.0000012345"%string.
Proof. vm_compute. reflexivity. Qed.

(** [TestContext], without the reader of the two-millionth digit. *)
Example Context_lifecycle :
  returned
    ((c <- new_Context {| ctxt := {| active := 0; closed := false |};
                          specs := [] |} ;;
      n5 <- Context_Sqrt 20 (Some c) 5 ;;
      n7 <- Context_Sqrt 20 (Some c) 7 ;;
      n100489 <- Context_Sqrt 20 (Some c) 100489 ;;
      s7 <- Number_String 20 n7 ;;
      s100489 <- Number_String 20 n100489 ;;
      running <- Context_NumGoroutines (Some c) ;;
      _ <- Context_Close 20 (Some c) ;;
      after <- Context_NumGoroutines (Some c) ;;
      registered <- Context_numSpecs c ;;
      ret (s7, s100489, running, after, registered)) initial_world)
  = Some ("2.645751311064590"%string, "317"%string, 2, 0, 0).
Proof. vm_compute. reflexivity. Qed.

(** * Further properties *)

(** ** The exponent of a root *)

Lemma Qpower_split : forall B b c,
    0 < B -> 0 <= b -> 0 <= c ->
    (Qpower (inject_Z B) (b - c) == inject_Z (B ^ b) / inject_Z (B ^ c))%Q.
Proof.
  intros B b c HB Hb Hc.
  assert (HBq : ~ (inject_Z B == 0)%Q).
  { intros E. apply inject_Z_pos in HB. rewrite E in HB. discriminate. }
  replace (b - c) with (b + - c) by lia.
  rewrite Qpower_plus by assumption.
  rewrite Qpower_opp.
  rewrite !Zpower_Qpower by assumption.
  reflexivity.
Qed.

(** X1.  The exponent returned by [computeGroupsFromRational] is the
    one integer [exp] with [base^(exp-1) <= num/denom < base^exp]. *)
Theorem exponent_brackets_radicand : forall fuel num denom base,
    0 < num -> 0 < denom -> 1 < base ->
    (Z.to_nat (num + denom) < fuel)%nat ->
    exists g exp,
      computeGroupsFromRational fuel num denom base = Some (g, exp) /\
      (Qpower (inject_Z base) (exp - 1) <= inject_Z num / inject_Z denom)%Q /\
      (inject_Z num / inject_Z denom < Qpower (inject_Z base) exp)%Q /\
      (forall e : Z,
          (Qpower (inject_Z base) (e - 1) <= inject_Z num / inject_Z denom)%Q ->
          (inject_Z num / inject_Z denom < Qpower (inject_Z base) e)%Q ->
          e = exp).
Proof.
  intros fuel num denom base Hnum Hdenom Hbase Hfuel.
  destruct (computeGroupsFromRational_normalized fuel num denom base
              Hnum Hdenom Hbase Hfuel) as (g & exp & Hg & Hnorm).
  destruct Hnorm as [_ Hpos Hlt Hge Hgn Hgd].
  exists g, exp. split; [assumption|].
  set (a := Z.max 0 (- exp)) in *. set (b := Z.max 0 exp) in *.
  assert (Ha : 0 < base ^ a) by (apply Z.pow_pos_nonneg; lia).
  assert (Hb : 0 < base ^ b) by (apply Z.pow_pos_nonneg; lia).
  assert (Hlo : (Qpower (inject_Z base) (exp - 1)
                 <= inject_Z num / inject_Z denom)%Q).
  { replace (exp - 1) with (b - (a + 1)) by lia.
    rewrite Qpower_split by lia.
    assert (0 < base ^ (a + 1)) by (apply Z.pow_pos_nonneg; lia).
    apply Qfrac_le; [assumption | lia |].
    rewrite Z.pow_add_r, Z.pow_1_r by lia. rewrite Hgn, Hgd in Hge. lia. }
  assert (Hhi : (inject_Z num / inject_Z denom
                 < Qpower (inject_Z base) exp)%Q).
  { replace exp with (b - a) at 1 by lia.
    rewrite Qpower_split by lia.
    apply Qfrac_lt; [lia | assumption |].
    rewrite Hgn, Hgd in Hlt. lia. }
  split; [assumption|]. split; [assumption|].
  intros e Hlo' Hhi'.
  (* two brackets around the same radicand overlap only when equal *)
  assert (Hmono : forall x y, x <= y - 1 ->
             (Qpower (inject_Z base) x <= Qpower (inject_Z base) (y - 1))%Q).
  { intros x y Hxy.
    replace x with (Z.max 0 x - Z.max 0 (- x)) by lia.
    replace (y - 1) with (Z.max 0 (y - 1) - Z.max 0 (- (y - 1))) by lia.
    rewrite !Qpower_split by lia.
    apply Qfrac_le; try (apply Z.pow_pos_nonneg; lia).
    rewrite <- !Z.pow_add_r by lia.
    apply Z.pow_le_mono_r; lia. }
  destruct (Z_lt_le_dec e exp) as [Hlt_e | Hge_e].
  - (* e < exp: base^e <= base^(exp-1) <= r < base^e *)
    exfalso. pose proof (Hmono e exp ltac:(lia)) as Hm.
    apply (Qlt_irrefl (inject_Z num / inject_Z denom)).
    eapply Qlt_le_trans; [exact Hhi'|].
    eapply Qle_trans; [exact Hm | exact Hlo].
  - destruct (Z.eq_dec e exp) as [|Hne]; [assumption|].
    exfalso. pose proof (Hmono exp e ltac:(lia)) as Hm.
    apply (Qlt_irrefl (inject_Z num / inject_Z denom)).
    eapply Qlt_le_trans; [exact Hhi|].
    eapply Qle_trans; [exact Hm | exact Hlo'].
Qed.

Lemma exponent_brackets_radicand_witness :
  exists g exp,
    computeGroupsFromRational 50 1 40 100 = Some (g, exp) /\
    (Qpower (inject_Z 100) (exp - 1) <= inject_Z 1 / inject_Z 40)%Q /\
    (inject_Z 1 / inject_Z 40 < Qpower (inject_Z 100) exp)%Q /\
    (forall e : Z,
        (Qpower (inject_Z 100) (e - 1) <= inject_Z 1 / inject_Z 40)%Q ->
        (inject_Z 1 / inject_Z 40 < Qpower (inject_Z 100) e)%Q ->
        e = exp).
Proof.
  apply (exponent_brackets_radicand 50 1 40 100); simpl; lia.
Defined.

(** ** A zero numerator *)

(** X2.  [computeGroupsFromRational] does not return for a zero
    numerator: its first loop multiplies 0 by the base for ever.
    ([nRootFrac] returns [zeroNumber] before it gets there.) *)
Theorem computeGroupsFromRational_zero_diverges : forall fuel denom base,
    0 < denom ->
    computeGroupsFromRational fuel 0 denom base = None.
Proof.
  intros fuel denom base Hdenom. unfold computeGroupsFromRational.
  assert (Hloop : forall f e,
             while f (fun '(num, exp) => num <? denom)
               (fun '(num, exp) => (big_Mul num base, exp - 1)) (0, e)
             = None).
  { induction f as [|f IH]; intros e; [reflexivity|].
    cbn [while]. destruct (Z.ltb_spec 0 denom); [|lia].
    unfold big_Mul. rewrite Z.mul_0_l. apply IH. }
  rewrite Hloop. reflexivity.
Qed.

Lemma computeGroupsFromRational_zero_diverges_witness :
  computeGroupsFromRational 1000 0 7 100 = None.
Proof. apply computeGroupsFromRational_zero_diverges. lia. Defined.

(** ** The end of the digit stream *)

Lemma while_keeps : forall (S : Type) (Inv : S -> Prop) cond body,
    (forall s, Inv s -> cond s = true -> Inv (body s)) ->
    forall fuel (s s' : S),
      Inv s -> while fuel cond body s = Some s' -> Inv s' /\ cond s' = false.
Proof.
  intros S Inv cond body Hstep.
  induction fuel as [|fuel IH]; intros s s' Hs Hrun; [discriminate|].
  cbn [while] in Hrun. destruct (cond s) eqn:Hc.
  - eapply IH; [|eassumption]. auto.
  - injection Hrun as <-. auto.
Qed.

Lemma digit_loop_nonneg :
  forall (M : Type) (RM : rootManager M) fuel r d (m : M) incr r' d' m' incr',
    digit_loop fuel r d m incr = Some (r', d', m', incr') ->
    0 <= d -> 0 <= d'.
Proof.
  intros M RM fuel r d m incr r' d' m' incr' Hrun Hd.
  unfold digit_loop in Hrun.
  apply (while_keeps _ (fun '(_, digit, _, _) => 0 <= digit)) in Hrun.
  - destruct Hrun as [H _]. exact H.
  - intros [[[r0 d0] m0] i0] H0 _. destruct (Next m0 i0). lia.
  - exact Hd.
Qed.

(** A call yields -1 exactly when no group is left and the remainder is
    0, and then it changes nothing. *)
Lemma rootDigits_call_minus1 :
  forall (M : Type) (RM : rootManager M) fuel (s s' : rootDigits M) d,
    rootDigits_call fuel s = Some (d, s') ->
    (d = -1 <-> g_num (radicanGroups s) = 0 /\ rd_remainder s = 0) /\
    (d = -1 -> rootDigits_call fuel s' = Some (-1, s')).
Proof.
  intros M RM fuel s s' d Hrun.
  unfold rootDigits_call, groups_call in Hrun.
  assert (Hloop : forall r g,
             match digit_loop fuel r 0 (manager s) (rd_incr s) with
             | Some (remainder, digit, manager0, incr) =>
                 let '(manager1, incr0) := NextDigit manager0 incr in
                 Some (digit,
                       {| radicanGroups := g;
                          manager := manager1;
                          rd_base := rd_base s;
                          rd_incr := incr0;
                          rd_remainder := remainder |})
             | None => None
             end = Some (d, s') -> 0 <= d).
  { intros r g H.
    destruct (digit_loop fuel r 0 (manager s) (rd_incr s))
      as [[[[r' d'] m'] i']|] eqn:Hl; [|discriminate].
    apply digit_loop_nonneg in Hl; [|lia].
    destruct (NextDigit m' i'). injection H as <- _. exact Hl. }
  destruct (Z.eqb_spec (g_num (radicanGroups s)) 0) as [Hz | Hnz].
  - cbn [andb] in Hrun.
    destruct (Z.eqb_spec (rd_remainder s) 0) as [Hr | Hr].
    + injection Hrun as <- <-. split; [tauto|]. intros _.
      unfold rootDigits_call, groups_call. rd_simpl.
      rewrite Hz, Hr. reflexivity.
    + apply Hloop in Hrun. split; [|lia]. split; [lia | tauto].
  - destruct (big_DivMod (big_Mul (g_num (radicanGroups s))
                            (g_base (radicanGroups s)))
                (g_denom (radicanGroups s))) as [q r].
    cbn [andb] in Hrun. apply Hloop in Hrun.
    split; [|lia]. split; [lia | tauto].
Qed.

Lemma calls_fixed : forall (St : Type) (step : St -> option (Z * St)) s x k,
    step s = Some (x, s) ->
    calls step k s = Some (repeat x k, s).
Proof.
  intros St step s x k Hs. induction k as [|k IH]; [reflexivity|].
  cbn [calls repeat]. rewrite Hs, IH. reflexivity.
Qed.

Lemma calls_split : forall (St : Type) (step : St -> option (Z * St)) a b
    s ds s2,
    calls step (a + b) s = Some (ds, s2) ->
    exists ds1 s1 ds2,
      calls step a s = Some (ds1, s1) /\
      calls step b s1 = Some (ds2, s2) /\
      ds = ds1 ++ ds2 /\ List.length ds1 = a.
Proof.
  intros St step a. induction a as [|a IH]; intros b s ds s2 Hrun.
  - exists [], s, ds. auto.
  - cbn [Nat.add calls] in Hrun.
    destruct (step s) as [[d s0]|] eqn:Hstep; [|discriminate].
    destruct (calls step (a + b) s0) as [[ds0 s3]|] eqn:Hrest;
      [|discriminate].
    injection Hrun as <- <-.
    destruct (IH _ _ _ _ Hrest) as (ds1 & s1 & ds2 & H1 & H2 & -> & Hlen).
    exists (d :: ds1), s1, ds2. cbn [calls]. rewrite Hstep, H1.
    repeat split; auto. simpl. lia.
Qed.

Lemma calls_snoc : forall (St : Type) (step : St -> option (Z * St)) k
    s ds s1 d s2,
    calls step k s = Some (ds, s1) ->
    step s1 = Some (d, s2) ->
    calls step (Datatypes.S k) s = Some (ds ++ [d], s2).
Proof.
  intros St step k. induction k as [|k IH]; intros s ds s1 d s2 Hk Hstep.
  - injection Hk as <- <-. cbn [calls]. rewrite Hstep. reflexivity.
  - cbn [calls] in Hk.
    destruct (step s) as [[d0 s0]|] eqn:Hs0; [|discriminate].
    destruct (calls step k s0) as [[ds0 s3]|] eqn:Hrest; [|discriminate].
    injection Hk as <- <-.
    change (calls step (Datatypes.S (Datatypes.S k)) s)
      with (match step s with
            | None => None
            | Some (d, s') =>
                match calls step (Datatypes.S k) s' with
                | None => None
                | Some (ds, s'') => Some (d :: ds, s'')
                end
            end).
    rewrite Hs0, (IH _ _ _ _ _ Hrest Hstep). reflexivity.
Qed.

Lemma root_calls_sticky :
  forall (M : Type) (RM : rootManager M) fuel k (s s' : rootDigits M) ds i j,
    calls (rootDigits_call fuel) k s = Some (ds, s') ->
    (i <= j < k)%nat ->
    nth i ds 0 = -1 -> nth j ds 0 = -1.
Proof.
  intros M RM fuel k s s' ds i j Hrun Hij Hi.
  replace k with (i + (1 + (k - i - 1)))%nat in Hrun by lia.
  apply calls_split in Hrun.
  destruct Hrun as (ds1 & s1 & ds2 & H1 & H2 & -> & Hlen1).
  apply calls_split in H2.
  destruct H2 as (dsi & si & ds3 & Hi1 & H3 & -> & Hleni).
  cbn [calls] in Hi1.
  destruct (rootDigits_call fuel s1) as [[d s1']|] eqn:Hstep; [|discriminate].
  injection Hi1 as <- <-.
  rewrite app_nth2, Hlen1, Nat.sub_diag in Hi by lia. cbn in Hi. subst d.
  destruct (rootDigits_call_minus1 _ _ _ _ _ _ Hstep) as [_ Hfix].
  specialize (Hfix eq_refl).
  rewrite (calls_fixed _ _ _ _ _ Hfix) in H3. injection H3 as <- _.
  rewrite app_nth2 by lia. rewrite Hlen1.
  destruct (j - i)%nat as [|r] eqn:Hr; [reflexivity|].
  cbn [app nth]. apply nth_repeat_lt. lia.
Qed.



Section StreamEnd.
Context {M : Type} {RM : rootManager M}.
Variable n : Z.
Variable mgr_inv : M -> Z -> Z -> Prop.
Variable m0 : M.
Hypothesis degree_pos : 1 <= n.
Hypothesis mgr_inv_incr :
  forall m incr x, mgr_inv m incr x -> incr = (x + 1) ^ n - x ^ n.
Hypothesis mgr_inv_Next :
  forall m incr x, mgr_inv m incr x ->
    mgr_inv (fst (Next m incr)) (snd (Next m incr)) (x + 1).
Hypothesis mgr_inv_NextDigit :
  forall m incr x, mgr_inv m incr x ->
    mgr_inv (fst (NextDigit m incr)) (snd (NextDigit m incr)) (10 * x).
Hypothesis mgr_Base : forall m : M, Base m = 10 ^ n.
Hypothesis mgr_inv_init : mgr_inv m0 1 0.

Lemma digits_inv_exact : forall N0 D (s : rootDigits M) scale P,
    0 < D ->
    digits_inv n mgr_inv N0 D s scale P ->
    (g_num (radicanGroups s) = 0 /\ rd_remainder s = 0
     <-> N0 * scale = P ^ n * D).
Proof.
  intros N0 D s scale P HD [Hrun | Hend].
  - destruct Hrun as (_ & _ & _ & Hnum & _ & HR & Heq & _ & _).
    rewrite Heq. split.
    + intros [-> ->]. ring.
    + intros E. assert (rd_remainder s = 0) by nia. split; nia.
  - destruct Hend as (Hnum & HR & _ & Heq). tauto.
Qed.

Lemma root_digits_last : forall fuel num denom k,
    0 < num -> 0 < denom ->
    (Z.to_nat (num + denom) + 10 <= fuel)%nat ->
    exists ds d exp,
      root_digits fuel num denom m0 (Datatypes.S k)
      = Some (ds ++ [d], exp) /\
      List.length ds = k /\
      let P := digits_to_Z ds in
      let N0 := num * (10 ^ n) ^ Z.max 0 (- exp) in
      let D := denom * (10 ^ n) ^ Z.max 0 exp in
      (d = -1 <-> N0 * (10 ^ n) ^ Z.of_nat k = P ^ n * D).
Proof.
  intros fuel num denom k Hnum Hdenom Hfuel.
  pose proof (B_gt_1 n degree_pos) as HB.
  destruct (computeGroupsFromRational_normalized fuel num denom (10 ^ n)
              Hnum Hdenom HB ltac:(lia)) as (g & exp & Hg & Hnorm).
  destruct Hnorm as [Hb Hpos Hlt Hge Hgn Hgd].
  unfold root_digits, nrootGenerator_Generate, newNRootGenerator.
  cbn [ng_num ng_denom newManager]. rewrite mgr_Base, Hg.
  assert (Hinv : digits_inv n mgr_inv (g_num g) (g_denom g)
                   (computeRootDigits g m0) 1 0).
  { apply computeRootDigits_inv; auto; lia. }
  destruct (calls_spec n mgr_inv degree_pos mgr_inv_incr mgr_inv_Next
              mgr_inv_NextDigit (g_num g) (g_denom g) ltac:(lia)
              fuel k _ _ _ ltac:(lia) Hinv)
    as (ds & s' & Hcalls & Hlen & Hall & Hinv').
  destruct (rootDigits_call_spec n mgr_inv degree_pos mgr_inv_incr
              mgr_inv_Next mgr_inv_NextDigit (g_num g) (g_denom g)
              ltac:(lia) fuel s' _ _ ltac:(lia) Hinv')
    as (d & s'' & Hcall & _ & _).
  rewrite (calls_snoc _ _ _ _ _ _ _ _ Hcalls Hcall).
  exists ds, d, exp. split; [reflexivity|]. split; [assumption|].
  cbv zeta. rewrite <- Hgn, <- Hgd.
  destruct (rootDigits_call_minus1 _ _ _ _ _ _ Hcall) as [Hiff _].
  rewrite Hiff.
  fold (digits_to_Z ds) in Hinv'. rewrite Z.mul_1_l in Hinv'.
  apply digits_inv_exact; [lia | exact Hinv'].
Qed.
End StreamEnd.

Lemma Qfrac_eq : forall x v y d,
    0 < v -> 0 < d ->
    ((inject_Z x / inject_Z v == inject_Z y / inject_Z d)%Q
     <-> x * d = y * v).
Proof.
  intros x v y d Hv Hd. split.
  - intros E.
    destruct (Z.lt_trichotomy (x * d) (y * v)) as [Hlt | [Heq | Hgt]];
      [|assumption|].
    + apply (Qfrac_lt x v y d Hv Hd) in Hlt. rewrite E in Hlt.
      exfalso. exact (Qlt_irrefl _ Hlt).
    + assert (Hlt : y * v < x * d) by lia.
      apply (Qfrac_lt y d x v Hd Hv) in Hlt. rewrite E in Hlt.
      exfalso. exact (Qlt_irrefl _ Hlt).
  - intros E. apply Qle_antisym; apply Qfrac_le; try assumption; lia.
Qed.

(** X4.  The digit closure of a root yields -1 after [k] digits exactly
    when those digits are the root itself:
    [(0.d1...dk * 10^exp)^n = num/denom]. *)
Theorem root_digits_end_iff_exact : forall deg fuel num denom k,
    0 < num -> 0 < denom ->
    (Z.to_nat (num + denom) + 10 <= fuel)%nat ->
    exists ds d exp,
      nth_root_digits deg fuel num denom (Datatypes.S k)
      = Some (ds ++ [d], exp) /\
      List.length ds = k /\
      (d = -1 <->
       (Qpower (mantissa_times ds exp) (degree_n deg)
        == inject_Z num / inject_Z denom)%Q).
Proof.
  intros deg fuel num denom k Hnum Hdenom Hfuel.
  assert (Hlast : exists ds d exp,
             nth_root_digits deg fuel num denom (Datatypes.S k)
             = Some (ds ++ [d], exp) /\
             List.length ds = k /\
             (d = -1 <->
              num * (10 ^ degree_n deg) ^ Z.max 0 (- exp)
              * (10 ^ degree_n deg) ^ Z.of_nat k
              = digits_to_Z ds ^ degree_n deg
                * (denom * (10 ^ degree_n deg) ^ Z.max 0 exp))).
  { destruct deg; unfold nth_root_digits.
    - apply (root_digits_last 2 sqrt_inv newSqrtManager); try assumption.
      + lia.
      + apply sqrt_inv_incr.
      + apply sqrt_inv_Next.
      + apply sqrt_inv_NextDigit.
      + reflexivity.
      + reflexivity.
    - apply (root_digits_last 3 cube_inv newCubeRootManager);
        try assumption.
      + lia.
      + apply cube_inv_incr.
      + apply cube_inv_Next.
      + apply cube_inv_NextDigit.
      + reflexivity.
      + split; reflexivity. }
  destruct Hlast as (ds & d & exp & Hrun & Hlen & Hiff).
  exists ds, d, exp. split; [assumption|]. split; [assumption|].
  rewrite Hiff. unfold mantissa_times. rewrite Hlen.
  assert (Hn : 1 <= degree_n deg) by (destruct deg; simpl; lia).
  set (n := degree_n deg) in *.
  rewrite scaled_digits_power by lia.
  assert (0 < 10 ^ n) by (apply Z.pow_pos_nonneg; lia).
  assert (0 < (10 ^ n) ^ Z.max 0 (- exp)) by (apply Z.pow_pos_nonneg; lia).
  assert (0 < (10 ^ n) ^ Z.of_nat k) by (apply Z.pow_pos_nonneg; lia).
  rewrite Qfrac_eq by nia. split; intros E; nia.
Qed.

Lemma root_digits_end_iff_exact_witness :
  exists ds d exp,
    nth_root_digits Cube 50 27 8 (Datatypes.S 2) = Some (ds ++ [d], exp) /\
    List.length ds = 2%nat /\
    (d = -1 <->
     (Qpower (mantissa_times ds exp) (degree_n Cube)
      == inject_Z 27 / inject_Z 8)%Q).
Proof.
  apply (root_digits_end_iff_exact Cube 50 27 8 2); [lia | lia | simpl; lia].
Defined.

(** ** The repeating generator *)

Lemma wrap_small : forall z, MinInt <= z <= MaxInt -> wrap z = z.
Proof.
  intros z Hz. unfold wrap, MinInt, MaxInt in *.
  rewrite Z.mod_small by lia. lia.
Qed.

(** The captured variables of [gen] after [k] calls. *)
Definition repeating_state (fixed repeating : list Z) (k : nat) : Z * Z :=
  if (k <=? List.length fixed)%nat then (Z.of_nat k, 0)
  else if (List.length repeating =? 0)%nat then (len fixed, 0)
  else (len fixed,
        Z.of_nat ((k - List.length fixed) mod List.length repeating)).

Lemma repeatingGenerator_gen_step : forall fixed repeating exp k,
    len fixed < MaxInt -> len repeating < MaxInt ->
    repeatingGenerator_gen (newRepeatingGenerator fixed repeating exp)
      (repeating_state fixed repeating k)
    = Some (repeating_digit fixed repeating k,
            repeating_state fixed repeating (Datatypes.S k)).
Proof.
  intros fixed repeating exp k Hf Hr.
  unfold repeatingGenerator_gen, newRepeatingGenerator, repeating_state,
    repeating_digit, len in *.
  cbn [rg_fixed rg_repeating].
  set (F := List.length fixed) in *. set (R := List.length repeating) in *.
  assert (HMax : MaxInt = 2 ^ 63 - 1) by reflexivity.
  assert (HMin : MinInt = - 2 ^ 63) by reflexivity.
  destruct (Nat.leb_spec k F) as [HkF | HkF].
  - destruct (Z.ltb_spec (Z.of_nat k) (Z.of_nat F)) as [Hlt | Hge].
    + destruct (Nat.ltb_spec k F); [|lia].
      destruct (Nat.leb_spec (Datatypes.S k) F); [|lia].
      unfold index_data, int_add. rewrite Nat2Z.id.
      rewrite wrap_small by lia.
      repeat f_equal. lia.
    + assert (k = F) by lia. subst k.
      destruct (Nat.ltb_spec F F); [lia|].
      destruct (Nat.leb_spec (Datatypes.S F) F); [lia|].
      destruct (Z.eqb_spec (Z.of_nat R) 0) as [HR0 | HR0].
      * destruct (Nat.eqb_spec R 0); [|lia].
        destruct repeating; [reflexivity | discriminate].
      * destruct (Nat.eqb_spec R 0); [lia|].
        destruct repeating as [|r0 rep]; [simpl in *; lia|].
        rewrite Nat.sub_diag. unfold index_data, int_add.
        rewrite Nat.Div0.mod_0_l. cbn [Z.to_nat].
        rewrite wrap_small by lia.
        repeat f_equal.
        rewrite Z.rem_mod_nonneg by lia.
        replace (Datatypes.S F - F)%nat with 1%nat by lia.
        change (0 + 1) with (Z.of_nat 1).
        rewrite <- Nat2Z.inj_mod. reflexivity.
  - destruct (Nat.ltb_spec k F); [lia|].
    destruct (Nat.leb_spec (Datatypes.S k) F); [lia|].
    destruct (Nat.eqb_spec R 0) as [HR | HR].
    + destruct (Z.ltb_spec (Z.of_nat F) (Z.of_nat F)); [lia|].
      destruct (Z.eqb_spec (Z.of_nat R) 0); [|lia].
      destruct repeating; [reflexivity | discriminate].
    + destruct (Z.ltb_spec (Z.of_nat F) (Z.of_nat F)); [lia|].
      destruct (Z.eqb_spec (Z.of_nat R) 0); [lia|].
      destruct repeating as [|r0 rep]; [simpl in *; lia|].
      unfold index_data, int_add. rewrite Nat2Z.id.
      assert (Hmod : ((k - F) mod R < R)%nat)
        by (apply Nat.mod_upper_bound; lia).
      rewrite wrap_small by lia.
      repeat f_equal.
      rewrite Z.rem_mod_nonneg by lia.
      replace (Z.of_nat ((k - F) mod R) + 1)
        with (Z.of_nat (Datatypes.S ((k - F) mod R))) by lia.
      rewrite <- Nat2Z.inj_mod. f_equal.
      replace (Datatypes.S k - F)%nat with (Datatypes.S (k - F)) by lia.
      rewrite <- Nat.add_1_r, <- (Nat.add_1_r (k - F)).
      rewrite Nat.Div0.add_mod_idemp_l. reflexivity.
Qed.

Lemma repeatingGenerator_gen_calls : forall fixed repeating exp k j,
    len fixed < MaxInt -> len repeating < MaxInt ->
    calls (repeatingGenerator_gen (newRepeatingGenerator fixed repeating exp))
      k (repeating_state fixed repeating j)
    = Some (map (repeating_digit fixed repeating) (seq j k),
            repeating_state fixed repeating (j + k)).
Proof.
  intros fixed repeating exp k. induction k as [|k IH]; intros j Hf Hr.
  - cbn [calls seq map]. rewrite Nat.add_0_r. reflexivity.
  - cbn [calls seq map].
    rewrite repeatingGenerator_gen_step by assumption.
    rewrite IH by assumption.
    replace (Datatypes.S j + k)%nat with (j + Datatypes.S k)%nat by lia.
    reflexivity.
Qed.

Lemma repeatingGenerator_Generate_outputs : forall fixed repeating exp k,
    len fixed < MaxInt -> len repeating < MaxInt ->
    iter_outputs
      (fst (repeatingGenerator_Generate
              (newRepeatingGenerator fixed repeating exp))) k
    = Some (map (repeating_digit fixed repeating) (seq 0 k)).
Proof.
  intros fixed repeating exp k Hf Hr.
  unfold iter_outputs, repeatingGenerator_Generate.
  cbn [fst iter_call iter_state iter_St].
  change (0, 0) with (repeating_state fixed repeating 0).
  rewrite repeatingGenerator_gen_calls by assumption.
  reflexivity.
Qed.

(** X5.  The closure returned by [repeatingGenerator.Generate] yields, on
    its call number [k] (counted from 0), the digit at position [k] of
    the expansion [fixed] followed by [repeating] for ever, and -1 on
    every call past [fixed] when [repeating] is empty; the exponent is
    returned as given.  The slices must be shorter than the largest
    [int]. *)
Theorem repeatingGenerator_Generate_digits : forall fixed repeating exp k,
    len fixed < MaxInt -> len repeating < MaxInt ->
    iter_outputs
      (fst (repeatingGenerator_Generate
              (newRepeatingGenerator fixed repeating exp))) k
    = Some (map (repeating_digit fixed repeating) (seq 0 k))
    /\ snd (repeatingGenerator_Generate
              (newRepeatingGenerator fixed repeating exp)) = exp.
Proof.
  intros fixed repeating exp k Hf Hr. split; [|reflexivity].
  apply repeatingGenerator_Generate_outputs; assumption.
Qed.

Lemma repeatingGenerator_Generate_digits_witness :
  iter_outputs
    (fst (repeatingGenerator_Generate
            (newRepeatingGenerator [1; 0; 2] [0; 0; 3; 4] 2))) 9
  = Some [1; 0; 2; 0; 0; 3; 4; 0; 0]
  /\ snd (repeatingGenerator_Generate
            (newRepeatingGenerator [1; 0; 2] [0; 0; 3; 4] 2)) = 2.
Proof.
  apply (repeatingGenerator_Generate_digits [1; 0; 2] [0; 0; 3; 4] 2 9);
    vm_compute; reflexivity.
Defined.

(** ** firstAndThen *)

Lemma firstAndThen_rest : forall first (next : iterFn) k s,
    calls (iter_call (firstAndThen first next)) k (false, s)
    = match calls (iter_call next) k s with
      | None => None
      | Some (ds, s') => Some (ds, (false, s'))
      end.
Proof.
  intros first next k. induction k as [|k IH]; intros s.
  - reflexivity.
  - cbn [calls firstAndThen iter_call].
    destruct (iter_call next s) as [[x s']|]; [|reflexivity].
    specialize (IH s'). cbn [firstAndThen iter_call] in IH.
    rewrite IH.
    destruct (calls (iter_call next) k s') as [[ds s'']|]; reflexivity.
Qed.

(** X6. [firstAndThen first next] returns [first] on its first call and
    from then on whatever [next] returns: its first [k + 1] results are
    [first] followed by the first [k] results of [next]. *)
Theorem firstAndThen_outputs : forall first (next : iterFn) k,
    iter_outputs (firstAndThen first next) (Datatypes.S k)
    = option_map (cons first) (iter_outputs next k).
Proof.
  intros first next k. unfold iter_outputs.
  change (calls (iter_call (firstAndThen first next)) (Datatypes.S k)
            (iter_state (firstAndThen first next)))
    with (match calls (iter_call (firstAndThen first next)) k
                  (false, iter_state next) with
          | None => None
          | Some (ds, s'') => Some (first :: ds, s'')
          end).
  rewrite firstAndThen_rest.
  destruct (calls (iter_call next) k (iter_state next)) as [[ds s']|];
    reflexivity.
Qed.
(** ** The memoizer *)

(** The closure [it] with its captured variables replaced by [s]. *)
Definition iter_at (it : iterFn) (s : iter_St it) : iterFn :=
  {| iter_St := iter_St it; iter_state := s; iter_call := iter_call it |}.

(** The digits a producer yields before its first value outside 0..9. *)
Fixpoint valid_prefix (ds : list Z) : list Z :=
  match ds with
  | [] => []
  | d :: ds' => if digitOutOfRange d then [] else d :: valid_prefix ds'
  end.

(** The [context] a [*context] points to. *)
Definition context_of (w : world) (c : context_ptr) : option context :=
  match c with
  | global_context => Some (globalNumSpecContext w)
  | Context_ctxt a => option_map ctxt (nth_error (Contexts w) a)
  end.

Lemma valid_prefix_all : forall ds,
    validDigits ds = true -> valid_prefix ds = ds.
Proof.
  induction ds as [|d ds IH]; intros H; [reflexivity|].
  cbn [validDigits forallb valid_prefix] in *.
  apply andb_true_iff in H. destruct H as [Hd Hds].
  destruct (digitOutOfRange d); [discriminate|].
  f_equal. apply IH. exact Hds.
Qed.

Lemma valid_prefix_app : forall a b,
    valid_prefix (a ++ b)
    = if validDigits a then a ++ valid_prefix b else valid_prefix a.
Proof.
  induction a as [|d a IH]; intros b; [reflexivity|].
  cbn [app valid_prefix validDigits forallb].
  destruct (digitOutOfRange d); cbn [negb andb]; [reflexivity|].
  rewrite IH. fold (validDigits a).
  destruct (validDigits a); reflexivity.
Qed.

Lemma validDigits_app : forall a b,
    validDigits (a ++ b) = validDigits a && validDigits b.
Proof. intros a b. unfold validDigits. apply forallb_app. Qed.

Lemma valid_prefix_valid : forall ds, validDigits (valid_prefix ds) = true.
Proof.
  induction ds as [|d ds IH]; [reflexivity|].
  cbn [valid_prefix]. destruct (digitOutOfRange d) eqn:Hd; [reflexivity|].
  cbn [validDigits forallb]. rewrite Hd. exact IH.
Qed.

Lemma valid_prefix_length : forall ds,
    (List.length (valid_prefix ds) <= List.length ds)%nat.
Proof.
  induction ds as [|d ds IH]; [apply Nat.le_refl|].
  cbn [valid_prefix]. destruct (digitOutOfRange d); cbn [List.length]; lia.
Qed.

Lemma valid_prefix_short : forall ds,
    validDigits ds = false ->
    (List.length (valid_prefix ds) < List.length ds)%nat.
Proof.
  induction ds as [|d ds IH]; intros H; [discriminate|].
  cbn [valid_prefix validDigits forallb] in *.
  destruct (digitOutOfRange d); cbn [List.length negb andb] in *; [lia|].
  apply IH in H. lia.
Qed.

(** Two runs of one producer agree on the digits both have reached. *)
Lemma valid_prefix_firstn_app : forall a b k,
    validDigits a = false \/ (k <= List.length a)%nat ->
    firstn k (valid_prefix (a ++ b)) = firstn k (valid_prefix a).
Proof.
  intros a b k H. rewrite valid_prefix_app.
  destruct (validDigits a) eqn:Ha; [|reflexivity].
  destruct H as [H | H]; [discriminate|].
  rewrite (valid_prefix_all a Ha).
  rewrite firstn_app.
  replace (k - List.length a)%nat with 0%nat by lia.
  cbn [firstn]. apply app_nil_r.
Qed.

Lemma nth_of_firstn : forall (A : Type) (l : list A) i k d,
    (i < k)%nat -> nth i (firstn k l) d = nth i l d.
Proof.
  intros A l. induction l as [|x l IH]; intros i k d H.
  - rewrite firstn_nil. reflexivity.
  - destruct k; [lia|]. destruct i; cbn [firstn nth]; [reflexivity|].
    apply IH. lia.
Qed.

Lemma calls_prefix : forall (St : Type) (step : St -> option (Z * St))
    n N s ds1 s1 ds2 s2,
    (n <= N)%nat ->
    calls step n s = Some (ds1, s1) ->
    calls step N s = Some (ds2, s2) ->
    exists rest, ds2 = ds1 ++ rest /\ List.length ds1 = n.
Proof.
  intros St step n N s ds1 s1 ds2 s2 Hle H1 H2.
  replace N with (n + (N - n))%nat in H2 by lia.
  apply calls_split in H2.
  destruct H2 as (da & sa & db & Ha & _ & -> & Hlen).
  rewrite Ha in H1. injection H1 as <- <-.
  exists db. split; [reflexivity | assumption].
Qed.

Lemma calls_length : forall (St : Type) (step : St -> option (Z * St))
    n s ds s',
    calls step n s = Some (ds, s') -> List.length ds = n.
Proof.
  intros St step n s ds s' H.
  replace n with (n + 0)%nat in H by lia.
  apply calls_split in H.
  destruct H as (da & sa & db & _ & Hb & -> & Hlen).
  cbn [calls] in Hb. injection Hb as <- _.
  rewrite app_nil_r. exact Hlen.
Qed.

Lemma stream_prefix_agree : forall (St : Type) (step : St -> option (Z * St))
    n N s ds1 s1 ds2 s2 k,
    calls step n s = Some (ds1, s1) ->
    calls step N s = Some (ds2, s2) ->
    validDigits ds1 = false \/ (k <= n)%nat ->
    validDigits ds2 = false \/ (k <= N)%nat ->
    firstn k (valid_prefix ds1) = firstn k (valid_prefix ds2).
Proof.
  intros St step n N s ds1 s1 ds2 s2 k H1 H2 Hk1 Hk2.
  destruct (Nat.le_ge_cases n N) as [Hle | Hle].
  - destruct (calls_prefix _ step n N s ds1 s1 ds2 s2 Hle H1 H2)
      as (rest & -> & Hlen).
    symmetry. apply valid_prefix_firstn_app. rewrite Hlen. exact Hk1.
  - destruct (calls_prefix _ step N n s ds2 s2 ds1 s1 Hle H2 H1)
      as (rest & -> & Hlen).
    apply valid_prefix_firstn_app. rewrite Hlen. exact Hk2.
Qed.

(** The inner loop of the worker appends the digits before the first
    value outside 0..9 and reports whether there was one. *)
Lemma run_chunk_spec : forall (it0 : iterFn) j (s : iter_St it0) data ds s',
    calls (iter_call it0) j s = Some (ds, s') ->
    exists s'',
      run_chunk j (iter_at it0 s) data
      = Some (iter_at it0 s'', data ++ valid_prefix ds,
              negb (validDigits ds)) /\
      (validDigits ds = true -> s'' = s').
Proof.
  intros it0 j. induction j as [|j IH]; intros s data ds s' Hrun.
  - cbn [calls] in Hrun. injection Hrun as <- <-.
    exists s. cbn [run_chunk valid_prefix validDigits forallb negb].
    rewrite app_nil_r. auto.
  - cbn [calls] in Hrun.
    destruct (iter_call it0 s) as [[d s1]|] eqn:Hstep; [|discriminate].
    destruct (calls (iter_call it0) j s1) as [[ds1 s2]|] eqn:Hrest;
      [|discriminate].
    injection Hrun as <- <-.
    cbn [run_chunk]. unfold iter_next.
    cbn [iter_at iter_call iter_state iter_St].
    rewrite Hstep.
    cbn [valid_prefix validDigits forallb].
    destruct (digitOutOfRange d) eqn:Hd; cbn [negb andb].
    + exists s1. rewrite app_nil_r. split; [reflexivity | discriminate].
    + destruct (IH s1 (data ++ [d]) ds1 s2 Hrest) as (s'' & Hc & Hs).
      exists s''. split; [|exact Hs].
      change (run_chunk j (iter_at it0 s1) (data ++ [d])
              = Some (iter_at it0 s'', data ++ d :: valid_prefix ds1,
                      negb (validDigits ds1))).
      rewrite Hc. rewrite <- app_assoc. reflexivity.
Qed.

Lemma bind_Ret : forall (A B : Type) (c : exec A) (k : A -> exec B) w a w',
    c w = Ret a w' -> bind c k w = k a w'.
Proof. intros A B c k w a w' H. unfold bind. rewrite H. reflexivity. Qed.

Lemma get_context_of : forall w c x,
    context_of w c = Some x -> get_context c w = Ret x w.
Proof.
  intros w [|a] x H; cbn [context_of get_context] in *.
  - injection H as <-. reflexivity.
  - destruct (nth_error (Contexts w) a) as [C|] eqn:HC; [|discriminate].
    cbn [option_map] in H. injection H as <-.
    rewrite (bind_Ret _ _ _ _ _ _ _ (deref_Some _ Contexts a w C HC)).
    reflexivity.
Qed.

Lemma list_set_length : forall (A : Type) (l : list A) p a,
    List.length (list_set l p a) = List.length l.
Proof.
  intros A l. induction l as [|x l IH]; intros p a; [reflexivity|].
  destruct p; cbn [list_set List.length]; [reflexivity|].
  rewrite IH. reflexivity.
Qed.

Lemma list_set_same : forall (A : Type) (l : list A) p a,
    (p < List.length l)%nat -> nth_error (list_set l p a) p = Some a.
Proof.
  intros A l. induction l as [|x l IH]; intros p a H;
    cbn [List.length] in H; [lia|].
  destruct p; cbn [list_set nth_error]; [reflexivity|].
  apply IH. lia.
Qed.

Lemma list_set_other : forall (A : Type) (l : list A) p q a,
    q <> p -> nth_error (list_set l p a) q = nth_error l q.
Proof.
  intros A l. induction l as [|x l IH]; intros p q a H; [reflexivity|].
  destruct p, q; cbn [list_set nth_error]; try reflexivity; [lia|].
  apply IH. lia.
Qed.

(** What a call on the memoizer at [p] leaves as it was: the other
    memoizers, the limitSpecs, the FiniteNumbers, and which contexts
    are closed. *)
Record memo_frame (p : ptr) (w w' : world) : Prop := mkMemoFrame {
  frame_limitSpecs : limitSpecs w' = limitSpecs w;
  frame_FiniteNumbers : FiniteNumbers w' = FiniteNumbers w;
  frame_memoizers : forall q,
      q <> p -> nth_error (memoizers w') q = nth_error (memoizers w) q;
  frame_closed : forall c,
      option_map closed (context_of w' c) = option_map closed (context_of w c)
}.

Lemma memo_frame_refl : forall p w, memo_frame p w w.
Proof. intros p w. split; reflexivity. Qed.

Lemma memo_frame_trans : forall p w1 w2 w3,
    memo_frame p w1 w2 -> memo_frame p w2 w3 -> memo_frame p w1 w3.
Proof.
  intros p w1 w2 w3 [A1 B1 C1 E1] [A2 B2 C2 E2]. split.
  - congruence.
  - congruence.
  - intros q Hq. rewrite C2, C1 by assumption. reflexivity.
  - intros c. rewrite E2, E1. reflexivity.
Qed.

Lemma set_memoizer_spec : forall p m m' w,
    nth_error (memoizers w) p = Some m ->
    exists w',
      set_memoizer p m' w = Ret tt w' /\
      nth_error (memoizers w') p = Some m' /\
      memo_frame p w w' /\
      (forall c, context_of w' c = context_of w c).
Proof.
  intros p m m' w Hm. eexists. split; [reflexivity|].
  assert (Hp : (p < List.length (memoizers w))%nat).
  { apply nth_error_Some. rewrite Hm. discriminate. }
  split; [|split].
  - cbn [memoizers]. apply list_set_same. exact Hp.
  - split; cbn [memoizers limitSpecs FiniteNumbers Contexts]; try reflexivity.
    intros q Hq. apply list_set_other. exact Hq.
  - intros [|a]; reflexivity.
Qed.

Lemma set_context_spec : forall p c x y w,
    context_of w c = Some x -> closed y = closed x ->
    exists w',
      set_context c y w = Ret tt w' /\
      memoizers w' = memoizers w /\
      memo_frame p w w'.
Proof.
  intros p [|a] x y w Hx Hy; cbn [context_of set_context] in *.
  - eexists. split; [reflexivity|]. split; [reflexivity|].
    split; cbn [memoizers limitSpecs FiniteNumbers Contexts]; try reflexivity.
    intros [|b]; cbn [context_of globalNumSpecContext Contexts];
      [|reflexivity].
    injection Hx as <-. cbn [option_map]. congruence.
  - destruct (nth_error (Contexts w) a) as [C|] eqn:HC; [|discriminate].
    cbn [option_map] in Hx. injection Hx as <-.
    assert (Ha : (a < List.length (Contexts w))%nat).
    { apply nth_error_Some. rewrite HC. discriminate. }
    eexists. split.
    { rewrite (bind_Ret _ _ _ _ _ _ _ (deref_Some _ Contexts a w C HC)).
      reflexivity. }
    split; [reflexivity|].
    split; cbn [memoizers limitSpecs FiniteNumbers Contexts]; try reflexivity.
    intros [|b]; cbn [context_of globalNumSpecContext Contexts];
      [reflexivity|].
    destruct (Nat.eq_dec b a) as [-> | Hb].
    + rewrite list_set_same by exact Ha. rewrite HC.
      cbn [option_map ctxt]. congruence.
    + rewrite list_set_other by exact Hb. reflexivity.
Qed.

Lemma context_End_spec : forall p c x w,
    context_of w c = Some x ->
    exists w',
      context_End c w = Ret tt w' /\
      memoizers w' = memoizers w /\
      memo_frame p w w'.
Proof.
  intros p c x w Hx. unfold context_End.
  destruct (set_context_spec p c x
              {| active := active x + -1; closed := closed x |} w Hx
              eq_refl) as (w' & Hset & Hm & Hf).
  exists w'. split; [|split; assumption].
  rewrite (bind_Ret _ _ _ _ _ _ _ (get_context_of w c x Hx)). exact Hset.
Qed.

Lemma memoizer_setData_spec : forall p m iter data done chunks w,
    nth_error (memoizers w) p = Some m ->
    exists w',
      memoizer_setData p iter data done chunks w = Ret tt w' /\
      nth_error (memoizers w') p
      = Some {| m_iter := iter; m_ctxt := m_ctxt m; m_data := data;
                m_maxLength := m_maxLength m; m_done := done;
                m_chunks := chunks |} /\
      memo_frame p w w' /\
      (forall c, context_of w' c = context_of w c).
Proof.
  intros p m iter data done chunks w Hm. unfold memoizer_setData.
  destruct (set_memoizer_spec p m
              {| m_iter := iter; m_ctxt := m_ctxt m; m_data := data;
                 m_maxLength := m_maxLength m; m_done := done;
                 m_chunks := chunks |} w Hm) as (w' & Hset & H).
  exists w'. split; [|exact H].
  rewrite (bind_Ret _ _ _ _ _ _ _ (deref_Some _ memoizers p w m Hm)).
  exact Hset.
Qed.

(** One turn of the worker in a Context that is not closed. *)
Lemma memoizer_run_turn_spec :
  forall (it0 : iterFn) p w m x (s : iter_St it0) ds s',
    nth_error (memoizers w) p = Some m ->
    m_iter m = iter_at it0 s ->
    context_of w (m_ctxt m) = Some x -> closed x = false ->
    calls (iter_call it0) 100 s = Some (ds, s') ->
    m_chunks m + 1 < kMaxChunks ->
    exists w' s'',
      memoizer_run_turn p w = Ret tt w' /\
      nth_error (memoizers w') p
      = Some {| m_iter := iter_at it0 s''; m_ctxt := m_ctxt m;
                m_data := m_data m ++ valid_prefix ds;
                m_maxLength := m_maxLength m;
                m_done := negb (validDigits ds);
                m_chunks := if validDigits ds then m_chunks m + 1
                            else m_chunks m |} /\
      (validDigits ds = true -> s'' = s') /\
      memo_frame p w w'.
Proof.
  intros it0 p w m x s ds s' Hm Hiter Hx Hopen Hcalls Hchunks.
  unfold memoizer_run_turn.
  rewrite (bind_Ret _ _ _ _ _ _ _ (deref_Some _ memoizers p w m Hm)).
  change (Z.to_nat kMemoizerChunkSize) with 100%nat.
  rewrite Hiter.
  destruct (run_chunk_spec it0 100 s (m_data m) ds s' Hcalls)
    as (s'' & Hchunk & Hs'').
  rewrite Hchunk.
  destruct (validDigits ds) eqn:Hvalid; cbn [negb].
  - rewrite (bind_Ret _ _ (context_Closed (m_ctxt m)) _ w false w).
    2:{ unfold context_Closed.
        rewrite (bind_Ret _ _ _ _ _ _ _ (get_context_of w _ x Hx)).
        unfold ret. rewrite Hopen. reflexivity. }
    destruct (Z.ltb_spec (m_chunks m + 1) kMaxChunks); [|lia].
    destruct (memoizer_setData_spec p m (iter_at it0 s'')
                (m_data m ++ valid_prefix ds) false (m_chunks m + 1) w Hm)
      as (w' & Hset & Hm' & Hf & _).
    exists w', s''. auto.
  - destruct (memoizer_setData_spec p m (iter_at it0 s'')
                (m_data m ++ valid_prefix ds) true (m_chunks m) w Hm)
      as (w1 & Hset & Hm1 & Hf1 & Hc1).
    rewrite (bind_Ret _ _ _ _ _ _ _ Hset).
    assert (Hx1 : context_of w1 (m_ctxt m) = Some x) by (rewrite Hc1; exact Hx).
    destruct (context_End_spec p (m_ctxt m) x w1 Hx1)
      as (w' & Hend & Hmem & Hf2).
    exists w', s''. split; [exact Hend|]. split; [|split].
    + rewrite Hmem. exact Hm1.
    + discriminate.
    + eapply memo_frame_trans; eassumption.
Qed.

Lemma memoizer_run_parked : forall fuel p w m,
    nth_error (memoizers w) p = Some m ->
    negb (m_done m) && (len (m_data m) <? m_maxLength m) = false ->
    memoizer_run fuel p w = Ret tt w.
Proof.
  intros fuel p w m Hm Hcond.
  destruct fuel; cbn [memoizer_run];
    rewrite (bind_Ret _ _ _ _ _ _ _ (deref_Some _ memoizers p w m Hm));
    rewrite Hcond; reflexivity.
Qed.

(** The worker, woken with [maxLength = 100 * c], runs until it has
    [100 * c] digits or the producer has signalled the end. *)
Lemma memoizer_run_spec :
  forall (it0 : iterFn) p c dsT sT,
    c < kMaxChunks ->
    calls (iter_call it0) (Z.to_nat (100 * c)) (iter_state it0)
    = Some (dsT, sT) ->
    forall (remaining fuel : nat) w m x (s : iter_St it0),
      nth_error (memoizers w) p = Some m ->
      m_done m = false ->
      m_iter m = iter_at it0 s ->
      calls (iter_call it0) (List.length (m_data m)) (iter_state it0)
      = Some (m_data m, s) ->
      validDigits (m_data m) = true ->
      len (m_data m) = 100 * m_chunks m ->
      m_maxLength m = 100 * c ->
      Z.of_nat remaining = c - m_chunks m ->
      (remaining <= fuel)%nat ->
      context_of w (m_ctxt m) = Some x -> closed x = false ->
      exists w' m',
        memoizer_run fuel p w = Ret tt w' /\
        nth_error (memoizers w') p = Some m' /\
        memo_frame p w w' /\
        m_ctxt m' = m_ctxt m /\
        m_data m' = valid_prefix dsT /\
        m_done m' = negb (validDigits dsT) /\
        (validDigits dsT = true ->
         m_iter m' = iter_at it0 sT /\ m_chunks m' = c /\
         m_maxLength m' = 100 * c).
Proof.
  intros it0 p c dsT sT Hc HT.
  induction remaining as [|r IH];
    intros fuel w m x s Hm Hdone Hiter Hcalls Hvalid Hlen Hmax Hrem Hfuel
           Hx Hopen.
  - assert (Hchunks : m_chunks m = c) by lia.
    assert (Hn : List.length (m_data m) = Z.to_nat (100 * c)).
    { unfold len in Hlen. lia. }
    rewrite Hn in Hcalls. rewrite HT in Hcalls. injection Hcalls as -> ->.
    exists w, m. split.
    { apply memoizer_run_parked with (m := m); [exact Hm|].
      rewrite Hdone. cbn [negb andb].
      apply Z.ltb_ge. lia. }
    split; [exact Hm|]. split; [apply memo_frame_refl|].
    split; [reflexivity|].
    split; [symmetry; apply valid_prefix_all; exact Hvalid|].
    split; [rewrite Hvalid; exact Hdone|].
    intros _. auto.
  - destruct fuel as [|fuel]; [lia|].
    assert (Hsplit : Z.to_nat (100 * c)
                     = ((List.length (m_data m) + 100)
                        + (Z.to_nat (100 * c) - List.length (m_data m)
                           - 100))%nat).
    { unfold len in Hlen. lia. }
    pose proof HT as HT'. rewrite Hsplit in HT'.
    apply calls_split in HT'.
    destruct HT' as (dab & sab & drest & Hab & Hrest & HdsT & _).
    apply calls_split in Hab.
    destruct Hab as (da & sa & db & Ha & Hb & Hdab & _).
    rewrite Ha in Hcalls. injection Hcalls as -> ->.
    destruct (memoizer_run_turn_spec it0 p w m x s db sab Hm Hiter Hx Hopen
                Hb ltac:(lia))
      as (w1 & s1 & Hturn & Hm1 & Hs1 & Hf1).
    cbn [memoizer_run].
    rewrite (bind_Ret _ _ _ _ _ _ _ (deref_Some _ memoizers p w m Hm)).
    rewrite Hdone. cbn [negb andb].
    destruct (Z.ltb_spec (len (m_data m)) (m_maxLength m)); [|lia].
    rewrite (bind_Ret _ _ _ _ _ _ _ Hturn).
    assert (Hclosed1 : exists x1,
               context_of w1 (m_ctxt m) = Some x1 /\ closed x1 = false).
    { pose proof (frame_closed _ _ _ Hf1 (m_ctxt m)) as Hcl.
      rewrite Hx in Hcl. cbn [option_map] in Hcl.
      destruct (context_of w1 (m_ctxt m)) as [x1|]; [|discriminate].
      cbn [option_map] in Hcl. exists x1. split; congruence. }
    destruct Hclosed1 as (x1 & Hx1 & Hopen1).
    destruct (validDigits db) eqn:Hvb.
    + specialize (Hs1 eq_refl). subst s1.
      cbn [negb] in Hm1.
      edestruct (IH fuel w1 _ x1 sab Hm1)
        as (w' & m' & Hrun & Hm' & Hf' & Hctx & Hdata & Hdone' & Hrest');
        cbn [m_done m_iter m_data m_maxLength m_chunks m_ctxt];
        try reflexivity; try assumption.
      * rewrite valid_prefix_all by exact Hvb.
        rewrite length_app.
        replace (List.length db) with 100%nat
          by (symmetry; eapply calls_length; eassumption).
        assert (Hab : calls (iter_call it0) (List.length (m_data m) + 100)
                        (iter_state it0) = Some (m_data m ++ db, sab)).
        { clear - Ha Hb.
          revert Ha Hb. generalize (iter_state it0) as s0.
          generalize (List.length (m_data m)) as a.
          generalize (m_data m) as da.
          intros da a. revert da.
          induction a as [|a IHa]; intros da s0 Ha Hb.
          - cbn [calls] in Ha. injection Ha as <- <-. exact Hb.
          - cbn [calls] in Ha.
            destruct (iter_call it0 s0) as [[d s1]|] eqn:Hstep;
              [|discriminate].
            destruct (calls (iter_call it0) a s1) as [[ds1 s2]|] eqn:Hr;
              [|discriminate].
            injection Ha as <- <-.
            cbn [Nat.add calls]. rewrite Hstep.
            rewrite (IHa ds1 s1 Hr Hb). reflexivity. }
        exact Hab.
      * rewrite valid_prefix_all by exact Hvb.
        rewrite validDigits_app, Hvalid, Hvb. reflexivity.
      * rewrite valid_prefix_all by exact Hvb.
        unfold len in *. rewrite length_app.
        replace (List.length db) with 100%nat
          by (symmetry; eapply calls_length; eassumption).
        lia.
      * lia.
      * lia.
      * exists w', m'. split; [exact Hrun|]. split; [exact Hm'|].
        split; [eapply memo_frame_trans; eassumption|].
        split; [exact Hctx|]. auto.
    + cbn [negb] in Hm1.
      exists w1. eexists. split.
      { apply memoizer_run_parked with (1 := Hm1). reflexivity. }
      split; [exact Hm1|]. split; [exact Hf1|].
      cbn [m_ctxt m_data m_done m_iter m_chunks m_maxLength].
      split; [reflexivity|].
      assert (HvT : validDigits dsT = false).
      { rewrite HdsT, Hdab. rewrite !validDigits_app, Hvb.
        rewrite andb_false_r. reflexivity. }
      split; [|split].
      * rewrite HdsT, Hdab. rewrite <- app_assoc.
        rewrite valid_prefix_app, Hvalid.
        rewrite valid_prefix_app, Hvb. reflexivity.
      * rewrite HvT. reflexivity.
      * rewrite HvT. discriminate.
Qed.

(** [memo_ok it0 m]: the memoizer [m] holds digits of the producer
    [it0] and its worker is parked or has returned.  A worker that has
    returned found the end of the digits; one that is parked has called
    the producer once per digit it holds and has chunks left. *)
Definition memo_ok (it0 : iterFn) (m : memoizer) : Prop :=
  if m_done m then
    exists n ds s,
      calls (iter_call it0) n (iter_state it0) = Some (ds, s) /\
      validDigits ds = false /\
      m_data m = valid_prefix ds
  else
    exists s,
      m_iter m = iter_at it0 s /\
      calls (iter_call it0) (List.length (m_data m)) (iter_state it0)
      = Some (m_data m, s) /\
      validDigits (m_data m) = true /\
      len (m_data m) = 100 * m_chunks m /\
      m_maxLength m = len (m_data m) /\
      m_chunks m < kMaxChunks.

(** [memoizes it0 p w]: in [w], the memoizer at [p] memoizes [it0] and
    its Context is not closed. *)
Definition memoizes (it0 : iterFn) (p : ptr) (w : world) : Prop :=
  exists m x,
    nth_error (memoizers w) p = Some m /\
    memo_ok it0 m /\
    context_of w (m_ctxt m) = Some x /\ closed x = false.

Lemma kMaxChunks_value : kMaxChunks = 92233720368547758.
Proof. vm_compute. reflexivity. Qed.

Lemma frame_open : forall p w w' c x,
    memo_frame p w w' ->
    context_of w c = Some x -> closed x = false ->
    exists x', context_of w' c = Some x' /\ closed x' = false.
Proof.
  intros p w w' c x Hf Hx Hopen.
  pose proof (frame_closed _ _ _ Hf c) as Hcl.
  rewrite Hx in Hcl. cbn [option_map] in Hcl.
  destruct (context_of w' c) as [x'|]; [|discriminate].
  cbn [option_map] in Hcl. exists x'. split; congruence.
Qed.

(** Digits the memoizer already holds are read without waking the
    worker. *)
Lemma memoizer_wait_cached : forall fuel p index w m,
    nth_error (memoizers w) p = Some m ->
    negb (m_done m) && (len (m_data m) <? m_maxLength m) = false ->
    m_done m = true \/ index < m_maxLength m ->
    memoizer_wait fuel p index w
    = Ret (m_data m, len (m_data m) >? index) w.
Proof.
  intros fuel p index w m Hm Hparked Hreach. unfold memoizer_wait.
  rewrite (bind_Ret _ _ _ _ _ _ _ (deref_Some _ memoizers p w m Hm)).
  assert (Hcond : negb (m_done m) && (m_maxLength m <=? index) = false).
  { destruct Hreach as [-> | Hlt]; [reflexivity|].
    apply andb_false_iff. right. apply Z.leb_gt. exact Hlt. }
  rewrite Hcond.
  rewrite (bind_Ret _ _ (ret tt) _ w tt w eq_refl).
  rewrite (bind_Ret _ _ _ _ _ _ _ (memoizer_run_parked fuel p w m Hm Hparked)).
  rewrite (bind_Ret _ _ _ _ _ _ _ (deref_Some _ memoizers p w m Hm)).
  reflexivity.
Qed.

(** [wait] in a Context that is not closed: the data it returns agrees
    with the producer up to [index], and holds position [index] unless
    the digits end before it. *)
Lemma memoizer_wait_spec :
  forall (it0 : iterFn) p w fuel index N ds sN,
    memoizes it0 p w ->
    0 <= index < 100 * (kMaxChunks - 1) ->
    index / 100 < Z.of_nat fuel ->
    100 * (index / 100 + 1) <= Z.of_nat N ->
    calls (iter_call it0) N (iter_state it0) = Some (ds, sN) ->
    exists w' m',
      memoizer_wait fuel p index w
      = Ret (m_data m', len (m_data m') >? index) w' /\
      nth_error (memoizers w') p = Some m' /\
      memoizes it0 p w' /\
      memo_frame p w w' /\
      firstn (Datatypes.S (Z.to_nat index)) (m_data m')
      = firstn (Datatypes.S (Z.to_nat index)) (valid_prefix ds) /\
      negb (m_done m') && (len (m_data m') <? m_maxLength m') = false /\
      (m_done m' = true \/ index < m_maxLength m').
Proof.
  intros it0 p w fuel index N ds sN (m & x & Hm & Hok & Hx & Hopen)
         Hindex Hfuel HN Hds.
  pose proof kMaxChunks_value as HK.
  assert (Hdiv : 0 <= index / 100) by (apply Z.div_pos; lia).
  assert (Hmod : 100 * (index / 100) <= index < 100 * (index / 100) + 100).
  { pose proof (Z.div_mod index 100 ltac:(lia)).
    pose proof (Z.mod_pos_bound index 100 ltac:(lia)). lia. }
  unfold memo_ok in Hok. destruct (m_done m) eqn:Hdone.
  - destruct Hok as (n & d1 & s1 & Hcalls & Hinvalid & Hdata).
    exists w, m. split.
    { apply memoizer_wait_cached; [exact Hm | | auto].
      rewrite Hdone. reflexivity. }
    split; [exact Hm|]. split.
    { exists m, x. split; [exact Hm|]. split; [|auto].
      unfold memo_ok. rewrite Hdone. exists n, d1, s1. auto. }
    split; [apply memo_frame_refl|]. split.
    { rewrite Hdata.
      apply (stream_prefix_agree _ _ n N _ d1 s1 ds sN _ Hcalls Hds);
        [left; exact Hinvalid | right; lia]. }
    rewrite Hdone. auto.
  - destruct Hok as (s & Hiter & Hcalls & Hvalid & Hlen & Hmax & Hbelow).
    destruct (Z.leb_spec (m_maxLength m) index) as [Hgrow | Hcached].
    + set (c := index / 100 + 1).
      assert (Hquot : int_div index kMemoizerChunkSize = index / 100).
      { unfold int_div, kMemoizerChunkSize.
        rewrite Z.quot_div_nonneg by lia.
        apply wrap_small. unfold MinInt, MaxInt. lia. }
      assert (Hc : int_add (int_div index kMemoizerChunkSize) 1 = c).
      { rewrite Hquot. unfold int_add. apply wrap_small.
        unfold MinInt, MaxInt. lia. }
      assert (Hmul : int_mul kMemoizerChunkSize c = 100 * c).
      { unfold int_mul, kMemoizerChunkSize. apply wrap_small.
        unfold MinInt, MaxInt, c. lia. }
      assert (HT : exists dsT sT,
                 calls (iter_call it0) (Z.to_nat (100 * c)) (iter_state it0)
                 = Some (dsT, sT)).
      { replace N with (Z.to_nat (100 * c) + (N - Z.to_nat (100 * c)))%nat
          in Hds by (unfold c; lia).
        apply calls_split in Hds.
        destruct Hds as (dsT & sT & _ & HT & _). eauto. }
      destruct HT as (dsT & sT & HT).
      set (m1 := {| m_iter := m_iter m; m_ctxt := m_ctxt m;
                    m_data := m_data m; m_maxLength := 100 * c;
                    m_done := m_done m; m_chunks := m_chunks m |}).
      destruct (set_memoizer_spec p m m1 w Hm)
        as (w1 & Hset & Hm1 & Hf1 & Hc1).
      assert (Hx1 : context_of w1 (m_ctxt m1) = Some x)
        by (rewrite Hc1; exact Hx).
      destruct (memoizer_run_spec it0 p c dsT sT ltac:(unfold c; lia) HT
                  (Z.to_nat (c - m_chunks m)) fuel w1 m1 x s Hm1)
        as (w' & m' & Hrun & Hm' & Hf' & Hctx & Hdata & Hdone' & Hrest);
        cbn [m1 m_done m_iter m_data m_maxLength m_chunks m_ctxt];
        try assumption; try reflexivity.
      { unfold c. lia. }
      { unfold c, len in *. lia. }
      exists w', m'. split.
      { unfold memoizer_wait.
        rewrite (bind_Ret _ _ _ _ _ _ _ (deref_Some _ memoizers p w m Hm)).
        rewrite Hdone. cbn [negb andb].
        destruct (Z.leb_spec (m_maxLength m) index); [|lia].
        rewrite Hc.
        assert (Hcap : (c >? kMaxChunks) = false).
        { rewrite Z.gtb_ltb. apply Z.ltb_ge. unfold c. lia. }
        rewrite Hcap, Hmul.
        fold m1 in Hset. rewrite <- Hdone.
        change {| m_iter := m_iter m; m_ctxt := m_ctxt m;
                  m_data := m_data m; m_maxLength := 100 * c;
                  m_done := m_done m; m_chunks := m_chunks m |} with m1.
        rewrite (bind_Ret _ _ _ _ _ _ _ Hset).
        rewrite (bind_Ret _ _ _ _ _ _ _ Hrun).
        rewrite (bind_Ret _ _ _ _ _ _ _ (deref_Some _ memoizers p w' m' Hm')).
        reflexivity. }
      split; [exact Hm'|].
      assert (Hframe : memo_frame p w w')
        by (eapply memo_frame_trans; eassumption).
      destruct (frame_open p w w' (m_ctxt m) x Hframe Hx Hopen)
        as (x' & Hx' & Hopen').
      assert (HlenT : List.length dsT = Z.to_nat (100 * c))
        by (eapply calls_length; eassumption).
      split.
      { exists m', x'. split; [exact Hm'|]. split.
        - unfold memo_ok. rewrite Hdone'.
          destruct (validDigits dsT) eqn:HvT; cbn [negb].
          + destruct (Hrest eq_refl) as (Hi & Hch & Hml).
            exists sT. rewrite Hdata, (valid_prefix_all dsT HvT).
            rewrite HlenT. unfold len. rewrite HlenT.
            repeat split; try assumption; unfold c in *; lia.
          + exists (Z.to_nat (100 * c)), dsT, sT. auto.
        - rewrite Hctx. cbn [m1 m_ctxt]. auto. }
      split; [exact Hframe|]. split.
      { rewrite Hdata.
        apply (stream_prefix_agree _ _ _ N _ dsT sT ds sN _ HT Hds);
          right; unfold c; lia. }
      rewrite Hdone', Hdata.
      destruct (validDigits dsT) eqn:HvT; cbn [negb andb]; [|auto].
      destruct (Hrest eq_refl) as (Hi & Hch & Hml).
      rewrite (valid_prefix_all dsT HvT). unfold len. rewrite HlenT, Hml.
      split; [apply Z.ltb_ge; lia | right; unfold c; lia].
    + exists w, m.
      assert (Hparked : negb (m_done m) && (len (m_data m) <? m_maxLength m)
                        = false).
      { apply andb_false_iff. right. apply Z.ltb_ge. lia. }
      split; [apply memoizer_wait_cached; auto|].
      split; [exact Hm|]. split.
      { exists m, x. split; [exact Hm|]. split; [|auto].
        unfold memo_ok. rewrite Hdone. exists s.
        repeat split; assumption. }
      split; [apply memo_frame_refl|]. split; [|auto].
      rewrite <- (valid_prefix_all (m_data m) Hvalid) at 1.
      apply (stream_prefix_agree _ _ _ N _ _ s ds sN _ Hcalls Hds);
        right; unfold len in *; lia.
Qed.

Lemma memoizes_stable : forall it q w w',
    nth_error (memoizers w') q = nth_error (memoizers w) q ->
    (forall c, option_map closed (context_of w' c)
               = option_map closed (context_of w c)) ->
    memoizes it q w -> memoizes it q w'.
Proof.
  intros it q w w' Hq Hcl (m & x & Hm & Hok & Hx & Hopen).
  specialize (Hcl (m_ctxt m)). rewrite Hx in Hcl. cbn [option_map] in Hcl.
  destruct (context_of w' (m_ctxt m)) as [x'|] eqn:Hx'; [|discriminate].
  cbn [option_map] in Hcl.
  exists m, x'. rewrite Hq. split; [exact Hm|]. split; [exact Hok|].
  split; congruence.
Qed.

Lemma memoizes_frame : forall it p q w w',
    memo_frame p w w' -> q <> p -> memoizes it q w -> memoizes it q w'.
Proof.
  intros it p q w w' Hf Hq. apply memoizes_stable.
  - apply (frame_memoizers _ _ _ Hf). exact Hq.
  - apply (frame_closed _ _ _ Hf).
Qed.

Lemma nth_from_firstn : forall (l l' : list Z) i k,
    (i < k)%nat -> firstn k l = firstn k l' -> nth i l (-1) = nth i l' (-1).
Proof.
  intros l l' i k Hi H.
  rewrite <- (nth_of_firstn _ l i k (-1) Hi), H.
  apply nth_of_firstn. exact Hi.
Qed.

Lemma validDigits_nth : forall ds i,
    validDigits ds = true -> (i < List.length ds)%nat ->
    digitOutOfRange (nth i ds 0) = false.
Proof.
  induction ds as [|d ds IH]; intros i Hv Hi; cbn [List.length] in Hi; [lia|].
  cbn [validDigits forallb] in Hv. apply andb_true_iff in Hv.
  destruct Hv as [Hd Hds]. destruct i; cbn [nth].
  - apply negb_true_iff. exact Hd.
  - apply IH; [exact Hds | lia].
Qed.

(** ** Numbers and their producers *)

(** The [*context] a [*Context] hands to its memoizers. *)
Definition context_ptr_of (c : option ptr) : context_ptr :=
  match c with
  | None => global_context
  | Some a => Context_ctxt a
  end.

(** [number_of it0 exp n w]: in [w], [n] is a Number with exponent [exp]
    whose mantissa is a memoizer of the producer [it0]. *)
Definition number_of (it0 : iterFn) (exp : Z) (n : Number) (w : world)
  : Prop :=
  exists p,
    nth_error (FiniteNumbers w) (Number_ptr n)
    = Some {| fn_mantissa := {| spec := spec_memoizer p |};
              fn_exponent := exp |} /\
    memoizes it0 p w.

Lemma newMemoizeSpec_memoizes : forall it0 c w x,
    context_of w c = Some x -> closed x = false ->
    exists w',
      newMemoizeSpec it0 c w
      = Ret (spec_memoizer (List.length (memoizers w))) w' /\
      memoizes it0 (List.length (memoizers w)) w' /\
      memo_frame (List.length (memoizers w)) w w' /\
      (forall a, option_map specs (nth_error (Contexts w') a)
                 = option_map specs (nth_error (Contexts w) a)).
Proof.
  intros it0 c w x Hx Hopen. unfold newMemoizeSpec.
  set (m := {| m_iter := it0; m_ctxt := c; m_data := []; m_maxLength := 0;
               m_done := false; m_chunks := 0 |}).
  set (p := List.length (memoizers w)).
  set (w0 := {| memoizers := memoizers w ++ [m];
                limitSpecs := limitSpecs w;
                FiniteNumbers := FiniteNumbers w;
                Contexts := Contexts w;
                globalNumSpecContext := globalNumSpecContext w |}).
  assert (Hnew : new_memoizer m w = Ret p w0) by reflexivity.
  assert (Hx0 : context_of w0 c = Some x) by (destruct c; exact Hx).
  assert (Hf0 : memo_frame p w w0).
  { split; try reflexivity.
    intros q Hq. cbn [w0 memoizers].
    destruct (Nat.lt_ge_cases q p) as [Hlt | Hge].
    - apply nth_error_app1. exact Hlt.
    - transitivity (@None memoizer); [|symmetry];
        apply nth_error_None; [rewrite length_app; cbn [List.length]|];
        fold p; lia. }
  destruct (set_context_spec p c x
              {| active := active x + 1; closed := closed x |} w0 Hx0
              eq_refl) as (w' & Hset & Hmem & Hf1).
  exists w'.
  assert (Hstart : context_Start c w0 = Ret tt w').
  { unfold context_Start.
    rewrite (bind_Ret _ _ _ _ _ _ _ (get_context_of w0 c x Hx0)).
    exact Hset. }
  split.
  { rewrite (bind_Ret _ _ _ _ _ _ _ Hnew).
    rewrite (bind_Ret _ _ _ _ _ _ _ Hstart). reflexivity. }
  assert (Hm0 : nth_error (memoizers w0) p = Some m).
  { cbn [w0 memoizers]. apply nth_error_app_last. }
  destruct (frame_open p w0 w' c x Hf1 Hx0 Hopen) as (x' & Hx' & Hopen').
  split; [|split].
  - exists m, x'. rewrite Hmem. split; [exact Hm0|]. split; [|auto].
    unfold memo_ok. cbn [m m_done]. exists (iter_state it0).
    cbn [m_iter m_data m_chunks m_maxLength List.length calls].
    repeat split. destruct it0; reflexivity.
  - eapply memo_frame_trans; eassumption.
  - intros a. clear - Hset Hx0.
    destruct c as [|b]; cbn [set_context] in Hset.
    + injection Hset as <-. reflexivity.
    + cbn [context_of] in Hx0.
      destruct (nth_error (Contexts w0) b) as [C|] eqn:HC; [|discriminate].
      rewrite (bind_Ret _ _ _ _ _ _ _ (deref_Some _ Contexts b w0 C HC))
        in Hset.
      injection Hset as <-. cbn [Contexts].
      destruct (Nat.eq_dec a b) as [-> | Hab].
      * rewrite list_set_same
          by (apply nth_error_Some; cbn [w0 Contexts] in HC |- *;
              rewrite HC; discriminate).
        cbn [w0 Contexts] in HC. rewrite HC. reflexivity.
      * rewrite list_set_other by exact Hab. reflexivity.
Qed.

Lemma Context_newMemoizeSpec_memoizes : forall it0 c w x,
    context_of w (context_ptr_of c) = Some x -> closed x = false ->
    exists w',
      Context_newMemoizeSpec c it0 w
      = Ret (spec_memoizer (List.length (memoizers w))) w' /\
      memoizes it0 (List.length (memoizers w)) w' /\
      memo_frame (List.length (memoizers w)) w w'.
Proof.
  intros it0 c w x Hx Hopen.
  destruct (newMemoizeSpec_memoizes it0 (context_ptr_of c) w x Hx Hopen)
    as (w1 & Hnew & Hmemo & Hf & Hspecs).
  destruct c as [a|]; cbn [Context_newMemoizeSpec context_ptr_of] in *;
    [|exists w1; auto].
  rewrite (bind_Ret _ _ (context_Closed (Context_ctxt a)) _ w false w).
  2:{ unfold context_Closed.
      rewrite (bind_Ret _ _ _ _ _ _ _ (get_context_of w _ x Hx)).
      unfold ret. rewrite Hopen. reflexivity. }
  rewrite (bind_Ret _ _ _ _ _ _ _ Hnew).
  destruct (frame_open _ w w1 (Context_ctxt a) x Hf Hx Hopen)
    as (x1 & Hx1 & Hopen1).
  cbn [context_of] in Hx1.
  destruct (nth_error (Contexts w1) a) as [C1|] eqn:HC1; [|discriminate].
  cbn [option_map] in Hx1. injection Hx1 as <-.
  rewrite (bind_Ret _ _ _ _ _ _ _ (deref_Some _ Contexts a w1 C1 HC1)).
  eexists. split; [reflexivity|].
  assert (Hcl : forall c,
             option_map closed
               (context_of
                  {| memoizers := memoizers w1;
                     limitSpecs := limitSpecs w1;
                     FiniteNumbers := FiniteNumbers w1;
                     Contexts :=
                       list_set (Contexts w1) a
                         {| ctxt := ctxt C1;
                            specs := specs C1
                                     ++ [spec_memoizer
                                           (List.length (memoizers w))] |};
                     globalNumSpecContext := globalNumSpecContext w1 |} c)
             = option_map closed (context_of w1 c)).
  { intros [|b]; cbn [context_of globalNumSpecContext Contexts];
      [reflexivity|].
    destruct (Nat.eq_dec b a) as [-> | Hb].
    - rewrite list_set_same
        by (apply nth_error_Some; rewrite HC1; discriminate).
      rewrite HC1. reflexivity.
    - rewrite list_set_other by exact Hb. reflexivity. }
  split.
  - eapply memoizes_stable; [| exact Hcl | exact Hmemo]. reflexivity.
  - eapply memo_frame_trans; [exact Hf|].
    split; cbn [memoizers limitSpecs FiniteNumbers]; try reflexivity.
    exact Hcl.
Qed.

Lemma Context_newFiniteNumber_number : forall it0 c exp w x,
    context_of w (context_ptr_of c) = Some x -> closed x = false ->
    exists w',
      Context_newFiniteNumber c it0 exp w
      = Ret (List.length (FiniteNumbers w)) w' /\
      number_of it0 exp (Number_FiniteNumber (List.length (FiniteNumbers w)))
        w' /\
      (forall q v, nth_error (FiniteNumbers w) q = Some v ->
                   nth_error (FiniteNumbers w') q = Some v) /\
      limitSpecs w' = limitSpecs w /\
      (forall it q, memoizes it q w -> memoizes it q w').
Proof.
  intros it0 c exp w x Hx Hopen.
  destruct (Context_newMemoizeSpec_memoizes it0 c w x Hx Hopen)
    as (w1 & Hnew & Hmemo & Hf).
  unfold Context_newFiniteNumber.
  rewrite (bind_Ret _ _ _ _ _ _ _ Hnew).
  eexists. split.
  { unfold new_FiniteNumber. cbv beta.
    rewrite (frame_FiniteNumbers _ _ _ Hf). reflexivity. }
  split; [|split; [|split]].
  - exists (List.length (memoizers w)).
    cbn [Number_ptr FiniteNumbers].
    split; [apply nth_error_app_last|].
    eapply memoizes_stable; [| |exact Hmemo]; [reflexivity|].
    intros [|b]; reflexivity.
  - intros q v Hq. cbn [FiniteNumbers].
    rewrite nth_error_app1; [exact Hq|].
    apply nth_error_Some. rewrite Hq. discriminate.
  - cbn [limitSpecs]. apply (frame_limitSpecs _ _ _ Hf).
  - intros it q Hq.
    assert (Hne : q <> List.length (memoizers w)).
    { destruct Hq as (m & _ & Hm & _).
      assert (q < List.length (memoizers w))%nat
        by (apply nth_error_Some; rewrite Hm; discriminate).
      lia. }
    eapply memoizes_stable;
      [| |exact (memoizes_frame it _ q w w1 Hf Hne Hq)]; [reflexivity|].
    intros [|b]; reflexivity.
Qed.

(** The closure of the digits 0.102 and the heap after
    [newMemoizeSpec] has wrapped it, on the global context. *)
Definition digits_102 : iterFn :=
  fst (repeatingGenerator_Generate (newRepeatingGenerator [1; 0; 2] [] 0)).

Definition world_102 : world :=
  world_after (newMemoizeSpec digits_102 global_context initial_world)
    initial_world.

Lemma world_102_memoizes : memoizes digits_102 0 world_102.
Proof.
  destruct (newMemoizeSpec_memoizes digits_102 global_context initial_world
              {| active := 0; closed := false |} eq_refl eq_refl)
    as (w' & Hnew & Hmemo & _).
  unfold world_102. rewrite Hnew. exact Hmemo.
Qed.

Lemma digits_102_outputs :
  iter_outputs digits_102 100 = Some ([1; 0; 2] ++ repeat (-1) 97).
Proof. vm_compute. reflexivity. Qed.

(** The heap after [newFiniteNumber] has made the number 0.102 on the
    nil Context: the memoizer 0 and the FiniteNumber 1. *)
Definition number_102_world : world :=
  world_after (Context_newFiniteNumber nilContext digits_102 0 initial_world)
    initial_world.

Lemma number_102_world_number :
  number_of digits_102 0 (Number_FiniteNumber 1) number_102_world.
Proof.
  destruct (Context_newFiniteNumber_number digits_102 None 0 initial_world
              {| active := 0; closed := false |} eq_refl eq_refl)
    as (w' & Hnew & Hnumber & _).
  unfold number_102_world, nilContext. rewrite Hnew. exact Hnumber.
Qed.

(** [At] in terms of the digits before the producer's first value
    outside 0..9. *)
Lemma memoizer_At_spec :
  forall (it0 : iterFn) p w fuel index N ds,
    memoizes it0 p w ->
    0 <= index < 100 * (kMaxChunks - 1) ->
    index / 100 < Z.of_nat fuel ->
    100 * (index / 100 + 1) <= Z.of_nat N ->
    iter_outputs it0 N = Some ds ->
    exists w',
      memoizer_At fuel p index w
      = Ret (nth (Z.to_nat index) (valid_prefix ds) (-1)) w' /\
      memoizes it0 p w' /\
      memo_frame p w w'.
Proof.
  intros it0 p w fuel index N ds Hmemo Hindex Hfuel HN Hout.
  unfold iter_outputs in Hout.
  destruct (calls (iter_call it0) N (iter_state it0)) as [[ds' sN]|] eqn:Hds;
    [|discriminate].
  cbn [option_map fst] in Hout. injection Hout as ->.
  destruct (memoizer_wait_spec it0 p w fuel index N ds sN Hmemo Hindex Hfuel
              HN Hds)
    as (w' & m' & Hwait & Hm' & Hmemo' & Hf & Hagree & _ & _).
  exists w'. split; [|auto].
  unfold memoizer_At. destruct (Z.ltb_spec index 0); [lia|].
  rewrite (bind_Ret _ _ _ _ _ _ _ Hwait).
  rewrite <- (nth_from_firstn _ _ (Z.to_nat index)
               (Datatypes.S (Z.to_nat index)) ltac:(lia) Hagree).
  destruct (Z.gtb_spec (len (m_data m')) index) as [Hin | Hout];
    cbn [negb]; unfold ret; f_equal.
  - unfold index_data. apply nth_indep. unfold len in Hin. lia.
  - symmetry. apply nth_overflow. unfold len in Hout. lia.
Qed.

Lemma valid_prefix_nth : forall ds i,
    (i < List.length ds)%nat ->
    nth i (valid_prefix ds) (-1)
    = if validDigits (firstn (Datatypes.S i) ds) then nth i ds 0 else -1.
Proof.
  induction ds as [|d ds IH]; intros i Hi; cbn [List.length] in Hi; [lia|].
  cbn [valid_prefix firstn validDigits forallb].
  destruct (digitOutOfRange d); cbn [negb andb].
  - destruct i; reflexivity.
  - destruct i as [|i]; cbn [nth].
    + cbn [firstn forallb]. reflexivity.
    + rewrite IH by lia. reflexivity.
Qed.

(** X7.  [memoizer.At(index)] returns the value the producer yields on
    its call number [index] (counted from 0), or -1 when one of its
    values up to that call is outside 0..9, which signals the end of the
    digits.  This holds for a memoizer whose Context is not closed, for
    an [index] below the largest chunk, when the producer returns from
    the calls of the chunks up to [index]; the memoizer is left
    memoizing the same producer, and the rest of the heap as it was. *)
Theorem memoizer_At_digit :
  forall (it0 : iterFn) p w fuel index ds,
    memoizes it0 p w ->
    0 <= index < 100 * (kMaxChunks - 1) ->
    index / 100 < Z.of_nat fuel ->
    iter_outputs it0 (Z.to_nat (100 * (index / 100 + 1))) = Some ds ->
    exists w',
      memoizer_At fuel p index w
      = Ret (if validDigits (firstn (Datatypes.S (Z.to_nat index)) ds)
             then nth (Z.to_nat index) ds 0
             else -1) w' /\
      memoizes it0 p w' /\
      memo_frame p w w'.
Proof.
  intros it0 p w fuel index ds Hmemo Hindex Hfuel Hout.
  assert (Hdiv : 0 <= index / 100) by (apply Z.div_pos; lia).
  assert (Hmod : 100 * (index / 100) <= index < 100 * (index / 100) + 100).
  { pose proof (Z.div_mod index 100 ltac:(lia)).
    pose proof (Z.mod_pos_bound index 100 ltac:(lia)). lia. }
  destruct (memoizer_At_spec it0 p w fuel index
              (Z.to_nat (100 * (index / 100 + 1))) ds Hmemo Hindex Hfuel
              ltac:(lia) Hout) as (w' & Hat & H).
  exists w'. split; [|exact H].
  rewrite Hat. f_equal. apply valid_prefix_nth.
  unfold iter_outputs in Hout.
  destruct (calls _ _ _) as [[ds' s']|] eqn:Hc; [|discriminate].
  cbn [option_map fst] in Hout. injection Hout as ->.
  rewrite (calls_length _ _ _ _ _ _ Hc). lia.
Qed.

Lemma memoizer_At_digit_witness :
  exists w',
    memoizer_At 1 0 1 world_102
    = Ret (if validDigits
                (firstn (Datatypes.S (Z.to_nat 1))
                   ([1; 0; 2] ++ repeat (-1) 97))
           then nth (Z.to_nat 1) ([1; 0; 2] ++ repeat (-1) 97) 0
           else -1) w' /\
    memoizes digits_102 0 w' /\
    memo_frame 0 world_102 w'.
Proof.
  apply (memoizer_At_digit digits_102 0%nat world_102 1%nat 1
           ([1; 0; 2] ++ repeat (-1) 97)).
  - exact world_102_memoizes.
  - vm_compute. split; [discriminate | reflexivity].
  - vm_compute. reflexivity.
  - exact digits_102_outputs.
Defined.

(** X8.  Digits are computed once: after [At(index)] has returned, an
    [At(j)] with [j <= index] returns the same digits as before from
    what the memoizer holds.  It needs no fuel and leaves the heap as it
    is, so the worker is not woken and the producer is not called. *)
Theorem memoizer_At_cached :
  forall (it0 : iterFn) p w fuel index N ds d w1 fuel' j,
    memoizes it0 p w ->
    0 <= index < 100 * (kMaxChunks - 1) ->
    index / 100 < Z.of_nat fuel ->
    100 * (index / 100 + 1) <= Z.of_nat N ->
    iter_outputs it0 N = Some ds ->
    memoizer_At fuel p index w = Ret d w1 ->
    0 <= j <= index ->
    memoizer_At fuel' p j w1
    = Ret (nth (Z.to_nat j) (valid_prefix ds) (-1)) w1.
Proof.
  intros it0 p w fuel index N ds d w1 fuel' j Hmemo Hindex Hfuel HN Hout
         Hrun Hj.
  unfold iter_outputs in Hout.
  destruct (calls (iter_call it0) N (iter_state it0)) as [[ds' sN]|] eqn:Hds;
    [|discriminate].
  cbn [option_map fst] in Hout. injection Hout as ->.
  destruct (memoizer_wait_spec it0 p w fuel index N ds sN Hmemo Hindex Hfuel
              HN Hds)
    as (w' & m' & Hwait & Hm' & Hmemo' & Hf & Hagree & Hparked & Hreach).
  assert (Hw : w1 = w').
  { unfold memoizer_At in Hrun. destruct (Z.ltb_spec index 0); [lia|].
    rewrite (bind_Ret _ _ _ _ _ _ _ Hwait) in Hrun.
    destruct (negb _); unfold ret in Hrun; congruence. }
  subst w1.
  unfold memoizer_At. destruct (Z.ltb_spec j 0); [lia|].
  rewrite (bind_Ret _ _ _ _ _ _ _
             (memoizer_wait_cached fuel' p j w' m' Hm' Hparked
                ltac:(destruct Hreach; [left; assumption | right; lia]))).
  rewrite <- (nth_from_firstn _ _ (Z.to_nat j)
               (Datatypes.S (Z.to_nat index)) ltac:(lia) Hagree).
  destruct (Z.gtb_spec (len (m_data m')) j) as [Hin | Hout];
    cbn [negb]; unfold ret; f_equal.
  - unfold index_data. apply nth_indep. unfold len in Hin. lia.
  - symmetry. apply nth_overflow. unfold len in Hout. lia.
Qed.

Lemma memoizer_At_cached_witness :
  memoizer_At 0 0 2 (world_after (memoizer_At 1 0 5 world_102) world_102)
  = Ret (nth (Z.to_nat 2) (valid_prefix ([1; 0; 2] ++ repeat (-1) 97)) (-1))
      (world_after (memoizer_At 1 0 5 world_102) world_102).
Proof.
  apply (memoizer_At_cached digits_102 0%nat world_102 1%nat 5 100%nat
           ([1; 0; 2] ++ repeat (-1) 97) (-1)).
  - exact world_102_memoizes.
  - vm_compute. split; [discriminate | reflexivity].
  - vm_compute. reflexivity.
  - vm_compute. discriminate.
  - exact digits_102_outputs.
  - reflexivity.
  - lia.
Defined.

(** X9.  [memoizer.FirstN(n)] returns the first [n] digits of the
    producer, or all of them when there are fewer than [n]. *)
Theorem memoizer_FirstN_digits :
  forall (it0 : iterFn) p w fuel n N ds,
    memoizes it0 p w ->
    0 < n <= 100 * (kMaxChunks - 1) ->
    (n - 1) / 100 < Z.of_nat fuel ->
    100 * ((n - 1) / 100 + 1) <= Z.of_nat N ->
    iter_outputs it0 N = Some ds ->
    exists w',
      memoizer_FirstN fuel p n w
      = Ret (firstn (Z.to_nat n) (valid_prefix ds)) w' /\
      memoizes it0 p w' /\
      memo_frame p w w'.
Proof.
  intros it0 p w fuel n N ds Hmemo Hn Hfuel HN Hout.
  pose proof kMaxChunks_value as HK.
  unfold iter_outputs in Hout.
  destruct (calls (iter_call it0) N (iter_state it0)) as [[ds' sN]|] eqn:Hds;
    [|discriminate].
  cbn [option_map fst] in Hout. injection Hout as ->.
  destruct (memoizer_wait_spec it0 p w fuel (n - 1) N ds sN Hmemo
              ltac:(lia) Hfuel HN Hds)
    as (w' & m' & Hwait & Hm' & Hmemo' & Hf & Hagree & _ & _).
  exists w'. split; [|auto].
  unfold memoizer_FirstN. destruct (Z.leb_spec n 0); [lia|].
  assert (Hsub : int_sub n 1 = n - 1).
  { unfold int_sub. apply wrap_small. unfold MinInt, MaxInt. lia. }
  rewrite Hsub. rewrite (bind_Ret _ _ _ _ _ _ _ Hwait).
  replace (Datatypes.S (Z.to_nat (n - 1))) with (Z.to_nat n) in Hagree by lia.
  rewrite <- Hagree.
  destruct (Z.gtb_spec (len (m_data m')) n) as [Hlong | Hshort];
    [reflexivity|].
  unfold ret. f_equal. symmetry. apply firstn_all2.
  unfold len in Hshort. lia.
Qed.

Lemma memoizer_FirstN_digits_witness :
  exists w',
    memoizer_FirstN 1 0 2 world_102
    = Ret (firstn (Z.to_nat 2) (valid_prefix ([1; 0; 2] ++ repeat (-1) 97)))
        w' /\
    memoizes digits_102 0 w' /\
    memo_frame 0 world_102 w'.
Proof.
  apply (memoizer_FirstN_digits digits_102 0%nat world_102 1%nat 2 100%nat
           ([1; 0; 2] ++ repeat (-1) 97)).
  - exact world_102_memoizes.
  - vm_compute. split; [reflexivity | discriminate].
  - vm_compute. reflexivity.
  - vm_compute. discriminate.
  - exact digits_102_outputs.
Defined.

Lemma Number_At_ptr : forall fuel n posit,
    Number_At fuel n posit = FiniteNumber_At fuel (Number_ptr n) posit.
Proof. induction n; intros; simpl; auto. Qed.

Lemma Number_Exponent_ptr : forall n,
    Number_Exponent n = FiniteNumber_Exponent (Number_ptr n).
Proof. induction n; simpl; auto. Qed.

Lemma number_of_Exponent : forall it0 exp n w,
    number_of it0 exp n w -> Number_Exponent n w = Ret exp w.
Proof.
  intros it0 exp n w (p & Hn & _).
  rewrite Number_Exponent_ptr. unfold FiniteNumber_Exponent.
  rewrite (bind_Ret _ _ _ _ _ _ _ (deref_Some _ FiniteNumbers _ w _ Hn)).
  reflexivity.
Qed.

(** [At] on a Number reads the memoizer of its mantissa. *)
Lemma Number_At_digit :
  forall (it0 : iterFn) exp n w fuel index N ds,
    number_of it0 exp n w ->
    0 <= index < 100 * (kMaxChunks - 1) ->
    index / 100 < Z.of_nat fuel ->
    100 * (index / 100 + 1) <= Z.of_nat N ->
    iter_outputs it0 N = Some ds ->
    exists w',
      Number_At fuel n index w
      = Ret (nth (Z.to_nat index) (valid_prefix ds) (-1)) w' /\
      number_of it0 exp n w'.
Proof.
  intros it0 exp n w fuel index N ds (p & Hn & Hmemo) Hindex Hfuel HN Hout.
  assert (Hdiv : 0 <= index / 100) by (apply Z.div_pos; lia).
  destruct (memoizer_At_spec it0 p w fuel index N ds Hmemo Hindex Hfuel HN
              Hout) as (w' & Hat & Hmemo' & Hf).
  exists w'. split.
  - rewrite Number_At_ptr. unfold FiniteNumber_At.
    rewrite (bind_Ret _ _ _ _ _ _ _ (deref_Some _ FiniteNumbers _ w _ Hn)).
    unfold mantissa_At. cbn [fn_mantissa spec is_nil].
    destruct fuel as [|fuel]; [lia|]. cbn [numberSpec_At]. exact Hat.
  - exists p. rewrite (frame_FiniteNumbers _ _ _ Hf). auto.
Qed.

(** A producer that yields digits and then -1 for ever is read back
    unchanged. *)
Lemma valid_prefix_sticky_nth : forall ds,
    Forall (fun d => -1 <= d <= 9) ds ->
    (forall i j, (i <= j < List.length ds)%nat ->
                 nth i ds 0 = -1 -> nth j ds 0 = -1) ->
    forall i, (i < List.length ds)%nat ->
              nth i (valid_prefix ds) (-1) = nth i ds 0.
Proof.
  induction ds as [|d ds IH]; intros Hrange Hsticky i Hi;
    cbn [List.length] in Hi; [lia|].
  inversion Hrange as [|d' ds' Hd Hds]; subst.
  cbn [valid_prefix]. unfold digitOutOfRange.
  destruct (Z.ltb_spec d 0) as [Hneg | Hpos]; cbn [orb].
  - assert (d = -1) by lia. subst d.
    destruct i; [reflexivity|].
    symmetry. apply (Hsticky 0%nat (Datatypes.S i)); [|reflexivity].
    cbn [List.length]. lia.
  - destruct (Z.gtb_spec d 9); [lia|].
    destruct i; cbn [nth]; [reflexivity|].
    apply IH; [exact Hds | | lia].
    intros a b Hab Ha.
    apply (Hsticky (Datatypes.S a) (Datatypes.S b)); [|exact Ha].
    cbn [List.length]. lia.
Qed.

(** The root factories on one argument list, by degree. *)
Definition Context_RootRat (deg : degree) (fuel : nat) (c : option ptr)
  (num denom : Z) : exec Number :=
  match deg with
  | Square => Context_SqrtRat fuel c num denom
  | Cube => Context_CubeRootRat fuel c num denom
  end.

Lemma Context_nRootFrac_number :
  forall (M : Type) (RM : rootManager M) fuel c num denom (mgr : M) w x
         digits exp,
    0 < num -> 0 < denom ->
    nrootGenerator_Generate fuel (newNRootGenerator num denom mgr)
    = Some (digits, exp) ->
    context_of w (context_ptr_of c) = Some x -> closed x = false ->
    exists n w1,
      Context_nRootFrac fuel c num denom mgr w = Ret n w1 /\
      number_of (rootDigits_iterFn fuel digits) exp n w1.
Proof.
  intros M RM fuel c num denom mgr w x digits exp Hnum Hdenom Hgen Hx Hopen.
  unfold Context_nRootFrac.
  rewrite (bind_Ret _ _ _ _ _ _ _ (checkNumDenom_ok num denom w
                                     ltac:(lia) Hdenom)).
  destruct (Z.eqb_spec num 0); [lia|].
  unfold nrootGenerator_Generator. cbn [Generate]. rewrite Hgen.
  destruct (Context_newFiniteNumber_number (rootDigits_iterFn fuel digits)
              c exp w x Hx Hopen) as (w1 & Hnew & Hnumber & _).
  unfold Context_newNumber.
  rewrite (bind_Ret _ _ _ _ _ _ _ Hnew).
  eexists. exists w1. split; [reflexivity|]. exact Hnumber.
Qed.

Lemma root_At :
  forall (M : Type) (RM : rootManager M) fuel c num denom (mgr : M) w x
         index k N ds dsN exp,
    0 < num -> 0 < denom ->
    0 <= index < 100 * (kMaxChunks - 1) ->
    index / 100 < Z.of_nat fuel ->
    k = Datatypes.S (Z.to_nat index) ->
    N = Z.to_nat (100 * (index / 100 + 1)) ->
    root_digits fuel num denom mgr k = Some (ds, exp) ->
    root_digits fuel num denom mgr N = Some (dsN, exp) ->
    Forall (fun d => -1 <= d <= 9) dsN ->
    context_of w (context_ptr_of c) = Some x -> closed x = false ->
    exists n w1 w2,
      Context_nRootFrac fuel c num denom mgr w = Ret n w1 /\
      Number_At fuel n index w1 = Ret (nth (Z.to_nat index) ds 0) w2 /\
      Number_Exponent n w1 = Ret exp w1.
Proof.
  intros M RM fuel c num denom mgr w x index k N ds dsN exp Hnum Hdenom
         Hindex Hfuel Hk HN Hds HdsN Hrange Hx Hopen.
  assert (Hdiv : 0 <= index / 100) by (apply Z.div_pos; lia).
  assert (Hmod : 100 * (index / 100) <= index < 100 * (index / 100) + 100).
  { pose proof (Z.div_mod index 100 ltac:(lia)).
    pose proof (Z.mod_pos_bound index 100 ltac:(lia)). lia. }
  unfold root_digits in Hds, HdsN.
  destruct (nrootGenerator_Generate fuel (newNRootGenerator num denom mgr))
    as [[digits exp0]|] eqn:Hgen; [|discriminate].
  destruct (calls (rootDigits_call fuel) k digits) as [[ds0 sk]|] eqn:Hck;
    [|discriminate].
  destruct (calls (rootDigits_call fuel) N digits) as [[dsN0 sN]|] eqn:HcN;
    [|discriminate].
  injection Hds as -> ->. injection HdsN as ->.
  destruct (Context_nRootFrac_number M RM fuel c num denom mgr w x digits exp
              Hnum Hdenom Hgen Hx Hopen) as (n & w1 & Hroot & Hnumber).
  destruct (Number_At_digit (rootDigits_iterFn fuel digits) exp n w1 fuel
              index N dsN Hnumber Hindex Hfuel ltac:(lia))
    as (w2 & Hat & _).
  { unfold iter_outputs. cbn [rootDigits_iterFn iter_call iter_state iter_St].
    rewrite HcN. reflexivity. }
  exists n, w1, w2. split; [exact Hroot|]. split.
  - rewrite Hat. f_equal.
    assert (HlenN : List.length dsN = N) by (eapply calls_length; eassumption).
    rewrite valid_prefix_sticky_nth; [| exact Hrange | | lia].
    + destruct (calls_prefix _ _ k N digits ds sk dsN sN ltac:(lia) Hck HcN)
        as (rest & -> & Hlen).
      apply app_nth1. lia.
    + intros i j Hij Hi.
      apply (root_calls_sticky M RM fuel N digits sN dsN i j HcN);
        [lia | exact Hi].
  - eapply number_of_Exponent. eassumption.
Qed.

(** X10.  A digit of a root, end to end: for a radicand [num/denom > 0]
    and a Context that is not closed (or the nil Context), the Number
    returned by [SqrtRat] or [CubeRootRat] answers [At(index)] with the
    value the digit closure of the root yields on its call number
    [index] -- by C1 the digit at that position of the truncated root,
    or -1 when the root has no more digits -- and [Exponent()] with the
    exponent of the closure. *)
Theorem root_At_digit : forall deg c fuel num denom index w x,
    0 < num -> 0 < denom ->
    (Z.to_nat (num + denom) + 10 <= fuel)%nat ->
    0 <= index < 100 * (kMaxChunks - 1) ->
    index / 100 < Z.of_nat fuel ->
    context_of w (context_ptr_of c) = Some x -> closed x = false ->
    exists n w1 w2 ds exp,
      Context_RootRat deg fuel c num denom w = Ret n w1 /\
      nth_root_digits deg fuel num denom (Datatypes.S (Z.to_nat index))
      = Some (ds, exp) /\
      Number_At fuel n index w1 = Ret (nth (Z.to_nat index) ds 0) w2 /\
      Number_Exponent n w1 = Ret exp w1.
Proof.
  intros deg c fuel num denom index w x Hnum Hdenom Hfuel Hindex Hturns
         Hx Hopen.
  destruct (nth_root_digits_integer deg fuel num denom
              (Datatypes.S (Z.to_nat index)) Hnum Hdenom Hfuel)
    as (ds & exp & Hds & _).
  destruct (nth_root_digits_integer deg fuel num denom
              (Z.to_nat (100 * (index / 100 + 1))) Hnum Hdenom Hfuel)
    as (dsN & expN & HdsN & _ & Hrange & _).
  assert (Hexp : expN = exp).
  { clear - Hds HdsN. destruct deg; cbn [nth_root_digits] in *;
      unfold root_digits in *;
      destruct (nrootGenerator_Generate _ _) as [[digits e]|];
      try discriminate;
      destruct (calls _ (Datatypes.S _) _) as [[a b]|]; try discriminate;
      destruct (calls _ (Z.to_nat _) _) as [[a' b']|]; try discriminate;
      congruence. }
  subst expN.
  destruct deg; cbn [nth_root_digits Context_RootRat] in *.
  - destruct (root_At _ _ fuel c num denom newSqrtManager w x index _ _ ds dsN
                exp Hnum Hdenom Hindex Hturns eq_refl eq_refl Hds HdsN Hrange
                Hx Hopen) as (n & w1 & w2 & H1 & H2 & H3).
    exists n, w1, w2, ds, exp. auto.
  - destruct (root_At _ _ fuel c num denom newCubeRootManager w x index _ _
                ds dsN exp Hnum Hdenom Hindex Hturns eq_refl eq_refl Hds HdsN
                Hrange Hx Hopen) as (n & w1 & w2 & H1 & H2 & H3).
    exists n, w1, w2, ds, exp. auto.
Qed.

Lemma root_At_digit_witness :
  exists n w1 w2 ds exp,
    Context_RootRat Square 20 None 2 1 initial_world = Ret n w1 /\
    nth_root_digits Square 20 2 1 (Datatypes.S (Z.to_nat 3)) = Some (ds, exp) /\
    Number_At 20 n 3 w1 = Ret (nth (Z.to_nat 3) ds 0) w2 /\
    Number_Exponent n w1 = Ret exp w1.
Proof.
  apply (root_At_digit Square None 20 2 1 3 initial_world
           {| active := 0; closed := false |}).
  - lia.
  - lia.
  - simpl. lia.
  - vm_compute. split; [discriminate | reflexivity].
  - vm_compute. reflexivity.
  - reflexivity.
  - reflexivity.
Defined.

(** ** WithSignificant, digit by digit *)

Lemma numberSpec_At_memoizer : forall depth fuel p index,
    numberSpec_At depth fuel (spec_memoizer p) index
    = memoizer_At fuel p index.
Proof. intros [|depth] fuel p index; reflexivity. Qed.

(** X11.  [WithSignificant(limit)] keeps the first [limit] digits: on a
    Number of a producer it returns a FiniteNumber with the same
    exponent whose [At(index)] is the producer's digit for
    [index < limit] and -1 from [limit] on.  (For [index >= limit] the
    memoizer is still asked for position [limit], so the bounds are on
    the smaller of the two.) *)
Theorem WithSignificant_At_digit :
  forall (it0 : iterFn) exp n w limit fuel index N ds,
    number_of it0 exp n w ->
    0 < limit -> 0 <= index ->
    Z.min index limit < 100 * (kMaxChunks - 1) ->
    Z.min index limit / 100 < Z.of_nat fuel ->
    100 * (Z.min index limit / 100 + 1) <= Z.of_nat N ->
    iter_outputs it0 N = Some ds ->
    exists r w1 w2,
      Number_WithSignificant n limit w = Ret r w1 /\
      FiniteNumber_At fuel r index w1
      = Ret (if index <? limit
             then nth (Z.to_nat index) (valid_prefix ds) (-1)
             else -1) w2 /\
      FiniteNumber_Exponent r w1 = Ret exp w1.
Proof.
  intros it0 exp n w limit fuel index N ds (p & Hn & Hmemo) Hlimit Hindex
         Hbound Hfuel HN Hout.
  set (q := List.length (limitSpecs w)).
  set (r := List.length (FiniteNumbers w)).
  set (l := {| delegate := spec_memoizer p; ls_limit := limit |}).
  set (v := {| fn_mantissa := {| spec := spec_limitSpec q |};
               fn_exponent := exp |}).
  set (w1 := {| memoizers := memoizers w;
                limitSpecs := limitSpecs w ++ [l];
                FiniteNumbers := FiniteNumbers w ++ [v];
                Contexts := Contexts w;
                globalNumSpecContext := globalNumSpecContext w |}).
  assert (Hrun : Number_WithSignificant n limit w = Ret r w1).
  { rewrite Number_WithSignificant_ptr. unfold FiniteNumber_WithSignificant.
    destruct (Z.ltb_spec limit 0); [lia|].
    rewrite (bind_Ret _ _ _ _ _ _ _ (deref_Some _ FiniteNumbers _ w _ Hn)).
    unfold mantissa_WithLimit, withLimit. cbn [fn_mantissa spec is_nil].
    destruct (Z.leb_spec limit 0); [lia|]. cbn [orb].
    unfold bind at 2. unfold bind at 2. unfold new_limitSpec, ret.
    unfold bind at 1. unfold FiniteNumber_withMantissa.
    unfold bind, get_FiniteNumber, deref. cbn [FiniteNumbers].
    rewrite Hn. reflexivity. }
  assert (Hr : nth_error (FiniteNumbers w1) r = Some v)
    by apply nth_error_app_last.
  assert (Hq : nth_error (limitSpecs w1) q = Some l)
    by apply nth_error_app_last.
  assert (Hmemo1 : memoizes it0 p w1).
  { eapply memoizes_stable; [| |exact Hmemo]; [reflexivity|].
    intros [|b]; reflexivity. }
  assert (Hj : 0 <= Z.min index limit) by lia.
  destruct (memoizer_At_spec it0 p w1 fuel (Z.min index limit) N ds Hmemo1
              ltac:(lia) Hfuel HN Hout) as (w2 & Hat & _).
  exists r, w1, w2. split; [exact Hrun|]. split.
  - unfold FiniteNumber_At.
    rewrite (bind_Ret _ _ _ _ _ _ _ (deref_Some _ FiniteNumbers _ w1 _ Hr)).
    unfold mantissa_At. cbn [v fn_mantissa spec is_nil].
    assert (0 <= Z.min index limit / 100) by (apply Z.div_pos; lia).
    destruct fuel as [|fuel]; [lia|]. cbn [numberSpec_At].
    rewrite (bind_Ret _ _ _ _ _ _ _ (deref_Some _ limitSpecs _ w1 _ Hq)).
    cbn [l ls_limit delegate]. rewrite !numberSpec_At_memoizer.
    destruct (Z.geb_spec index limit) as [Hge | Hlt].
    + rewrite Z.min_r in Hat by lia.
      rewrite (bind_Ret _ _ _ _ _ _ _ Hat).
      destruct (Z.ltb_spec index limit); [lia|]. reflexivity.
    + rewrite Z.min_l in Hat by lia.
      destruct (Z.ltb_spec index limit); [|lia]. exact Hat.
  - unfold FiniteNumber_Exponent.
    rewrite (bind_Ret _ _ _ _ _ _ _ (deref_Some _ FiniteNumbers _ w1 _ Hr)).
    reflexivity.
Qed.

Lemma WithSignificant_At_digit_witness :
  exists r w1 w2,
    Number_WithSignificant (Number_FiniteNumber 1) 2 number_102_world
    = Ret r w1 /\
    FiniteNumber_At 1 r 5 w1
    = Ret (if 5 <? 2
           then nth (Z.to_nat 5)
                  (valid_prefix ([1; 0; 2] ++ repeat (-1) 97)) (-1)
           else -1) w2 /\
    FiniteNumber_Exponent r w1 = Ret 0 w1.
Proof.
  apply (WithSignificant_At_digit digits_102 0 (Number_FiniteNumber 1)
           number_102_world 2 1%nat 5 100%nat ([1; 0; 2] ++ repeat (-1) 97)).
  - exact number_102_world_number.
  - lia.
  - lia.
  - vm_compute. reflexivity.
  - vm_compute. reflexivity.
  - vm_compute. discriminate.
  - exact digits_102_outputs.
Defined.

(** ** Numbers made from digits *)

Lemma validDigits_nth_range : forall ds i,
    validDigits ds = true -> (i < List.length ds)%nat ->
    0 <= nth i ds 0 <= 9.
Proof.
  intros ds i Hv Hi. pose proof (validDigits_nth ds i Hv Hi) as H.
  unfold digitOutOfRange in H. apply orb_false_iff in H.
  destruct H as [H1 H2]. apply Z.ltb_ge in H1.
  rewrite Z.gtb_ltb in H2. apply Z.ltb_ge in H2. lia.
Qed.

Lemma repeating_digit_cases : forall fixed repeating k,
    validDigits fixed = true -> validDigits repeating = true ->
    0 <= repeating_digit fixed repeating k <= 9 \/
    (repeating_digit fixed repeating k = -1 /\
     repeating = [] /\ (List.length fixed <= k)%nat).
Proof.
  intros fixed repeating k Hf Hr. unfold repeating_digit.
  destruct (Nat.ltb_spec k (List.length fixed)) as [Hlt | Hge].
  - left. apply validDigits_nth_range; assumption.
  - destruct repeating as [|r0 rep]; [right; auto|].
    left. apply validDigits_nth_range; [assumption|].
    apply Nat.mod_upper_bound. discriminate.
Qed.

Lemma repeating_digit_stream : forall fixed repeating N i,
    validDigits fixed = true -> validDigits repeating = true ->
    (i < N)%nat ->
    nth i (valid_prefix (map (repeating_digit fixed repeating) (seq 0 N)))
      (-1)
    = repeating_digit fixed repeating i.
Proof.
  intros fixed repeating N i Hf Hr Hi.
  assert (Hnth : forall j, (j < N)%nat ->
             nth j (map (repeating_digit fixed repeating) (seq 0 N)) 0
             = repeating_digit fixed repeating j).
  { intros j Hj.
    rewrite (nth_indep _ 0 (repeating_digit fixed repeating 0))
      by (rewrite length_map, length_seq; exact Hj).
    rewrite map_nth. rewrite seq_nth by exact Hj. reflexivity. }
  rewrite valid_prefix_sticky_nth.
  - apply Hnth. exact Hi.
  - apply Forall_forall. intros d Hd. apply in_map_iff in Hd.
    destruct Hd as (k & <- & _).
    destruct (repeating_digit_cases fixed repeating k Hf Hr)
      as [H | (H & _)]; lia.
  - rewrite length_map, length_seq. intros a b Hab Ha.
    rewrite Hnth in Ha by lia. rewrite Hnth by lia.
    destruct (repeating_digit_cases fixed repeating a Hf Hr)
      as [H | (_ & Hnil & Hlen)]; [lia|].
    unfold repeating_digit. rewrite Hnil.
    destruct (Nat.ltb_spec b (List.length fixed)); [lia | reflexivity].
  - rewrite length_map, length_seq. exact Hi.
Qed.

Lemma repeating_digit_first : forall fixed repeating,
    fixed ++ repeating <> [] ->
    repeating_digit fixed repeating 0 = hd 0 (fixed ++ repeating).
Proof.
  intros [|f fixed] [|r repeating] H; try reflexivity.
  - exfalso. apply H. reflexivity.
  - unfold repeating_digit. cbn [List.length Nat.ltb Nat.leb Nat.sub].
    rewrite Nat.Div0.mod_0_l. reflexivity.
Qed.

(** X12.  A Number made from digits reads back as those digits: for
    digits in 0..9 whose first is not 0, [NewNumberForTesting] on a
    Context that is not closed returns a Number whose [At(index)] is the
    digit at position [index] of [fixed] followed by [repeating] for
    ever (-1 past the end of [fixed] when [repeating] is empty), and
    whose exponent is [exp]. *)
Theorem NewNumberForTesting_At_digit :
  forall c fixed repeating exp w x fuel index,
    validDigits fixed = true -> validDigits repeating = true ->
    hd 0 (fixed ++ repeating) <> 0 ->
    len fixed < MaxInt -> len repeating < MaxInt ->
    context_of w (context_ptr_of c) = Some x -> closed x = false ->
    0 <= index < 100 * (kMaxChunks - 1) ->
    index / 100 < Z.of_nat fuel ->
    exists n w1 w2,
      Context_NewNumberForTesting c fixed repeating exp w
      = Ret (value n) w1 /\
      Number_At fuel n index w1
      = Ret (repeating_digit fixed repeating (Z.to_nat index)) w2 /\
      Number_Exponent n w1 = Ret exp w1.
Proof.
  intros c fixed repeating exp w x fuel index Hf Hr Hfirst Hlf Hlr Hx Hopen
         Hindex Hfuel.
  assert (Hne : fixed ++ repeating <> []).
  { intros Hnil. rewrite Hnil in Hfirst. apply Hfirst. reflexivity. }
  set (it0 := fst (repeatingGenerator_Generate
                     (newRepeatingGenerator fixed repeating exp))).
  assert (Hnumber : exists n w1,
             Context_NewNumberForTesting c fixed repeating exp w
             = Ret (value n) w1 /\ number_of it0 exp n w1).
  { unfold Context_NewNumberForTesting.
    assert (Hempty : (len fixed =? 0) && (len repeating =? 0) = false).
    { unfold len. destruct fixed, repeating; try reflexivity.
      contradiction. }
    rewrite Hempty, Hf, Hr. cbn [negb orb].
    cbn [repeatingGenerator_Generate].
    unfold iter_next. cbn [iter_call iter_state iter_St].
    change (0, 0) with (repeating_state fixed repeating 0).
    rewrite repeatingGenerator_gen_step by assumption.
    rewrite repeating_digit_first by exact Hne.
    destruct (Z.eqb_spec (hd 0 (fixed ++ repeating)) 0); [contradiction|].
    destruct (Context_newFiniteNumber_number it0 c exp w x Hx Hopen)
      as (w1 & Hnew & Hnum & _).
    change (exists n0 w0,
               (if len repeating =? 0
                then p <- Context_newFiniteNumber c it0 exp ;;
                     ret (value (Number_FiniteNumber p))
                else n1 <- Context_newNumber c it0 exp ;; ret (value n1)) w
               = Ret (value n0) w0 /\ number_of it0 exp n0 w0).
    destruct (len repeating =? 0).
    - rewrite (bind_Ret _ _ _ _ _ _ _ Hnew). eauto.
    - unfold Context_newNumber. unfold bind at 1.
      rewrite (bind_Ret _ _ (Context_newFiniteNumber c it0 exp) _ _ _ _ Hnew).
      eexists. exists w1. split; [reflexivity|]. exact Hnum. }
  destruct Hnumber as (n & w1 & Hrun & Hnum).
  assert (Hdiv : 0 <= index / 100) by (apply Z.div_pos; lia).
  assert (Hmod : 100 * (index / 100) <= index < 100 * (index / 100) + 100).
  { pose proof (Z.div_mod index 100 ltac:(lia)).
    pose proof (Z.mod_pos_bound index 100 ltac:(lia)). lia. }
  pose proof (repeatingGenerator_Generate_outputs fixed repeating exp
                (Z.to_nat (100 * (index / 100 + 1))) Hlf Hlr) as Hout.
  destruct (Number_At_digit it0 exp n w1 fuel index
              (Z.to_nat (100 * (index / 100 + 1))) _ Hnum Hindex Hfuel
              ltac:(lia) Hout) as (w2 & Hat & _).
  exists n, w1, w2. split; [exact Hrun|]. split.
  - rewrite Hat. f_equal. apply repeating_digit_stream; [assumption..|lia].
  - eapply number_of_Exponent. eassumption.
Qed.

Lemma NewNumberForTesting_At_digit_witness :
  exists n w1 w2,
    Context_NewNumberForTesting None [1; 0; 2] [0; 0; 3; 4] 2 initial_world
    = Ret (value n) w1 /\
    Number_At 1 n 5 w1
    = Ret (repeating_digit [1; 0; 2] [0; 0; 3; 4] (Z.to_nat 5)) w2 /\
    Number_Exponent n w1 = Ret 2 w1.
Proof.
  apply (NewNumberForTesting_At_digit None [1; 0; 2] [0; 0; 3; 4] 2
           initial_world {| active := 0; closed := false |} 1%nat 5).
  - reflexivity.
  - reflexivity.
  - simpl. lia.
  - vm_compute. reflexivity.
  - vm_compute. reflexivity.
  - reflexivity.
  - reflexivity.
  - vm_compute. split; [discriminate | reflexivity].
  - vm_compute. reflexivity.
Defined.

(** ** Numbers from a Generator *)

Lemma firstAndThen_resumes : forall (digits digits' : iterFn) first k,
    iter_next digits = Some (first, digits') ->
    iter_outputs (firstAndThen first digits') (Datatypes.S k)
    = iter_outputs digits (Datatypes.S k).
Proof.
  intros digits digits' first k Hnext. unfold iter_next in Hnext.
  destruct (iter_call digits (iter_state digits)) as [[x s']|] eqn:Hstep;
    [|discriminate].
  injection Hnext as -> <-.
  unfold iter_outputs.
  pose proof (firstAndThen_rest first (iter_at digits s') k s') as Hrest.
  match type of Hrest with
  | ?L = _ =>
      change (option_map fst
                (match L with
                 | None => None
                 | Some (ds, s'') => Some (first :: ds, s'')
                 end)
              = option_map fst
                  (calls (iter_call digits) (Datatypes.S k)
                     (iter_state digits)))
  end.
  rewrite Hrest.
  cbn [calls]. rewrite Hstep.
  change (calls (iter_call (iter_at digits s')) k s')
    with (calls (iter_call digits) k s').
  destruct (calls (iter_call digits) k s') as [[ds s'']|]; reflexivity.
Qed.

(** X13.  [NewNumber] reads a Generator faithfully: when the first value
    of the generator's closure is a digit 1..9, the Number it returns on
    a Context that is not closed answers [At(index)] with the value the
    closure yields on its call number [index], or -1 when one of the
    values up to that call is outside 0..9, and [Exponent()] with the
    generator's exponent. *)
Theorem NewNumber_At_digit :
  forall c (g : Generator) digits exp w x fuel index ds,
    Generate g = Some (digits, exp) ->
    iter_outputs digits (Z.to_nat (100 * (index / 100 + 1))) = Some ds ->
    1 <= hd 0 ds <= 9 ->
    context_of w (context_ptr_of c) = Some x -> closed x = false ->
    0 <= index < 100 * (kMaxChunks - 1) ->
    index / 100 < Z.of_nat fuel ->
    exists n w1 w2,
      Context_NewNumber c g w = Ret n w1 /\
      Number_At fuel n index w1
      = Ret (if validDigits (firstn (Datatypes.S (Z.to_nat index)) ds)
             then nth (Z.to_nat index) ds 0
             else -1) w2 /\
      Number_Exponent n w1 = Ret exp w1.
Proof.
  intros c g digits exp w x fuel index ds Hgen Hout Hfirst Hx Hopen Hindex
         Hfuel.
  assert (Hdiv : 0 <= index / 100) by (apply Z.div_pos; lia).
  assert (Hmod : 100 * (index / 100) <= index < 100 * (index / 100) + 100).
  { pose proof (Z.div_mod index 100 ltac:(lia)).
    pose proof (Z.mod_pos_bound index 100 ltac:(lia)). lia. }
  set (N := Z.to_nat (100 * (index / 100 + 1))) in *.
  assert (HN : exists k, N = Datatypes.S k).
  { exists (N - 1)%nat. unfold N. lia. }
  destruct HN as (k & HN).
  assert (Hnext : exists digits',
             iter_next digits = Some (hd 0 ds, digits')).
  { unfold iter_outputs in Hout. rewrite HN in Hout. cbn [calls] in Hout.
    unfold iter_next.
    destruct (iter_call digits (iter_state digits)) as [[d s1]|];
      [|discriminate].
    destruct (calls (iter_call digits) k s1) as [[ds1 s2]|]; [|discriminate].
    cbn [option_map fst] in Hout. injection Hout as <-.
    cbn [hd]. eauto. }
  destruct Hnext as (digits' & Hnext).
  destruct (Context_newFiniteNumber_number (firstAndThen (hd 0 ds) digits') c
              exp w x Hx Hopen) as (w1 & Hnew & Hnum & _).
  assert (Hrun : Context_NewNumber c g w
                 = Ret (opaqueNumber
                          (Number_FiniteNumber
                             (List.length (FiniteNumbers w)))) w1).
  { unfold Context_NewNumber. rewrite Hgen, Hnext.
    assert (Hok : (hd 0 ds =? 0) || digitOutOfRange (hd 0 ds) = false).
    { unfold digitOutOfRange.
      destruct (Z.eqb_spec (hd 0 ds) 0); [lia|].
      destruct (Z.ltb_spec (hd 0 ds) 0); [lia|].
      destruct (Z.gtb_spec (hd 0 ds) 9); [lia|]. reflexivity. }
    rewrite Hok. unfold Context_newNumber.
    rewrite (bind_Ret _ _ _ _ _ _ _ Hnew). reflexivity. }
  assert (Hout' : iter_outputs (firstAndThen (hd 0 ds) digits') N = Some ds).
  { rewrite HN. rewrite (firstAndThen_resumes digits digits' _ k Hnext).
    rewrite <- HN. exact Hout. }
  destruct (Number_At_digit _ exp
              (opaqueNumber
                 (Number_FiniteNumber (List.length (FiniteNumbers w))))
              w1 fuel index N ds Hnum Hindex Hfuel
              ltac:(unfold N; lia) Hout') as (w2 & Hat & _).
  eexists. exists w1, w2. split; [exact Hrun|]. split.
  - rewrite Hat. f_equal.
    apply valid_prefix_nth.
    unfold iter_outputs in Hout.
    destruct (calls _ _ _) as [[ds' s']|] eqn:Hc; [|discriminate].
    cbn [option_map fst] in Hout. injection Hout as ->.
    rewrite (calls_length _ _ _ _ _ _ Hc). unfold N. lia.
  - eapply number_of_Exponent. exact Hnum.
Qed.

Lemma NewNumber_At_digit_witness :
  exists n w1 w2,
    Context_NewNumber None
      (repeatingGenerator_Generator (newRepeatingGenerator [1; 0; 2] [] 0))
      initial_world = Ret n w1 /\
    Number_At 1 n 5 w1
    = Ret (if validDigits
                (firstn (Datatypes.S (Z.to_nat 5))
                   ([1; 0; 2] ++ repeat (-1) 97))
           then nth (Z.to_nat 5) ([1; 0; 2] ++ repeat (-1) 97) 0
           else -1) w2 /\
    Number_Exponent n w1 = Ret 0 w1.
Proof.
  apply (NewNumber_At_digit None
           (repeatingGenerator_Generator
              (newRepeatingGenerator [1; 0; 2] [] 0))
           digits_102 0 initial_world {| active := 0; closed := false |}
           1%nat 5 ([1; 0; 2] ++ repeat (-1) 97)).
  - reflexivity.
  - exact digits_102_outputs.
  - simpl. lia.
  - reflexivity.
  - reflexivity.
  - vm_compute. split; [discriminate | reflexivity].
  - vm_compute. reflexivity.
Defined.

(** ** What the factories reject *)

(** X14.  [NewNumberForTesting] rejects digits outside 0..9 and a
    leading zero with an error, whatever the Context: also on a closed
    one it returns the error instead of panicking, and it leaves the
    heap as it was (no memoizer is made, no worker started). *)
Theorem NewNumberForTesting_rejects : forall c fixed repeating exp w,
    fixed ++ repeating <> [] ->
    validDigits fixed && validDigits repeating = false \/
    hd 0 (fixed ++ repeating) = 0 ->
    Context_NewNumberForTesting c fixed repeating exp w
    = Ret (error
             (if validDigits fixed && validDigits repeating
              then "NewNumberForTesting: leading zeros not allowed in digits"
              else "NewNumberForTesting: digits must be between 0 and 9"))
        w.
Proof.
  intros c fixed repeating exp w Hne Hbad.
  unfold Context_NewNumberForTesting.
  assert (Hempty : (len fixed =? 0) && (len repeating =? 0) = false).
  { unfold len. destruct fixed, repeating; try reflexivity. contradiction. }
  rewrite Hempty.
  destruct (validDigits fixed) eqn:Hf; cbn [negb orb andb];
    [|reflexivity].
  destruct (validDigits repeating) eqn:Hr; cbn [negb]; [|reflexivity].
  destruct Hbad as [Hbad | Hzero]; [discriminate|].
  assert (Hhd : hd_error (fixed ++ repeating) = Some 0).
  { destruct (fixed ++ repeating) as [|d l]; [contradiction|].
    cbn [hd] in Hzero. subst d. reflexivity. }
  destruct (repeatingGenerator_first fixed repeating exp 0 Hhd)
    as (digits' & Hnext).
  destruct (repeatingGenerator_Generate
              (newRepeatingGenerator fixed repeating exp)) as [ds e].
  cbn [fst] in Hnext. rewrite Hnext. reflexivity.
Qed.

Lemma NewNumberForTesting_rejects_witness :
  Context_NewNumberForTesting (Some 0%nat) [0; 1] [2] 3 closed_Context_world
  = Ret (error
           (if validDigits [0; 1] && validDigits [2]
            then "NewNumberForTesting: leading zeros not allowed in digits"
            else "NewNumberForTesting: digits must be between 0 and 9"))
      closed_Context_world.
Proof.
  apply (NewNumberForTesting_rejects (Some 0%nat) [0; 1] [2] 3
           closed_Context_world).
  - discriminate.
  - right. reflexivity.
Defined.

(** X15.  [NewFiniteNumber] is [NewNumberForTesting] without repeating
    digits: it returns the same error, or the [*FiniteNumber] behind the
    Number that [NewNumberForTesting] returns, with the same effect on
    the heap, and panics only where [NewNumberForTesting] does: the
    type assertion of the result to [*FiniteNumber] never fails. *)
Theorem NewFiniteNumber_as_NewNumberForTesting : forall c fixed exp w,
    Context_NewFiniteNumber c fixed exp w
    = match Context_NewNumberForTesting c fixed [] exp w with
      | Ret (value n) w' => Ret (value (Number_ptr n)) w'
      | Ret (error msg) w' => Ret (error msg) w'
      | Panic msg => Panic msg
      | OutOfFuel => OutOfFuel
      end.
Proof.
  intros c fixed exp w.
  assert (Hshape : forall n w',
             Context_NewNumberForTesting c fixed [] exp w = Ret (value n) w' ->
             exists p, n = Number_FiniteNumber p).
  { intros n w' Hrun. unfold Context_NewNumberForTesting in Hrun.
    destruct ((len fixed =? 0) && (len (@nil Z) =? 0)).
    { injection Hrun as <- _. eauto. }
    destruct (negb (validDigits fixed) || negb (validDigits [])).
    { discriminate. }
    destruct (repeatingGenerator_Generate (newRepeatingGenerator fixed [] exp))
      as [digits e].
    destruct (iter_next digits) as [[first digits']|]; [|discriminate].
    destruct (first =? 0); [discriminate|].
    change (len (@nil Z) =? 0) with true in Hrun. cbv iota in Hrun.
    unfold bind in Hrun.
    destruct (Context_newFiniteNumber c digits e w) as [p w1| |];
      try discriminate.
    injection Hrun as <- _. eauto. }
  unfold Context_NewFiniteNumber, bind.
  destruct (Context_NewNumberForTesting c fixed [] exp w)
    as [[n|msg] w'| |] eqn:Hrun; try reflexivity.
  destruct (Hshape n w' eq_refl) as (p & ->). reflexivity.
Qed.

(** X16.  The root factories check the radicand before anything else:
    a denominator that is not positive panics with "Denominator must be
    positive" and otherwise a negative numerator with "Numerator must be
    non-negative" -- on every Context, also a closed one, and whatever
    the fuel. *)
Theorem root_factories_reject :
  forall fuel c radican num denom w,
    radican < 0 ->
    denom <= 0 \/ num < 0 ->
    let negative (A : Type) : outcome A :=
      Panic "Numerator must be non-negative" in
    let rejected (A : Type) : outcome A :=
      Panic (if denom <=? 0 then "Denominator must be positive"
             else "Numerator must be non-negative") in
    Context_Sqrt fuel c radican w = negative Number /\
    Context_SqrtBigInt fuel c radican w = negative Number /\
    Context_CubeRoot fuel c radican w = negative Number /\
    Context_CubeRootBigInt fuel c radican w = negative Number /\
    Context_SqrtRat fuel c num denom w = rejected Number /\
    Context_SqrtBigRat fuel c (num, denom) w = rejected Number /\
    Context_CubeRootRat fuel c num denom w = rejected Number /\
    Context_CubeRootBigRat fuel c (num, denom) w = rejected Number.
Proof.
  intros fuel c radican num denom w Hneg Hbad negative rejected.
  assert (Hint : forall (M : Type) (RM : rootManager M) (mgr : M),
             Context_nRootFrac fuel c radican one mgr w = negative Number).
  { intros M RM mgr. unfold Context_nRootFrac, bind, checkNumDenom, one.
    destruct (Z.ltb_spec radican 0); [reflexivity | lia]. }
  assert (Hrat : forall (M : Type) (RM : rootManager M) (mgr : M),
             Context_nRootFrac fuel c num denom mgr w = rejected Number).
  { intros M RM mgr. unfold Context_nRootFrac, bind, checkNumDenom, rejected.
    destruct (Z.leb_spec denom 0); [reflexivity|].
    destruct (Z.ltb_spec num 0); [reflexivity | lia]. }
  unfold Context_Sqrt, Context_SqrtBigInt, Context_CubeRoot,
    Context_CubeRootBigInt, Context_SqrtRat, Context_SqrtBigRat,
    Context_CubeRootRat, Context_CubeRootBigRat.
  cbn [fst snd]. repeat split; solve [apply Hint | apply Hrat].
Qed.

Lemma root_factories_reject_witness :
  Context_Sqrt 10 (Some 0%nat) (-4) closed_Context_world
  = Panic "Numerator must be non-negative" /\
  Context_SqrtBigInt 10 (Some 0%nat) (-4) closed_Context_world
  = Panic "Numerator must be non-negative" /\
  Context_CubeRoot 10 (Some 0%nat) (-4) closed_Context_world
  = Panic "Numerator must be non-negative" /\
  Context_CubeRootBigInt 10 (Some 0%nat) (-4) closed_Context_world
  = Panic "Numerator must be non-negative" /\
  Context_SqrtRat 10 (Some 0%nat) (-1) 0 closed_Context_world
  = Panic "Denominator must be positive" /\
  Context_SqrtBigRat 10 (Some 0%nat) (-1, 0) closed_Context_world
  = Panic "Denominator must be positive" /\
  Context_CubeRootRat 10 (Some 0%nat) (-1) 0 closed_Context_world
  = Panic "Denominator must be positive" /\
  Context_CubeRootBigRat 10 (Some 0%nat) (-1, 0) closed_Context_world
  = Panic "Denominator must be positive".
Proof.
  apply (root_factories_reject 10%nat (Some 0%nat) (-4) (-1) 0
           closed_Context_world).
  - lia.
  - left. lia.
Defined.

(** ** WithEnd *)

(** X17.  [WithEnd(end)] is [WithSignificant] without the check of the
    sign: for [end >= 0] it returns what [WithSignificant(end)] returns,
    the same pointer and the same heap, and for a negative [end] what
    [WithSignificant(0)] returns, where [WithSignificant] would
    panic. *)
Theorem WithEnd_as_WithSignificant : forall n end_ w,
    FiniteNumber_WithEnd n end_ w
    = FiniteNumber_WithSignificant n (Z.max 0 end_) w.
Proof.
  intros n end_ w.
  unfold FiniteNumber_WithEnd, FiniteNumber_WithSignificant.
  destruct (Z.ltb_spec (Z.max 0 end_) 0); [lia|].
  destruct (Z.le_gt_cases 0 end_) as [Hpos | Hneg].
  - rewrite Z.max_r by lia. reflexivity.
  - rewrite Z.max_l by lia.
    unfold bind. destruct (get_FiniteNumber n w) as [v w0| |]; try reflexivity.
    unfold mantissa_WithLimit, withLimit, bind.
    destruct (Z.leb_spec end_ 0); [|lia].
    reflexivity.
Qed.

(** ** Closing a Context *)

(** [worker_running w s]: the worker of the memoizer [s] has not returned. *)
Definition worker_running (w : world) (s : numberSpec) : bool :=
  match s with
  | spec_memoizer p =>
      match nth_error (memoizers w) p with
      | Some m => negb (m_done m)
      | None => false
      end
  | _ => false
  end.

(** [worker_of a w s]: [s] is a memoizer made by the Context at [a]
    whose worker has returned, or is parked below the largest length
    with a producer that returns from the calls of one more chunk. *)
Definition worker_of (a : ptr) (w : world) (s : numberSpec) : Prop :=
  exists p m,
    s = spec_memoizer p /\
    nth_error (memoizers w) p = Some m /\
    m_ctxt m = Context_ctxt a /\
    (m_done m = true \/
     (m_maxLength m <= len (m_data m) < 100 * kMaxChunks /\
      exists r, run_chunk 100 (m_iter m) (m_data m) = Some r)).

(** [Context_ok a w]: the Context at [a] has registered each of its
    memoizers once, those whose worker has not returned are all
    registered, and its counter of active goroutines is their number. *)
Definition Context_ok (a : ptr) (w : world) : Prop :=
  exists C,
    nth_error (Contexts w) a = Some C /\
    NoDup (specs C) /\
    Forall (worker_of a w) (specs C) /\
    active (ctxt C)
    = Z.of_nat (List.length (filter (worker_running w) (specs C))) /\
    (forall p m,
        nth_error (memoizers w) p = Some m ->
        m_ctxt m = Context_ctxt a -> m_done m = false ->
        In (spec_memoizer p) (specs C)).

Lemma numberSpec_FirstN_memoizer : forall depth fuel p n,
    numberSpec_FirstN depth fuel (spec_memoizer p) n
    = memoizer_FirstN fuel p n.
Proof. intros [|depth] fuel p n; reflexivity. Qed.

Lemma set_memoizer_exact : forall p m m' w,
    nth_error (memoizers w) p = Some m ->
    exists w',
      set_memoizer p m' w = Ret tt w' /\
      nth_error (memoizers w') p = Some m' /\
      (forall q, q <> p ->
                 nth_error (memoizers w') q = nth_error (memoizers w) q) /\
      Contexts w' = Contexts w.
Proof.
  intros p m m' w Hm. eexists. split; [reflexivity|].
  cbn [memoizers Contexts]. split; [|split; [|reflexivity]].
  - apply list_set_same. apply nth_error_Some. rewrite Hm. discriminate.
  - intros q Hq. apply list_set_other. exact Hq.
Qed.

Lemma memoizer_setData_exact : forall p m iter data done chunks w,
    nth_error (memoizers w) p = Some m ->
    exists w',
      memoizer_setData p iter data done chunks w = Ret tt w' /\
      nth_error (memoizers w') p
      = Some {| m_iter := iter; m_ctxt := m_ctxt m; m_data := data;
                m_maxLength := m_maxLength m; m_done := done;
                m_chunks := chunks |} /\
      (forall q, q <> p ->
                 nth_error (memoizers w') q = nth_error (memoizers w) q) /\
      Contexts w' = Contexts w.
Proof.
  intros p m iter data done chunks w Hm. unfold memoizer_setData.
  rewrite (bind_Ret _ _ _ _ _ _ _ (deref_Some _ memoizers p w m Hm)).
  apply set_memoizer_exact with (m := m). exact Hm.
Qed.

Lemma context_of_Context : forall a C w,
    nth_error (Contexts w) a = Some C ->
    context_of w (Context_ctxt a) = Some (ctxt C).
Proof. intros a C w HC. cbn [context_of]. rewrite HC. reflexivity. Qed.

Lemma context_Closed_exact : forall a C w,
    nth_error (Contexts w) a = Some C ->
    context_Closed (Context_ctxt a) w = Ret (closed (ctxt C)) w.
Proof.
  intros a C w HC. unfold context_Closed.
  rewrite (bind_Ret _ _ _ _ _ _ _
             (get_context_of w (Context_ctxt a) (ctxt C)
                (context_of_Context a C w HC))).
  reflexivity.
Qed.

Lemma set_context_exact : forall a C x w,
    nth_error (Contexts w) a = Some C ->
    exists w',
      set_context (Context_ctxt a) x w = Ret tt w' /\
      memoizers w' = memoizers w /\
      nth_error (Contexts w') a = Some {| ctxt := x; specs := specs C |}.
Proof.
  intros a C x w HC. cbn [set_context].
  rewrite (bind_Ret _ _ _ _ _ _ _ (deref_Some _ Contexts a w C HC)).
  eexists. split; [reflexivity|]. split; [reflexivity|].
  cbn [Contexts]. apply list_set_same.
  apply nth_error_Some. rewrite HC. discriminate.
Qed.

Lemma context_End_exact : forall a C w,
    nth_error (Contexts w) a = Some C ->
    exists w',
      context_End (Context_ctxt a) w = Ret tt w' /\
      memoizers w' = memoizers w /\
      nth_error (Contexts w') a
      = Some {| ctxt := {| active := active (ctxt C) + -1;
                           closed := closed (ctxt C) |};
                specs := specs C |}.
Proof.
  intros a C w HC. unfold context_End.
  rewrite (bind_Ret _ _ _ _ _ _ _
             (get_context_of w (Context_ctxt a) (ctxt C)
                (context_of_Context a C w HC))).
  apply set_context_exact. exact HC.
Qed.

(** The worker of a closed Context returns at the end of its chunk. *)
Lemma memoizer_run_turn_closed : forall p a m C r w,
    nth_error (memoizers w) p = Some m ->
    m_ctxt m = Context_ctxt a ->
    nth_error (Contexts w) a = Some C ->
    closed (ctxt C) = true ->
    run_chunk (Z.to_nat kMemoizerChunkSize) (m_iter m) (m_data m) = Some r ->
    exists w' m',
      memoizer_run_turn p w = Ret tt w' /\
      nth_error (memoizers w') p = Some m' /\
      m_done m' = true /\
      (forall q, q <> p ->
                 nth_error (memoizers w') q = nth_error (memoizers w) q) /\
      nth_error (Contexts w') a
      = Some {| ctxt := {| active := active (ctxt C) + -1; closed := true |};
                specs := specs C |}.
Proof.
  intros p a m C [[iter data] ended] w Hm Hctx HC Hclosed Hchunk.
  unfold memoizer_run_turn.
  rewrite (bind_Ret _ _ _ _ _ _ _ (deref_Some _ memoizers p w m Hm)).
  rewrite Hchunk, Hctx.
  assert (Hdone : exists w' m',
             (_ <- memoizer_setData p iter data true (m_chunks m) ;;
              context_End (Context_ctxt a)) w = Ret tt w' /\
             nth_error (memoizers w') p = Some m' /\
             m_done m' = true /\
             (forall q, q <> p ->
                        nth_error (memoizers w') q
                        = nth_error (memoizers w) q) /\
             nth_error (Contexts w') a
             = Some {| ctxt := {| active := active (ctxt C) + -1;
                                  closed := true |};
                       specs := specs C |}).
  { destruct (memoizer_setData_exact p m iter data true (m_chunks m) w Hm)
      as (w1 & Hset & Hm1 & Hothers & HC1).
    rewrite (bind_Ret _ _ _ _ _ _ _ Hset).
    destruct (context_End_exact a C w1 ltac:(rewrite HC1; exact HC))
      as (w2 & Hend & Hmem & HC2).
    exists w2. eexists. split; [exact Hend|].
    rewrite Hmem. split; [exact Hm1|]. split; [reflexivity|].
    split; [exact Hothers|]. rewrite HC2, Hclosed. reflexivity. }
  destruct ended; [exact Hdone|].
  rewrite (bind_Ret _ _ _ _ _ _ _ (context_Closed_exact a C w HC)).
  rewrite Hclosed. exact Hdone.
Qed.

(** [wait(MaxInt - 1)], as [Close] reaches it through [FirstN] on a
    closed Context, lets the worker return. *)
Lemma memoizer_wait_closed : forall fuel p a C w,
    (1 <= fuel)%nat ->
    worker_of a w (spec_memoizer p) ->
    nth_error (Contexts w) a = Some C ->
    closed (ctxt C) = true ->
    exists r w',
      memoizer_wait fuel p (MaxInt - 1) w = Ret r w' /\
      worker_running w' (spec_memoizer p) = false /\
      (forall q, q <> p ->
                 nth_error (memoizers w') q = nth_error (memoizers w) q) /\
      nth_error (Contexts w') a
      = Some {| ctxt :=
                  {| active := active (ctxt C)
                               - (if worker_running w (spec_memoizer p)
                                  then 1 else 0);
                     closed := true |};
                specs := specs C |}.
Proof.
  intros fuel p a C w Hfuel (p' & m & Hp & Hm & Hctx & Hstate) HC Hclosed.
  injection Hp as <-.
  pose proof kMaxChunks_value as HK.
  unfold memoizer_wait.
  rewrite (bind_Ret _ _ _ _ _ _ _ (deref_Some _ memoizers p w m Hm)).
  cbn [worker_running]. rewrite Hm.
  destruct (m_done m) eqn:Hdone; cbn [negb andb].
  - (* the worker has returned already *)
    rewrite (bind_Ret _ _ (ret tt) _ w tt w eq_refl).
    rewrite (bind_Ret _ _ _ _ _ _ _
               (memoizer_run_parked fuel p w m Hm
                  ltac:(rewrite Hdone; reflexivity))).
    rewrite (bind_Ret _ _ _ _ _ _ _ (deref_Some _ memoizers p w m Hm)).
    eexists. exists w. split; [reflexivity|].
    rewrite Hm, Hdone. split; [reflexivity|]. split; [reflexivity|].
    rewrite HC. destruct C as [[act cl] sp]. cbn in *. subst cl.
    repeat f_equal. lia.
  - destruct Hstate as [Hd | ((Hparked & Hbelow) & r & Hchunk)];
      [congruence|].
    unfold len in *.
    destruct (Z.leb_spec (m_maxLength m) (MaxInt - 1)) as [_ | Habove].
    2:{ unfold MaxInt in Habove. lia. }
    assert (Hcount : (int_add (int_div (MaxInt - 1) kMemoizerChunkSize) 1
                      >? kMaxChunks) = true) by (vm_compute; reflexivity).
    rewrite Hcount.
    assert (Hlen : int_mul kMemoizerChunkSize kMaxChunks = 100 * kMaxChunks)
      by (vm_compute; reflexivity).
    rewrite Hlen.
    set (m1 := {| m_iter := m_iter m; m_ctxt := m_ctxt m;
                  m_data := m_data m; m_maxLength := 100 * kMaxChunks;
                  m_done := false; m_chunks := m_chunks m |}).
    destruct (set_memoizer_exact p m m1 w Hm)
      as (w1 & Hset & Hm1 & Hothers1 & HC1).
    rewrite (bind_Ret _ _ _ _ _ _ _ Hset).
    destruct (memoizer_run_turn_closed p a m1 C r w1 Hm1 Hctx
                ltac:(rewrite HC1; exact HC) Hclosed Hchunk)
      as (w2 & m2 & Hturn & Hm2 & Hdone2 & Hothers2 & HC2).
    destruct fuel as [|fuel]; [lia|].
    assert (Hrun : memoizer_run (Datatypes.S fuel) p w1 = Ret tt w2).
    { cbn [memoizer_run].
      rewrite (bind_Ret _ _ _ _ _ _ _ (deref_Some _ memoizers p w1 m1 Hm1)).
      cbn [m1 m_done m_data m_maxLength negb andb].
      destruct (Z.ltb_spec (len (m_data m)) (100 * kMaxChunks));
        [|unfold len in *; lia].
      rewrite (bind_Ret _ _ _ _ _ _ _ Hturn).
      apply memoizer_run_parked with (m := m2); [exact Hm2|].
      rewrite Hdone2. reflexivity. }
    rewrite (bind_Ret _ _ _ _ _ _ _ Hrun).
    rewrite (bind_Ret _ _ _ _ _ _ _ (deref_Some _ memoizers p w2 m2 Hm2)).
    eexists. exists w2. split; [reflexivity|].
    rewrite Hm2, Hdone2. split; [reflexivity|]. split.
    + intros q Hq. rewrite Hothers2, Hothers1 by exact Hq. reflexivity.
    + rewrite HC2. repeat f_equal.
Qed.

Lemma memoizer_FirstN_closed : forall fuel p a C w,
    (1 <= fuel)%nat ->
    worker_of a w (spec_memoizer p) ->
    nth_error (Contexts w) a = Some C ->
    closed (ctxt C) = true ->
    exists data w',
      memoizer_FirstN fuel p MaxInt w = Ret data w' /\
      worker_running w' (spec_memoizer p) = false /\
      (forall q, q <> p ->
                 nth_error (memoizers w') q = nth_error (memoizers w) q) /\
      nth_error (Contexts w') a
      = Some {| ctxt :=
                  {| active := active (ctxt C)
                               - (if worker_running w (spec_memoizer p)
                                  then 1 else 0);
                     closed := true |};
                specs := specs C |}.
Proof.
  intros fuel p a C w Hfuel Hworker HC Hclosed.
  destruct (memoizer_wait_closed fuel p a C w Hfuel Hworker HC Hclosed)
    as ([data ok] & w' & Hwait & H).
  unfold memoizer_FirstN.
  assert (Hpos : (MaxInt <=? 0) = false) by reflexivity.
  assert (Hsub : int_sub MaxInt 1 = MaxInt - 1) by (vm_compute; reflexivity).
  rewrite Hpos, Hsub.
  rewrite (bind_Ret _ _ _ _ _ _ _ Hwait).
  destruct (len data >? MaxInt); eexists; exists w';
    (split; [reflexivity | exact H]).
Qed.

Lemma running_stable : forall w w' p l,
    (forall q, q <> p ->
               nth_error (memoizers w') q = nth_error (memoizers w) q) ->
    ~ In (spec_memoizer p) l ->
    filter (worker_running w') l = filter (worker_running w) l.
Proof.
  intros w w' p l Hothers Hp. apply filter_ext_in.
  intros s Hs. destruct s as [|q|q]; try reflexivity.
  cbn [worker_running]. rewrite Hothers; [reflexivity|].
  intros ->. contradiction.
Qed.

Lemma worker_of_stable : forall a w w' p s,
    (forall q, q <> p ->
               nth_error (memoizers w') q = nth_error (memoizers w) q) ->
    s <> spec_memoizer p ->
    worker_of a w s -> worker_of a w' s.
Proof.
  intros a w w' p s Hothers Hs (q & m & -> & Hm & H).
  exists q, m. split; [reflexivity|]. split; [|exact H].
  rewrite Hothers; [exact Hm|]. intros ->. contradiction.
Qed.

(** The loop of [Close] over the registered memoizers. *)
Lemma Context_Close_specs_frees : forall fuel a l w C,
    (1 <= fuel)%nat ->
    nth_error (Contexts w) a = Some C ->
    closed (ctxt C) = true ->
    NoDup l ->
    Forall (worker_of a w) l ->
    active (ctxt C) = Z.of_nat (List.length (filter (worker_running w) l)) ->
    exists w',
      Context_Close_specs fuel l w = Ret tt w' /\
      nth_error (Contexts w') a
      = Some {| ctxt := {| active := 0; closed := true |};
                specs := specs C |}.
Proof.
  intros fuel a l. induction l as [|s l IH];
    intros w C Hfuel HC Hclosed Hnodup Hworkers Hactive.
  - exists w. split; [reflexivity|].
    rewrite HC. destruct C as [[act cl] sp]. cbn in *. subst. reflexivity.
  - inversion Hnodup as [|s' l' Hnotin Hnodup']; subst.
    inversion Hworkers as [|s' l' Hs Hl]; subst.
    pose proof Hs as (p & m & -> & _).
    destruct (memoizer_FirstN_closed fuel p a C w Hfuel Hs HC Hclosed)
      as (data & w1 & Hfirst & Hstopped & Hothers & HC1).
    cbn [Context_Close_specs].
    rewrite numberSpec_FirstN_memoizer.
    rewrite (bind_Ret _ _ _ _ _ _ _ Hfirst).
    destruct (IH w1 _ Hfuel HC1 eq_refl Hnodup') as (w' & Hrest & HC').
    + apply Forall_forall. intros s Hin.
      apply (worker_of_stable a w w1 p s Hothers).
      * intros ->. contradiction.
      * apply (proj1 (Forall_forall _ _) Hl). exact Hin.
    + cbn [ctxt active]. rewrite Hactive. cbn [filter].
      rewrite (running_stable w w1 p l Hothers Hnotin).
      destruct (worker_running w (spec_memoizer p)); cbn [List.length]; lia.
    + exists w'. split; [exact Hrest|]. exact HC'.
Qed.

(** X18.  [Close] stops every goroutine of its Context.  When the
    Context has registered each of its memoizers once, counts the workers
    that have not returned, and every such worker is parked with a
    producer that returns from the calls of one more chunk, then [Close]
    returns, after it [NumGoroutines] is 0, no memoizer is registered
    and the Context is closed. *)
Theorem Context_Close_frees : forall fuel a w,
    (1 <= fuel)%nat ->
    Context_ok a w ->
    exists w',
      Context_Close fuel (Some a) w = Ret tt w' /\
      Context_NumGoroutines (Some a) w' = Ret 0 w' /\
      Context_numSpecs a w' = Ret 0 w' /\
      context_Closed (Context_ctxt a) w' = Ret true w'.
Proof.
  intros fuel a w Hfuel (C & HC & Hnodup & Hworkers & Hactive & _).
  destruct (set_context_exact a C {| active := active (ctxt C);
                                     closed := true |} w HC)
    as (w0 & Hset & Hmem0 & HC0).
  assert (Hclose : context_Close (Context_ctxt a) w = Ret tt w0).
  { unfold context_Close.
    rewrite (bind_Ret _ _ _ _ _ _ _
               (get_context_of w (Context_ctxt a) (ctxt C)
                  (context_of_Context a C w HC))).
    exact Hset. }
  assert (Hsame : forall q, q <> a ->
             nth_error (memoizers w0) q = nth_error (memoizers w) q).
  { intros q _. rewrite Hmem0. reflexivity. }
  destruct (Context_Close_specs_frees fuel a (specs C) w0 _ Hfuel HC0 eq_refl
              Hnodup) as (w1 & Hspecs & HC1).
  { apply Forall_forall. intros s Hs.
    destruct (proj1 (Forall_forall _ _) Hworkers s Hs)
      as (q & m & -> & Hm & H).
    exists q, m. rewrite Hmem0. auto. }
  { cbn [ctxt active]. rewrite Hactive. f_equal. f_equal.
    apply filter_ext. intros [|q|q]; cbn [worker_running]; try reflexivity.
    rewrite Hmem0. reflexivity. }
  destruct (nth_error_Some (Contexts w1) a) as [Hlt _].
  specialize (Hlt ltac:(rewrite HC1; discriminate)).
  eexists. split; [|split; [|split]].
  - cbn [Context_Close].
    rewrite (bind_Ret _ _ _ _ _ _ _ Hclose).
    rewrite (bind_Ret _ _ _ _ _ _ _ (deref_Some _ Contexts a w0 _ HC0)).
    cbn [specs].
    rewrite (bind_Ret _ _ _ _ _ _ _ Hspecs).
    rewrite (bind_Ret _ _ _ _ _ _ _ (deref_Some _ Contexts a w1 _ HC1)).
    reflexivity.
  - cbn [Context_NumGoroutines]. unfold context_NumActive.
    erewrite (bind_Ret _ _ (get_context (Context_ctxt a))).
    2:{ apply get_context_of. cbn [context_of Contexts].
        rewrite list_set_same by exact Hlt. reflexivity. }
    reflexivity.
  - unfold Context_numSpecs.
    erewrite (bind_Ret _ _ (get_Context a)).
    2:{ apply deref_Some. cbn [Contexts].
        apply list_set_same. exact Hlt. }
    reflexivity.
  - unfold context_Closed.
    erewrite (bind_Ret _ _ (get_context (Context_ctxt a))).
    2:{ apply get_context_of. cbn [context_of Contexts].
        rewrite list_set_same by exact Hlt. reflexivity. }
    reflexivity.
Qed.

(** ** The counter of active goroutines *)

Definition context_ptr_eqb (c c' : context_ptr) : bool :=
  match c, c' with
  | global_context, global_context => true
  | Context_ctxt a, Context_ctxt b => Nat.eqb a b
  | _, _ => false
  end.

Lemma context_ptr_eqb_spec : forall c c',
    reflect (c = c') (context_ptr_eqb c c').
Proof.
  intros [|a] [|b]; cbn [context_ptr_eqb]; try (constructor; congruence).
  destruct (Nat.eqb_spec a b); constructor; congruence.
Qed.

(** [accounted p c k w w']: between [w] and [w'] the counter of the
    context [c] went down by [k]; nothing else changed in the contexts,
    and no memoizer but the one at [p] changed. *)
Record accounted (p : ptr) (c : context_ptr) (k : Z) (w w' : world)
  : Prop := mkAccounted {
  acc_memoizers : forall q,
      q <> p -> nth_error (memoizers w') q = nth_error (memoizers w) q;
  acc_context : forall x,
      context_of w c = Some x ->
      context_of w' c = Some {| active := active x - k; closed := closed x |};
  acc_others : forall c',
      c' <> c -> context_of w' c' = context_of w c';
  acc_specs : forall a,
      option_map specs (nth_error (Contexts w') a)
      = option_map specs (nth_error (Contexts w) a)
}.

Lemma accounted_refl : forall p c w, accounted p c 0 w w.
Proof.
  intros p c w. split; try reflexivity.
  intros [act cl] Hx. rewrite Hx. cbn [active closed].
  repeat f_equal. lia.
Qed.

Lemma accounted_trans : forall p c k1 k2 w1 w2 w3,
    (exists x, context_of w1 c = Some x) ->
    accounted p c k1 w1 w2 -> accounted p c k2 w2 w3 ->
    accounted p c (k1 + k2) w1 w3.
Proof.
  intros p c k1 k2 w1 w2 w3 (x0 & Hx0) [A1 B1 C1 D1] [A2 B2 C2 D2]. split.
  - intros q Hq. rewrite A2, A1 by exact Hq. reflexivity.
  - intros x Hx. rewrite (B2 _ (B1 x Hx)). cbn [active closed].
    f_equal. f_equal. lia.
  - intros c' Hc'. rewrite C2, C1 by exact Hc'. reflexivity.
  - intros a. rewrite D2, D1. reflexivity.
Qed.

Lemma set_memoizer_accounted : forall p c m m' w,
    nth_error (memoizers w) p = Some m ->
    exists w',
      set_memoizer p m' w = Ret tt w' /\
      nth_error (memoizers w') p = Some m' /\
      accounted p c 0 w w'.
Proof.
  intros p c m m' w Hm.
  destruct (set_memoizer_exact p m m' w Hm) as (w' & Hset & Hm' & Ho & HC).
  exists w'. split; [exact Hset|]. split; [exact Hm'|].
  injection Hset as <-. split; cbn [Contexts]; try reflexivity.
  - exact Ho.
  - intros [act cl] Hx.
    replace (context_of _ c) with (context_of w c) by (destruct c; reflexivity).
    rewrite Hx. cbn [active closed]. repeat f_equal. lia.
Qed.

Lemma context_End_accounted : forall p c x w,
    context_of w c = Some x ->
    exists w',
      context_End c w = Ret tt w' /\
      memoizers w' = memoizers w /\
      accounted p c 1 w w'.
Proof.
  intros p c x w Hx. unfold context_End.
  rewrite (bind_Ret _ _ _ _ _ _ _ (get_context_of w c x Hx)).
  destruct c as [|a]; cbn [set_context context_of] in *.
  - eexists. split; [reflexivity|]. split; [reflexivity|].
    split; cbn [memoizers Contexts]; try reflexivity.
    + intros x' Hx'. cbn [context_of globalNumSpecContext].
      injection Hx as <-. injection Hx' as <-. repeat f_equal.
    + intros [|b] Hb; [contradiction | reflexivity].
  - destruct (nth_error (Contexts w) a) as [C|] eqn:HC; [|discriminate].
    cbn [option_map] in Hx. injection Hx as <-.
    assert (Ha : (a < List.length (Contexts w))%nat)
      by (apply nth_error_Some; rewrite HC; discriminate).
    rewrite (bind_Ret _ _ _ _ _ _ _ (deref_Some _ Contexts a w C HC)).
    eexists. split; [reflexivity|]. split; [reflexivity|].
    split; cbn [memoizers Contexts]; try reflexivity.
    + intros x' Hx'. cbn [context_of Contexts].
      rewrite list_set_same by exact Ha.
      cbn [context_of] in Hx'. rewrite HC in Hx'.
      cbn [option_map] in Hx'. injection Hx' as <-.
      reflexivity.
    + intros [|b] Hb; cbn [context_of Contexts globalNumSpecContext];
        [reflexivity|].
      rewrite list_set_other by congruence. reflexivity.
    + intros b. destruct (Nat.eq_dec b a) as [-> | Hb].
      * rewrite list_set_same by exact Ha. rewrite HC. reflexivity.
      * rewrite list_set_other by exact Hb. reflexivity.
Qed.

(** A turn of the worker takes one off the counter exactly when it
    publishes [done]. *)
Lemma memoizer_run_turn_accounted : forall p w w' m x,
    nth_error (memoizers w) p = Some m ->
    context_of w (m_ctxt m) = Some x ->
    memoizer_run_turn p w = Ret tt w' ->
    exists m',
      nth_error (memoizers w') p = Some m' /\
      m_ctxt m' = m_ctxt m /\
      m_maxLength m' = m_maxLength m /\
      accounted p (m_ctxt m) (if m_done m' then 1 else 0) w w'.
Proof.
  intros p w w' m x Hm Hx Hturn.
  unfold memoizer_run_turn in Hturn.
  rewrite (bind_Ret _ _ _ _ _ _ _ (deref_Some _ memoizers p w m Hm)) in Hturn.
  destruct (run_chunk _ _ _) as [[[iter data] ended]|]; [|discriminate].
  assert (Hdone : forall chunks w0,
             (_ <- memoizer_setData p iter data true chunks ;;
              context_End (m_ctxt m)) w = Ret tt w0 ->
             exists m',
               nth_error (memoizers w0) p = Some m' /\
               m_ctxt m' = m_ctxt m /\
               m_maxLength m' = m_maxLength m /\
               accounted p (m_ctxt m) (if m_done m' then 1 else 0) w w0).
  { intros chunks w0 Hrun. unfold memoizer_setData in Hrun.
    unfold bind at 1 in Hrun.
    rewrite (bind_Ret _ _ _ _ _ _ _ (deref_Some _ memoizers p w m Hm))
      in Hrun.
    destruct (set_memoizer_accounted p (m_ctxt m) m
                {| m_iter := iter; m_ctxt := m_ctxt m; m_data := data;
                   m_maxLength := m_maxLength m; m_done := true;
                   m_chunks := chunks |} w Hm)
      as (w1 & Hset & Hm1 & Hacc1).
    rewrite Hset in Hrun.
    pose proof (acc_context _ _ _ _ _ Hacc1 x Hx) as Hx1.
    destruct (context_End_accounted p (m_ctxt m) _ w1 Hx1)
      as (w2 & Hend & Hmem & Hacc2).
    rewrite Hend in Hrun. injection Hrun as <-.
    eexists. rewrite Hmem. split; [exact Hm1|].
    cbn [m_ctxt m_maxLength m_done]. split; [reflexivity|].
    split; [reflexivity|].
    apply (accounted_trans p (m_ctxt m) 0 1 w w1 w2); eauto. }
  destruct ended; [eapply Hdone; exact Hturn|].
  unfold bind at 1 in Hturn.
  destruct (context_Closed (m_ctxt m) w) as [isClosed w0| |] eqn:Hclosed;
    try discriminate.
  assert (w0 = w).
  { unfold context_Closed in Hclosed.
    rewrite (bind_Ret _ _ _ _ _ _ _ (get_context_of w _ x Hx)) in Hclosed.
    injection Hclosed as _ <-. reflexivity. }
  subst w0.
  destruct isClosed; [eapply Hdone; exact Hturn|].
  assert (Hcont : forall done chunks,
             memoizer_setData p iter data done chunks w = Ret tt w' ->
             done = false ->
             exists m',
               nth_error (memoizers w') p = Some m' /\
               m_ctxt m' = m_ctxt m /\
               m_maxLength m' = m_maxLength m /\
               accounted p (m_ctxt m) (if m_done m' then 1 else 0) w w').
  { intros done chunks Hrun ->. unfold memoizer_setData in Hrun.
    rewrite (bind_Ret _ _ _ _ _ _ _ (deref_Some _ memoizers p w m Hm))
      in Hrun.
    destruct (set_memoizer_accounted p (m_ctxt m) m
                {| m_iter := iter; m_ctxt := m_ctxt m; m_data := data;
                   m_maxLength := m_maxLength m; m_done := false;
                   m_chunks := chunks |} w Hm)
      as (w1 & Hset & Hm1 & Hacc1).
    rewrite Hset in Hrun. injection Hrun as <-.
    eexists. split; [exact Hm1|].
    cbn [m_ctxt m_maxLength m_done]. auto. }
  destruct (m_chunks m + 1 <? kMaxChunks).
  - eapply Hcont; [exact Hturn | reflexivity].
  - eapply Hdone. exact Hturn.
Qed.

Lemma memoizer_run_accounted : forall fuel p w w' m x,
    nth_error (memoizers w) p = Some m ->
    context_of w (m_ctxt m) = Some x ->
    memoizer_run fuel p w = Ret tt w' ->
    exists m',
      nth_error (memoizers w') p = Some m' /\
      m_ctxt m' = m_ctxt m /\
      (m_done m = true -> m_done m' = true) /\
      accounted p (m_ctxt m) (if negb (m_done m) && m_done m' then 1 else 0)
        w w'.
Proof.
  induction fuel as [|fuel IH]; intros p w w' m x Hm Hx Hrun;
    cbn [memoizer_run] in Hrun;
    rewrite (bind_Ret _ _ _ _ _ _ _ (deref_Some _ memoizers p w m Hm)) in Hrun;
    destruct (negb (m_done m) && (len (m_data m) <? m_maxLength m))
      eqn:Hcond;
    try discriminate.
  - unfold ret in Hrun. injection Hrun as <-. exists m. split; [exact Hm|].
    split; [reflexivity|]. split; [auto|].
    rewrite andb_negb_l. apply accounted_refl.
  - apply andb_true_iff in Hcond. destruct Hcond as [Hnot _].
    apply negb_true_iff in Hnot.
    unfold bind in Hrun.
    destruct (memoizer_run_turn p w) as [[] w1| |] eqn:Hturn;
      try discriminate.
    destruct (memoizer_run_turn_accounted p w w1 m x Hm Hx Hturn)
      as (m1 & Hm1 & Hctx1 & _ & Hacc1).
    pose proof (acc_context _ _ _ _ _ Hacc1 x Hx) as Hx1.
    rewrite <- Hctx1 in Hx1.
    destruct (IH p w1 w' m1 _ Hm1 Hx1 Hrun)
      as (m' & Hm' & Hctx' & Hsticky & Hacc').
    rewrite Hctx1 in Hacc'.
    exists m'. split; [exact Hm'|]. split; [congruence|].
    split; [congruence|].
    rewrite Hnot. cbn [negb andb].
    replace (if m_done m' then 1 else 0)
      with ((if m_done m1 then 1 else 0)
            + (if negb (m_done m1) && m_done m' then 1 else 0)).
    + apply (accounted_trans p (m_ctxt m) _ _ w w1 w'); eauto.
    + destruct (m_done m1).
      * rewrite Hsticky by reflexivity. reflexivity.
      * destruct (m_done m'); reflexivity.
  - unfold ret in Hrun. injection Hrun as <-. exists m. split; [exact Hm|].
    split; [reflexivity|]. split; [auto|].
    rewrite andb_negb_l. apply accounted_refl.
Qed.

Lemma memoizer_wait_accounted : forall fuel p index w w' r m x,
    nth_error (memoizers w) p = Some m ->
    context_of w (m_ctxt m) = Some x ->
    memoizer_wait fuel p index w = Ret r w' ->
    exists m',
      nth_error (memoizers w') p = Some m' /\
      m_ctxt m' = m_ctxt m /\
      (m_done m = true -> m_done m' = true) /\
      accounted p (m_ctxt m) (if negb (m_done m) && m_done m' then 1 else 0)
        w w'.
Proof.
  intros fuel p index w w' r m x Hm Hx Hwait.
  unfold memoizer_wait in Hwait.
  rewrite (bind_Ret _ _ _ _ _ _ _ (deref_Some _ memoizers p w m Hm)) in Hwait.
  assert (Hgrow : exists w1 m1,
             (if negb (m_done m) && (m_maxLength m <=? index)
              then
                let chunkCount :=
                  int_add (int_div index kMemoizerChunkSize) 1 in
                let chunkCount0 :=
                  if chunkCount >? kMaxChunks then kMaxChunks
                  else chunkCount in
                set_memoizer p
                  {| m_iter := m_iter m; m_ctxt := m_ctxt m;
                     m_data := m_data m;
                     m_maxLength := int_mul kMemoizerChunkSize chunkCount0;
                     m_done := m_done m; m_chunks := m_chunks m |}
              else ret tt) w = Ret tt w1 /\
             nth_error (memoizers w1) p = Some m1 /\
             m_ctxt m1 = m_ctxt m /\ m_done m1 = m_done m /\
             accounted p (m_ctxt m) 0 w w1).
  { destruct (negb (m_done m) && (m_maxLength m <=? index)).
    - cbv zeta.
      match goal with
      | |- context [set_memoizer p ?m1 w] =>
          destruct (set_memoizer_accounted p (m_ctxt m) m m1 w Hm)
            as (w1 & Hset & Hm1 & Hacc1);
          exists w1, m1
      end.
      auto.
    - exists w, m. split; [reflexivity|]. split; [exact Hm|].
      split; [reflexivity|]. split; [reflexivity|]. apply accounted_refl. }
  destruct Hgrow as (w1 & m1 & Hset & Hm1 & Hctx1 & Hdone1 & Hacc1).
  rewrite (bind_Ret _ _ _ _ _ _ _ Hset) in Hwait.
  unfold bind at 1 in Hwait.
  destruct (memoizer_run fuel p w1) as [[] w2| |] eqn:Hrun; try discriminate.
  pose proof (acc_context _ _ _ _ _ Hacc1 x Hx) as Hx1.
  replace {| active := active x - 0; closed := closed x |} with x in Hx1
    by (destruct x as [act cl]; cbn [active closed]; f_equal; lia).
  rewrite <- Hctx1 in Hx1.
  destruct (memoizer_run_accounted fuel p w1 w2 m1 x Hm1 Hx1 Hrun)
    as (m' & Hm' & Hctx' & Hsticky & Hacc').
  rewrite (bind_Ret _ _ _ _ _ _ _ (deref_Some _ memoizers p w2 m' Hm'))
    in Hwait.
  unfold ret in Hwait. injection Hwait as _ <-.
  exists m'. split; [exact Hm'|]. split; [congruence|].
  split; [rewrite <- Hdone1; exact Hsticky|].
  rewrite Hctx1, Hdone1 in Hacc'.
  apply (accounted_trans p (m_ctxt m) 0 _ w w1 w2); eauto.
Qed.

Lemma memoizer_At_accounted : forall fuel p index w w' d m x,
    nth_error (memoizers w) p = Some m ->
    context_of w (m_ctxt m) = Some x ->
    memoizer_At fuel p index w = Ret d w' ->
    exists m',
      nth_error (memoizers w') p = Some m' /\
      m_ctxt m' = m_ctxt m /\
      (m_done m = true -> m_done m' = true) /\
      accounted p (m_ctxt m) (if negb (m_done m) && m_done m' then 1 else 0)
        w w'.
Proof.
  intros fuel p index w w' d m x Hm Hx Hat.
  unfold memoizer_At in Hat. destruct (index <? 0).
  - unfold ret in Hat. injection Hat as _ <-. exists m. split; [exact Hm|].
    split; [reflexivity|]. split; [auto|].
    rewrite andb_negb_l. apply accounted_refl.
  - unfold bind in Hat.
    destruct (memoizer_wait fuel p index w) as [[data ok] w1| |] eqn:Hwait;
      try discriminate.
    assert (w' = w1)
      by (unfold ret in Hat; destruct (negb ok); injection Hat as _ <-;
          reflexivity).
    subst w1.
    eapply memoizer_wait_accounted; eassumption.
Qed.

Definition numberSpec_eq_dec : forall s s' : numberSpec, {s = s'} + {s <> s'}.
Proof. decide equality; apply Nat.eq_dec. Defined.

Lemma filter_count_change : forall (f f' : numberSpec -> bool) sp l,
    (forall s, s <> sp -> f' s = f s) ->
    Z.of_nat (List.length (filter f' l))
    = Z.of_nat (List.length (filter f l))
      + Z.of_nat (count_occ numberSpec_eq_dec l sp)
        * (Z.b2z (f' sp) - Z.b2z (f sp)).
Proof.
  intros f f' sp l Hsame. induction l as [|s l IH]; [reflexivity|].
  cbn [filter count_occ].
  destruct (numberSpec_eq_dec s sp) as [-> | Hne].
  - destruct (f' sp), (f sp); cbn [List.length Z.b2z] in *; lia.
  - rewrite (Hsame s Hne). destruct (f s); cbn [List.length]; lia.
Qed.

Lemma memo_ok_worker : forall (it0 : iterFn) m,
    memo_ok it0 m ->
    (forall n, iter_outputs it0 n <> None) ->
    m_done m = true \/
    (m_maxLength m <= len (m_data m) < 100 * kMaxChunks /\
     exists r, run_chunk 100 (m_iter m) (m_data m) = Some r).
Proof.
  intros it0 m Hok Htotal. unfold memo_ok in Hok.
  destruct (m_done m); [left; reflexivity | right].
  destruct Hok as (s & Hiter & Hcalls & Hvalid & Hlen & Hmax & Hbelow).
  split; [lia|].
  specialize (Htotal (List.length (m_data m) + 100)%nat).
  unfold iter_outputs in Htotal.
  destruct (calls (iter_call it0) (List.length (m_data m) + 100)
              (iter_state it0)) as [[ds s2]|] eqn:Hall;
    [|contradiction Htotal; reflexivity].
  apply calls_split in Hall.
  destruct Hall as (da & s1 & db & Ha & Hb & _ & _).
  rewrite Hcalls in Ha. injection Ha as <- <-.
  destruct (run_chunk_spec it0 100 s (m_data m) db s2 Hb) as (s'' & Hrun & _).
  rewrite Hiter. eauto.
Qed.

(** X19.  Reading a digit keeps the books of every Context: [At] on a
    memoizer whose producer always returns leaves each Context with its
    memoizers registered once and its counter of active goroutines equal
    to the number of their workers that have not returned -- the worker
    that finds the end of the digits takes itself off the counter. *)
Theorem At_keeps_Context_ok : forall a (it0 : iterFn) p w fuel index,
    Context_ok a w ->
    memoizes it0 p w ->
    (forall n, iter_outputs it0 n <> None) ->
    0 <= index < 100 * (kMaxChunks - 1) ->
    index / 100 < Z.of_nat fuel ->
    exists d w',
      memoizer_At fuel p index w = Ret d w' /\
      Context_ok a w' /\
      memoizes it0 p w'.
Proof.
  intros a it0 p w fuel index (C & HC & Hnodup & Hworkers & Hactive & Hreg)
         Hmemo Htotal Hindex Hfuel.
  assert (Hdiv : 0 <= index / 100) by (apply Z.div_pos; lia).
  set (N := Z.to_nat (100 * (index / 100 + 1))).
  destruct (iter_outputs it0 N) as [ds|] eqn:Hout;
    [|contradiction (Htotal N)].
  destruct (memoizer_At_spec it0 p w fuel index N ds Hmemo Hindex Hfuel
              ltac:(unfold N; lia) Hout) as (w' & Hat & Hmemo' & _).
  eexists. exists w'. split; [exact Hat|]. split; [|exact Hmemo'].
  destruct Hmemo as (m & x & Hm & _ & Hx & _).
  destruct (memoizer_At_accounted fuel p index w w' _ m x Hm Hx Hat)
    as (m' & Hm' & Hctx' & Hsticky & Hacc).
  destruct Hmemo' as (m'' & _ & Hm'' & Hok' & _).
  rewrite Hm' in Hm''. injection Hm'' as <-.
  pose proof (memo_ok_worker it0 m' Hok' Htotal) as Hworker'.
  pose proof (acc_specs _ _ _ _ _ Hacc a) as Hspecs.
  rewrite HC in Hspecs. cbn [option_map] in Hspecs.
  destruct (nth_error (Contexts w') a) as [C'|] eqn:HC'; [|discriminate].
  cbn [option_map] in Hspecs. injection Hspecs as Hspecs.
  assert (Hrunning : forall s, s <> spec_memoizer p ->
             worker_running w' s = worker_running w s).
  { intros [|q|q] Hs; try reflexivity. cbn [worker_running].
    rewrite (acc_memoizers _ _ _ _ _ Hacc q); [reflexivity|].
    intros ->. contradiction. }
  exists C'. rewrite Hspecs. split; [exact HC'|]. split; [exact Hnodup|].
  split; [|split].
  - apply Forall_forall. intros s Hs.
    pose proof (proj1 (Forall_forall _ _) Hworkers s Hs) as Hw.
    destruct (numberSpec_eq_dec s (spec_memoizer p)) as [-> | Hne].
    + destruct Hw as (q & mq & Hq & Hmq & Hcq & _).
      injection Hq as <-. rewrite Hm in Hmq. injection Hmq as <-.
      exists p, m'. split; [reflexivity|]. split; [exact Hm'|].
      split; [congruence | exact Hworker'].
    + eapply worker_of_stable; [| exact Hne | exact Hw].
      apply (acc_memoizers _ _ _ _ _ Hacc).
  - rewrite (filter_count_change (worker_running w) (worker_running w')
               (spec_memoizer p) (specs C) Hrunning).
    rewrite <- Hactive. cbn [worker_running]. rewrite Hm, Hm'.
    destruct (context_ptr_eqb_spec (m_ctxt m) (Context_ctxt a))
      as [Hmine | Hother].
    + rewrite Hmine in Hacc.
      pose proof (acc_context _ _ _ _ _ Hacc (ctxt C)
                    (context_of_Context a C w HC)) as Hctx.
      rewrite (context_of_Context a C' w' HC') in Hctx.
      injection Hctx as ->. cbn [active].
      destruct (m_done m) eqn:Hdone.
      * rewrite Hsticky by reflexivity. cbn [negb andb Z.b2z]. lia.
      * assert (Hin : In (spec_memoizer p) (specs C))
          by (apply (Hreg p m); assumption).
        rewrite (proj1 (NoDup_count_occ' numberSpec_eq_dec (specs C)) Hnodup
                   _ Hin).
        destruct (m_done m'); cbn [negb andb Z.b2z]; lia.
    + assert (Hsame : context_of w' (Context_ctxt a)
                      = context_of w (Context_ctxt a)).
      { apply (acc_others _ _ _ _ _ Hacc). congruence. }
      rewrite (context_of_Context a C' w' HC'),
        (context_of_Context a C w HC) in Hsame.
      injection Hsame as ->.
      assert (Hnotin : ~ In (spec_memoizer p) (specs C)).
      { intros Hin.
        destruct (proj1 (Forall_forall _ _) Hworkers _ Hin)
          as (q & mq & Hq & Hmq & Hcq & _).
        injection Hq as <-. rewrite Hm in Hmq. injection Hmq as <-.
        contradiction. }
      rewrite (proj1 (count_occ_not_In numberSpec_eq_dec (specs C) _) Hnotin).
      lia.
  - intros q mq Hmq Hcq Hdq.
    destruct (Nat.eq_dec q p) as [-> | Hne].
    + rewrite Hm' in Hmq. injection Hmq as <-.
      apply (Hreg p m Hm); [congruence|].
      destruct (m_done m) eqn:Hdone; [|reflexivity].
      rewrite Hsticky in Hdq by reflexivity. discriminate.
    + rewrite (acc_memoizers _ _ _ _ _ Hacc q Hne) in Hmq.
      apply (Hreg q mq); assumption.
Qed.

Lemma list_set_twice : forall (A : Type) (l : list A) p x y,
    list_set (list_set l p x) p y = list_set l p y.
Proof.
  intros A l. induction l as [|z l IH]; intros p x y; [reflexivity|].
  destruct p; cbn [list_set]; [reflexivity|]. rewrite IH. reflexivity.
Qed.

(** The memoizer that [newMemoizeSpec] makes. *)
Definition new_memoizer_of (iter : iterFn) (c : context_ptr) : memoizer :=
  {| m_iter := iter; m_ctxt := c; m_data := []; m_maxLength := 0;
     m_done := false; m_chunks := 0 |}.

(** What [Context.newMemoizeSpec] does to the heap of a Context that is
    not closed: one more memoizer, registered, and one more active
    goroutine. *)
Lemma Context_newMemoizeSpec_exact : forall it (b : ptr) C w,
    nth_error (Contexts w) b = Some C ->
    closed (ctxt C) = false ->
    Context_newMemoizeSpec (Some b) it w
    = Ret (spec_memoizer (List.length (memoizers w)))
        {| memoizers := memoizers w ++ [new_memoizer_of it (Context_ctxt b)];
           limitSpecs := limitSpecs w;
           FiniteNumbers := FiniteNumbers w;
           Contexts :=
             list_set (Contexts w) b
               {| ctxt := {| active := active (ctxt C) + 1;
                             closed := closed (ctxt C) |};
                  specs := specs C
                           ++ [spec_memoizer (List.length (memoizers w))] |};
           globalNumSpecContext := globalNumSpecContext w |}.
Proof.
  intros it b C w HC Hopen.
  assert (Hb : (b < List.length (Contexts w))%nat)
    by (apply nth_error_Some; rewrite HC; discriminate).
  unfold Context_newMemoizeSpec.
  rewrite (bind_Ret _ _ _ _ _ _ _ (context_Closed_exact b C w HC)).
  rewrite Hopen.
  unfold newMemoizeSpec, bind, new_memoizer, context_Start, bind,
    get_context, bind, get_Context, deref, ret, set_context, bind,
    get_Context, deref, set_Context.
  repeat first
    [ rewrite HC
    | rewrite (list_set_same _ (Contexts w) b _ Hb)
    | progress cbn [Contexts memoizers limitSpecs FiniteNumbers
                    globalNumSpecContext ctxt specs] ].
  rewrite list_set_twice, Hopen. reflexivity.
Qed.

Lemma newMemoizeSpec_global_exact : forall it w,
    Context_newMemoizeSpec None it w
    = Ret (spec_memoizer (List.length (memoizers w)))
        {| memoizers := memoizers w ++ [new_memoizer_of it global_context];
           limitSpecs := limitSpecs w;
           FiniteNumbers := FiniteNumbers w;
           Contexts := Contexts w;
           globalNumSpecContext :=
             {| active := active (globalNumSpecContext w) + 1;
                closed := closed (globalNumSpecContext w) |} |}.
Proof. reflexivity. Qed.

Lemma Context_ok_ext : forall a w w',
    memoizers w' = memoizers w -> Contexts w' = Contexts w ->
    Context_ok a w -> Context_ok a w'.
Proof.
  intros a w w' Hmem Hctx (C & HC & Hnodup & Hworkers & Hactive & Hreg).
  exists C. rewrite Hctx, Hmem. split; [exact HC|]. split; [exact Hnodup|].
  split; [|split].
  - apply Forall_forall. intros s Hs.
    destruct (proj1 (Forall_forall _ _) Hworkers s Hs)
      as (q & m & -> & Hm & H).
    exists q, m. rewrite Hmem. auto.
  - rewrite Hactive. f_equal. f_equal. apply filter_ext.
    intros [|q|q]; cbn [worker_running]; try reflexivity.
    rewrite Hmem. reflexivity.
  - exact Hreg.
Qed.

Lemma worker_of_alloc : forall a w w' m0 s,
    memoizers w' = memoizers w ++ [m0] ->
    worker_of a w s -> worker_of a w' s.
Proof.
  intros a w w' m0 s Hmem (q & m & -> & Hm & H).
  exists q, m. split; [reflexivity|]. split; [|exact H].
  rewrite Hmem. rewrite nth_error_app1; [exact Hm|].
  apply nth_error_Some. rewrite Hm. discriminate.
Qed.

Lemma running_alloc : forall a w w' m0 l,
    memoizers w' = memoizers w ++ [m0] ->
    Forall (worker_of a w) l ->
    filter (worker_running w') l = filter (worker_running w) l.
Proof.
  intros a w w' m0 l Hmem Hworkers. apply filter_ext_in. intros s Hs.
  destruct (proj1 (Forall_forall _ _) Hworkers s Hs) as (q & m & -> & Hm & _).
  cbn [worker_running]. rewrite Hmem. rewrite nth_error_app1; [reflexivity|].
  apply nth_error_Some. rewrite Hm. discriminate.
Qed.

(** A new memoizer keeps the books of every Context. *)
Lemma Context_newMemoizeSpec_keeps_ok : forall a c it w s w',
    Context_ok a w ->
    (exists r, run_chunk 100 it [] = Some r) ->
    Context_newMemoizeSpec c it w = Ret s w' ->
    Context_ok a w'.
Proof.
  intros a c it w s w' (C & HC & Hnodup & Hworkers & Hactive & Hreg) Htotal
         Hrun.
  pose proof kMaxChunks_value as HK.
  assert (Hold : forall q m m0 mem,
             mem = memoizers w ++ [m0] ->
             nth_error mem q = Some m ->
             q <> List.length (memoizers w) ->
             nth_error (memoizers w) q = Some m).
  { intros q m m0 mem -> Hq Hne.
    assert (q < List.length (memoizers w ++ [m0]))%nat
      by (apply nth_error_Some; rewrite Hq; discriminate).
    rewrite length_app in H. cbn [List.length] in H.
    rewrite nth_error_app1 in Hq by lia. exact Hq. }
  assert (Hfresh : ~ In (spec_memoizer (List.length (memoizers w))) (specs C)).
  { intros Hin.
    destruct (proj1 (Forall_forall _ _) Hworkers _ Hin)
      as (q & m & Hq & Hm & _).
    injection Hq as <-.
    assert (List.length (memoizers w) < List.length (memoizers w))%nat
      by (apply nth_error_Some; rewrite Hm; discriminate).
    lia. }
  assert (Hother : forall m0 w2,
             memoizers w2 = memoizers w ++ [m0] ->
             m_ctxt m0 <> Context_ctxt a ->
             nth_error (Contexts w2) a = Some C ->
             Context_ok a w2).
  { intros m0 w2 Hmem Hm0 Hctx. exists C.
    split; [exact Hctx|]. split; [exact Hnodup|]. split; [|split].
    - apply Forall_forall. intros s0 Hs0.
      apply (worker_of_alloc a w w2 m0 s0 Hmem).
      apply (proj1 (Forall_forall _ _) Hworkers). exact Hs0.
    - rewrite (running_alloc a w w2 m0 (specs C) Hmem Hworkers).
      exact Hactive.
    - intros q m Hq Hcq Hdq. rewrite Hmem in Hq.
      destruct (Nat.eq_dec q (List.length (memoizers w))) as [-> | Hne].
      + rewrite nth_error_app_last in Hq. injection Hq as <-. contradiction.
      + apply (Hreg q m); try assumption.
        eapply Hold; [reflexivity | exact Hq | exact Hne]. }
  destruct c as [b|].
  - (* an explicit Context *)
    destruct (nth_error (Contexts w) b) as [Cb|] eqn:HCb.
    2:{ unfold Context_newMemoizeSpec, bind, context_Closed, bind,
          get_context, bind, get_Context, deref in Hrun.
        rewrite HCb in Hrun. discriminate. }
    destruct (closed (ctxt Cb)) eqn:Hclosed.
    { unfold Context_newMemoizeSpec in Hrun.
      rewrite (bind_Ret _ _ _ _ _ _ _ (context_Closed_exact b Cb w HCb))
        in Hrun.
      rewrite Hclosed in Hrun. discriminate. }
    rewrite (Context_newMemoizeSpec_exact it b Cb w HCb Hclosed) in Hrun.
    match type of Hrun with
    | Ret _ ?w0 = _ => set (w1 := w0) in Hrun
    end.
    injection Hrun as _ <-.
    assert (Hmem : memoizers w1
                   = memoizers w ++ [new_memoizer_of it (Context_ctxt b)])
      by reflexivity.
    assert (Hb : (b < List.length (Contexts w))%nat)
      by (apply nth_error_Some; rewrite HCb; discriminate).
    destruct (Nat.eq_dec b a) as [-> | Hne].
    + (* the Context itself *)
      rewrite HC in HCb. injection HCb as <-.
      eexists.
      split; [cbn [w1 Contexts]; apply list_set_same; exact Hb|].
      cbn [specs ctxt active].
      split; [|split; [|split]].
      * apply NoDup_app; [exact Hnodup | repeat constructor; intros [] |].
        intros s0 Hs0 [<- | []]. contradiction.
      * apply Forall_app. split.
        -- apply Forall_forall. intros s0 Hs0.
           apply (worker_of_alloc a w w1 _ s0 Hmem).
           apply (proj1 (Forall_forall _ _) Hworkers). exact Hs0.
        -- constructor; [|constructor].
           exists (List.length (memoizers w)),
             (new_memoizer_of it (Context_ctxt a)).
           split; [reflexivity|].
           split; [rewrite Hmem; apply nth_error_app_last|].
           split; [reflexivity|]. right.
           cbn [new_memoizer_of m_maxLength m_data m_iter].
           split; [unfold len; cbn [List.length]; lia | exact Htotal].
      * rewrite filter_app, length_app.
        rewrite (running_alloc a w w1 _ (specs C) Hmem Hworkers).
        cbn [filter worker_running]. rewrite Hmem.
        rewrite nth_error_app_last.
        cbn [new_memoizer_of m_done negb List.length]. lia.
      * intros q m Hq Hcq Hdq. apply in_or_app. rewrite Hmem in Hq.
        destruct (Nat.eq_dec q (List.length (memoizers w))) as [-> | Hneq].
        -- right. left. reflexivity.
        -- left. apply (Hreg q m); try assumption.
           eapply Hold; [reflexivity | exact Hq | exact Hneq].
    + (* another Context *)
      apply (Hother (new_memoizer_of it (Context_ctxt b)) w1 Hmem).
      * cbn [new_memoizer_of m_ctxt]. congruence.
      * cbn [w1 Contexts]. rewrite list_set_other by congruence. exact HC.
  - (* the nil Context *)
    rewrite newMemoizeSpec_global_exact in Hrun. injection Hrun as _ <-.
    apply (Hother (new_memoizer_of it global_context));
      [reflexivity | discriminate | exact HC].
Qed.

Lemma Context_NumGoroutines_of : forall c w x,
    context_of w (context_ptr_of c) = Some x ->
    Context_NumGoroutines c w = Ret (active x) w.
Proof.
  intros c w x Hx.
  assert (Hget := get_context_of w (context_ptr_of c) x Hx).
  destruct c as [a|]; cbn [Context_NumGoroutines context_ptr_of] in *;
    unfold context_NumActive; rewrite (bind_Ret _ _ _ _ _ _ _ Hget);
    reflexivity.
Qed.

Lemma Context_newMemoizeSpec_goroutine : forall c it w x,
    context_of w (context_ptr_of c) = Some x -> closed x = false ->
    exists s w',
      Context_newMemoizeSpec c it w = Ret s w' /\
      context_of w' (context_ptr_of c)
      = Some {| active := active x + 1; closed := closed x |}.
Proof.
  intros [b|] it w x Hx Hopen; cbn [context_ptr_of context_of] in *.
  - destruct (nth_error (Contexts w) b) as [C|] eqn:HC; [|discriminate].
    cbn [option_map] in Hx. injection Hx as <-.
    rewrite (Context_newMemoizeSpec_exact it b C w HC Hopen).
    eexists. eexists. split; [reflexivity|]. cbn [Contexts].
    rewrite list_set_same
      by (apply nth_error_Some; rewrite HC; discriminate).
    reflexivity.
  - injection Hx as <-. rewrite newMemoizeSpec_global_exact.
    eexists. eexists. split; reflexivity.
Qed.

(** A root made on a Context whose books are in order. *)
Lemma Context_nRootFrac_keeps_ok :
  forall (M : Type) (RM : rootManager M) fuel c a num denom (mgr : M) w x
         digits exp,
    Context_ok a w ->
    0 < num -> 0 < denom ->
    nrootGenerator_Generate fuel (newNRootGenerator num denom mgr)
    = Some (digits, exp) ->
    (exists r, run_chunk 100 (rootDigits_iterFn fuel digits) [] = Some r) ->
    context_of w (context_ptr_of c) = Some x -> closed x = false ->
    exists n w1,
      Context_nRootFrac fuel c num denom mgr w = Ret n w1 /\
      Context_ok a w1 /\
      Context_NumGoroutines c w1 = Ret (active x + 1) w1.
Proof.
  intros M RM fuel c a num denom mgr w x digits exp Hok Hnum Hdenom Hgen
         Htotal Hx Hopen.
  destruct (Context_newMemoizeSpec_goroutine c (rootDigits_iterFn fuel digits)
              w x Hx Hopen) as (s & w0 & Hnew & Hx0).
  pose proof (Context_newMemoizeSpec_keeps_ok a c _ w s w0 Hok Htotal Hnew)
    as Hok0.
  unfold Context_nRootFrac.
  rewrite (bind_Ret _ _ _ _ _ _ _ (checkNumDenom_ok num denom w
                                     ltac:(lia) Hdenom)).
  destruct (Z.eqb_spec num 0); [lia|].
  unfold nrootGenerator_Generator. cbn [Generate]. rewrite Hgen.
  unfold Context_newNumber, Context_newFiniteNumber.
  unfold bind at 1. unfold bind at 1. rewrite Hnew.
  unfold new_FiniteNumber, ret.
  eexists. eexists. split; [reflexivity|]. split.
  - eapply Context_ok_ext; [| |exact Hok0]; reflexivity.
  - apply (Context_NumGoroutines_of c _
             {| active := active x + 1; closed := closed x |}).
    rewrite <- Hx0. destruct c; reflexivity.
Qed.

(** X20.  Each root costs one goroutine: on a Context that is not
    closed, [SqrtRat] and [CubeRootRat] of a radicand [num/denom > 0]
    return a Number, [NumGoroutines] of that Context goes up by one, and
    every Context keeps its books: its memoizers registered once and its
    counter equal to the number of their workers that have not
    returned. *)
Theorem root_keeps_Context_ok : forall deg fuel c a num denom w x,
    Context_ok a w ->
    0 < num -> 0 < denom ->
    (Z.to_nat (num + denom) + 10 <= fuel)%nat ->
    context_of w (context_ptr_of c) = Some x -> closed x = false ->
    exists n w1,
      Context_RootRat deg fuel c num denom w = Ret n w1 /\
      Context_ok a w1 /\
      Context_NumGoroutines c w1 = Ret (active x + 1) w1.
Proof.
  intros deg fuel c a num denom w x Hok Hnum Hdenom Hfuel Hx Hopen.
  destruct (nth_root_digits_integer deg fuel num denom 100 Hnum Hdenom Hfuel)
    as (ds & exp & Hds & _).
  assert (Hgen : forall (M : Type) (RM : rootManager M) (mgr : M),
             root_digits fuel num denom mgr 100 = Some (ds, exp) ->
             exists digits,
               nrootGenerator_Generate fuel (newNRootGenerator num denom mgr)
               = Some (digits, exp) /\
               exists r,
                 run_chunk 100 (rootDigits_iterFn fuel digits) [] = Some r).
  { intros M RM mgr Hroot. unfold root_digits in Hroot.
    destruct (nrootGenerator_Generate fuel (newNRootGenerator num denom mgr))
      as [[digits e]|]; [|discriminate].
    destruct (calls (rootDigits_call fuel) 100 digits) as [[ds0 s0]|] eqn:Hc;
      [|discriminate].
    injection Hroot as _ ->.
    exists digits. split; [reflexivity|].
    destruct (run_chunk_spec (rootDigits_iterFn fuel digits) 100 digits []
                ds0 s0 Hc) as (s'' & Hrun & _).
    eexists. exact Hrun. }
  destruct deg; cbn [nth_root_digits Context_RootRat] in *.
  - destruct (Hgen _ _ newSqrtManager Hds) as (digits & Hg & Htotal).
    exact (Context_nRootFrac_keeps_ok _ _ fuel c a num denom newSqrtManager
             w x digits exp Hok Hnum Hdenom Hg Htotal Hx Hopen).
  - destruct (Hgen _ _ newCubeRootManager Hds) as (digits & Hg & Htotal).
    exact (Context_nRootFrac_keeps_ok _ _ fuel c a num denom
             newCubeRootManager w x digits exp Hok Hnum Hdenom Hg Htotal Hx
             Hopen).
Qed.

(** A Context that has made the number 0.102 and nothing else. *)
Definition Context_102_world : world :=
  world_after
    ((c <- new_Context {| ctxt := {| active := 0; closed := false |};
                          specs := [] |} ;;
      Context_newFiniteNumber (Some c) digits_102 0) initial_world)
    initial_world.

Lemma Context_102_world_ok : Context_ok 0 Context_102_world.
Proof.
  eexists. split; [reflexivity|]. cbn [specs ctxt active].
  split; [|split; [|split]].
  - repeat constructor. intros [].
  - constructor; [|constructor].
    eexists. eexists. split; [reflexivity|]. split; [reflexivity|].
    split; [reflexivity|]. right. split.
    + vm_compute. split; [discriminate | reflexivity].
    + eexists. reflexivity.
  - reflexivity.
  - intros [|p] m Hp _ _; [left; reflexivity|].
    destruct p; discriminate.
Qed.

Lemma Context_102_world_memoizes : memoizes digits_102 0 Context_102_world.
Proof.
  eexists. eexists. split; [reflexivity|]. split; [|split; reflexivity].
  unfold memo_ok. cbn [m_done]. eexists.
  cbn [m_iter m_data m_chunks m_maxLength List.length len].
  repeat split.
Qed.

Lemma digits_102_total : forall n, iter_outputs digits_102 n <> None.
Proof.
  intros n. unfold digits_102.
  rewrite repeatingGenerator_Generate_outputs by (vm_compute; reflexivity).
  discriminate.
Qed.

Lemma Context_Close_frees_witness :
  exists w',
    Context_Close 1 (Some 0%nat) Context_102_world = Ret tt w' /\
    Context_NumGoroutines (Some 0%nat) w' = Ret 0 w' /\
    Context_numSpecs 0 w' = Ret 0 w' /\
    context_Closed (Context_ctxt 0) w' = Ret true w'.
Proof.
  apply (Context_Close_frees 1%nat 0%nat Context_102_world).
  - lia.
  - exact Context_102_world_ok.
Defined.

Lemma At_keeps_Context_ok_witness :
  exists d w',
    memoizer_At 1 0 5 Context_102_world = Ret d w' /\
    Context_ok 0 w' /\
    memoizes digits_102 0 w'.
Proof.
  apply (At_keeps_Context_ok 0%nat digits_102 0%nat Context_102_world 1%nat 5).
  - exact Context_102_world_ok.
  - exact Context_102_world_memoizes.
  - exact digits_102_total.
  - vm_compute. split; [discriminate | reflexivity].
  - vm_compute. reflexivity.
Defined.

Lemma root_keeps_Context_ok_witness :
  exists n w1,
    Context_RootRat Square 20 (Some 0%nat) 2 1 Context_102_world = Ret n w1 /\
    Context_ok 0 w1 /\
    Context_NumGoroutines (Some 0%nat) w1
    = Ret (active {| active := 1; closed := false |} + 1) w1.
Proof.
  apply (root_keeps_Context_ok Square 20%nat (Some 0%nat) 0%nat 2 1
           Context_102_world {| active := 1; closed := false |}).
  - exact Context_102_world_ok.
  - lia.
  - lia.
  - simpl. lia.
  - reflexivity.
  - reflexivity.
Defined.


(** ** What the formatter writes *)

(** The text a buffered writer over a [strings.Builder] holds: what the
    builder has got and what is still in the buffer. *)
Definition bw_text (b : bufio_Writer strings_Builder) : list ascii :=
  bw_wr b ++ bw_buf b.

(** The digits [digits] laid out with the decimal point of the exponent
    [exponent]: a leading "0" or "0.00" when the exponent is not
    positive, the point before the digit at position [exponent]. *)
Definition layout (exponent : Z) (digits : list Z) : list ascii :=
  ((if exponent <=? 0
    then "0"%char
         :: (if exponent <? 0
             then "."%char :: repeat "0"%char (Z.to_nat (- exponent))
             else [])
    else [])
   ++ map digit_byte (firstn (Z.to_nat exponent) digits)
   ++ (if (0 <=? exponent) && (exponent <? len digits)
       then ["."%char] else [])
   ++ map digit_byte (skipn (Z.to_nat exponent) digits))%list.

(** What [Finish] leaves in the writer for the mantissa digits
    [digits]. *)
Definition rendering (sigDigits exponent : Z) (exactDigitCount : bool)
  (digits : list Z) : list ascii :=
  let taken := firstn (Z.to_nat sigDigits) digits in
  let maxDigits := if exactDigitCount then sigDigits else exponent in
  let padded :=
    (taken ++ repeat 0 (Z.to_nat (maxDigits - len taken)))%list in
  match padded with
  | [] =>
      let count := if exactDigitCount then sigDigits - exponent
                   else - exponent in
      "0"%char
      :: (if count <=? 0 then []
          else "."%char :: repeat "0"%char (Z.to_nat count))
  | _ :: _ => layout exponent padded
  end.

Lemma bufio_Flush_text : forall b : bufio_Writer strings_Builder,
    bw_err b = None ->
    bw_err (bufio_Flush b) = None /\
    bw_wr (bufio_Flush b) = bw_text b /\
    bw_buf (bufio_Flush b) = [].
Proof.
  intros [err buf wr] Herr. cbn [bw_err] in Herr. subst err.
  unfold bufio_Flush, bw_text. cbn [bw_err bw_buf bw_wr].
  destruct (Z.eqb_spec (len buf) 0) as [Hempty | Hfull].
  - cbn [bw_err bw_buf bw_wr].
    assert (buf = []) by (destruct buf; [reflexivity | discriminate]).
    subst buf. rewrite app_nil_r. auto.
  - cbn [io_Write strings_Builder_Writer].
    rewrite Z.ltb_irrefl. cbn [bw_err bw_buf bw_wr]. auto.
Qed.

Lemma bufio_WriteByte_text : forall (b : bufio_Writer strings_Builder) c,
    bw_err b = None ->
    bw_err (bufio_WriteByte b c) = None /\
    bw_text (bufio_WriteByte b c) = (bw_text b ++ [c])%list.
Proof.
  intros b c Herr. unfold bufio_WriteByte. rewrite Herr.
  destruct (bufio_Flush_text b Herr) as (Hferr & Hfwr & Hfbuf).
  destruct (bufio_defaultBufSize - len (bw_buf b) <=? 0).
  - rewrite Hferr. unfold bw_text. cbn [bw_err bw_buf bw_wr].
    rewrite Hfwr, Hfbuf. unfold bw_text. split; [reflexivity|].
    rewrite app_nil_l. reflexivity.
  - rewrite Herr. unfold bw_text. cbn [bw_err bw_buf bw_wr].
    split; [reflexivity|]. apply app_assoc.
Qed.

(** [formatter_on f out]: the formatter [f] writes to a builder, no
    write has failed and [out] is the text written so far. *)
Definition formatter_on (f : formatter strings_Builder) (out : list ascii)
  : Prop :=
  bw_err (writer f) = None /\ bw_text (writer f) = out.

Lemma formatter_WriteByte_on : forall f out c,
    formatter_on f out ->
    formatter_on (formatter_WriteByte f c) (out ++ [c]).
Proof.
  intros f out c [Herr Htext].
  destruct (bufio_WriteByte_text (writer f) c Herr) as [Herr' Htext'].
  split; cbn [formatter_WriteByte writer]; [exact Herr'|].
  rewrite Htext', Htext. reflexivity.
Qed.

Lemma formatter_zeros_on : forall n f out,
    formatter_on f out ->
    formatter_on
      (Nat.iter n (fun f => formatter_WriteByte f "0"%char) f)
      (out ++ repeat "0"%char n).
Proof.
  induction n as [|n IH]; intros f out Hf; cbn [Nat.iter nat_rect repeat].
  - rewrite app_nil_r. exact Hf.
  - replace (out ++ "0"%char :: repeat "0"%char n)%list
      with ((out ++ repeat "0"%char n) ++ ["0"%char])%list.
    + apply formatter_WriteByte_on. apply IH. exact Hf.
    + rewrite <- app_assoc. f_equal.
      change ("0"%char :: repeat "0"%char n)
        with (repeat "0"%char (Datatypes.S n)).
      rewrite <- repeat_cons. reflexivity.
Qed.

Lemma formatter_zeros_fields : forall n (f : formatter strings_Builder),
    let f' := Nat.iter n (fun f => formatter_WriteByte f "0"%char) f in
    f_sigDigits f' = f_sigDigits f /\ f_exponent f' = f_exponent f /\
    f_exactDigitCount f' = f_exactDigitCount f /\ f_index f' = f_index f.
Proof.
  induction n as [|n IH]; intros f; cbn [Nat.iter nat_rect]; [auto|].
  cbn [formatter_WriteByte f_sigDigits f_exponent f_exactDigitCount f_index].
  apply IH.
Qed.

Lemma formatter_addLeadingZeros_on : forall f out count,
    formatter_on f out ->
    let f' := formatter_addLeadingZeros f count in
    formatter_on f'
      (out ++ "0"%char
           :: (if count <=? 0 then []
               else "."%char :: repeat "0"%char (Z.to_nat count))) /\
    f_sigDigits f' = f_sigDigits f /\ f_exponent f' = f_exponent f /\
    f_exactDigitCount f' = f_exactDigitCount f /\ f_index f' = f_index f.
Proof.
  intros f out count Hf. unfold formatter_addLeadingZeros.
  pose proof (formatter_WriteByte_on f out "0"%char Hf) as H0.
  destruct (count <=? 0); cbv zeta.
  - split; [exact H0 | auto].
  - pose proof (formatter_WriteByte_on _ _ "."%char H0) as H1.
    pose proof (formatter_zeros_on (Z.to_nat count) _ _ H1) as H2.
    split.
    + replace (out ++ "0"%char :: "."%char
                   :: repeat "0"%char (Z.to_nat count))%list
        with (((out ++ ["0"%char]) ++ ["."%char])
              ++ repeat "0"%char (Z.to_nat count))%list
        by (rewrite <- !app_assoc; reflexivity).
      exact H2.
    + destruct (formatter_zeros_fields (Z.to_nat count)
                  (formatter_WriteByte (formatter_WriteByte f "0"%char)
                     "."%char)) as (A & B & C & D).
      rewrite A, B, C, D. auto.
Qed.

Lemma layout_first : forall e d,
    layout e [d]
    = ((if e <=? 0
        then "0"%char
             :: (if - e <=? 0 then []
                 else "."%char :: repeat "0"%char (Z.to_nat (- e)))
        else [])
       ++ (if 0 =? e then ["."%char] else [])
       ++ [digit_byte d])%list.
Proof.
  intros e d. unfold layout, len. cbn [List.length].
  destruct (Z.leb_spec e 0) as [Hle | Hgt].
  - replace (Z.to_nat e) with 0%nat by lia. cbn [firstn skipn map].
    destruct (Z.ltb_spec e 0) as [Hneg | Hzero].
    + destruct (Z.leb_spec (- e) 0); [lia|].
      destruct (Z.leb_spec 0 e); [lia|].
      destruct (Z.eqb_spec 0 e); [lia|]. reflexivity.
    + assert (e = 0) by lia. subst e. reflexivity.
  - destruct (Z.to_nat e) as [|k] eqn:Hk; [lia|].
    cbn [firstn skipn map]. rewrite firstn_nil.
    destruct (Z.leb_spec 0 e); [|lia].
    destruct (Z.ltb_spec e (Z.of_nat 1)); [lia|].
    destruct (Z.eqb_spec 0 e); [lia|].
    rewrite skipn_nil. reflexivity.
Qed.

Lemma layout_snoc : forall e digs d,
    digs <> [] ->
    layout e (digs ++ [d])
    = (layout e digs
       ++ (if len digs =? e then ["."%char] else [])
       ++ [digit_byte d])%list.
Proof.
  intros e digs d Hne. unfold layout, len.
  assert (Hk : (1 <= List.length digs)%nat)
    by (destruct digs; [contradiction | cbn [List.length]; lia]).
  rewrite length_app. cbn [List.length].
  rewrite <- !app_assoc. f_equal.
  destruct (Z.eqb_spec (Z.of_nat (List.length digs)) e) as [Heq | Hneq].
  - (* the point comes before the new digit *)
    replace (Z.to_nat e) with (List.length digs) by lia.
    rewrite firstn_app, Nat.sub_diag, firstn_all, firstn_O, app_nil_r.
    rewrite skipn_app, Nat.sub_diag, skipn_all, skipn_O.
    destruct (Z.leb_spec 0 e); [|lia].
    destruct (Z.ltb_spec e (Z.of_nat (List.length digs + 1))); [|lia].
    destruct (Z.ltb_spec e (Z.of_nat (List.length digs))); [lia|].
    cbn [andb map app]. reflexivity.
  - destruct (Z.lt_ge_cases e (Z.of_nat (List.length digs))) as [Hlt | Hge].
    + (* the point, if any, is among the old digits *)
      rewrite firstn_app.
      replace (Z.to_nat e - List.length digs)%nat with 0%nat by lia.
      rewrite firstn_O, app_nil_r.
      rewrite skipn_app.
      replace (Z.to_nat e - List.length digs)%nat with 0%nat by lia.
      rewrite skipn_O, map_app.
      destruct (Z.ltb_spec e (Z.of_nat (List.length digs + 1))); [|lia].
      destruct (Z.ltb_spec e (Z.of_nat (List.length digs))); [|lia].
      rewrite <- ?app_assoc. reflexivity.
    + (* no point yet *)
      rewrite firstn_all2 by (rewrite length_app; cbn [List.length]; lia).
      rewrite (firstn_all2 digs) by lia.
      rewrite skipn_all2 by (rewrite length_app; cbn [List.length]; lia).
      rewrite (skipn_all2 digs) by lia.
      destruct (Z.ltb_spec e (Z.of_nat (List.length digs + 1))); [lia|].
      destruct (Z.ltb_spec e (Z.of_nat (List.length digs))); [lia|].
      rewrite !andb_false_r. cbn [map app]. rewrite !app_nil_r.
      rewrite map_app. reflexivity.
Qed.

(** [formatter_at f w0 digs]: [f] has taken the digits [digs] and
    written their layout after the text [w0]. *)
Definition formatter_at (f : formatter strings_Builder) (w0 : list ascii)
  (digs : list Z) : Prop :=
  formatter_on f
    (w0 ++ match digs with
           | [] => []
           | _ :: _ => layout (f_exponent f) digs
           end) /\
  f_index f = len digs.

Lemma formatter_add_on : forall f out d,
    formatter_on f out ->
    MinInt < f_exponent f <= MaxInt ->
    let f' := formatter_add f d in
    formatter_on f'
      (out
       ++ (if (f_index f =? 0) && (f_exponent f <=? 0)
           then "0"%char
                :: (if - f_exponent f <=? 0 then []
                    else "."%char
                         :: repeat "0"%char (Z.to_nat (- f_exponent f)))
           else [])
       ++ (if f_index f =? f_exponent f then ["."%char] else [])
       ++ [digit_byte d]) /\
    f_sigDigits f' = f_sigDigits f /\ f_exponent f' = f_exponent f /\
    f_exactDigitCount f' = f_exactDigitCount f /\
    f_index f' = int_add (f_index f) 1.
Proof.
  intros f out d Hon Hexp.
  assert (Hneg : int_neg (f_exponent f) = - f_exponent f).
  { unfold int_neg. apply wrap_small. unfold MinInt, MaxInt in *. lia. }
  unfold formatter_add. rewrite Hneg.
  set (f1 := if (f_index f =? 0) && (f_exponent f <=? 0)
             then formatter_addLeadingZeros f (- f_exponent f) else f).
  set (t1 := if (f_index f =? 0) && (f_exponent f <=? 0)
             then "0"%char
                  :: (if - f_exponent f <=? 0 then []
                      else "."%char
                           :: repeat "0"%char (Z.to_nat (- f_exponent f)))
             else []).
  assert (H1 : formatter_on f1 (out ++ t1) /\
               f_sigDigits f1 = f_sigDigits f /\
               f_exponent f1 = f_exponent f /\
               f_exactDigitCount f1 = f_exactDigitCount f /\
               f_index f1 = f_index f).
  { unfold f1, t1. destruct ((f_index f =? 0) && (f_exponent f <=? 0)).
    - apply formatter_addLeadingZeros_on. exact Hon.
    - rewrite app_nil_r. auto. }
  destruct H1 as (Hon1 & Hs1 & He1 & Hx1 & Hi1).
  cbv zeta. rewrite Hi1, He1.
  set (f2 := if f_index f =? f_exponent f
             then formatter_WriteByte f1 "."%char else f1).
  set (t2 := if f_index f =? f_exponent f then ["."%char] else []).
  assert (H2 : formatter_on f2 ((out ++ t1) ++ t2) /\
               f_sigDigits f2 = f_sigDigits f /\
               f_exponent f2 = f_exponent f /\
               f_exactDigitCount f2 = f_exactDigitCount f /\
               f_index f2 = f_index f).
  { unfold f2, t2. destruct (f_index f =? f_exponent f).
    - split; [apply formatter_WriteByte_on; exact Hon1|].
      cbn [formatter_WriteByte f_sigDigits f_exponent f_exactDigitCount
           f_index]. auto.
    - rewrite app_nil_r. auto. }
  destruct H2 as (Hon2 & Hs2 & He2 & Hx2 & Hi2).
  pose proof (formatter_WriteByte_on f2 _ (digit_byte d) Hon2) as Hon3.
  cbn [formatter_WriteByte f_sigDigits f_exponent f_exactDigitCount f_index
       writer].
  split.
  - rewrite !app_assoc. exact Hon3.
  - rewrite Hs2, He2, Hx2, Hi2. auto.
Qed.

Lemma formatter_add_at : forall f w0 digs d,
    formatter_at f w0 digs ->
    MinInt < f_exponent f <= MaxInt -> len digs < MaxInt ->
    let f' := formatter_add f d in
    formatter_at f' w0 (digs ++ [d]) /\
    f_sigDigits f' = f_sigDigits f /\ f_exponent f' = f_exponent f /\
    f_exactDigitCount f' = f_exactDigitCount f.
Proof.
  intros f w0 digs d [Hon Hindex] Hexp Hlen.
  destruct (formatter_add_on f _ d Hon Hexp) as (Hon' & Hs & He & Hx & Hi).
  cbv zeta. split; [|auto]. unfold formatter_at. rewrite He, Hi, Hindex.
  split.
  - replace (match (digs ++ [d])%list with
             | [] => []
             | _ :: _ => layout (f_exponent f) (digs ++ [d])
             end) with (layout (f_exponent f) (digs ++ [d]))
      by (destruct digs; reflexivity).
    rewrite Hindex in Hon'.
    destruct digs as [|d0 digs].
    + change (len (@nil Z) =? 0) with true in Hon'. cbn [andb app] in Hon'.
      cbn [app]. rewrite layout_first.
      change (len (@nil Z)) with 0 in Hon'.
      rewrite app_nil_r in Hon'. exact Hon'.
    + assert (Hpos : (len (d0 :: digs) =? 0) = false).
      { apply Z.eqb_neq. unfold len. cbn [List.length]. lia. }
      rewrite Hpos in Hon'. cbn [andb] in Hon'.
      rewrite (layout_snoc (f_exponent f) (d0 :: digs) d) by discriminate.
      rewrite app_nil_l in Hon'. rewrite <- app_assoc in Hon'. exact Hon'.
  - unfold int_add, len in *. rewrite length_app. cbn [List.length].
    rewrite wrap_small by (unfold MinInt, MaxInt in *; lia). lia.
Qed.

(** Feeding digits to [Consume]: the formatter takes them until it has
    [sigDigits] of them. *)
Lemma formatter_Consume_at : forall ds f w0 digs,
    formatter_at f w0 digs ->
    MinInt < f_exponent f <= MaxInt -> f_sigDigits f <= MaxInt ->
    let f' := fold_left formatter_Consume ds f in
    formatter_at f' w0
      (digs ++ firstn (Z.to_nat (f_sigDigits f - len digs)) ds) /\
    f_sigDigits f' = f_sigDigits f /\ f_exponent f' = f_exponent f /\
    f_exactDigitCount f' = f_exactDigitCount f.
Proof.
  induction ds as [|d ds IH]; intros f w0 digs Hat Hexp Hsig; cbv zeta.
  - cbn [fold_left]. rewrite firstn_nil, app_nil_r. auto.
  - cbn [fold_left]. destruct Hat as [Hon Hindex].
    destruct (Z.ltb_spec (len digs) (f_sigDigits f)) as [Hroom | Hfull].
    + assert (Hstep : formatter_Consume f d = formatter_add f d).
      { unfold formatter_Consume, formatter_CanConsume. rewrite Hindex.
        destruct (Z.ltb_spec (len digs) (f_sigDigits f)); [|lia].
        reflexivity. }
      rewrite Hstep.
      destruct (formatter_add_at f w0 digs d (conj Hon Hindex) Hexp
                  ltac:(lia)) as (Hat1 & Hs1 & He1 & Hx1).
      destruct (IH (formatter_add f d) w0 (digs ++ [d]) Hat1
                  ltac:(rewrite He1; exact Hexp)
                  ltac:(rewrite Hs1; exact Hsig))
        as (Hat' & Hs' & He' & Hx').
      rewrite Hs1 in Hat'.
      replace (Z.to_nat (f_sigDigits f - len digs))
        with (Datatypes.S (Z.to_nat (f_sigDigits f - len (digs ++ [d]))))
        by (unfold len in *; rewrite length_app; cbn [List.length]; lia).
      cbn [firstn].
      replace (digs ++ d :: firstn (Z.to_nat (f_sigDigits f
                                              - len (digs ++ [d]))) ds)%list
        with ((digs ++ [d])
              ++ firstn (Z.to_nat (f_sigDigits f - len (digs ++ [d]))) ds)%list
        by (rewrite <- app_assoc; reflexivity).
      split; [exact Hat'|]. split; [congruence|]. split; congruence.
    + assert (Hstep : formatter_Consume f d = f).
      { unfold formatter_Consume, formatter_CanConsume. rewrite Hindex.
        destruct (Z.ltb_spec (len digs) (f_sigDigits f)); [lia|].
        reflexivity. }
      rewrite Hstep.
      replace (Z.to_nat (f_sigDigits f - len digs)) with 0%nat by lia.
      cbn [firstn].
      destruct (IH f w0 digs (conj Hon Hindex) Hexp Hsig)
        as (Hat' & Hrest).
      replace (Z.to_nat (f_sigDigits f - len digs)) with 0%nat in Hat' by lia.
      rewrite firstn_O in Hat'. split; [exact Hat' | exact Hrest].
Qed.

Lemma formatter_pad_at : forall turns f w0 digs maxDigits,
    formatter_at f w0 digs ->
    MinInt < f_exponent f <= MaxInt -> maxDigits <= MaxInt ->
    turns = Z.to_nat (maxDigits - len digs) ->
    let f' := formatter_pad turns f maxDigits in
    formatter_at f' w0 (digs ++ repeat 0 turns) /\
    f_sigDigits f' = f_sigDigits f /\ f_exponent f' = f_exponent f /\
    f_exactDigitCount f' = f_exactDigitCount f.
Proof.
  induction turns as [|turns IH]; intros f w0 digs maxDigits Hat Hexp Hmax
    Hturns; cbv zeta; cbn [formatter_pad repeat].
  - rewrite app_nil_r. auto.
  - destruct Hat as [Hon Hindex]. rewrite Hindex.
    destruct (Z.ltb_spec (len digs) maxDigits); [|lia].
    destruct (formatter_add_at f w0 digs 0 (conj Hon Hindex) Hexp ltac:(lia))
      as (Hat1 & Hs1 & He1 & Hx1).
    destruct (IH (formatter_add f 0) w0 (digs ++ [0]) maxDigits Hat1
                ltac:(rewrite He1; exact Hexp) Hmax)
      as (Hat' & Hs' & He' & Hx').
    { unfold len in *. rewrite length_app. cbn [List.length]. lia. }
    rewrite <- app_assoc in Hat'. cbn [app] in Hat'.
    split; [exact Hat'|]. split; [congruence|]. split; congruence.
Qed.

(** What a formatter that has written nothing yet writes when it is
    fed the digits [ds] and finished. *)
Lemma formatter_writes :
  forall (f0 : formatter strings_Builder) w0 ds,
    formatter_at f0 w0 [] ->
    MinInt < f_exponent f0 <= f_sigDigits f0 -> f_sigDigits f0 <= MaxInt ->
    (f_exactDigitCount f0 = true ->
     f_sigDigits f0 - f_exponent f0 <= MaxInt) ->
    bw_wr (writer (formatter_Finish (fold_left formatter_Consume ds f0)))
    = (w0 ++ rendering (f_sigDigits f0) (f_exponent f0)
               (f_exactDigitCount f0) ds)%list.
Proof.
  intros f0 w0 ds Hat0 He Hsig Hcount.
  assert (Hsub : (if f_exactDigitCount f0
                  then int_sub (f_sigDigits f0) (f_exponent f0)
                  else - f_exponent f0)
                 = if f_exactDigitCount f0
                   then f_sigDigits f0 - f_exponent f0
                   else - f_exponent f0).
  { destruct (f_exactDigitCount f0); [|reflexivity].
    specialize (Hcount eq_refl).
    unfold int_sub. apply wrap_small. unfold MinInt, MaxInt in *. lia. }
  destruct (formatter_Consume_at ds f0 w0 [] Hat0 ltac:(lia) Hsig)
    as (Hat1 & Hs1 & He1 & Hx1).
  cbn [app] in Hat1.
  change (len (@nil Z)) with 0 in Hat1. rewrite Z.sub_0_r in Hat1.
  set (f1 := fold_left formatter_Consume ds f0) in *.
  set (sig := f_sigDigits f0) in *. set (e := f_exponent f0) in *.
  set (exact := f_exactDigitCount f0) in *.
  set (taken := firstn (Z.to_nat sig) ds) in *.
  unfold formatter_Finish. rewrite Hs1, He1, Hx1.
  set (maxDigits := if negb exact then e else sig).
  assert (Hmax : maxDigits = if exact then sig else e)
    by (unfold maxDigits; destruct exact; reflexivity).
  assert (Hindex1 : f_index f1 = len taken) by (apply Hat1).
  rewrite Hindex1.
  destruct (formatter_pad_at (Z.to_nat (maxDigits - len taken)) f1 w0 taken
              maxDigits Hat1 ltac:(rewrite He1; lia)
              ltac:(rewrite Hmax; destruct exact; lia) eq_refl)
    as (Hat2 & Hs2 & He2 & Hx2).
  set (f2 := formatter_pad (Z.to_nat (maxDigits - len taken)) f1 maxDigits)
    in *.
  set (padded := (taken ++ repeat 0 (Z.to_nat (maxDigits - len taken)))%list)
    in *.
  cbv zeta. rewrite Hs2, He2, Hx2, Hs1, He1, Hx1.
  destruct Hat2 as [Hon2 Hindex2]. rewrite He2, He1 in Hon2.
  unfold rendering. fold taken. rewrite <- Hmax. fold padded.
  assert (Hneg : int_neg e = - e).
  { unfold int_neg. apply wrap_small. unfold MinInt, MaxInt in *. lia. }
  rewrite Hneg, Hsub, Hindex2.
  destruct padded as [|d0 padded'] eqn:Hpadded.
  - change (len (@nil Z) =? 0) with true. cbv iota.
    rewrite app_nil_r in Hon2.
    destruct (formatter_addLeadingZeros_on f2 w0
                (if exact then sig - e else - e) Hon2) as ([Herr Htext] & _).
    cbn [writer].
    destruct (bufio_Flush_text _ Herr) as (_ & Hwr & _).
    rewrite Hwr, Htext. reflexivity.
  - assert (Hpos : (len (d0 :: padded') =? 0) = false).
    { apply Z.eqb_neq. unfold len. cbn [List.length]. lia. }
    rewrite Hpos. cbn [writer].
    destruct Hon2 as [Herr Htext].
    destruct (bufio_Flush_text _ Herr) as (_ & Hwr & _).
    rewrite Hwr, Htext. reflexivity.
Qed.

Lemma newFormatter_at :
  forall (w0 : strings_Builder) sigDigits exponent exactDigitCount w,
    exponent <= sigDigits ->
    exists f0,
      newFormatter w0 sigDigits exponent exactDigitCount w = Ret f0 w /\
      formatter_at f0 w0 [] /\
      f_sigDigits f0 = sigDigits /\ f_exponent f0 = exponent /\
      f_exactDigitCount f0 = exactDigitCount.
Proof.
  intros w0 sig e exact w He.
  unfold newFormatter. destruct (Z.ltb_spec sig e); [lia|].
  eexists. split; [reflexivity|]. split; [|auto].
  split; [|reflexivity]. split; [reflexivity|].
  unfold bw_text. cbn [writer bufio_NewWriter bw_wr bw_buf].
  reflexivity.
Qed.

(** X21.  What the formatter writes.  A formatter made by
    [newFormatter] over a [strings.Builder] that is fed the digits [ds]
    and finished has written, after what the builder held: the first
    [sigDigits] of the digits, padded with zeros up to [sigDigits]
    (exact digit count) or up to [exponent], laid out with a leading
    "0." and zeros when the exponent is not positive and with the
    decimal point before the digit at position [exponent]; and "0" or
    "0.00...0" when there is no digit to write.  Buffering does not
    show: every byte reaches the builder, in order. *)
Theorem formatter_rendering :
  forall (w0 : strings_Builder) sigDigits exponent exactDigitCount ds w,
    MinInt < exponent <= sigDigits -> sigDigits <= MaxInt ->
    (exactDigitCount = true -> sigDigits - exponent <= MaxInt) ->
    exists f0,
      newFormatter w0 sigDigits exponent exactDigitCount w = Ret f0 w /\
      bw_wr (writer (formatter_Finish (fold_left formatter_Consume ds f0)))
      = (w0 ++ rendering sigDigits exponent exactDigitCount ds)%list.
Proof.
  intros w0 sig e exact ds w He Hsig Hcount.
  destruct (newFormatter_at w0 sig e exact w ltac:(lia))
    as (f0 & Hnew & Hat0 & Hs & Hexp & Hx).
  exists f0. split; [exact Hnew|].
  rewrite (formatter_writes f0 w0 ds Hat0); rewrite ?Hs, ?Hexp, ?Hx;
    try lia; auto.
Qed.

Lemma formatter_rendering_witness :
  exists f0,
    newFormatter (list_ascii_of_string "x = ") 16 1 false initial_world
    = Ret f0 initial_world /\
    bw_wr (writer (formatter_Finish
                     (fold_left formatter_Consume [2; 6; 4; 5] f0)))
    = (list_ascii_of_string "x = " ++ rendering 16 1 false [2; 6; 4; 5])%list.
Proof.
  apply (formatter_rendering (list_ascii_of_string "x = ") 16 1 false
           [2; 6; 4; 5] initial_world).
  - vm_compute. split; [reflexivity | discriminate].
  - vm_compute. discriminate.
  - discriminate.
Defined.

(** ** Scanning the digits *)

(** What a scan makes of the values [vals] found from position [index]
    on: [yield] gets each position with its value until it answers
    [false]; the flag tells whether it never did. *)
Fixpoint scan_list {A : Type} (yield : Z -> Z -> A -> A * bool) (index : Z)
  (vals : list Z) (acc : A) : A * bool :=
  match vals with
  | [] => (acc, true)
  | v :: rest =>
      let '(acc', continue) := yield index v acc in
      if continue then scan_list yield (index + 1) rest acc'
      else (acc', false)
  end.

Lemma memo_ok_agree : forall (it0 : iterFn) m N ds sN k,
    memo_ok it0 m ->
    calls (iter_call it0) N (iter_state it0) = Some (ds, sN) ->
    (k <= N)%nat ->
    m_done m = true \/ (k <= List.length (m_data m))%nat ->
    firstn k (m_data m) = firstn k (valid_prefix ds).
Proof.
  intros it0 m N ds sN k Hok Hds HkN Hk. unfold memo_ok in Hok.
  destruct (m_done m).
  - destruct Hok as (n & d1 & s1 & Hcalls & Hinvalid & ->).
    apply (stream_prefix_agree _ _ n N _ d1 s1 ds sN k Hcalls Hds);
      [left; exact Hinvalid | right; exact HkN].
  - destruct Hok as (s & _ & Hcalls & Hvalid & _).
    destruct Hk as [Hd | Hk]; [discriminate|].
    rewrite <- (valid_prefix_all (m_data m) Hvalid) at 1.
    apply (stream_prefix_agree _ _ _ N _ _ s ds sN k Hcalls Hds);
      right; assumption.
Qed.

Lemma skipn_nth : forall (l : list Z) n,
    (n < List.length l)%nat ->
    skipn n l = nth n l 0 :: skipn (Datatypes.S n) l.
Proof.
  induction l as [|x l IH]; intros n Hn; cbn [List.length] in Hn; [lia|].
  destruct n; [reflexivity|].
  cbn [skipn nth]. rewrite IH by lia. reflexivity.
Qed.

(** The state of the loop of [Scan] before a turn. *)
Definition scan_state (it0 : iterFn) (p : ptr) (w : world) (data : list Z)
  (ok : bool) (index : Z) : Prop :=
  exists m,
    nth_error (memoizers w) p = Some m /\
    m_data m = data /\
    memoizes it0 p w /\
    negb (m_done m) && (len (m_data m) <? m_maxLength m) = false /\
    ok = (len data >? index) /\
    (ok = false -> m_done m = true).

Lemma memoizer_wait_state :
  forall (it0 : iterFn) p w fuel index N ds sN,
    memoizes it0 p w ->
    0 <= index < 100 * (kMaxChunks - 1) ->
    index / 100 < Z.of_nat fuel ->
    100 * (index / 100 + 1) <= Z.of_nat N ->
    calls (iter_call it0) N (iter_state it0) = Some (ds, sN) ->
    exists data ok w',
      memoizer_wait fuel p index w = Ret (data, ok) w' /\
      scan_state it0 p w' data ok index /\
      memo_frame p w w'.
Proof.
  intros it0 p w fuel index N ds sN Hmemo Hindex Hfuel HN Hds.
  destruct (memoizer_wait_spec it0 p w fuel index N ds sN Hmemo Hindex Hfuel
              HN Hds)
    as (w' & m' & Hwait & Hm' & Hmemo' & Hf & _ & Hparked & Hreach).
  exists (m_data m'), (len (m_data m') >? index), w'.
  split; [exact Hwait|]. split; [|exact Hf].
  exists m'. split; [exact Hm'|]. split; [reflexivity|].
  split; [exact Hmemo'|]. split; [exact Hparked|]. split; [reflexivity|].
  intros Hok. destruct Hreach as [Hd | Hlt]; [exact Hd|].
  destruct (m_done m'); [reflexivity|]. cbn [negb andb] in Hparked.
  apply Z.ltb_ge in Hparked.
  rewrite Z.gtb_ltb in Hok. apply Z.ltb_ge in Hok. lia.
Qed.

Section ScanLoop.
Context {A : Type} (it0 : iterFn) (p : ptr) (N : nat) (ds : list Z)
  (sN : iter_St it0) (yield : Z -> Z -> A -> A * bool) (limit : Z).
Hypothesis Hds : calls (iter_call it0) N (iter_state it0) = Some (ds, sN).

Lemma memoizer_Scan_loop_spec :
  forall (K turns fuel : nat) data ok index acc w,
    scan_state it0 p w data ok index ->
    0 <= index ->
    index + Z.of_nat K < 100 * (kMaxChunks - 1) ->
    (index + Z.of_nat K) / 100 < Z.of_nat fuel ->
    (K <= turns)%nat ->
    100 * ((index + Z.of_nat K) / 100 + 1) <= Z.of_nat N ->
    let vals :=
      firstn (Z.to_nat (Z.min (Z.of_nat K) (limit - index)))
        (skipn (Z.to_nat index) (valid_prefix ds)) in
    limit <= index + Z.of_nat K \/
    len (valid_prefix ds) < index + Z.of_nat K \/
    snd (scan_list yield index vals acc) = false ->
    exists w',
      memoizer_Scan_loop turns fuel p data ok index limit yield acc w
      = Ret (fst (scan_list yield index vals acc)) w' /\
      memoizes it0 p w' /\
      memo_frame p w w'.
Proof.
  pose proof kMaxChunks_value as HK.
  induction K as [|K IH];
    intros turns fuel data ok index acc w
           (m & Hm & Hdata & Hmemo & Hparked & Hok & Hended)
           Hindex Hbound Hfuel Hturns HN vals Hstops.
  - (* no position may be visited *)
    assert (Hvals : vals = []).
    { unfold vals. replace (Z.to_nat (Z.min (Z.of_nat 0) (limit - index)))
        with 0%nat by lia. reflexivity. }
    rewrite Hvals in *. cbn [scan_list fst snd] in *.
    assert (Hexit : ok && (index <? limit) = false).
    { destruct Hstops as [Hlim | [Hend | Hstop]]; [| |discriminate].
      - apply andb_false_iff. right. apply Z.ltb_ge. lia.
      - apply andb_false_iff. left. rewrite Hok.
        rewrite Z.gtb_ltb. apply Z.ltb_ge.
        destruct (Z.le_gt_cases (len data) index) as [Hle | Hgt];
          [exact Hle|].
        destruct Hmemo as (m0 & x & Hm0 & Hok0 & _).
        rewrite Hm in Hm0. injection Hm0 as <-.
        pose proof (memo_ok_agree it0 m N ds sN
                      (Datatypes.S (Z.to_nat index)) Hok0 Hds) as Hag.
        assert (Hdiv : 0 <= index / 100) by (apply Z.div_pos; lia).
        assert (Hmod : 100 * (index / 100) <= index < 100 * (index / 100) + 100)
          by (pose proof (Z.div_mod index 100 ltac:(lia));
              pose proof (Z.mod_pos_bound index 100 ltac:(lia)); lia).
        change (Z.of_nat 0) with 0 in HN. rewrite Z.add_0_r in HN.
        specialize (Hag ltac:(lia)
                        ltac:(right; rewrite Hdata; unfold len in Hgt; lia)).
        apply (f_equal (@List.length Z)) in Hag.
        rewrite !length_firstn in Hag. rewrite Hdata in Hag.
        unfold len in *. lia. }
    exists w. split; [|split; [exact Hmemo | apply memo_frame_refl]].
    destruct turns; cbn [memoizer_Scan_loop]; rewrite Hexit; reflexivity.
  - destruct (ok && (index <? limit)) eqn:Hcond.
    + (* one more position *)
      apply andb_true_iff in Hcond. destruct Hcond as [Hoktrue Hlt].
      apply Z.ltb_lt in Hlt. subst ok.
      rewrite Z.gtb_ltb in Hoktrue. apply Z.ltb_lt in Hoktrue.
      assert (Hdiv : 0 <= index / 100) by (apply Z.div_pos; lia).
      assert (Hmono : (index + 1) / 100
                      <= (index + Z.of_nat (Datatypes.S K)) / 100)
        by (apply Z.div_le_mono; lia).
      assert (Hmono0 : index / 100 <= (index + 1) / 100)
        by (apply Z.div_le_mono; lia).
      assert (Hmod : 100 * (index / 100) <= index < 100 * (index / 100) + 100)
        by (pose proof (Z.div_mod index 100 ltac:(lia));
            pose proof (Z.mod_pos_bound index 100 ltac:(lia)); lia).
      destruct Hmemo as (m0 & x & Hm0 & Hok0 & Hx & Hopen).
      rewrite Hm in Hm0. injection Hm0 as <-.
      pose proof (memo_ok_agree it0 m N ds sN
                    (Datatypes.S (Z.to_nat index)) Hok0 Hds
                    ltac:(lia)
                    ltac:(right; rewrite Hdata; unfold len in Hoktrue; lia))
        as Hag.
      assert (Hall : (Z.to_nat index < List.length (valid_prefix ds))%nat).
      { apply (f_equal (@List.length Z)) in Hag.
        rewrite !length_firstn in Hag. rewrite Hdata in Hag.
        unfold len in *. lia. }
      assert (Hvalue : index_data data index
                       = nth (Z.to_nat index) (valid_prefix ds) 0).
      { unfold index_data. rewrite <- Hdata.
        rewrite <- (nth_of_firstn _ (m_data m) (Z.to_nat index)
                      (Datatypes.S (Z.to_nat index)) 0 ltac:(lia)).
        rewrite Hag. apply nth_of_firstn. lia. }
      assert (Hvals : vals
                = nth (Z.to_nat index) (valid_prefix ds) 0
                  :: firstn (Z.to_nat (Z.min (Z.of_nat K)
                                         (limit - (index + 1))))
                       (skipn (Z.to_nat (index + 1)) (valid_prefix ds))).
      { unfold vals. rewrite (skipn_nth _ _ Hall).
        replace (Z.to_nat (Z.min (Z.of_nat (Datatypes.S K)) (limit - index)))
          with (Datatypes.S (Z.to_nat (Z.min (Z.of_nat K)
                                         (limit - (index + 1))))) by lia.
        cbn [firstn].
        replace (Z.to_nat (index + 1)) with (Datatypes.S (Z.to_nat index))
          by lia.
        reflexivity. }
      rewrite Hvals in *. clear Hvals. cbn [scan_list] in *.
      destruct turns as [|turns]; [lia|].
      cbn [memoizer_Scan_loop].
      assert (Hcond : (len data >? index) && (index <? limit) = true).
      { apply andb_true_iff. split; [rewrite Z.gtb_ltb|];
          apply Z.ltb_lt; lia. }
      rewrite Hcond, Hvalue.
      destruct (yield index (nth (Z.to_nat index) (valid_prefix ds) 0) acc)
        as [acc' continue].
      destruct continue; cbn [negb].
      2:{ exists w. split; [reflexivity|].
          split; [|apply memo_frame_refl].
          exists m, x. auto. }
      assert (Hnext : int_add index 1 = index + 1).
      { unfold int_add. apply wrap_small. unfold MinInt, MaxInt. lia. }
      rewrite Hnext.
      assert (Hstops' :
                limit <= index + 1 + Z.of_nat K \/
                len (valid_prefix ds) < index + 1 + Z.of_nat K \/
                snd (scan_list yield (index + 1)
                       (firstn (Z.to_nat (Z.min (Z.of_nat K)
                                            (limit - (index + 1))))
                          (skipn (Z.to_nat (index + 1)) (valid_prefix ds)))
                       acc') = false).
      { destruct Hstops as [H | [H | H]]; [left | right; left | right; right];
          try lia. exact H. }
      destruct (Z.eqb_spec (index + 1) (len data)) as [Hgrow | Hmore].
      * (* the data is used up: wait for more *)
        destruct (memoizer_wait_state it0 p w fuel (index + 1) N ds sN
                    ltac:(exists m, x; auto) ltac:(lia) ltac:(lia)
                    ltac:(lia) Hds)
          as (data1 & ok1 & w1 & Hwait & Hstate1 & Hf1).
        rewrite (bind_Ret _ _ _ _ _ _ _ Hwait).
        destruct (IH turns fuel data1 ok1 (index + 1) acc' w1 Hstate1
                    ltac:(lia) ltac:(lia)
                    ltac:(replace (index + 1 + Z.of_nat K)
                            with (index + Z.of_nat (Datatypes.S K)) by lia;
                          exact Hfuel)
                    ltac:(lia)
                    ltac:(replace (index + 1 + Z.of_nat K)
                            with (index + Z.of_nat (Datatypes.S K)) by lia;
                          exact HN)
                    Hstops')
          as (w' & Hloop & Hmemo' & Hf').
        exists w'. split; [exact Hloop|]. split; [exact Hmemo'|].
        eapply memo_frame_trans; eassumption.
      * destruct (IH turns fuel data (len data >? index + 1) (index + 1) acc'
                    w
                    ltac:(exists m; repeat split; auto;
                          [exists m, x; auto
                          | intros Hfalse; rewrite Z.gtb_ltb in Hfalse;
                            apply Z.ltb_ge in Hfalse; lia])
                    ltac:(lia) ltac:(lia)
                    ltac:(replace (index + 1 + Z.of_nat K)
                            with (index + Z.of_nat (Datatypes.S K)) by lia;
                          exact Hfuel)
                    ltac:(lia)
                    ltac:(replace (index + 1 + Z.of_nat K)
                            with (index + Z.of_nat (Datatypes.S K)) by lia;
                          exact HN)
                    Hstops')
          as (w' & Hloop & Hmemo' & Hf').
        assert (Hoknext : (len data >? index + 1) = true).
        { rewrite Z.gtb_ltb. apply Z.ltb_lt. lia. }
        rewrite Hoknext in Hloop.
        assert (Hoknow : (len data >? index) = true).
        { rewrite Z.gtb_ltb. apply Z.ltb_lt. lia. }
        rewrite Hoknow.
        exists w'. auto.
    + (* the loop is over *)
      assert (Hvals : vals = []).
      { apply andb_false_iff in Hcond. destruct Hcond as [Hno | Hlim].
        - subst ok. pose proof (Hended Hno) as Hdone.
          rewrite Z.gtb_ltb in Hno. apply Z.ltb_ge in Hno.
          destruct Hmemo as (m0 & x & Hm0 & Hok0 & _).
          rewrite Hm in Hm0. injection Hm0 as <-.
          assert (Hdiv : 0 <= index / 100) by (apply Z.div_pos; lia).
          assert (Hmono : index / 100
                          <= (index + Z.of_nat (Datatypes.S K)) / 100)
            by (apply Z.div_le_mono; lia).
          assert (Hmod : 100 * (index / 100) <= index
                         < 100 * (index / 100) + 100)
            by (pose proof (Z.div_mod index 100 ltac:(lia));
                pose proof (Z.mod_pos_bound index 100 ltac:(lia)); lia).
          pose proof (memo_ok_agree it0 m N ds sN
                        (Datatypes.S (Z.to_nat index)) Hok0 Hds
                        ltac:(lia) ltac:(left; exact Hdone)) as Hag.
          apply (f_equal (@List.length Z)) in Hag.
          rewrite !length_firstn in Hag. rewrite Hdata in Hag.
          unfold vals. rewrite skipn_all2 by (unfold len in *; lia).
          apply firstn_nil.
        - apply Z.ltb_ge in Hlim. unfold vals.
          replace (Z.to_nat (Z.min (Z.of_nat (Datatypes.S K))
                               (limit - index))) with 0%nat by lia.
          reflexivity. }
      rewrite Hvals. cbn [scan_list fst].
      exists w. split; [|split; [exact Hmemo | apply memo_frame_refl]].
      destruct turns; cbn [memoizer_Scan_loop]; rewrite Hcond; reflexivity.
Qed.
End ScanLoop.

(** X22.  [Scan] visits the digits in order.  On a memoizer of the
    producer [it0], [Scan(index, limit, yield)] hands [yield] the digits
    at [index], [index + 1], ... with their positions, each once and in
    order, and stops before [limit], at the end of the digits, or when
    [yield] answers [false]; [K] bounds the number of positions
    visited. *)
Theorem memoizer_Scan_visits :
  forall (A : Type) (it0 : iterFn) p w fuel index limit
         (yield : Z -> Z -> A -> A * bool) acc N ds K,
    memoizes it0 p w ->
    0 <= index ->
    index + Z.of_nat K < 100 * (kMaxChunks - 1) ->
    (index + Z.of_nat K) / 100 < Z.of_nat fuel ->
    (K <= fuel)%nat ->
    100 * ((index + Z.of_nat K) / 100 + 1) <= Z.of_nat N ->
    iter_outputs it0 N = Some ds ->
    let vals :=
      firstn (Z.to_nat (Z.min (Z.of_nat K) (limit - index)))
        (skipn (Z.to_nat index) (valid_prefix ds)) in
    limit <= index + Z.of_nat K \/
    len (valid_prefix ds) < index + Z.of_nat K \/
    snd (scan_list yield index vals acc) = false ->
    exists w',
      memoizer_Scan fuel p index limit yield acc w
      = Ret (fst (scan_list yield index vals acc)) w' /\
      memoizes it0 p w' /\
      memo_frame p w w'.
Proof.
  intros A it0 p w fuel index limit yield acc N ds K Hmemo Hindex Hbound
         Hfuel Hturns HN Hout vals Hstops.
  unfold iter_outputs in Hout.
  destruct (calls (iter_call it0) N (iter_state it0)) as [[ds' sN]|] eqn:Hds;
    [|discriminate].
  cbn [option_map fst] in Hout. injection Hout as ->.
  assert (Hmono : index / 100 <= (index + Z.of_nat K) / 100)
    by (apply Z.div_le_mono; lia).
  destruct (memoizer_wait_state it0 p w fuel index N ds sN Hmemo
              ltac:(lia) ltac:(lia) ltac:(lia) Hds)
    as (data & ok & w1 & Hwait & Hstate & Hf1).
  destruct (memoizer_Scan_loop_spec it0 p N ds sN yield limit Hds K fuel fuel
              data ok index acc w1 Hstate Hindex Hbound Hfuel Hturns HN
              Hstops) as (w' & Hloop & Hmemo' & Hf').
  exists w'. split; [|split; [exact Hmemo'|]].
  - unfold memoizer_Scan. destruct (Z.ltb_spec index 0); [lia|].
    rewrite (bind_Ret _ _ _ _ _ _ _ Hwait). exact Hloop.
  - eapply memo_frame_trans; eassumption.
Qed.

Lemma memoizer_Scan_visits_witness :
  exists w',
    memoizer_Scan 3 0 0 2 (fun i v acc => ((i, v) :: acc, true)) []
      world_102
    = Ret [(1, 0); (0, 1)] w' /\
    memoizes digits_102 0 w' /\
    memo_frame 0 world_102 w'.
Proof.
  apply (memoizer_Scan_visits (list (Z * Z)) digits_102 0%nat world_102
           3%nat 0 2 (fun i v acc => ((i, v) :: acc, true)) [] 100%nat
           ([1; 0; 2] ++ repeat (-1) 97) 2%nat).
  - exact world_102_memoizes.
  - lia.
  - vm_compute. reflexivity.
  - vm_compute. reflexivity.
  - lia.
  - vm_compute. discriminate.
  - exact digits_102_outputs.
  - left. vm_compute. discriminate.
Defined.

(** ** Printing a number *)

(** What [PrintNumber] writes for the digits of a mantissa. *)
Definition printed (f : formatSpec) (exponent : Z) (digits : list Z)
  : list ascii :=
  (if sci f then
     rendering (sigDigits f) 0 (exactDigitCount f) digits
     ++ list_ascii_of_string (if capital f then "E" else "e")
     ++ list_ascii_of_string (fmt_plus03d exponent)
   else rendering (sigDigits f) exponent (exactDigitCount f) digits)%list.

Lemma rendering_firstn : forall sig e x ds vals,
    firstn (Z.to_nat sig) vals = firstn (Z.to_nat sig) ds ->
    rendering sig e x vals = rendering sig e x ds.
Proof. intros sig e x ds vals H. unfold rendering. rewrite H. reflexivity. Qed.

Lemma formatter_Consume_full :
  forall ds (f : formatter strings_Builder),
    formatter_CanConsume f = false ->
    fold_left formatter_Consume ds f = f.
Proof.
  induction ds as [|d ds IH]; intros f Hfull; cbn [fold_left];
    [reflexivity|].
  unfold formatter_Consume at 2. rewrite Hfull. cbn [negb].
  apply IH. exact Hfull.
Qed.

(** The scan of [fromMantissa]: digits are consumed until the formatter
    has enough of them. *)
Lemma scan_Consume :
  forall vals (f : formatter strings_Builder) w0 digs idx,
    formatter_at f w0 digs ->
    MinInt < f_exponent f <= MaxInt -> f_sigDigits f <= MaxInt ->
    len digs < f_sigDigits f ->
    let yield := fun (_ value : Z) (f : formatter strings_Builder) =>
                   (formatter_Consume f value,
                    formatter_CanConsume (formatter_Consume f value)) in
    fst (scan_list yield idx vals f) = fold_left formatter_Consume vals f /\
    (f_sigDigits f - len digs <= len vals ->
     snd (scan_list yield idx vals f) = false).
Proof.
  induction vals as [|v vals IH]; intros f w0 digs idx Hat Hexp Hsig Hroom;
    cbv zeta.
  - cbn [scan_list fold_left fst snd]. split; [reflexivity|].
    unfold len in *. cbn [List.length]. lia.
  - cbn [scan_list fold_left].
    assert (Hstep : formatter_Consume f v = formatter_add f v).
    { unfold formatter_Consume, formatter_CanConsume.
      rewrite (proj2 Hat).
      destruct (Z.ltb_spec (len digs) (f_sigDigits f)); [|lia].
      reflexivity. }
    rewrite Hstep.
    destruct (formatter_add_at f w0 digs v Hat Hexp ltac:(lia))
      as (Hat1 & Hs1 & He1 & Hx1).
    assert (Hlen : len (digs ++ [v]) = len digs + 1)
      by (unfold len; rewrite length_app; cbn [List.length]; lia).
    unfold formatter_CanConsume at 1 3. rewrite (proj2 Hat1), Hs1.
    destruct (Z.ltb_spec (len (digs ++ [v])) (f_sigDigits f))
      as [Hmore | Hfull].
    + destruct (IH (formatter_add f v) w0 (digs ++ [v]) (idx + 1) Hat1
                  ltac:(rewrite He1; exact Hexp)
                  ltac:(rewrite Hs1; exact Hsig)
                  ltac:(rewrite Hs1; exact Hmore)) as [Hfst Hsnd].
      split; [exact Hfst|]. intros Hall. apply Hsnd.
      rewrite Hs1. unfold len in *. cbn [List.length] in Hall. lia.
    + cbn [fst snd]. split; [|reflexivity].
      symmetry. apply formatter_Consume_full.
      unfold formatter_CanConsume. rewrite (proj2 Hat1), Hs1.
      apply Z.ltb_ge. exact Hfull.
Qed.

Lemma numberSpec_ScanValues_memoizer :
  forall (A : Type) depth fuel p index limit (yield : Z -> A -> A * bool)
         acc,
    numberSpec_ScanValues depth fuel (spec_memoizer p) index limit yield acc
    = memoizer_ScanValues fuel p index limit yield acc.
Proof. intros A [|depth] fuel p index limit yield acc; reflexivity. Qed.

Lemma firstn_agree : forall (l : list Z) a b,
    a = b \/ (List.length l <= a /\ List.length l <= b)%nat ->
    firstn a l = firstn b l.
Proof.
  intros l a b [-> | [Ha Hb]]; [reflexivity|].
  rewrite !firstn_all2 by assumption. reflexivity.
Qed.

(** [digits_source p limit s w]: the numberSpec [s] hands out the first
    [limit] digits of the memoizer [p], as the memoizer itself or as a
    [limitSpec] over it. *)
Definition digits_source (p : ptr) (limit : Z) (s : numberSpec) (w : world)
  : Prop :=
  match s with
  | spec_nil => False
  | spec_memoizer p' => p' = p /\ limit = MaxInt
  | spec_limitSpec q =>
      nth_error (limitSpecs w) q
      = Some {| delegate := spec_memoizer p; ls_limit := limit |} /\
      0 < limit <= MaxInt
  end.

(** [fromMantissa] feeds the formatter the digits of the mantissa: all
    of them, or enough of them to fill it. *)
Lemma fromMantissa_spec :
  forall (it0 : iterFn) p limit s w fuel N ds K
         (f : formatter strings_Builder) w0,
    memoizes it0 p w ->
    digits_source p limit s w ->
    formatter_at f w0 [] ->
    MinInt < f_exponent f <= MaxInt -> f_sigDigits f <= MaxInt ->
    Z.of_nat K < 100 * (kMaxChunks - 1) ->
    (K < fuel)%nat -> (K + 100 <= N)%nat ->
    iter_outputs it0 N = Some ds ->
    f_sigDigits f <= Z.of_nat K \/ limit <= Z.of_nat K \/
    len (valid_prefix ds) < Z.of_nat K ->
    exists vals w',
      fromMantissa fuel {| spec := s |} f w
      = Ret (fold_left formatter_Consume vals f) w' /\
      firstn (Z.to_nat (f_sigDigits f)) vals
      = firstn (Z.to_nat (f_sigDigits f))
          (firstn (Z.to_nat limit) (valid_prefix ds)) /\
      memoizes it0 p w' /\
      memo_frame p w w'.
Proof.
  intros it0 p limit s w fuel N ds K f w0 Hmemo Hsource Hat Hexp Hsig HK
         Hfuel HN Hout Hstop.
  pose proof kMaxChunks_value as Hchunks.
  unfold fromMantissa.
  destruct (formatter_CanConsume f) eqn:Hcan; cbn [negb].
  2:{ exists [], w. cbn [fold_left]. split; [reflexivity|].
      split; [|split; [exact Hmemo | apply memo_frame_refl]].
      unfold formatter_CanConsume in Hcan. rewrite (proj2 Hat) in Hcan.
      apply Z.ltb_ge in Hcan. change (len (@nil Z)) with 0 in Hcan.
      replace (Z.to_nat (f_sigDigits f)) with 0%nat by lia.
      reflexivity. }
  unfold formatter_CanConsume in Hcan. rewrite (proj2 Hat) in Hcan.
  apply Z.ltb_lt in Hcan.
  assert (Hlimit : 0 < limit <= MaxInt).
  { destruct s as [|p'|q]; cbn [digits_source] in Hsource;
      [contradiction| |apply Hsource].
    destruct Hsource as [_ ->]. unfold MaxInt. lia. }
  unfold iter_outputs in Hout.
  destruct (calls (iter_call it0) N (iter_state it0)) as [[ds' sN]|] eqn:Hds;
    [|discriminate].
  cbn [option_map fst] in Hout. injection Hout as ->.
  assert (Hdiv : 0 <= Z.of_nat K / 100) by (apply Z.div_pos; lia).
  assert (Hmod : 100 * (Z.of_nat K / 100) <= Z.of_nat K)
    by (pose proof (Z.div_mod (Z.of_nat K) 100 ltac:(lia));
        pose proof (Z.mod_pos_bound (Z.of_nat K) 100 ltac:(lia)); lia).
  destruct (memoizer_wait_state it0 p w fuel 0 N ds sN Hmemo
              ltac:(lia) ltac:(change (0 / 100) with 0; lia)
              ltac:(change (0 / 100) with 0; lia) Hds)
    as (data & ok & w1 & Hwait & Hstate & Hf1).
  set (yield := fun (_ value : Z) (f : formatter strings_Builder) =>
                  (formatter_Consume f value,
                   formatter_CanConsume (formatter_Consume f value))).
  set (vals := firstn (Z.to_nat (Z.min (Z.of_nat K) (limit - 0)))
                 (skipn (Z.to_nat 0) (valid_prefix ds))).
  assert (Hvals : vals
                  = firstn (Nat.min K (Z.to_nat limit)) (valid_prefix ds)).
  { unfold vals. change (Z.to_nat 0) with 0%nat. cbn [skipn].
    f_equal. lia. }
  destruct (scan_Consume vals f w0 [] 0 Hat Hexp Hsig Hcan)
    as [Hfst Hsnd].
  fold yield in Hfst, Hsnd.
  destruct (memoizer_Scan_loop_spec it0 p N ds sN yield limit Hds K fuel
              fuel data ok 0 f w1 Hstate ltac:(lia) ltac:(lia)
              ltac:(rewrite Z.add_0_l; lia) ltac:(lia)
              ltac:(rewrite Z.add_0_l; lia))
    as (w' & Hloop & Hmemo' & Hf').
  { fold vals. rewrite Z.add_0_l.
    destruct (Z.le_gt_cases limit (Z.of_nat K)) as [Hlim | Hnolim];
      [left; exact Hlim|].
    destruct (Z.le_gt_cases (Z.of_nat K) (len (valid_prefix ds)))
      as [Hlong | Hshort]; [|right; left; exact Hshort].
    destruct Hstop as [Hfill | [Hlim | Hend]]; [|lia|lia].
    right. right. apply Hsnd. change (len (@nil Z)) with 0.
    rewrite Hvals. unfold len in *. rewrite length_firstn. lia. }
  fold vals in Hloop. rewrite Hfst in Hloop.
  assert (Hscan : memoizer_ScanValues fuel p 0 limit
                    (fun value (f : formatter strings_Builder) =>
                       let f := formatter_Consume f value in
                       (f, formatter_CanConsume f)) f w
                  = Ret (fold_left formatter_Consume vals f) w').
  { unfold memoizer_ScanValues. change (0 <? 0) with false. cbv iota.
    rewrite (bind_Ret _ _ _ _ _ _ _ Hwait). exact Hloop. }
  exists vals, w'. split; [|split; [|split; [exact Hmemo'|]]].
  - unfold mantissa_Values, mantissa_ScanValues. cbn [spec].
    destruct fuel as [|fuel']; [lia|].
    destruct s as [|p'|q]; cbn [digits_source] in Hsource;
      [contradiction| |]; cbn [is_nil numberSpec_ScanValues].
    + destruct Hsource as [-> <-]. exact Hscan.
    + destruct Hsource as [Hq _].
      rewrite (bind_Ret _ _ _ _ _ _ _ (deref_Some _ limitSpecs _ w _ Hq)).
      cbn [delegate ls_limit].
      rewrite numberSpec_ScanValues_memoizer.
      rewrite Z.min_l by lia. rewrite Z.min_r by lia. exact Hscan.
  - rewrite Hvals, !firstn_firstn. apply firstn_agree.
    unfold len in *. lia.
  - eapply memo_frame_trans; eassumption.
Qed.

Lemma rendering_limit : forall sig e x limit ds,
    sig <= limit ->
    rendering sig e x (firstn (Z.to_nat limit) ds) = rendering sig e x ds.
Proof.
  intros sig e x limit ds Hle. apply rendering_firstn.
  rewrite firstn_firstn. f_equal. lia.
Qed.

Lemma printFixed_spec :
  forall (it0 : iterFn) p limit s w fuel N ds K fs (w0 : strings_Builder)
         exponent,
    memoizes it0 p w ->
    digits_source p limit s w ->
    MinInt < exponent <= sigDigits fs -> sigDigits fs <= MaxInt ->
    (exactDigitCount fs = true -> sigDigits fs - exponent <= MaxInt) ->
    Z.of_nat K < 100 * (kMaxChunks - 1) ->
    (K < fuel)%nat -> (K + 100 <= N)%nat ->
    iter_outputs it0 N = Some ds ->
    sigDigits fs <= Z.of_nat K \/ limit <= Z.of_nat K \/
    len (valid_prefix ds) < Z.of_nat K ->
    exists w',
      formatSpec_printFixed fuel fs w0 {| spec := s |} exponent w
      = Ret (w0 ++ rendering (sigDigits fs) exponent (exactDigitCount fs)
                     (firstn (Z.to_nat limit) (valid_prefix ds)))%list w' /\
      memoizes it0 p w' /\
      memo_frame p w w'.
Proof.
  intros it0 p limit s w fuel N ds K fs w0 e Hmemo Hsource He Hsig Hcount
         HK Hfuel HN Hout Hstop.
  destruct (newFormatter_at w0 (sigDigits fs) e (exactDigitCount fs) w
              ltac:(lia)) as (f0 & Hnew & Hat0 & Hs & Hexp & Hx).
  destruct (fromMantissa_spec it0 p limit s w fuel N ds K f0 w0 Hmemo
              Hsource Hat0
              ltac:(rewrite Hexp; lia) ltac:(rewrite Hs; exact Hsig)
              HK Hfuel HN Hout ltac:(rewrite Hs; exact Hstop))
    as (vals & w' & Hfrom & Hvals & Hmemo' & Hf).
  exists w'. split; [|split; assumption].
  unfold formatSpec_printFixed.
  rewrite (bind_Ret _ _ _ _ _ _ _ Hnew).
  rewrite (bind_Ret _ _ _ _ _ _ _ Hfrom).
  unfold ret.
  rewrite (formatter_writes f0 w0 vals Hat0);
    rewrite ?Hs, ?Hexp, ?Hx; try lia; try exact Hcount.
  rewrite Hs in Hvals.
  rewrite (rendering_firstn _ _ _ _ _ Hvals). reflexivity.
Qed.

Lemma PrintNumber_spec :
  forall (it0 : iterFn) exponent q p limit s w fuel N ds K fs
         (w0 : strings_Builder),
    nth_error (FiniteNumbers w) q
    = Some {| fn_mantissa := {| spec := s |}; fn_exponent := exponent |} ->
    memoizes it0 p w ->
    digits_source p limit s w ->
    MinInt < (if sci fs then 0 else exponent) <= sigDigits fs ->
    sigDigits fs <= MaxInt ->
    (exactDigitCount fs = true ->
     sigDigits fs - (if sci fs then 0 else exponent) <= MaxInt) ->
    Z.of_nat K < 100 * (kMaxChunks - 1) ->
    (K < fuel)%nat -> (K + 100 <= N)%nat ->
    iter_outputs it0 N = Some ds ->
    sigDigits fs <= Z.of_nat K \/ limit <= Z.of_nat K \/
    len (valid_prefix ds) < Z.of_nat K ->
    exists w',
      formatSpec_PrintNumber fuel fs w0 q w
      = Ret (w0 ++ printed fs exponent
                     (firstn (Z.to_nat limit) (valid_prefix ds)))%list w' /\
      memoizes it0 p w' /\
      memo_frame p w w'.
Proof.
  intros it0 e q p limit s w fuel N ds K fs w0 Hq Hmemo Hsource He Hsig
         Hcount HK Hfuel HN Hout Hstop.
  unfold formatSpec_PrintNumber, get_FiniteNumber, printed.
  rewrite (bind_Ret _ _ _ _ _ _ _ (deref_Some _ FiniteNumbers _ w _ Hq)).
  cbn [fn_mantissa fn_exponent].
  destruct (sci fs).
  - destruct (printFixed_spec it0 p limit s w fuel N ds K fs w0 0 Hmemo
                Hsource He Hsig Hcount HK Hfuel HN Hout Hstop)
      as (w' & Hfixed & Hmemo' & Hf).
    exists w'. split; [|split; assumption].
    unfold formatSpec_printSci.
    rewrite (bind_Ret _ _ _ _ _ _ _ Hfixed).
    unfold ret, fmt_Fprint. cbn [io_Write strings_Builder_Writer fst].
    rewrite <- !app_assoc. destruct (capital fs); reflexivity.
  - apply (printFixed_spec it0 p limit s w fuel N ds K fs w0 e Hmemo
             Hsource He Hsig Hcount HK Hfuel HN Hout Hstop).
Qed.

Lemma printed_limit : forall fs e limit ds,
    sigDigits fs <= limit ->
    printed fs e (firstn (Z.to_nat limit) ds) = printed fs e ds.
Proof.
  intros fs e limit ds Hle. unfold printed.
  rewrite !(rendering_limit _ _ _ _ _ Hle). reflexivity.
Qed.

(** What [PrintNumber] writes for a number that reads a memoizer. *)
Lemma PrintNumber_number :
  forall (it0 : iterFn) exponent q p w fuel N ds K fs (w0 : strings_Builder),
    nth_error (FiniteNumbers w) q
    = Some {| fn_mantissa := {| spec := spec_memoizer p |};
              fn_exponent := exponent |} ->
    memoizes it0 p w ->
    MinInt < (if sci fs then 0 else exponent) <= sigDigits fs ->
    sigDigits fs <= MaxInt ->
    (exactDigitCount fs = true ->
     sigDigits fs - (if sci fs then 0 else exponent) <= MaxInt) ->
    Z.of_nat K < 100 * (kMaxChunks - 1) ->
    (K < fuel)%nat -> (K + 100 <= N)%nat ->
    iter_outputs it0 N = Some ds ->
    sigDigits fs <= Z.of_nat K \/ len (valid_prefix ds) < Z.of_nat K ->
    exists w',
      formatSpec_PrintNumber fuel fs w0 q w
      = Ret (w0 ++ printed fs exponent (valid_prefix ds))%list w' /\
      memoizes it0 p w' /\
      memo_frame p w w'.
Proof.
  intros it0 e q p w fuel N ds K fs w0 Hq Hmemo He Hsig Hcount HK Hfuel HN
         Hout Hstop.
  destruct (PrintNumber_spec it0 e q p MaxInt (spec_memoizer p) w fuel N ds
              K fs w0 Hq Hmemo ltac:(split; reflexivity) He Hsig Hcount HK
              Hfuel HN Hout ltac:(destruct Hstop; auto))
    as (w' & Hprint & Hrest).
  exists w'. split; [|exact Hrest].
  rewrite Hprint, (printed_limit fs e MaxInt _ Hsig). reflexivity.
Qed.

(** X23.  What [PrintNumber] writes.  For a number whose mantissa reads
    the digits of the producer [it0], [PrintNumber] appends to a
    [strings.Builder] the first [sigDigits] digits laid out with the
    number's exponent or, in scientific notation, laid out with exponent
    0 and followed by "e" or "E" and the exponent with a sign and at
    least two digits.  [K] bounds the number of digits read: enough to
    fill the format, or more than the number has. *)
Theorem PrintNumber_text :
  forall (it0 : iterFn) exponent q w fuel N ds K fs (w0 : strings_Builder),
    number_of it0 exponent (Number_FiniteNumber q) w ->
    MinInt < (if sci fs then 0 else exponent) <= sigDigits fs ->
    sigDigits fs <= MaxInt ->
    (exactDigitCount fs = true ->
     sigDigits fs - (if sci fs then 0 else exponent) <= MaxInt) ->
    Z.of_nat K < 100 * (kMaxChunks - 1) ->
    (K < fuel)%nat -> (K + 100 <= N)%nat ->
    iter_outputs it0 N = Some ds ->
    sigDigits fs <= Z.of_nat K \/ len (valid_prefix ds) < Z.of_nat K ->
    exists w',
      formatSpec_PrintNumber fuel fs w0 q w
      = Ret (w0 ++ printed fs exponent (valid_prefix ds))%list w' /\
      number_of it0 exponent (Number_FiniteNumber q) w'.
Proof.
  intros it0 e q w fuel N ds K fs w0 (p & Hq & Hmemo) He Hsig Hcount HK
         Hfuel HN Hout Hstop.
  cbn [Number_ptr] in Hq.
  destruct (PrintNumber_number it0 e q p w fuel N ds K fs w0 Hq Hmemo He
              Hsig Hcount HK Hfuel HN Hout Hstop)
    as (w' & Hprint & Hmemo' & Hf).
  exists w'. split; [exact Hprint|].
  exists p. cbn [Number_ptr]. rewrite (frame_FiniteNumbers _ _ _ Hf). auto.
Qed.

Lemma digits_102_outputs_116 :
  iter_outputs digits_102 116 = Some ([1; 0; 2] ++ repeat (-1) 113).
Proof. vm_compute. reflexivity. Qed.

Lemma PrintNumber_text_witness :
  exists w',
    formatSpec_PrintNumber 17 (formatSpecForE 2 true)
      (list_ascii_of_string "x = ") 1 number_102_world
    = Ret (list_ascii_of_string "x = "
           ++ printed (formatSpecForE 2 true) 0
                (valid_prefix ([1; 0; 2] ++ repeat (-1) 113)))%list w' /\
    number_of digits_102 0 (Number_FiniteNumber 1) w'.
Proof.
  apply (PrintNumber_text digits_102 0 1%nat number_102_world 17%nat
           116%nat ([1; 0; 2] ++ repeat (-1) 113) 16%nat
           (formatSpecForE 2 true) (list_ascii_of_string "x = ")).
  - exact number_102_world_number.
  - vm_compute. split; [reflexivity | discriminate].
  - vm_compute. discriminate.
  - intros _. vm_compute. discriminate.
  - vm_compute. reflexivity.
  - lia.
  - lia.
  - exact digits_102_outputs_116.
  - left. vm_compute. discriminate.
Defined.

Lemma Number_String_ptr : forall fuel n,
    Number_String fuel n = FiniteNumber_String fuel (Number_ptr n).
Proof. induction n; simpl; auto. Qed.

(** [String] on a number whose mantissa hands out the first [limit]
    digits of a memoizer. *)
Lemma FiniteNumber_String_spec :
  forall (it0 : iterFn) exponent q p limit s w fuel N ds,
    nth_error (FiniteNumbers w) q
    = Some {| fn_mantissa := {| spec := s |}; fn_exponent := exponent |} ->
    memoizes it0 p w ->
    digits_source p limit s w ->
    (16 < fuel)%nat -> (116 <= N)%nat ->
    iter_outputs it0 N = Some ds ->
    let digits := firstn (Z.to_nat limit) (valid_prefix ds) in
    exists w',
      FiniteNumber_String fuel q w
      = Ret (string_of_list_ascii
               (if bigExponent exponent
                then rendering 16 0 false digits
                     ++ list_ascii_of_string "e"
                     ++ list_ascii_of_string (fmt_plus03d exponent)
                else rendering 16 exponent false digits)%list) w' /\
      memoizes it0 p w' /\
      memo_frame p w w'.
Proof.
  intros it0 e q p limit s w fuel N ds Hq Hmemo Hsource Hfuel HN Hout digits.
  pose proof kMaxChunks_value as Hchunks.
  set (fs := formatSpecForG gPrecision e false).
  assert (Hsci : sci fs = bigExponent e).
  { unfold fs, formatSpecForG, gPrecision. cbn [sci].
    change (16 =? 0) with false. cbv iota.
    unfold bigExponent.
    destruct (Z.ltb_spec 16 e) as [Hbig | Hsmall]; [|reflexivity].
    cbn [orb]. symmetry. apply orb_true_iff. right.
    rewrite Z.gtb_ltb. apply Z.ltb_lt. lia. }
  assert (Hbounds : bigExponent e = false -> -3 <= e <= 6).
  { unfold bigExponent. intros Hsmall.
    apply orb_false_iff in Hsmall. destruct Hsmall as [Hlo Hhi].
    apply Z.ltb_ge in Hlo. rewrite Z.gtb_ltb in Hhi.
    apply Z.ltb_ge in Hhi. lia. }
  destruct (PrintNumber_spec it0 e q p limit s w fuel N ds 16%nat fs [] Hq
              Hmemo Hsource) as (w' & Hprint & Hmemo' & Hf).
  - rewrite Hsci. change (sigDigits fs) with 16.
    destruct (bigExponent e); [unfold MinInt; lia|].
    specialize (Hbounds eq_refl). unfold MinInt. lia.
  - change (sigDigits fs) with 16. unfold MaxInt. lia.
  - intros Hexact. discriminate Hexact.
  - lia.
  - lia.
  - lia.
  - exact Hout.
  - left. change (sigDigits fs) with 16. lia.
  - exists w'. split; [|split; assumption].
    unfold FiniteNumber_String, get_FiniteNumber.
    rewrite (bind_Ret _ _ _ _ _ _ _ (deref_Some _ FiniteNumbers _ w _ Hq)).
    cbn [fn_exponent]. fold fs.
    rewrite (bind_Ret _ _ _ _ _ _ _ Hprint).
    unfold ret, strings_Builder_String, printed. rewrite Hsci.
    cbn [app]. reflexivity.
Qed.

(** X24.  What [String] returns.  The text of a number is made of its
    first 16 digits: laid out with the number's exponent when that lies
    between -3 and 6, and otherwise as a mantissa "0.ddd" followed by
    "e" and the exponent.  No zero is added after the last digit. *)
Theorem Number_String_text :
  forall (it0 : iterFn) exponent n w fuel N ds,
    number_of it0 exponent n w ->
    (16 < fuel)%nat -> (116 <= N)%nat ->
    iter_outputs it0 N = Some ds ->
    exists w',
      Number_String fuel n w
      = Ret (string_of_list_ascii
               (if bigExponent exponent
                then rendering 16 0 false (valid_prefix ds)
                     ++ list_ascii_of_string "e"
                     ++ list_ascii_of_string (fmt_plus03d exponent)
                else rendering 16 exponent false (valid_prefix ds))%list) w' /\
      number_of it0 exponent n w'.
Proof.
  intros it0 e n w fuel N ds (p & Hq & Hmemo) Hfuel HN Hout.
  destruct (FiniteNumber_String_spec it0 e (Number_ptr n) p MaxInt
              (spec_memoizer p) w fuel N ds Hq Hmemo
              ltac:(split; reflexivity) Hfuel HN Hout)
    as (w' & Hstring & Hmemo' & Hf).
  exists w'. split.
  - rewrite Number_String_ptr, Hstring.
    rewrite !(rendering_limit 16 _ false MaxInt) by (unfold MaxInt; lia).
    reflexivity.
  - exists p. rewrite (frame_FiniteNumbers _ _ _ Hf). auto.
Qed.

Lemma Number_String_text_witness :
  exists w',
    Number_String 17 (Number_FiniteNumber 1) number_102_world
    = Ret (string_of_list_ascii
             (if bigExponent 0
              then rendering 16 0 false
                     (valid_prefix ([1; 0; 2] ++ repeat (-1) 113))
                   ++ list_ascii_of_string "e"
                   ++ list_ascii_of_string (fmt_plus03d 0)
              else rendering 16 0 false
                     (valid_prefix ([1; 0; 2] ++ repeat (-1) 113)))%list) w' /\
    number_of digits_102 0 (Number_FiniteNumber 1) w'.
Proof.
  apply (Number_String_text digits_102 0 (Number_FiniteNumber 1)
           number_102_world 17%nat 116%nat ([1; 0; 2] ++ repeat (-1) 113)).
  - exact number_102_world_number.
  - lia.
  - lia.
  - exact digits_102_outputs_116.
Defined.

Lemma rendering_all : forall sig e ds,
    len ds <= sig ->
    rendering sig e false ds = rendering (len ds) e false ds.
Proof.
  intros sig e ds Hlen. unfold rendering, len in *.
  rewrite !firstn_all2 by lia. reflexivity.
Qed.

(** X25.  [Exact] writes every digit.  For a number with finitely many
    digits, [Exact] returns all of them and no zero after the last one,
    laid out as by [String]: with the number's exponent when that lies
    between -3 and 6, and in scientific notation otherwise.  [K] is any
    number above the count of digits. *)
Theorem FiniteNumber_Exact_text :
  forall (it0 : iterFn) exponent q w fuel N ds K,
    number_of it0 exponent (Number_FiniteNumber q) w ->
    Z.of_nat K < 100 * (kMaxChunks - 1) ->
    (K < fuel)%nat -> (K + 100 <= N)%nat ->
    iter_outputs it0 N = Some ds ->
    len (valid_prefix ds) < Z.of_nat K ->
    let digits := valid_prefix ds in
    exists w',
      FiniteNumber_Exact fuel q w
      = Ret (string_of_list_ascii
               (if bigExponent exponent
                then rendering (len digits) 0 false digits
                     ++ list_ascii_of_string "e"
                     ++ list_ascii_of_string (fmt_plus03d exponent)
                else rendering (len digits) exponent false digits)%list) w' /\
      number_of it0 exponent (Number_FiniteNumber q) w'.
Proof.
  intros it0 e q w fuel N ds K (p & Hq & Hmemo) HK Hfuel HN Hout Hfinite
         digits.
  cbn [Number_ptr] in Hq.
  pose proof kMaxChunks_value as Hchunks.
  set (fs := formatSpecForG MaxInt e false).
  assert (Hsig : sigDigits fs = MaxInt) by reflexivity.
  assert (Hsci : sci fs = bigExponent e).
  { unfold fs, formatSpecForG. cbn [sci].
    change (MaxInt =? 0) with false. cbv iota.
    unfold bigExponent.
    destruct (Z.ltb_spec MaxInt e) as [Hbig | Hsmall]; [|reflexivity].
    cbn [orb]. symmetry. apply orb_true_iff. right.
    rewrite Z.gtb_ltb. apply Z.ltb_lt. unfold MaxInt in Hbig. lia. }
  assert (Hbounds : bigExponent e = false -> -3 <= e <= 6).
  { unfold bigExponent. intros Hsmall.
    apply orb_false_iff in Hsmall. destruct Hsmall as [Hlo Hhi].
    apply Z.ltb_ge in Hlo. rewrite Z.gtb_ltb in Hhi.
    apply Z.ltb_ge in Hhi. lia. }
  destruct (PrintNumber_number it0 e q p w fuel N ds K fs [] Hq Hmemo)
    as (w' & Hprint & Hmemo' & Hf).
  - rewrite Hsci, Hsig.
    destruct (bigExponent e); [unfold MinInt, MaxInt; lia|].
    specialize (Hbounds eq_refl). unfold MinInt, MaxInt. lia.
  - rewrite Hsig. lia.
  - intros Hexact. discriminate Hexact.
  - exact HK.
  - exact Hfuel.
  - exact HN.
  - exact Hout.
  - right. exact Hfinite.
  - exists w'. split.
    + unfold FiniteNumber_Exact, get_FiniteNumber.
      rewrite (bind_Ret _ _ _ _ _ _ _ (deref_Some _ FiniteNumbers _ w _ Hq)).
      cbn [fn_exponent]. fold fs.
      rewrite (bind_Ret _ _ _ _ _ _ _ Hprint).
      unfold ret, strings_Builder_String, printed.
      rewrite Hsci, Hsig. cbn [exactDigitCount fs formatSpecForG app].
      fold digits.
      assert (Hall : len digits <= MaxInt)
        by (unfold digits, MaxInt; lia).
      rewrite !(rendering_all MaxInt _ digits Hall).
      destruct (bigExponent e); reflexivity.
    + exists p. cbn [Number_ptr].
      rewrite (frame_FiniteNumbers _ _ _ Hf). auto.
Qed.

Lemma FiniteNumber_Exact_text_witness :
  let digits := valid_prefix ([1; 0; 2] ++ repeat (-1) 113) in
  exists w',
    FiniteNumber_Exact 5 1 number_102_world
    = Ret (string_of_list_ascii
             (if bigExponent 0
              then rendering (len digits) 0 false digits
                   ++ list_ascii_of_string "e"
                   ++ list_ascii_of_string (fmt_plus03d 0)
              else rendering (len digits) 0 false digits)%list) w' /\
    number_of digits_102 0 (Number_FiniteNumber 1) w'.
Proof.
  apply (FiniteNumber_Exact_text digits_102 0 1%nat number_102_world 5%nat
           116%nat ([1; 0; 2] ++ repeat (-1) 113) 4%nat).
  - exact number_102_world_number.
  - vm_compute. reflexivity.
  - lia.
  - lia.
  - exact digits_102_outputs_116.
  - vm_compute. reflexivity.
Defined.

(** ** Printing a number cut by WithSignificant *)

Lemma WithSignificant_limited :
  forall (it0 : iterFn) exp n w limit,
    number_of it0 exp n w ->
    0 < limit ->
    exists r q p w1,
      Number_WithSignificant n limit w = Ret r w1 /\
      nth_error (FiniteNumbers w1) r
      = Some {| fn_mantissa := {| spec := spec_limitSpec q |};
                fn_exponent := exp |} /\
      nth_error (limitSpecs w1) q
      = Some {| delegate := spec_memoizer p; ls_limit := limit |} /\
      memoizes it0 p w1.
Proof.
  intros it0 exp n w limit (p & Hn & Hmemo) Hlimit.
  set (q := List.length (limitSpecs w)).
  set (r := List.length (FiniteNumbers w)).
  set (l := {| delegate := spec_memoizer p; ls_limit := limit |}).
  set (v := {| fn_mantissa := {| spec := spec_limitSpec q |};
               fn_exponent := exp |}).
  set (w1 := {| memoizers := memoizers w;
                limitSpecs := limitSpecs w ++ [l];
                FiniteNumbers := FiniteNumbers w ++ [v];
                Contexts := Contexts w;
                globalNumSpecContext := globalNumSpecContext w |}).
  exists r, q, p, w1. split; [|split; [|split]].
  - rewrite Number_WithSignificant_ptr. unfold FiniteNumber_WithSignificant.
    destruct (Z.ltb_spec limit 0); [lia|].
    rewrite (bind_Ret _ _ _ _ _ _ _ (deref_Some _ FiniteNumbers _ w _ Hn)).
    unfold mantissa_WithLimit, withLimit. cbn [fn_mantissa spec is_nil].
    destruct (Z.leb_spec limit 0); [lia|]. cbn [orb].
    unfold bind at 2. unfold bind at 2. unfold new_limitSpec, ret.
    unfold bind at 1. unfold FiniteNumber_withMantissa.
    unfold bind, get_FiniteNumber, deref. cbn [FiniteNumbers].
    rewrite Hn. reflexivity.
  - apply nth_error_app_last.
  - apply nth_error_app_last.
  - eapply memoizes_stable; [| |exact Hmemo]; [reflexivity|].
    intros [|b]; reflexivity.
Qed.

(** X26.  [WithSignificant] cuts, it does not round, and the cut shows
    in the text.  The [String] of [n.WithSignificant(limit)] is made of
    the first [limit] digits of [n] (of the first 16 when [limit] is
    larger), laid out as [String] lays out [n] itself; the digits after
    the cut have no influence on the ones kept. *)
Theorem WithSignificant_String_cuts :
  forall (it0 : iterFn) exponent n w limit fuel N ds,
    number_of it0 exponent n w ->
    0 < limit <= MaxInt ->
    (16 < fuel)%nat -> (116 <= N)%nat ->
    iter_outputs it0 N = Some ds ->
    let digits := firstn (Z.to_nat limit) (valid_prefix ds) in
    exists r w1 w2,
      Number_WithSignificant n limit w = Ret r w1 /\
      FiniteNumber_String fuel r w1
      = Ret (string_of_list_ascii
               (if bigExponent exponent
                then rendering 16 0 false digits
                     ++ list_ascii_of_string "e"
                     ++ list_ascii_of_string (fmt_plus03d exponent)
                else rendering 16 exponent false digits)%list) w2.
Proof.
  intros it0 e n w limit fuel N ds Hn Hlimit Hfuel HN Hout digits.
  destruct (WithSignificant_limited it0 e n w limit Hn ltac:(lia))
    as (r & q & p & w1 & Hwith & Hr & Hq & Hmemo).
  destruct (FiniteNumber_String_spec it0 e r p limit (spec_limitSpec q) w1
              fuel N ds Hr Hmemo ltac:(split; assumption) Hfuel HN Hout)
    as (w2 & Hstring & _).
  exists r, w1, w2. split; [exact Hwith | exact Hstring].
Qed.

Lemma WithSignificant_String_cuts_witness :
  let digits :=
    firstn (Z.to_nat 2) (valid_prefix ([1; 0; 2] ++ repeat (-1) 113)) in
  exists r w1 w2,
    Number_WithSignificant (Number_FiniteNumber 1) 2 number_102_world
    = Ret r w1 /\
    FiniteNumber_String 17 r w1
    = Ret (string_of_list_ascii
             (if bigExponent 0
              then rendering 16 0 false digits
                   ++ list_ascii_of_string "e"
                   ++ list_ascii_of_string (fmt_plus03d 0)
              else rendering 16 0 false digits)%list) w2.
Proof.
  apply (WithSignificant_String_cuts digits_102 0 (Number_FiniteNumber 1)
           number_102_world 2 17%nat 116%nat
           ([1; 0; 2] ++ repeat (-1) 113)).
  - exact number_102_world_number.
  - vm_compute. split; [reflexivity | discriminate].
  - lia.
  - lia.
  - exact digits_102_outputs_116.
Defined.

(** ** The text of a root *)

Lemma root_String :
  forall (M : Type) (RM : rootManager M) fuel c num denom (mgr : M) w x
         ds16 ds116 exp,
    0 < num -> 0 < denom ->
    (16 < fuel)%nat ->
    root_digits fuel num denom mgr 16 = Some (ds16, exp) ->
    root_digits fuel num denom mgr 116 = Some (ds116, exp) ->
    context_of w (context_ptr_of c) = Some x -> closed x = false ->
    exists n w1 w2,
      Context_nRootFrac fuel c num denom mgr w = Ret n w1 /\
      Number_String fuel n w1
      = Ret (string_of_list_ascii
               (if bigExponent exp
                then rendering 16 0 false (valid_prefix ds16)
                     ++ list_ascii_of_string "e"
                     ++ list_ascii_of_string (fmt_plus03d exp)
                else rendering 16 exp false (valid_prefix ds16))%list) w2.
Proof.
  intros M RM fuel c num denom mgr w x ds16 ds116 exp Hnum Hdenom Hfuel
         Hds16 Hds116 Hx Hopen.
  unfold root_digits in Hds16, Hds116.
  destruct (nrootGenerator_Generate fuel (newNRootGenerator num denom mgr))
    as [[digits exp0]|] eqn:Hgen; [|discriminate].
  destruct (calls (rootDigits_call fuel) 16 digits) as [[d16 s16]|] eqn:Hc16;
    [|discriminate].
  destruct (calls (rootDigits_call fuel) 116 digits) as [[d116 s116]|]
    eqn:Hc116; [|discriminate].
  injection Hds16 as -> ->. injection Hds116 as ->.
  destruct (Context_nRootFrac_number M RM fuel c num denom mgr w x digits exp
              Hnum Hdenom Hgen Hx Hopen)
    as (n & w1 & Hroot & (p & Hq & Hmemo)).
  destruct (FiniteNumber_String_spec (rootDigits_iterFn fuel digits) exp
              (Number_ptr n) p MaxInt (spec_memoizer p) w1 fuel 116 ds116 Hq
              Hmemo ltac:(split; reflexivity) Hfuel ltac:(lia))
    as (w2 & Hstring & _).
  { unfold iter_outputs. cbn [rootDigits_iterFn iter_call iter_state iter_St].
    rewrite Hc116. reflexivity. }
  exists n, w1, w2. split; [exact Hroot|].
  rewrite Number_String_ptr, Hstring.
  rewrite !(rendering_limit 16 _ false MaxInt) by (unfold MaxInt; lia).
  assert (Hagree : firstn (Z.to_nat 16) (valid_prefix ds116)
                   = firstn (Z.to_nat 16) (valid_prefix ds16)).
  { symmetry.
    apply (stream_prefix_agree _ _ 16%nat 116%nat _ ds16 s16 ds116 s116
             (Z.to_nat 16) Hc16 Hc116); right; lia. }
  rewrite !(rendering_firstn 16 _ false _ _ Hagree). reflexivity.
Qed.

(** X27.  The text of a root, end to end: for a radicand
    [num/denom > 0] and a Context that is not closed (or the nil
    Context), the [String] of the Number returned by [SqrtRat] or
    [CubeRootRat] is made of the first 16 values of the digit closure of
    the root -- by C1 the first 16 digits of the truncated root, fewer
    when the root ends before -- laid out with the exponent of the
    closure.  The last digit is not rounded. *)
Theorem root_String_text : forall deg c fuel num denom w x,
    0 < num -> 0 < denom ->
    (Z.to_nat (num + denom) + 10 <= fuel)%nat ->
    (16 < fuel)%nat ->
    context_of w (context_ptr_of c) = Some x -> closed x = false ->
    exists n w1 w2 ds exp,
      Context_RootRat deg fuel c num denom w = Ret n w1 /\
      nth_root_digits deg fuel num denom 16 = Some (ds, exp) /\
      Number_String fuel n w1
      = Ret (string_of_list_ascii
               (if bigExponent exp
                then rendering 16 0 false (valid_prefix ds)
                     ++ list_ascii_of_string "e"
                     ++ list_ascii_of_string (fmt_plus03d exp)
                else rendering 16 exp false (valid_prefix ds))%list) w2.
Proof.
  intros deg c fuel num denom w x Hnum Hdenom Hfuel Hturns Hx Hopen.
  destruct (nth_root_digits_integer deg fuel num denom 16 Hnum Hdenom Hfuel)
    as (ds & exp & Hds & _).
  destruct (nth_root_digits_integer deg fuel num denom 116 Hnum Hdenom Hfuel)
    as (dsN & expN & HdsN & _).
  assert (Hexp : expN = exp).
  { clear - Hds HdsN. destruct deg; cbn [nth_root_digits] in *;
      unfold root_digits in *;
      destruct (nrootGenerator_Generate _ _) as [[digits e]|];
      try discriminate;
      destruct (calls _ 16 _) as [[a b]|]; try discriminate;
      destruct (calls _ 116 _) as [[a' b']|]; try discriminate;
      congruence. }
  subst expN.
  destruct deg; cbn [nth_root_digits Context_RootRat] in *.
  - destruct (root_String _ _ fuel c num denom newSqrtManager w x ds dsN exp
                Hnum Hdenom Hturns Hds HdsN Hx Hopen)
      as (n & w1 & w2 & H1 & H2).
    exists n, w1, w2, ds, exp. auto.
  - destruct (root_String _ _ fuel c num denom newCubeRootManager w x ds dsN
                exp Hnum Hdenom Hturns Hds HdsN Hx Hopen)
      as (n & w1 & w2 & H1 & H2).
    exists n, w1, w2, ds, exp. auto.
Qed.

Lemma root_String_text_witness :
  exists n w1 w2 ds exp,
    Context_RootRat Square 20 None 2 1 initial_world = Ret n w1 /\
    nth_root_digits Square 20 2 1 16 = Some (ds, exp) /\
    Number_String 20 n w1
    = Ret (string_of_list_ascii
             (if bigExponent exp
              then rendering 16 0 false (valid_prefix ds)
                   ++ list_ascii_of_string "e"
                   ++ list_ascii_of_string (fmt_plus03d exp)
              else rendering 16 exp false (valid_prefix ds))%list) w2.
Proof.
  apply (root_String_text Square None 20 2 1 initial_world
           {| active := 0; closed := false |}).
  - lia.
  - lia.
  - simpl. lia.
  - lia.
  - reflexivity.
  - reflexivity.
Defined.

(** ** Printing into a field *)

Lemma string_of_list_ascii_length : forall l : list ascii,
    String.length (string_of_list_ascii l) = List.length l.
Proof.
  induction l as [|c l IH]; cbn [string_of_list_ascii String.length
                                 List.length]; congruence.
Qed.

Lemma strings_Repeat_spaces : forall count,
    list_ascii_of_string (strings_Repeat " " count)
    = repeat " "%char (Z.to_nat count).
Proof.
  intros count. unfold strings_Repeat.
  induction (Z.to_nat count) as [|n IH]; [reflexivity|].
  cbn [Nat.iter nat_rect repeat]. cbn [String.append list_ascii_of_string].
  f_equal. exact IH.
Qed.

(** X28.  A field is padded, never cut.  When the state gives a width,
    [PrintField] writes the text of [PrintNumber] with spaces up to the
    width before it, or after it when the state has the flag '-'; a text
    as long as the width or longer is written as it is. *)
Theorem PrintField_pads :
  forall (it0 : iterFn) exponent q w fuel N ds K fs (state : bufferState)
         width,
    number_of it0 exponent (Number_FiniteNumber q) w ->
    bs_width state = (width, true) -> width <= MaxInt ->
    MinInt < (if sci fs then 0 else exponent) <= sigDigits fs ->
    sigDigits fs <= MaxInt ->
    (exactDigitCount fs = true ->
     sigDigits fs - (if sci fs then 0 else exponent) <= MaxInt) ->
    Z.of_nat K < 100 * (kMaxChunks - 1) ->
    (K < fuel)%nat -> (K + 100 <= N)%nat ->
    iter_outputs it0 N = Some ds ->
    sigDigits fs <= Z.of_nat K \/ len (valid_prefix ds) < Z.of_nat K ->
    let field := printed fs exponent (valid_prefix ds) in
    let pad := repeat " "%char (Z.to_nat (width - len field)) in
    exists state' w',
      formatSpec_PrintField fuel fs state q w = Ret state' w' /\
      bs_out state'
      = (bs_out state
         ++ (if bs_minus state then field ++ pad else pad ++ field))%list /\
      number_of it0 exponent (Number_FiniteNumber q) w'.
Proof.
  intros it0 e q w fuel N ds K fs state width (p & Hq & Hmemo) Hwidth Hmax
         He Hsig Hcount HK Hfuel HN Hout Hstop field pad.
  cbn [Number_ptr] in Hq.
  destruct (PrintNumber_number it0 e q p w fuel N ds K fs [] Hq Hmemo He
              Hsig Hcount HK Hfuel HN Hout Hstop)
    as (w' & Hprint & Hmemo' & Hf).
  cbn [app] in Hprint. fold field in Hprint.
  unfold formatSpec_PrintField.
  cbn [State_Width bufferState_State]. rewrite Hwidth. cbn [negb].
  rewrite (bind_Ret _ _ _ _ _ _ _ Hprint).
  unfold strings_Builder_String, ret.
  rewrite string_of_list_ascii_length.
  change (Z.of_nat (List.length field)) with (len field).
  assert (Hflag : forall s : bufferState,
             State_Flag s (rune "-") = bs_minus s).
  { intros s. cbn [State_Flag bufferState_State].
    rewrite Z.eqb_refl. reflexivity. }
  assert (Hlen : 0 <= len field) by (unfold len; lia).
  assert (Hsub : len field < width ->
                 int_sub width (len field) = width - len field).
  { intros Hlt. unfold int_sub. apply wrap_small.
    unfold MinInt, MaxInt in *. lia. }
  assert (Hwrite : forall (s : bufferState) text,
             fmt_Fprint s (string_of_list_ascii text)
             = {| bs_out := bs_out s ++ text; bs_width := bs_width s;
                  bs_precision := bs_precision s;
                  bs_minus := bs_minus s |}).
  { intros s text. unfold fmt_Fprint.
    rewrite list_ascii_of_string_of_list_ascii. reflexivity. }
  assert (Hspaces : forall (s : bufferState) count,
             fmt_Fprint s (strings_Repeat " " count)
             = {| bs_out := bs_out s ++ repeat " "%char (Z.to_nat count);
                  bs_width := bs_width s;
                  bs_precision := bs_precision s;
                  bs_minus := bs_minus s |}).
  { intros s count. unfold fmt_Fprint.
    rewrite strings_Repeat_spaces. reflexivity. }
  eexists. exists w'. split; [reflexivity|]. split.
  - rewrite !Hflag, !Hwrite.
    destruct (Z.ltb_spec (len field) width) as [Hlt | Hge].
    + rewrite (Hsub Hlt), !Hspaces. fold pad.
      destruct (bs_minus state) eqn:Hminus; cbn [negb andb bs_out bs_minus];
        rewrite ?Hminus; cbn [andb bs_out]; rewrite <- ?app_assoc;
        reflexivity.
    + assert (Hpad : pad = []).
      { unfold pad. replace (Z.to_nat (width - len field)) with 0%nat by lia.
        reflexivity. }
      rewrite Hpad, !andb_false_r, app_nil_r. cbn [app bs_out].
      destruct (bs_minus state); reflexivity.
  - exists p. cbn [Number_ptr].
    rewrite (frame_FiniteNumbers _ _ _ Hf). auto.
Qed.

Lemma PrintField_pads_witness :
  let state := {| bs_out := []; bs_width := (8, true);
                  bs_precision := (0, false); bs_minus := false |} in
  let field := printed (formatSpecForG 16 0 false) 0
                 (valid_prefix ([1; 0; 2] ++ repeat (-1) 113)) in
  let pad := repeat " "%char (Z.to_nat (8 - len field)) in
  exists state' w',
    formatSpec_PrintField 17 (formatSpecForG 16 0 false) state 1
      number_102_world
    = Ret state' w' /\
    bs_out state'
    = (bs_out state
       ++ (if bs_minus state then field ++ pad else pad ++ field))%list /\
    number_of digits_102 0 (Number_FiniteNumber 1) w'.
Proof.
  apply (PrintField_pads digits_102 0 1%nat number_102_world 17%nat 116%nat
           ([1; 0; 2] ++ repeat (-1) 113) 16%nat (formatSpecForG 16 0 false)
           {| bs_out := []; bs_width := (8, true);
              bs_precision := (0, false); bs_minus := false |} 8).
  - exact number_102_world_number.
  - reflexivity.
  - vm_compute. discriminate.
  - vm_compute. split; [reflexivity | discriminate].
  - vm_compute. discriminate.
  - intros Hexact. discriminate Hexact.
  - vm_compute. reflexivity.
  - lia.
  - lia.
  - exact digits_102_outputs_116.
  - left. vm_compute. discriminate.
Defined.
